(* ===== verification/_CoqProject ===== *)
-Q . S2P
Prelude.v
Js.v
Number.v
Browser.v
React.v
Remote.v
Flight.v
Session.v
PdfToImage.v
PdfToImageArchive.v
PdfToImageInv.v
PdfToImageProps.v
PdfToImageRuns.v
PdfToImageDefects.v
PdfToImageLeak.v
PdfToImageSession.v
ImageConverter.v
ImageConverterInv.v
ImageConverterProps.v
ImageConverterRuns.v
ImageConverterSession.v
ImageToPdf.v
ImageToPdfInv.v
ImageToPdfProps.v
ImageToPdfRuns.v
ImageToPdfSession.v
Batching.v
Json.v
JsonEquiv.v
ImageGenerator.v
ImageGeneratorInv.v
ImageGeneratorName.v
ImageGeneratorProps.v
ImageGeneratorReading.v
ImageGeneratorRuns.v
Guide.v
Shell.v
ShellProps.v
ImageGeneratorSession.v
AppSession.v
