(* ===== verification/Prelude.v ===== *)
(** * toolsIO (PixelShift): a verification development for the browser forms

    ** The program

    The repository (src/my-tools-io/src) is a React front end: three forms
    that upload files to a conversion service and show what comes back
    (components/PdfToImageConverter.jsx, ImageConverter.jsx,
    ImageToPdfConverter.jsx), a form that asks a generation service for an
    image (ImageGenerator.jsx), and a shell around them (App.jsx,
    Navigation.jsx, Footer.jsx).  Each converter is a function component
    with [useState] cells, an asynchronous [handleSubmit], and one
    [useEffect] whose cleanup revokes the object URLs the component has
    created.  The generator has the same shape without object URLs: its
    result is a [data:] URL made from the JSON answer of the service.  The
    design document calls the shared behaviour the conversion session and
    names four parts: the resource ledger, the archive decoder, the session
    state machine and the remote client.

    ** How the program is modelled

    - Prelude.v (this file): settled promises as values of [outcome], the
      hint databases of the development.
    - Js.v: the JavaScript values and builtins the forms call.  A string is
      the list of its UTF-16 code units; [Str.split], [Arr.slice],
      [Arr.join], [Str.replace], [Str.toUpperCase], [Str.trim], and the two
      regular-expression replacements of the generator ([Str.replace_class]
      for a class with the [g] flag, [Str.replace_runs] for a repeated
      class) follow the language definition for the arguments the forms
      pass; [Str.toLowerCase] is exact on the units whose lower case is
      ASCII, which are the only ones that survive the generator's class;
      [PromiseAll] is [Promise.all] over promises that settle one at a
      time.
    - Number.v: [Module Num], the conversion of a string to a Number as
      far as the forms need it.  [Num.of_string] reads the string after the
      grammar of numeric literals (white space trimmed, the empty string
      zero, a sign, [Infinity], decimal digits with a dot and an exponent,
      the three radix prefixes) into a [Num.literal]: not a number, an
      infinity, or a sign, a whole number and a power of ten.
      [Num.positive] decides whether the double nearest to the literal is
      above zero, in whole numbers.
    - Json.v: the values [response.json()] gives ([Json.value]; [undefined]
      is [None]), property access with its [TypeError] on [null] and
      [undefined], optional chaining, truthiness, the element at index 0,
      conversion to string ([Json.to_string], which throws on an object
      with a member [toString], since no JSON value can be called) and the
      comparison of [length] with zero ([Json.length_positive], through
      [Num.positive] when the length is not a number).
      JsonEquiv.v: values up to the order of the members of their objects
      ([Json_same]), an equivalence that every operation respects.
    - Browser.v: [Blob], [File], and the document's object URL store
      [Url.store] with [Url.createObjectURL] and [Url.revokeObjectURL].  A
      URL is the number of URLs minted before it, so every URL is new; the
      store keeps the arguments of all revocations as a history.  The class
      [Ledger] is the resource ledger's contract, [url_ledger] shows that the
      store implements it, and the lemmas of Section ledger_client are
      proved from the contract alone.
    - React.v: what the forms rely on of React.  The state updates a handler
      makes between two [await]s are applied together and followed by one
      render (automatic batching; [render_each] is the rendering of a React
      that does not batch after an [await], compared with it in
      Batching.v); a render whose effect dependencies differ
      from those of the render before runs the cleanup of that earlier
      render, which sees the earlier values ([commit]); unmounting runs the
      cleanup of the last render ([unmount]).  Arrays in a dependency list
      are compared by identity: [array] carries the stamp of its allocation.
    - Remote.v: requests, responses, the error a handler builds from the
      server's text, and [classify], the one-shot reading of an exchange.
    - Flight.v: counting the [handleSubmit] calls that still have handler
      code to run ([activeCount]), the awaits they still have before them
      ([remaining]), and, stated once for the forms with a fixed number of
      awaits, when a submission ends ([submission_ends]).
    - Session.v: the conversion session of the design as a transition
      system ([Session.transition] on [Session.Phase]), and the class [Form]
      through which a form is read as a session: a phase for each
      configuration, labels for each event, and the events at which the
      form departs from the design.
    - PdfToImage.v, ImageConverter.v, ImageToPdf.v, ImageGenerator.v: one
      Module per component, named after it.  [State] has the component's [useState]
      cells and the setters their names; [handleFileChange],
      [handleFormatChange] and [handleSubmit] are the handlers, with
      [handleSubmit] cut at its [await]s: [handleSubmit] runs to the first
      [await], [onFetch], [onText], [onBlob] (and, for the PDF form, [onLoad]
      and [onEntry]) run from one [await] to the next, [catchFinally] is the
      [catch] and [finally] clauses.  The generator's handler is
      [handleGenerateImage], cut the same way into [handleGenerateImage],
      [onFetch], [onErrorJson] and [onJson]; [generatedImageUrl] and
      [apiError] read the JSON answers, [getDownloadFileName] names the
      download.  A [Config] is the state together with
      the URL store, the requests sent and the list of [Task]s, one per
      [handleSubmit] call, saying at which [await] the call is suspended.
      [step] applies an [Event] (a user action, or a promise settling with
      its outcome as payload) to a configuration; [render] computes the
      parts of the page that depend on the state; [enabled] is the guard the
      page puts on an event (the disabled submit button, and the options of
      the format select: a change event carries the value of one of them,
      [formats]); [reachable] are
      the configurations reached from the first render by enabled events on
      a page whose last render did not throw.
    - Guide.v: the text of the two static sections below each converter
      (how to use the page, key features) as data: headings, step numbers,
      titles and paragraphs in the order of the markup.
    - Shell.v: [Module Navigation] (the menu flag, the links, the header's
      render), [Module Footer], and [Module App]: the routes, and the
      application as the composition of the header, the footer and the form
      a route mounted.  An event of the application is a click on the menu
      button, a link followed (a link of the header loads the document
      anew), or an event of the mounted form.

    ** What is proved

    - PdfToImageInv.v, ImageConverterInv.v, ImageToPdfInv.v: for each form
      an invariant [Inv] of the state, the URL store and the tasks, proved
      for the first render and preserved by every enabled event, hence true
      of every reachable configuration.
    - PdfToImageArchive.v: reading the entries of the archive in any order
      ends with the previews of all entries, in the archive's order.
    - PdfToImageProps.v, ImageConverterProps.v, ImageToPdfProps.v: the
      consequences of the invariants (the outputs shown are live, the
      loading flag is set exactly while a submission is in flight, the
      outputs appear all at once, the two forms without an archive leak no
      URL), the behaviour of each handler on each branch, errors included,
      the refinement of [classify] by the handler's [await]s, the names of
      the downloads, and what the forms post: every request of the PDF form
      carries a PDF and a format the select offers; the two image forms post
      whatever file the change event carried.
    - ImageConverterRuns.v, ImageToPdfRuns.v: the handler implements
      [classify] await by await; every exchange ends the submission with
      the result shown or the error stored; a submission waits for two
      settlements at most ([submission_ends] of Flight.v).
    - Batching.v: the forms do not depend on the version of React.  In
      every stretch that follows an [await] one update at most touches the
      dependency list, so a render after every update ends in the state and
      the URL store of the single render ([render_each_batch] of React.v),
      and the renders in between do not throw.  The updates of
      [handleFileChange] are batched by every React; rendered one by one
      they would revoke the preview just made
      ([ic_file_change_needs_batch]).
    - PdfToImageDefects.v, and the theorems on revoked previews in the other
      two forms: the runs where the code departs from its design.  The
      cleanup runs with the values of the render before, so the object URL a
      form has just stored next to a changed dependency is revoked while the
      state keeps it: the archive link of the PDF form, the preview of the
      original in the image converter and the previews of the image-to-PDF
      form are dead once the result is shown.  The PDF form's render throws
      after its file input is emptied, at once when a result is shown and
      when the archive arrives if a conversion was in flight.  A response
      for a superseded selection is not discarded: from every configuration
      with a conversion in flight, choosing another PDF and letting the
      conversion succeed ends with the previews of the earlier request
      under the new selection ([p2i_stale_response_shown]).  The URL of the
      archive is passed to [revokeObjectURL] twice
      ([p2i_zip_revoked_again]).
    - PdfToImageLeak.v: which object URLs the cleanup can never reach.  A
      URL is [claimed] when the state holds it or a suspended call will
      store it, an [orphan] when it is live and not claimed.  An orphan
      stays one under every event and is live after unmount
      ([orphan_follows]); a failed entry of an archive makes orphans of the
      entries read before it ([p2i_leak_permanent]); and in a run without a
      failed entry every live URL is claimed, so unmounting an idle page
      leaves none live ([p2i_no_leak]).
    - Browser.v: ledger safety of the URL store.
    - Number.v: [Num.positive] is exact.  A literal is positive exactly
      when its value, a rational, is above half of the least positive
      double, 2^-1075 ([num_positive_exact], stated in [Q]); the text of a
      natural number reads back as that number ([num_of_string_of_nat]).
    - ImageGeneratorInv.v: the invariant of the generator (the loading flag
      is set exactly while one call is suspended, the request in flight is
      the one for the prompt on the page, every request sent carries a
      prompt that is not blank, a finished call left an image or a message
      and not both).  ImageGeneratorProps.v: what the handler does
      with each kind of answer, the answers that make it throw a
      [TypeError] included.  ImageGeneratorReading.v: the reading of an
      answer is total.  Whatever JSON the service answers with, the call
      ends, the loading flag is cleared, and the page shows either an image
      whose address starts with the [data:] prefix or one of five messages
      ([reading_errors]); two of the samples are answers that are no list
      of predictions and are shown as an image all the same; answers that are
      the same up to the order of members end a call in the same
      configuration.  ImageGeneratorName.v: the two passes of
      [getDownloadFileName] compute what a one-pass reference ([slug])
      computes, and the name is at most 54 units of a fixed alphabet.
      ImageGeneratorRuns.v: the handler implements the one-shot reading of
      an exchange ([apiOutcome]); every exchange ends the submission; the
      number of awaits left ([remaining]) is at most two and every
      settlement lowers it.
    - PdfToImageSession.v, ImageConverterSession.v, ImageToPdfSession.v,
      ImageGeneratorSession.v: each form implements the conversion session.
      The
      invariant of the form is a simulation: every enabled event that is not
      a named departure moves the phase the page shows as the session
      moves, so the labels of a run without departures are a run of the
      session ([conforming_accepts] in Session.v).  The departures are
      events, named by [p2i_departs], [ic_departs], [i2p_departs] and
      [ig_departs]: a selection while a conversion is in flight, a failure
      whose error has no message, for the PDF form an invalid selection
      under previews and an archive without entries, and for the generator
      an edit of the prompt under a result.
    - AppSession.v: the application implements the conversion session too.
      [embeds] of Session.v says when a system carries a form inside it
      (its events are the form's, its phase and labels the form's), and
      [simulates_embedded] lifts the form's simulation to the system.  The
      application embeds the form of the page it shows, a link followed is
      the session's reset, and the departures are those of the form
      ([app_session_refinement]).
    - PdfToImageRuns.v: the settlements of the PDF form come to an end.
      The number of entries is not known before the archive is loaded, so
      a task is measured by its stage and by the entries it still waits
      for, and every settlement lowers the measure in the lexicographic
      order ([measure_insert] in Flight.v).
    - Guide.v: what the guides say about the forms holds of the forms
      (the formats named are the options of the select, the button named
      is the label rendered), except that the PDF guide names a button the
      page does not have.
    - ShellProps.v: inside the application each form is in a configuration
      it reaches on its own, so the invariants above hold there; the links
      of the header are routed; a render of the PDF form that throws takes
      the whole application down.

    ** Assumptions and bounds

    There is no fuel: every handler stretch is a total function, and the
    unbounded part of a run is the list of events.  The reading of a JSON
    answer is total as well: a conversion that throws is a [Rejected]
    value, which the handler's [catch] receives.  A JSON number is its sign
    and its text.  Of a string converted to a Number only the sign is
    computed, which is all the comparison with zero reads; the conversion
    is taken to round correctly, as the language definition recommends and
    the engines of the browsers do, so a literal becomes zero exactly when
    its value is at most 2^-1075 (the tie goes to the even neighbour,
    zero).  1075 is the exponent of half the least positive double,
    2^-1074.  The theorems about all
    reachable configurations are by induction on [reachable].  The
    environment is unconstrained: a promise may settle either way with any
    value, at any time after it was created, and user events may come
    between any two settlements.  The one constraint on the user is the
    page's own: a form whose submit button is disabled cannot be submitted
    (the button is the form's only submitter, and a disabled default button
    blocks implicit submission too), and a format select changes to one of
    its options.  The sources do not fix the version of React: the models
    render once per stretch, and Batching.v shows that rendering after
    every update of a stretch that follows an [await] gives the same
    configurations.  The [accept] attribute of a file input narrows the file
    picker only, so a change event may carry any file.  File contents and
    blobs are opaque byte lists.  The message of the [TypeError] in [Exn.null_read] is V8's
    wording; nothing depends on it but the statements that name it.  The
    key in the address of the generator's request is a credential; the
    development writes a placeholder for it ([ImageGenerator.apiKey]), and
    nothing depends on its value.  The session machine of Session.v has one
    edge more than the design lists: submission from [Ready] and from
    [Failed], which every form allows.  [App.route] matches a path against
    the routes by equality; what the router does with letter case and
    trailing slashes is not modelled, so an address that differs from a
    route in these mounts nothing in the model.  [App.up] is React's
    behaviour and not code of App.jsx: the component has no error boundary,
    so a render that throws unmounts the tree, and [App.enabled] admits no
    event after that by definition.  The definitions of Js.v, Json.v,
    Number.v and Browser.v state what the engine and the browser do at the
    calls the sources make; they are taken from the language definition and
    the platform's documentation, not from code of the repository.

    ** What is not modelled

    The markup around the dynamic parts of the pages (page headers, labels,
    class names, icons, the style element of the generator): it has no
    behaviour, and of the static sections only the text is modelled; the
    container format JSZip parses (a loaded archive is the list of its
    entries); the services behind the endpoints; the router's matching of
    paths other than those of the routes, and navigation through the
    history; components/Home, which App.jsx imports and the repository
    does not have; [console.error] and [event.preventDefault], which change
    nothing the forms read.  Nothing more of the sources has behaviour to
    model: what is left out is markup, or lives in the libraries and
    services the sources call.

    This file is the prelude: the outcome type shared by everything that can
    fail, the development's hint databases, and the lemmas on outcomes the
    components share. *)

From stdpp Require Import base tactics option list.
From Stdlib Require Import Lia.

(** ** Outcomes

    A JavaScript promise settles either fulfilled with a value or rejected
    with a reason; a [try] block either completes or throws.  Both are values
    of [outcome E A], with [E] the type of reasons. *)

Inductive outcome (E A : Type) : Type :=
| Fulfilled (a : A)
| Rejected (e : E).
Arguments Fulfilled {E A} a.
Arguments Rejected {E A} e.

Definition is_fulfilled {E A} (o : outcome E A) : bool :=
  match o with Fulfilled _ => true | Rejected _ => false end.

(** Outcomes form a monad; the instances make std++'s notations
    ([x ← o; k], [f <$> o]) available for them. *)
#[export] Instance outcome_ret {E} : MRet (outcome E) := fun A => Fulfilled.
#[export] Instance outcome_bind {E} : MBind (outcome E) := fun A B k o =>
  match o with Fulfilled a => k a | Rejected e => Rejected e end.
#[export] Instance outcome_fmap {E} : FMap (outcome E) := fun A B f o =>
  match o with Fulfilled a => Fulfilled (f a) | Rejected e => Rejected e end.

(** ** Hints *)

(** The database of the development: lemmas that close the routine cases of
    proofs about handlers ([eauto with js]) and the rewrite rules that
    normalise stores and lists ([autorewrite with js]). *)
Create HintDb js discriminated.
Create Rewrite HintDb js.

(** ** Lemmas on outcomes *)

Section outcomes.
Context {E A B : Type}.
Implicit Types (o : outcome E A).

Lemma outcome_bind_fulfilled o (k : A -> outcome E B) b :
  o ≫= k = Fulfilled b <-> exists a, o = Fulfilled a /\ k a = Fulfilled b.
Proof. destruct o; simpl; naive_solver. Qed.

Lemma outcome_map_fulfilled (f : A -> B) o b :
  f <$> o = Fulfilled b <-> exists a, o = Fulfilled a /\ b = f a.
Proof. destruct o; simpl; naive_solver. Qed.

Lemma outcome_map_rejected (f : A -> B) o e :
  f <$> o = Rejected e <-> o = Rejected e.
Proof. destruct o; simpl; naive_solver. Qed.

(** A sequence throws what its first part throws, or what the rest
    throws once the first part has a value. *)
Lemma outcome_bind_rejected o (k : A -> outcome E B) e :
  o ≫= k = Rejected e -> o = Rejected e \/ exists a, o = Fulfilled a /\ k a = Rejected e.
Proof. destruct o; simpl; naive_solver. Qed.

End outcomes.

#[export] Hint Rewrite @length_app @length_fmap @length_take @length_drop : js.
