(* ===== verification/Js.v ===== *)
(** * The JavaScript values and built-ins the forms use

    Strings are sequences of UTF-16 code units, so a string is a list of
    numbers; the literals of the sources are ASCII and are written [lit "..."].
    [Module Str] has the string methods the sources call ([split], [replace],
    [toUpperCase], the [||] default on strings, template-literal numbers),
    [Module Arr] the array methods ([slice], [join]), and [Module Exn] the
    values a [catch] clause receives.  Each definition follows the ECMAScript
    algorithm of the built-in for the arguments the sources pass. *)

From stdpp Require Import base tactics option list numbers strings pretty.
From Stdlib Require Import Ascii NArith ZArith Lia.
From S2P Require Import Prelude.

(** A string: its UTF-16 code units. *)
Abbreviation jsstring := (list N).

Module Arr.

Section slice.
Context {A : Type}.
Implicit Types (l : list A) (i : Z).

(** The relative index of [slice]: a negative index counts from the end, and
    the result is clamped to [0, len]. *)
Definition rel_index (len : nat) (i : Z) : nat :=
  if (i <? 0)%Z then Z.to_nat (Z.max (Z.of_nat len + i) 0)
  else Nat.min (Z.to_nat i) len.

(** [l.slice(start, end)]: the elements from the relative index of [start]
    up to, and not including, that of [end]. *)
Definition slice (start end_ : Z) l : list A :=
  let k := rel_index (length l) start in
  let final := rel_index (length l) end_ in
  take (final - k) (drop k l).

End slice.

(** [l.join(sep)]: the members separated by [sep]; the empty array gives the
    empty string. *)
Fixpoint join (sep : jsstring) (l : list jsstring) : jsstring :=
  match l with
  | [] => []
  | [x] => x
  | x :: l' => x ++ sep ++ join sep l'
  end.

End Arr.

Module Str.

(** An ASCII literal as a string. *)
Definition lit (s : string) : jsstring :=
  N_of_ascii <$> String.list_ascii_of_string s.

(** A string is truthy when it is not empty. *)
Definition truthy (s : jsstring) : bool :=
  match s with [] => false | _ => true end.

(** [s || d] on strings. *)
Definition or_default (s d : jsstring) : jsstring :=
  if truthy s then s else d.

(** [s.split(sep)] for a separator of one code unit: the maximal runs
    without [sep], in order; a string without [sep] (the empty one too) gives
    the one-member array of itself. *)
Fixpoint split (sep : N) (s : jsstring) : list jsstring :=
  match s with
  | [] => [[]]
  | c :: s' =>
      if decide (c = sep) then [] :: split sep s'
      else match split sep s' with
           | [] => [[c]]
           | p :: ps => (c :: p) :: ps
           end
  end.

(** [s.startsWith(p)]. *)
Fixpoint starts_with (p s : jsstring) : bool :=
  match p, s with
  | [], _ => true
  | _ :: _, [] => false
  | a :: p', b :: s' => bool_decide (a = b) && starts_with p' s'
  end.

(** [s.replace(pat, rep)] for a string pattern, and a replacement without
    [$]: the first occurrence of [pat] is replaced, a string without [pat]
    is returned unchanged. *)
Fixpoint replace (pat rep : jsstring) (s : jsstring) : jsstring :=
  if starts_with pat s then rep ++ drop (length pat) s
  else match s with
       | [] => []
       | c :: s' => c :: replace pat rep s'
       end.

(** [pat] occurs in [s]. *)
Fixpoint includes (pat : jsstring) (s : jsstring) : bool :=
  starts_with pat s ||
  match s with [] => false | _ :: s' => includes pat s' end.

(** The upper-case form of a code unit of the ASCII range; other code
    units are left as they are (this is [toUpperCase] on ASCII strings). *)
Definition upper_unit (c : N) : N :=
  if bool_decide (97 ≤ c ≤ 122)%N then (c - 32)%N else c.

Definition toUpperCase (s : jsstring) : jsstring := upper_unit <$> s.

(** A natural number in a template literal: its decimal digits. *)
Definition of_nat (n : nat) : jsstring := lit (pretty n).

(** The code units of WhiteSpace and LineTerminator: what [\s] matches in
    a regular expression and what [trim] strips. *)
Definition is_space (c : N) : bool :=
  bool_decide (c ∈ [9; 10; 11; 12; 13; 32; 160; 5760; 8232; 8233; 8239; 8287; 12288; 65279]%N)
  || ((8192 <=? c) && (c <=? 8202))%N.

(** [s.trimStart()] and [s.trim()]. *)
Fixpoint trimStart (s : jsstring) : jsstring :=
  match s with
  | [] => []
  | c :: s' => if is_space c then trimStart s' else s
  end.

Definition trim (s : jsstring) : jsstring :=
  reverse (trimStart (reverse (trimStart s))).

(** The lower-case form of a code unit, for the code units whose lower-case
    form has a code unit of the ASCII range: the letters [A-Z], the Kelvin
    sign (U+212A, to [k]) and the dotted capital I (U+0130, to [i] followed
    by the combining dot U+0307).  The other code units are left in place;
    their lower-case forms have no code unit of the ASCII range either. *)
Definition lower_unit (c : N) : jsstring :=
  if ((65 <=? c) && (c <=? 90))%N then [(c + 32)%N]
  else if (c =? 304)%N then [105; 775]%N
  else if (c =? 8490)%N then [107]%N
  else [c].

Definition toLowerCase (s : jsstring) : jsstring := s ≫= lower_unit.

(** [s.replace(/[cls]/g, rep)]: every code unit of the class is replaced. *)
Definition replace_class (cls : N -> bool) (rep : jsstring) (s : jsstring) : jsstring :=
  s ≫= fun c => if cls c then rep else [c].

(** [s.replace(/[cls]+/g, rep)]: every maximal run of code units of the
    class is replaced; [in_run] says that the code unit before was of the
    class. *)
Fixpoint replace_runs_from (in_run : bool) (cls : N -> bool) (rep : jsstring)
    (s : jsstring) : jsstring :=
  match s with
  | [] => []
  | c :: s' =>
      if cls c then (if in_run then [] else rep) ++ replace_runs_from true cls rep s'
      else c :: replace_runs_from false cls rep s'
  end.

Definition replace_runs (cls : N -> bool) (rep : jsstring) (s : jsstring) : jsstring :=
  replace_runs_from false cls rep s.

End Str.

Module Exn.

(** What a [catch (err)] clause receives: an [Error] object with its message
    (every exception the forms can see is one: the errors they throw
    themselves, the [TypeError] of a failed [fetch], the errors of the
    response body and of the archive library), or some other value. *)
Inductive thrown : Type :=
| ErrorObj (message : jsstring)
| NotAnError.

(** [err.message]: [None] is [undefined]. *)
Definition message (e : thrown) : option jsstring :=
  match e with ErrorObj m => Some m | NotAnError => None end.

(** [err instanceof Error]. *)
Definition instanceof_Error (e : thrown) : bool :=
  match e with ErrorObj _ => true | NotAnError => false end.

(** The [TypeError] of reading property [prop] of [null] (the message is
    the engine's; this is V8's wording). *)
Definition null_read (prop : jsstring) : thrown :=
  ErrorObj (Str.lit "Cannot read properties of null (reading '" ++ prop ++ Str.lit "')").

(** The same for [undefined]. *)
Definition undefined_read (prop : jsstring) : thrown :=
  ErrorObj (Str.lit "Cannot read properties of undefined (reading '" ++ prop ++ Str.lit "')").

(** The [TypeError] of converting to a string or a number an object that
    has no method to do it (V8's wording). *)
Definition not_primitive : thrown :=
  ErrorObj (Str.lit "Cannot convert object to primitive value").

End Exn.

(** What an [await] delivers. *)
(** A state cell that holds [null] or a message, used as the condition of
    an alert ([{error && ...}]). *)
Definition shown (o : option jsstring) : bool :=
  match o with Some m => Str.truthy m | None => false end.

Abbreviation settled A := (outcome Exn.thrown A).

(** ** Arrays *)

Section arr_lemmas.
Context {A : Type}.
Implicit Types (l : list A).

Lemma rel_index_le len i : Arr.rel_index len i <= len.
Proof. unfold Arr.rel_index. case_match; lia. Qed.

Lemma rel_index_nonneg len (n : nat) :
  Arr.rel_index len (Z.of_nat n) = Nat.min n len.
Proof. unfold Arr.rel_index. case_match; lia. Qed.

Lemma rel_index_neg len (n : nat) :
  0 < n -> Arr.rel_index len (- Z.of_nat n) = len - n.
Proof. unfold Arr.rel_index. intros. case_match; lia. Qed.

(** [l.slice(0, -1)] drops the last element. *)
Lemma slice_0_m1 l : Arr.slice 0 (-1) l = take (length l - 1) l.
Proof.
  unfold Arr.slice. rewrite (rel_index_nonneg _ 0), (rel_index_neg _ 1) by lia.
  by rewrite Nat.min_0_l, Nat.sub_0_r, drop_0.
Qed.

Lemma slice_0_m1_snoc l x : Arr.slice 0 (-1) (l ++ [x]) = l.
Proof.
  rewrite slice_0_m1, length_app. simpl.
  replace (length l + 1 - 1) with (length l) by lia. by rewrite take_app_length.
Qed.

(** [s.slice(0, n)] keeps the first [n] elements. *)
Lemma slice_0_n l (n : nat) : Arr.slice 0 (Z.of_nat n) l = take n l.
Proof.
  unfold Arr.slice. rewrite (rel_index_nonneg _ 0), rel_index_nonneg.
  rewrite Nat.min_0_l, Nat.sub_0_r, drop_0. destruct (decide (n <= length l)).
  - by rewrite Nat.min_l.
  - rewrite Nat.min_r by lia. by rewrite !take_ge by lia.
Qed.

Lemma slice_length start end_ l :
  length (Arr.slice start end_ l) <= length l.
Proof. unfold Arr.slice. rewrite length_take, length_drop. lia. Qed.

End arr_lemmas.

Lemma join_cons sep x y l :
  Arr.join sep (x :: y :: l) = x ++ sep ++ Arr.join sep (y :: l).
Proof. done. Qed.

Lemma join_app sep l1 l2 :
  l1 <> [] -> l2 <> [] ->
  Arr.join sep (l1 ++ l2) = Arr.join sep l1 ++ sep ++ Arr.join sep l2.
Proof.
  intros H1 H2. induction l1 as [|x [|y l1] IH]; [done| |].
  - destruct l2; [done|]. done.
  - change ((x :: y :: l1) ++ l2) with (x :: y :: (l1 ++ l2)).
    rewrite !join_cons. change (y :: l1 ++ l2) with ((y :: l1) ++ l2).
    rewrite IH by done. by rewrite <-!app_assoc.
Qed.

(** ** Strings *)

Lemma lit_app s1 s2 : Str.lit (s1 +:+ s2) = Str.lit s1 ++ Str.lit s2.
Proof.
  unfold Str.lit. rewrite <-fmap_app. f_equal.
  induction s1 as [|c s1 IH]; [done|]. simpl. by rewrite IH.
Qed.

Lemma or_default_nonempty s d : s <> [] -> Str.or_default s d = s.
Proof. by destruct s. Qed.

Lemma truthy_nonempty s : Str.truthy s = true <-> s <> [].
Proof. by destruct s. Qed.

Lemma or_default_truthy s d : d <> [] -> Str.or_default s d <> [].
Proof. by destruct s. Qed.

Section split.
Variable sep : N.
Implicit Types (s p : jsstring) (l : list jsstring).

Lemma split_nonempty s : Str.split sep s <> [].
Proof. destruct s as [|c s]; simpl; [done|]. case_decide; [done|]. by case_match. Qed.

Lemma split_cons_sep s : Str.split sep (sep :: s) = [] :: Str.split sep s.
Proof. simpl. by rewrite decide_True. Qed.

Lemma split_cons_other c s p l :
  c <> sep -> Str.split sep s = p :: l -> Str.split sep (c :: s) = (c :: p) :: l.
Proof. intros Hc Hs. simpl. by rewrite decide_False, Hs. Qed.

(** A string without the separator is the only piece. *)
Lemma split_no_sep s : sep ∉ s -> Str.split sep s = [s].
Proof.
  induction s as [|c s IH]; [done|]. intros [Hc Hs]%not_elem_of_cons.
  by apply split_cons_other, IH.
Qed.

(** The pieces before and after an occurrence of the separator. *)
Lemma split_app s1 s2 :
  Str.split sep (s1 ++ sep :: s2) = Str.split sep s1 ++ Str.split sep s2.
Proof.
  induction s1 as [|c s1 IH]; [by rewrite app_nil_l, split_cons_sep|].
  destruct (Str.split sep s1) as [|p l] eqn:Hs1; [by apply split_nonempty in Hs1|].
  simpl in *. case_decide; [by rewrite IH, Hs1|]. by rewrite IH, Hs1.
Qed.

(** No piece contains the separator. *)
Lemma split_pieces s : Forall (fun p => sep ∉ p) (Str.split sep s).
Proof.
  induction s as [|c s IH]; simpl.
  - repeat constructor. by intros ?%elem_of_nil.
  - case_decide.
    + constructor; [by intros ?%elem_of_nil | done].
    + destruct (Str.split sep s) eqn:Hs; [by apply split_nonempty in Hs|].
      inversion_clear IH. constructor; [|done]. by apply not_elem_of_cons.
Qed.

(** Joining the pieces with the separator gives the string back. *)
Lemma join_split s : Arr.join [sep] (Str.split sep s) = s.
Proof.
  induction s as [|c s IH]; [done|]. simpl. case_decide as Hc.
  - subst c. destruct (Str.split sep s) eqn:Hs; [by apply split_nonempty in Hs|].
    by rewrite join_cons, IH.
  - destruct (Str.split sep s) as [|p [|q l]]; simpl in *; by rewrite <-IH.
Qed.

(** Splitting a joined array of separator-free pieces gives the pieces. *)
Lemma split_join l :
  l <> [] -> Forall (fun p => sep ∉ p) l -> Str.split sep (Arr.join [sep] l) = l.
Proof.
  intros Hl Hall. induction Hall as [|p [|q l] Hp Hall IH]; [done| |].
  - by apply split_no_sep.
  - rewrite join_cons. change ([sep] ++ ?r) with (sep :: r).
    rewrite split_app, split_no_sep, IH by done. done.
Qed.

(** [s.split(sep).slice(0, -1).join(sep)]: everything before the last
    separator, and nothing when there is none. *)
Lemma split_init_join s1 s2 :
  sep ∉ s2 -> Arr.join [sep] (Arr.slice 0 (-1) (Str.split sep (s1 ++ sep :: s2))) = s1.
Proof. intros H. by rewrite split_app, (split_no_sep s2), slice_0_m1_snoc, join_split. Qed.

Lemma split_init_none s :
  sep ∉ s -> Arr.join [sep] (Arr.slice 0 (-1) (Str.split sep s)) = [].
Proof. intros H. by rewrite split_no_sep. Qed.

End split.

Section replace.
Implicit Types (pat rep s : jsstring).

Lemma starts_with_app pat s : Str.starts_with pat (pat ++ s) = true.
Proof. induction pat as [|c pat IH]; [done|]. simpl. by rewrite bool_decide_true. Qed.

Lemma starts_with_prefix pat s :
  Str.starts_with pat s = true <-> exists r, s = pat ++ r.
Proof.
  split; [|intros [r ->]; apply starts_with_app].
  revert s; induction pat as [|c pat IH]; intros s; [by exists s|].
  destruct s as [|d s]; [done|]. simpl.
  intros [->%bool_decide_eq_true [r ->]%IH]%andb_true_iff. by exists r.
Qed.

(** A pattern whose first code unit does not occur in [s] does not start
    there, nor anywhere inside. *)
Lemma starts_with_head_notin c pat s r :
  c ∉ s -> s <> [] -> Str.starts_with (c :: pat) (s ++ r) = false.
Proof.
  destruct s as [|d s]; [done|]. intros [Hd _]%not_elem_of_cons _.
  simpl. by rewrite bool_decide_false.
Qed.

Lemma replace_unfold pat rep s :
  Str.replace pat rep s =
  if Str.starts_with pat s then rep ++ drop (length pat) s
  else match s with [] => [] | c :: s' => c :: Str.replace pat rep s' end.
Proof. by destruct s. Qed.

Lemma replace_here pat rep s :
  Str.replace pat rep (pat ++ s) = rep ++ s.
Proof. by rewrite replace_unfold, starts_with_app, drop_app_length. Qed.

Lemma replace_skip pat rep c s :
  Str.starts_with pat (c :: s) = false ->
  Str.replace pat rep (c :: s) = c :: Str.replace pat rep s.
Proof. intros H. by rewrite replace_unfold, H. Qed.

(** The first occurrence is the one replaced: with the pattern's first code
    unit absent from the text before it, the pattern there is the first. *)
Lemma replace_first c pat rep a b :
  c ∉ a ->
  Str.replace (c :: pat) rep (a ++ (c :: pat) ++ b) = a ++ rep ++ b.
Proof.
  induction a as [|d a IH]; intros Ha.
  - rewrite !app_nil_l. apply replace_here.
  - apply not_elem_of_cons in Ha as [Hd Ha].
    change ((d :: a) ++ ?r) with (d :: (a ++ r)). rewrite replace_skip.
    + f_equal. by apply IH.
    + simpl. by rewrite bool_decide_false.
Qed.

Lemma includes_false_cons pat c s :
  Str.includes pat (c :: s) = false ->
  Str.starts_with pat (c :: s) = false /\ Str.includes pat s = false.
Proof. simpl. by intros ?%orb_false_iff. Qed.

(** A string without the pattern is returned as it is. *)
Lemma replace_absent pat rep s :
  Str.includes pat s = false -> Str.replace pat rep s = s.
Proof.
  induction s as [|c s IH].
  - destruct pat; [done|]. done.
  - intros [Hc Hs]%includes_false_cons. rewrite replace_skip by done.
    by rewrite IH.
Qed.

End replace.

Lemma toUpperCase_length s : length (Str.toUpperCase s) = length s.
Proof. apply length_fmap. Qed.

Lemma toUpperCase_idemp s : Str.toUpperCase (Str.toUpperCase s) = Str.toUpperCase s.
Proof.
  unfold Str.toUpperCase. rewrite <-list_fmap_compose. apply list_fmap_ext.
  intros _ c _. unfold compose, Str.upper_unit.
  repeat case_bool_decide; lia.
Qed.

(** ** Whitespace, case and classes *)

Section classes.
Implicit Types (s : jsstring) (c : N) (cls : N -> bool).

Lemma trimStart_nil_iff s : Str.trimStart s = [] <-> forallb Str.is_space s = true.
Proof.
  induction s as [|c s IH]; simpl; [done|].
  destruct (Str.is_space c); simpl; [done|]. split; discriminate.
Qed.

Lemma trimStart_head s c l : Str.trimStart s = c :: l -> Str.is_space c = false.
Proof.
  induction s as [|d s IH]; simpl; [done|].
  destruct (Str.is_space d) eqn:Hd; [done|]. by intros [= -> _].
Qed.

(** A string trims to the empty string exactly when it is whitespace only. *)
Lemma trim_nil_iff s : Str.trim s = [] <-> forallb Str.is_space s = true.
Proof.
  unfold Str.trim. rewrite <-trimStart_nil_iff. split; [|by intros ->].
  intros H%(f_equal reverse). rewrite reverse_involutive, reverse_nil in H.
  destruct (Str.trimStart s) as [|c l] eqn:Hs; [done|].
  apply trimStart_nil_iff in H. rewrite forallb_forall in H.
  apply trimStart_head in Hs. rewrite H in Hs; [done|].
  apply list_elem_of_In, elem_of_reverse. left.
Qed.

(** White space lies outside the letters, the digits and the hyphen. *)
Lemma is_space_range c :
  Str.is_space c = true -> (9 <= c <= 13 \/ c = 32 \/ 160 <= c)%N.
Proof.
  unfold Str.is_space. intros [H%bool_decide_eq_true|[H _]%andb_true_iff]%orb_true_iff.
  - repeat (apply elem_of_cons in H as [->|H]; [lia|]). by apply elem_of_nil in H.
  - apply N.leb_le in H. lia.
Qed.

Lemma toLowerCase_cons c s : Str.toLowerCase (c :: s) = Str.lower_unit c ++ Str.toLowerCase s.
Proof. done. Qed.

Lemma toLowerCase_app s1 s2 :
  Str.toLowerCase (s1 ++ s2) = Str.toLowerCase s1 ++ Str.toLowerCase s2.
Proof. apply bind_app. Qed.

Lemma replace_class_app cls rep s1 s2 :
  Str.replace_class cls rep (s1 ++ s2) =
  Str.replace_class cls rep s1 ++ Str.replace_class cls rep s2.
Proof. apply bind_app. Qed.

(** Deleting a class is filtering by its complement. *)
Lemma replace_class_nil cls s :
  Str.replace_class cls [] s = filter (fun c => cls c = false) s.
Proof.
  induction s as [|c s IH]; [done|]. rewrite filter_cons.
  change (Str.replace_class cls [] (c :: s))
    with ((if cls c then [] else [c]) ++ Str.replace_class cls [] s).
  rewrite IH. by destruct (cls c); case_decide.
Qed.

(** Replacing runs gives no code unit of the class but those of [rep]. *)
Lemma replace_runs_from_elem b cls rep s c :
  c ∈ Str.replace_runs_from b cls rep s -> c ∈ rep \/ (c ∈ s /\ cls c = false).
Proof.
  revert b; induction s as [|d s IH]; intros b; simpl; [by intros ?%elem_of_nil|].
  destruct (cls d) eqn:Hd.
  - intros [Hc|Hc]%elem_of_app.
    + destruct b; [by apply elem_of_nil in Hc|by left].
    + destruct (IH _ Hc) as [?|[? ?]]; [by left|right; split; [by right|done]].
  - intros [->|Hc]%elem_of_cons; [right; split; [by left|done]|].
    destruct (IH _ Hc) as [?|[? ?]]; [by left|right; split; [by right|done]].
Qed.

(** It never lengthens the string when [rep] is one code unit. *)
Lemma replace_runs_from_length b cls r s :
  length (Str.replace_runs_from b cls [r] s) <= length s.
Proof.
  revert b; induction s as [|d s IH]; intros b; simpl; [done|].
  pose proof (IH true). pose proof (IH false).
  destruct (cls d); [destruct b|]; simpl; lia.
Qed.

End classes.

#[export] Hint Rewrite split_cons_sep join_split @slice_0_m1_snoc replace_here : js.
#[export] Hint Resolve split_nonempty split_pieces or_default_truthy : js.

(** ** [Promise.all] over promises that settle one by one *)

Module PromiseAll.

(** A member of the array passed to [Promise.all]: not settled yet,
    fulfilled with a value, or rejected. *)
Inductive slot (A : Type) : Type :=
| Pending
| Done (a : A)
| Failed.
Arguments Pending {A}.
Arguments Done {A} a.
Arguments Failed {A}.

Section slots.
Context {A : Type}.
Implicit Types (sl : slot A) (sls : list (slot A)).

Definition is_pending sl : bool :=
  match sl with Pending => true | _ => false end.

(** The values of the members when all are fulfilled, in the order of the
    array (not the order in which they settled). *)
Fixpoint values sls : option (list A) :=
  match sls with
  | [] => Some []
  | Done a :: sls' => cons a <$> values sls'
  | _ :: _ => None
  end.

(** The values of the fulfilled members, whatever the others did. *)
Fixpoint fulfilled sls : list A :=
  match sls with
  | [] => []
  | Done a :: sls' => a :: fulfilled sls'
  | _ :: sls' => fulfilled sls'
  end.

(** Some member has not settled. *)
Definition unsettled sls : bool := existsb is_pending sls.

End slots.

End PromiseAll.

Section promise_all.
Context {A : Type}.
Implicit Types (sls : list (PromiseAll.slot A)) (l : list A).

Lemma values_Some sls l :
  PromiseAll.values sls = Some l <-> sls = PromiseAll.Done <$> l.
Proof.
  revert l; induction sls as [|[|a|] sls IH]; intros l; simpl.
  - destruct l; naive_solver.
  - destruct l; naive_solver.
  - rewrite fmap_Some. split.
    + intros (l' & ->%IH & ->). done.
    + destruct l as [|a' l]; [done|]. intros [= -> ->]. exists l. by rewrite IH.
  - destruct l; naive_solver.
Qed.

Lemma values_fulfilled sls l :
  PromiseAll.values sls = Some l -> PromiseAll.fulfilled sls = l.
Proof.
  intros ->%values_Some. induction l as [|a l IH]; [done|]. simpl. by f_equal.
Qed.

Lemma values_length sls l : PromiseAll.values sls = Some l -> length l = length sls.
Proof. intros ->%values_Some. by rewrite length_fmap. Qed.

Lemma values_unsettled sls l :
  PromiseAll.values sls = Some l -> PromiseAll.unsettled sls = false.
Proof.
  intros ->%values_Some. induction l as [|a l IH]; [done|]. done.
Qed.

(** While a member is pending or rejected there are no values. *)
Lemma values_None sls i sl :
  sls !! i = Some sl -> (forall a, sl <> PromiseAll.Done a) -> PromiseAll.values sls = None.
Proof.
  intros Hi Hsl. destruct (PromiseAll.values sls) as [l|] eqn:Hv; [|done].
  apply values_Some in Hv as ->. rewrite list_lookup_fmap in Hi.
  destruct (l !! i); simplify_eq/=. by destruct (Hsl a).
Qed.

(** With every member fulfilled there are values, one per member. *)
Lemma values_all_done sls :
  (forall i sl, sls !! i = Some sl -> exists a, sl = PromiseAll.Done a) ->
  exists l, PromiseAll.values sls = Some l.
Proof.
  induction sls as [|sl sls IH]; intros H; [by eexists|].
  destruct (H 0 sl eq_refl) as [a ->].
  destruct IH as [l Hl]; [intros i; apply (H (S i))|].
  exists (a :: l). simpl. by rewrite Hl.
Qed.

Lemma values_lookup sls l i a :
  PromiseAll.values sls = Some l -> l !! i = Some a -> sls !! i = Some (PromiseAll.Done a).
Proof. intros ->%values_Some Hi. by rewrite list_lookup_fmap, Hi. Qed.

Lemma fulfilled_insert_pending sls i a :
  sls !! i = Some PromiseAll.Pending ->
  PromiseAll.fulfilled (<[i := PromiseAll.Done a]> sls) ≡ₚ a :: PromiseAll.fulfilled sls.
Proof.
  revert i; induction sls as [|sl sls IH]; intros [|i] Hi; simplify_eq/=; [done|].
  destruct sl; simpl; rewrite IH by done; [done| |done]. apply Permutation_swap.
Qed.

Lemma fulfilled_insert_failed sls i :
  sls !! i = Some PromiseAll.Pending ->
  PromiseAll.fulfilled (<[i := PromiseAll.Failed]> sls) = PromiseAll.fulfilled sls.
Proof.
  revert i; induction sls as [|sl sls IH]; intros [|i] Hi; simplify_eq/=; [done|].
  destruct sl; simpl; by rewrite IH.
Qed.

End promise_all.
