(* ===== verification/Number.v ===== *)
(** * Strings read as numbers

    [result.predictions.length > 0] compares whatever the answer has under
    [length] with zero.  A value that is not a number is converted first,
    and a string is converted by reading it as a numeric literal
    (ECMAScript, StringToNumber): white space is trimmed, the empty string
    is zero, a decimal literal may have a sign, a fraction and an exponent,
    a literal in another radix ([0x], [0o], [0b]) has neither, [Infinity]
    is spelled in full, and everything else is [NaN].

    [Module Num] has the literal read ([Num.of_string]) as its mathematical
    value, kept exactly as a significand and a power of ten, and the one
    question the sources ask of it: whether the Number it rounds to is
    greater than zero ([Num.positive]).  Rounding is to the nearest double,
    ties to even, so a positive value is zero as a Number exactly when it
    is at most two to the power -1075, half the least positive double. *)

From stdpp Require Import base tactics option list numbers strings pretty.
From Stdlib Require Import Ascii NArith ZArith QArith Qpower Qfield Lia.
From S2P Require Import Prelude Js.

Module Num.

(** The value of a code unit as a digit: [0-9], [a-f], [A-F]. *)
Definition digit_value (c : N) : option N :=
  if ((48 <=? c) && (c <=? 57))%N then Some (c - 48)%N
  else if ((97 <=? c) && (c <=? 102))%N then Some (c - 87)%N
  else if ((65 <=? c) && (c <=? 70))%N then Some (c - 55)%N
  else None.

(** The same, for the digits of [base]. *)
Definition digit (base c : N) : option N :=
  v ← digit_value c; if (v <? base)%N then Some v else None.

(** The value of a run of digits that continues the number [acc]; [None]
    when a code unit is not a digit of [base]. *)
Fixpoint digits_from (base acc : N) (s : jsstring) : option N :=
  match s with
  | [] => Some acc
  | c :: s' => d ← digit base c; digits_from base (acc * base + d) s'
  end.

(** DecimalDigits, HexDigits, OctalDigits, BinaryDigits: one digit at
    least. *)
Definition digits (base : N) (s : jsstring) : option N :=
  match s with [] => None | _ => digits_from base 0 s end.

(** What a literal denotes: not a number, an infinity, or the number
    [m * 10 ^ e] with its sign. *)
Inductive literal : Type :=
| NaN
| Infinite (negative : bool)
| Finite (negative : bool) (m : N) (e : Z).

(** The string up to the first code unit of a class, and the rest after
    that code unit if there is one. *)
Fixpoint break (p : N -> bool) (s : jsstring) : jsstring * option jsstring :=
  match s with
  | [] => ([], None)
  | c :: s' =>
      if p c then ([], Some s') else let '(a, b) := break p s' in (c :: a, b)
  end.

(** A sign in front, if there is one ([true] is the minus sign), and what
    follows it. *)
Definition sign_of (s : jsstring) : option bool * jsstring :=
  match s with
  | c :: s' =>
      if bool_decide (c = 43%N) then (Some false, s')
      else if bool_decide (c = 45%N) then (Some true, s')
      else (None, s)
  | [] => (None, [])
  end.

(** SignedInteger, the digits of an ExponentPart. *)
Definition signed (s : jsstring) : option Z :=
  let '(sign, ds) := sign_of s in
  n ← digits 10 ds;
  Some (if default false sign then (- Z.of_N n)%Z else Z.of_N n).

Definition is_exponent_indicator (c : N) : bool := bool_decide (c ∈ [101; 69]%N).
Definition is_dot (c : N) : bool := bool_decide (c = 46%N).

(** StrUnsignedDecimalLiteral other than [Infinity]: digits with a dot
    among them or after them, or a dot followed by digits, then an
    exponent if any. *)
Definition unsigned_decimal (s : jsstring) : option (N * Z) :=
  let '(mantissa, exponent) := break is_exponent_indicator s in
  let '(integer, fraction) := break is_dot mantissa in
  e ← match exponent with None => Some 0%Z | Some x => signed x end;
  match fraction with
  | None => m ← digits 10 integer; Some (m, e)
  | Some f =>
      m ← digits 10 (integer ++ f); Some (m, (e - Z.of_nat (length f))%Z)
  end.

Definition decimal (negative : bool) (s : jsstring) : literal :=
  if bool_decide (s = Str.lit "Infinity") then Infinite negative
  else match unsigned_decimal s with
       | Some (m, e) => Finite negative m e
       | None => NaN
       end.

(** The radix a NonDecimalIntegerLiteral announces, and its digits. *)
Definition radix_prefix (s : jsstring) : option (N * jsstring) :=
  match s with
  | z :: c :: s' =>
      if negb (bool_decide (z = 48%N)) then None
      else if bool_decide (c ∈ [120; 88]%N) then Some (16%N, s')
      else if bool_decide (c ∈ [111; 79]%N) then Some (8%N, s')
      else if bool_decide (c ∈ [98; 66]%N) then Some (2%N, s')
      else None
  | _ => None
  end.

(** StrNumericLiteral. *)
Definition numeric (s : jsstring) : literal :=
  match radix_prefix s with
  | Some (base, ds) =>
      match digits base ds with Some m => Finite false m 0 | None => NaN end
  | None => let '(sign, u) := sign_of s in decimal (default false sign) u
  end.

(** StringToNumber. *)
Definition of_string (s : jsstring) : literal :=
  match Str.trim s with
  | [] => Finite false 0 0
  | t => numeric t
  end.

(** [m * 10 ^ e] is more than [2 ^ - p], compared in whole numbers: both
    sides are multiplied by [2 ^ p] and by the power of ten that [e]
    divides by. *)
Definition above (p : N) (m : N) (e : Z) : bool :=
  (10 ^ Z.to_N (- e) <? m * 2 ^ p * 10 ^ Z.to_N e)%N.

(** Half the least positive double is [2 ^ -1075]. *)
Definition above_zero : N -> Z -> bool := above 1075.

(** [x > 0] for the Number a literal rounds to. *)
Definition positive (x : literal) : bool :=
  match x with
  | NaN => false
  | Infinite negative => negb negative
  | Finite negative m e => negb negative && above_zero m e
  end.

End Num.

(** ** Digits *)

(** A code unit is none of those listed. *)
Ltac not_listed :=
  let H := fresh in
  intros H; repeat (apply elem_of_cons in H as [H|H]; [lia|]); by apply elem_of_nil in H.

Section digits.
Implicit Types (s d : jsstring) (c base acc m : N) (p : N -> bool).

(** A string of decimal digits. *)
Definition decimal_digits s : Prop := Forall (fun c => (48 <= c <= 57)%N) s.

Lemma digit_decimal c : (48 <= c <= 57)%N -> Num.digit 10 c = Some (c - 48)%N.
Proof.
  intros Hc. unfold Num.digit, Num.digit_value.
  rewrite (proj2 (N.leb_le 48 c)), (proj2 (N.leb_le c 57)) by lia. simpl.
  by rewrite (proj2 (N.ltb_lt _ _)) by lia.
Qed.

Lemma digits_from_app base acc s1 s2 :
  Num.digits_from base acc (s1 ++ s2) =
  Num.digits_from base acc s1 ≫= fun v => Num.digits_from base v s2.
Proof.
  revert acc. induction s1 as [|c s1 IH]; intros acc; simpl; [done|].
  destruct (Num.digit base c); simpl; auto.
Qed.

(** Digits always have a value. *)
Lemma digits_from_decimal acc s :
  decimal_digits s -> is_Some (Num.digits_from 10 acc s).
Proof.
  intros Hs. revert acc. induction Hs as [|c s Hc _ IH]; intros acc; simpl; [done|].
  rewrite digit_decimal by done. apply IH.
Qed.

Lemma break_none p s : Forall (fun c => p c = false) s -> Num.break p s = (s, None).
Proof. induction 1 as [|c s Hc _ IH]; simpl; [done|]. by rewrite Hc, IH. Qed.

Lemma decimal_digits_class s p :
  (forall c, (48 <= c <= 57)%N -> p c = false) -> decimal_digits s ->
  Forall (fun c => p c = false) s.
Proof. intros Hp Hs. eapply Forall_impl; eauto. Qed.

Lemma trimStart_head_kept c s : Str.is_space c = false -> Str.trimStart (c :: s) = c :: s.
Proof. simpl. by intros ->. Qed.

Lemma decimal_digit_no_space c : (48 <= c <= 57)%N -> Str.is_space c = false.
Proof.
  intros Hc. destruct (Str.is_space c) eqn:H; [|done]. apply is_space_range in H. lia.
Qed.

(** Trimming leaves a string of digits as it is. *)
Lemma trim_decimal s : decimal_digits s -> Str.trim s = s.
Proof.
  intros Hs. unfold Str.trim.
  assert (Hstart : forall t, decimal_digits t -> Str.trimStart t = t).
  { intros t [|c t' Hc _]; [done|]. by apply trimStart_head_kept, decimal_digit_no_space. }
  rewrite (Hstart s Hs), Hstart, reverse_involutive; [done|].
  by apply Forall_reverse.
Qed.

(** A string of digits is read as the number it writes. *)
Lemma numeric_decimal s m :
  decimal_digits s -> s <> [] -> Num.digits_from 10 0 s = Some m ->
  Num.of_string s = Num.Finite false m 0.
Proof.
  intros Hs Hne Hm. unfold Num.of_string. rewrite trim_decimal by done.
  destruct s as [|c s]; [done|]. unfold Num.numeric.
  assert (Num.radix_prefix (c :: s) = None) as ->.
  { destruct s as [|c' s]; [done|]. apply Forall_cons in Hs as [_ [Hc' _]%Forall_cons].
    unfold Num.radix_prefix. destruct (negb _); [done|].
    rewrite !bool_decide_false; [done|..]; not_listed. }
  pose proof Hs as [Hc _]%Forall_cons.
  unfold Num.sign_of. rewrite !bool_decide_false by lia. cbn [default].
  unfold Num.decimal. rewrite bool_decide_false.
  2:{ intros [= -> _]. lia. }
  unfold Num.unsigned_decimal.
  rewrite (break_none Num.is_exponent_indicator), (break_none Num.is_dot).
  - unfold Num.digits. by rewrite Hm.
  - apply decimal_digits_class; [|done]. intros d Hd.
    unfold Num.is_dot. rewrite bool_decide_false; [done|lia].
  - apply decimal_digits_class; [|done]. intros d Hd.
    unfold Num.is_exponent_indicator. rewrite bool_decide_false; [done|not_listed].
Qed.

Lemma pretty_N_char_code r : (r < 10)%N -> N_of_ascii (pretty_N_char r) = (48 + r)%N.
Proof.
  intros Hr. assert (Hcases : In r [0; 1; 2; 3; 4; 5; 6; 7; 8; 9]%N) by (simpl; lia).
  simpl in Hcases. by repeat destruct Hcases as [<-|Hcases].
Qed.

(** The digits [pretty] writes for a number, in front of [t]: they are
    decimal digits, and read after [acc] they continue it by the number. *)
Lemma pretty_N_go_digits x t :
  exists d k, Str.lit (pretty_N_go x t) = d ++ Str.lit t /\ decimal_digits d /\
              ((0 < x)%N -> d <> []) /\
              forall acc, Num.digits_from 10 acc d = Some (acc * 10 ^ k + x)%N.
Proof.
  revert t. induction (N.lt_wf_0 x) as [x _ IH]; intros t.
  destruct (decide (x = 0%N)) as [->|Hx].
  { exists [], 0%N. rewrite pretty_N_go_0. split_and!; [done|constructor|lia|].
    intros acc. simpl. f_equal. lia. }
  rewrite pretty_N_go_step by lia.
  destruct (IH (x `div` 10)%N) with (t := String (pretty_N_char (x `mod` 10)) t)
    as (d & k & Hd & Hdec & _ & Hval); [apply N.div_lt; lia|].
  pose proof (N.mod_lt x 10 ltac:(lia)) as Hr.
  pose proof (pretty_N_char_code _ Hr) as Hchar.
  pose proof (N.div_mod x 10 ltac:(lia)) as Hx10.
  set (q := (x `div` 10)%N) in *. set (r := (x `mod` 10)%N) in *. clearbody q r.
  exists (d ++ [(48 + r)%N]), (k + 1)%N. split_and!.
  - rewrite Hd, <- Hchar, <- app_assoc. done.
  - apply Forall_app. split; [done|]. apply Forall_singleton. lia.
  - by destruct d.
  - intros acc. rewrite digits_from_app, Hval. simpl.
    rewrite digit_decimal by lia. simpl. f_equal.
    rewrite N.pow_add_r, N.pow_1_r. lia.
Qed.

(** Writing a count and reading it back gives the count: the decimal
    digits a template literal writes for a number are read by the
    conversion of strings to numbers as that number, with no sign and no
    exponent. *)
Lemma num_of_string_of_nat n :
  Num.of_string (Str.of_nat n) = Num.Finite false (N.of_nat n) 0.
Proof.
  unfold Str.of_nat, pretty, pretty_nat, pretty, pretty_N.
  destruct (decide (N.of_nat n = 0%N)) as [->|Hn]; [done|].
  destruct (pretty_N_go_digits (N.of_nat n) "") as (d & k & Hd & Hdec & Hne & Hval).
  change (Str.lit "") with (@nil N) in Hd. rewrite app_nil_r in Hd. rewrite Hd.
  apply numeric_decimal; [done|apply Hne; lia|]. by rewrite Hval.
Qed.

End digits.

(** ** The comparison is exact *)

Section above.

Lemma Qlt_cross (a b c m : Q) :
  (0 < a)%Q -> (0 < b)%Q -> (/ a < m * (c / b) <-> b < m * a * c)%Q.
Proof.
  intros Ha Hb.
  assert (Hab : (0 < a * b)%Q) by (apply Qmult_lt_0_compat; done).
  rewrite <- (Qmult_lt_r (/ a) (m * (c / b)) (a * b) Hab).
  assert ((/ a * (a * b) == b)%Q) as ->
    by (field; intros E; rewrite E in Ha; by apply Qlt_irrefl in Ha).
  assert ((m * (c / b) * (a * b) == m * a * c)%Q) as ->
    by (field; intros E; rewrite E in Hb; by apply Qlt_irrefl in Hb).
  done.
Qed.

(** The test in whole numbers decides the comparison of the rationals. *)
Lemma above_spec p m e :
  Num.above p m e = true <-> (2 ^ (- Z.of_N p) < inject_Z (Z.of_N m) * 10 ^ e)%Q.
Proof.
  unfold Num.above. rewrite N.ltb_lt.
  set (k := Z.to_N (- e)). set (j := Z.to_N e).
  assert (He : e = (Z.of_N j - Z.of_N k)%Z) by lia.
  clearbody k j. subst e. rewrite Qpower_minus by done. rewrite Qpower_opp.
  change 10%Q with (inject_Z 10). change 2%Q with (inject_Z 2).
  rewrite <- !Zpower_Qpower by lia. rewrite Qlt_cross.
  - rewrite <- !inject_Z_mult, <- Zlt_Qlt.
    by rewrite N2Z.inj_lt, !N2Z.inj_mul, !N2Z.inj_pow.
  - rewrite <- (Zlt_Qlt 0). apply Z.pow_pos_nonneg; lia.
  - rewrite <- (Zlt_Qlt 0). apply Z.pow_pos_nonneg; lia.
Qed.

(** The comparison with zero is exact at the width of a double: a
    literal without a minus sign is greater than zero as a Number exactly
    when its value, as a rational, is more than two to the power -1075,
    half the least positive double; at or below it the Number is zero. *)
Lemma num_positive_exact m e :
  Num.positive (Num.Finite false m e) = true <->
  (2 ^ (-1075) < inject_Z (Z.of_N m) * 10 ^ e)%Q.
Proof. apply (above_spec 1075). Qed.

(** Zero is not, whatever its exponent. *)
Lemma positive_zero negative e : Num.positive (Num.Finite negative 0 e) = false.
Proof.
  destruct negative; [done|]. simpl. unfold Num.above_zero, Num.above.
  apply N.ltb_ge. rewrite N.mul_0_l. lia.
Qed.

(** With no exponent to divide by, every other literal is. *)
Lemma positive_whole m e :
  (0 < m)%N -> (0 <= e)%Z -> Num.positive (Num.Finite false m e) = true.
Proof.
  intros Hm He. simpl. unfold Num.above_zero, Num.above. apply N.ltb_lt.
  replace (Z.to_N (- e)) with 0%N by lia. rewrite N.pow_0_r.
  assert (1 < 2 ^ 1075)%N by (by apply N.pow_gt_1).
  assert (0 < 10 ^ Z.to_N e)%N by (apply N.neq_0_lt_0, N.pow_nonzero; lia).
  nia.
Qed.

End above.

(** ** Literals read *)

Example num_hex : Num.of_string (Str.lit "0x1F") = Num.Finite false 31 0.
Proof. reflexivity. Qed.
Example num_fraction : Num.of_string (Str.lit " -12.50e3 ") = Num.Finite true 1250 1.
Proof. reflexivity. Qed.
Example num_dot : Num.of_string (Str.lit ".") = Num.NaN.
Proof. reflexivity. Qed.
Example num_tiny : Num.positive (Num.of_string (Str.lit "1e-400")) = false.
Proof. vm_compute. reflexivity. Qed.
Example num_least : Num.positive (Num.of_string (Str.lit "5e-324")) = true.
Proof. vm_compute. reflexivity. Qed.
