(* ===== verification/Browser.v ===== *)
(** * Blobs, files and the document's object URLs

    The forms hand binary data to the page through object URLs:
    [URL.createObjectURL(blob)] mints a URL that resolves to the blob until
    [URL.revokeObjectURL(url)] is called on it.  The document's URL store is
    the resource ledger of the forms: [Class Ledger] states what the forms
    rely on, [Module Url] is the store with its two operations, and
    [url_ledger] shows that the store keeps the promises of the class. *)

From stdpp Require Import base tactics option list gmap.
From Stdlib Require Import Strings.Byte Lia.
From S2P Require Import Prelude Js.

(** ** Binary data *)

(** A [Blob]: a MIME type and bytes. *)
Record Blob : Type := mkBlob {
  blob_type : jsstring;
  blob_bytes : list byte;
}.

(** A [File] picked in a file input: a blob with a name. *)
Record File : Type := mkFile {
  file_name : jsstring;
  file_type : jsstring;
  file_bytes : list byte;
}.

(** A file used where a blob is expected. *)
Definition file_blob (f : File) : Blob :=
  {| blob_type := file_type f; blob_bytes := file_bytes f |}.

#[export] Instance byte_eq_dec : EqDecision byte := Byte.byte_eq_dec.
#[export] Instance Blob_eq_dec : EqDecision Blob.
Proof. solve_decision. Defined.
#[export] Instance File_eq_dec : EqDecision File.
Proof. solve_decision. Defined.

(** ** The interface of a ledger of revocable handles

    [S] is the ledger's state, [H] the handles, [B] what a handle resolves
    to.  [issued h s] says that [h] was handed out at some point before [s],
    and [ledger_ok] is the invariant the ledger maintains. *)
Class Ledger (S H B : Type) : Type := {
  register : B -> S -> H * S;
  revoke : H -> S -> S;
  resolve : H -> S -> option B;
  issued : H -> S -> Prop;
  ledger_ok : S -> Prop;
  register_ok b s : ledger_ok s -> ledger_ok (register b s).2;
  revoke_ok h s : ledger_ok s -> ledger_ok (revoke h s);
  (** a new handle was never issued before, and resolves to its value *)
  register_fresh b s : ledger_ok s -> ~ issued (register b s).1 s;
  register_resolve b s : resolve (register b s).1 (register b s).2 = Some b;
  register_frame b s h :
    h <> (register b s).1 -> resolve h (register b s).2 = resolve h s;
  register_issued b s h :
    issued h (register b s).2 <-> h = (register b s).1 \/ issued h s;
  (** revocation removes the handle and nothing else, and never fails *)
  revoke_resolve h s : resolve h (revoke h s) = None;
  revoke_frame h h' s : h' <> h -> resolve h' (revoke h s) = resolve h' s;
  revoke_issued h h' s : issued h' (revoke h s) <-> issued h' s;
  (** only issued handles resolve *)
  resolve_issued h s b : ledger_ok s -> resolve h s = Some b -> issued h s;
}.
#[export] Hint Mode Ledger ! - - : typeclass_instances.

(** ** The URL store *)

Module Url.

(** The state of the document's URL store: the blobs the live URLs resolve
    to, the number of URLs minted so far (the n-th URL is [n]: every call
    mints a URL that was never used), and, as a history variable, the
    arguments of the [revokeObjectURL] calls, latest first. *)
Record store : Type := mkStore {
  live : gmap nat Blob;
  minted : nat;
  revocations : list nat;
}.

Definition empty : store := {| live := ∅; minted := 0; revocations := [] |}.

(** [URL.createObjectURL(b)]. *)
Definition createObjectURL (b : Blob) (s : store) : nat * store :=
  (minted s,
   {| live := <[minted s := b]> (live s);
      minted := S (minted s);
      revocations := revocations s |}).

(** [URL.revokeObjectURL(u)]: a URL that is not live is ignored. *)
Definition revokeObjectURL (u : nat) (s : store) : store :=
  {| live := delete u (live s);
     minted := minted s;
     revocations := u :: revocations s |}.

(** What fetching [u] gives: the blob, or nothing once [u] is revoked. *)
Definition lookup (u : nat) (s : store) : option Blob := live s !! u.

(** [us.forEach(u => URL.revokeObjectURL(u))]. *)
Definition revokeEach (us : list nat) (s : store) : store :=
  foldl (fun s u => revokeObjectURL u s) s us.

(** [if (u) URL.revokeObjectURL(u)] for a URL or [null]. *)
Definition revokeIf (u : option nat) (s : store) : store :=
  match u with Some u => revokeObjectURL u s | None => s end.

(** Every live URL was minted by the store. *)
Definition wf (s : store) : Prop :=
  forall u, is_Some (live s !! u) -> u < minted s.

(** How often [u] was passed to [revokeObjectURL]. *)
Definition times_revoked (u : nat) (s : store) : nat :=
  length (filter (fun v => v = u) (revocations s)).

End Url.

#[global] Arguments Url.createObjectURL : simpl never.
#[global] Arguments Url.revokeObjectURL : simpl never.
#[global] Arguments Url.lookup : simpl never.
#[global] Arguments Url.revokeEach : simpl never.

(** ** The store is a ledger *)

Section url_store.
Implicit Types (s : Url.store) (u : nat) (b : Blob).

Lemma lookup_create b s :
  Url.lookup (Url.createObjectURL b s).1 (Url.createObjectURL b s).2 = Some b.
Proof. apply lookup_insert_eq. Qed.

Lemma lookup_create_ne b s u :
  u <> Url.minted s ->
  Url.lookup u (Url.createObjectURL b s).2 = Url.lookup u s.
Proof. intros. by apply lookup_insert_ne. Qed.

Lemma lookup_revoke u s : Url.lookup u (Url.revokeObjectURL u s) = None.
Proof. apply lookup_delete_eq. Qed.

Lemma lookup_revoke_ne u u' s :
  u' <> u -> Url.lookup u' (Url.revokeObjectURL u s) = Url.lookup u' s.
Proof. intros. by apply lookup_delete_ne. Qed.

Lemma wf_empty : Url.wf Url.empty.
Proof. intros u [b Hb]. simpl in Hb. by rewrite lookup_empty in Hb. Qed.

Lemma wf_create b s : Url.wf s -> Url.wf (Url.createObjectURL b s).2.
Proof.
  intros Hwf u. simpl. destruct (decide (u = Url.minted s)) as [->|Hne]; [lia|].
  rewrite lookup_insert_ne by done. intros ?%Hwf. lia.
Qed.

Lemma wf_revoke u s : Url.wf s -> Url.wf (Url.revokeObjectURL u s).
Proof.
  intros Hwf u'. simpl. destruct (decide (u' = u)) as [->|Hne].
  - rewrite lookup_delete_eq. by intros [? ?].
  - rewrite lookup_delete_ne by done. apply Hwf.
Qed.

(** A new URL is not live before it is minted. *)
Lemma create_fresh b s : Url.wf s -> Url.lookup (Url.createObjectURL b s).1 s = None.
Proof.
  intros Hwf. simpl. apply eq_None_not_Some. intros ?%Hwf. lia.
Qed.

End url_store.

(** The store is a [Ledger] of URLs for blobs, with [Url.wf] as its
    invariant and "minted" as "issued". *)
#[export] Instance url_ledger : Ledger Url.store nat Blob.
Proof.
  refine {| register := Url.createObjectURL;
            revoke := Url.revokeObjectURL;
            resolve := Url.lookup;
            issued u s := u < Url.minted s;
            ledger_ok := Url.wf |}.
  - apply wf_create.
  - apply wf_revoke.
  - intros; simpl; lia.
  - apply lookup_create.
  - intros; by apply lookup_create_ne.
  - intros; simpl; lia.
  - apply lookup_revoke.
  - intros; by apply lookup_revoke_ne.
  - done.
  - intros u s b Hwf Hb. apply Hwf. by exists b.
Defined.

(** ** What every client of a ledger can rely on

    The lemmas of this section are proved from the interface alone; the
    forms use them through [url_ledger]. *)

Section ledger_client.
Context {St Hd Bl : Type} {L : Ledger St Hd Bl} `{!EqDecision Hd}.
Implicit Types (s : St) (h : Hd) (hs : list Hd) (b : Bl).

(** Revoke every handle of a list, in order. *)
Definition revoke_all hs s : St := foldl (fun s h => revoke h s) s hs.

(** The operations a client can perform, and their effect. *)
Inductive ledger_op : Type :=
| OpRegister (b : Bl)
| OpRevoke (h : Hd)
| OpRevokeAll (hs : list Hd).

Definition run_op (o : ledger_op) s : St :=
  match o with
  | OpRegister b => (register b s).2
  | OpRevoke h => revoke h s
  | OpRevokeAll hs => revoke_all hs s
  end.

Definition run_ops (os : list ledger_op) s : St := foldl (fun s o => run_op o s) s os.

Lemma revoke_all_cons h hs s : revoke_all (h :: hs) s = revoke_all hs (revoke h s).
Proof. done. Qed.

Lemma revoke_all_app hs1 hs2 s :
  revoke_all (hs1 ++ hs2) s = revoke_all hs2 (revoke_all hs1 s).
Proof. apply foldl_app. Qed.

Lemma revoke_all_ok hs s : ledger_ok s -> ledger_ok (revoke_all hs s).
Proof. revert s; induction hs; simpl; auto using revoke_ok. Qed.

Lemma revoke_all_issued hs s h : issued h (revoke_all hs s) <-> issued h s.
Proof.
  revert s; induction hs as [|h' hs IH]; intros s; [done|].
  by rewrite revoke_all_cons, IH, revoke_issued.
Qed.

(** A handle that does not resolve stays so under revocations. *)
Lemma revoke_keeps_none h h' s :
  resolve h s = None -> resolve h (revoke h' s) = None.
Proof.
  intros Hs. destruct (decide (h = h')) as [->|Hne].
  - apply revoke_resolve.
  - by rewrite revoke_frame.
Qed.

Lemma revoke_all_keeps_none hs h s :
  resolve h s = None -> resolve h (revoke_all hs s) = None.
Proof. revert s; induction hs; simpl; auto using revoke_keeps_none. Qed.

(** After [revoke_all hs], no handle of [hs] resolves. *)
Lemma revoke_all_resolve hs h s : h ∈ hs -> resolve h (revoke_all hs s) = None.
Proof.
  revert s; induction hs as [|h' hs IH]; intros s; [by intros ?%elem_of_nil|].
  intros [->|Hin]%elem_of_cons; rewrite revoke_all_cons.
  - apply revoke_all_keeps_none, revoke_resolve.
  - by apply IH.
Qed.

(** The other handles are untouched. *)
Lemma revoke_all_frame hs h s :
  h ∉ hs -> resolve h (revoke_all hs s) = resolve h s.
Proof.
  revert s; induction hs as [|h' hs IH]; intros s; [done|].
  intros [Hne Hnin]%not_elem_of_cons.
  by rewrite revoke_all_cons, IH, revoke_frame.
Qed.

Lemma run_ops_app os1 os2 s : run_ops (os1 ++ os2) s = run_ops os2 (run_ops os1 s).
Proof. apply foldl_app. Qed.

Lemma run_op_ok o s : ledger_ok s -> ledger_ok (run_op o s).
Proof. destruct o; simpl; auto using register_ok, revoke_ok, revoke_all_ok. Qed.

Lemma run_ops_ok os s : ledger_ok s -> ledger_ok (run_ops os s).
Proof. revert s; induction os; simpl; auto using run_op_ok. Qed.

Lemma run_op_issued o s h : issued h s -> issued h (run_op o s).
Proof.
  destruct o; simpl; intros.
  - apply register_issued; auto.
  - by apply revoke_issued.
  - by apply revoke_all_issued.
Qed.

(** One operation does not bring back an issued handle that no longer
    resolves: registering mints a handle that was never issued. *)
Lemma run_op_keeps_none o s h :
  ledger_ok s -> issued h s -> resolve h s = None -> resolve h (run_op o s) = None.
Proof.
  intros Hok Hi Hn. destruct o as [b|h'|hs]; simpl.
  - rewrite register_frame; [done|]. intros ->. by apply (register_fresh b s).
  - by apply revoke_keeps_none.
  - by apply revoke_all_keeps_none.
Qed.

Lemma run_ops_keeps_none os s h :
  ledger_ok s -> issued h s -> resolve h s = None -> resolve h (run_ops os s) = None.
Proof.
  revert s; induction os as [|o os IH]; intros s Hok Hi Hn; [done|].
  apply IH; auto using run_op_ok, run_op_issued, run_op_keeps_none.
Qed.

End ledger_client.

(** ** The URL store as a client sees it *)

Section url_client.
Implicit Types (s : Url.store) (u : nat) (us : list nat).

Lemma revokeEach_revoke_all us s : Url.revokeEach us s = revoke_all us s.
Proof. done. Qed.

Lemma revokeEach_lookup us u s : u ∈ us -> Url.lookup u (Url.revokeEach us s) = None.
Proof. apply (revoke_all_resolve (L := url_ledger)). Qed.

Lemma revokeEach_lookup_ne us u s :
  u ∉ us -> Url.lookup u (Url.revokeEach us s) = Url.lookup u s.
Proof. apply (revoke_all_frame (L := url_ledger)). Qed.

Lemma revokeEach_wf us s : Url.wf s -> Url.wf (Url.revokeEach us s).
Proof. apply (revoke_all_ok (L := url_ledger)). Qed.

Lemma revokeEach_cons u us s :
  Url.revokeEach (u :: us) s = Url.revokeEach us (Url.revokeObjectURL u s).
Proof. done. Qed.

Lemma revokeEach_app us1 us2 s :
  Url.revokeEach (us1 ++ us2) s = Url.revokeEach us2 (Url.revokeEach us1 s).
Proof. apply foldl_app. Qed.

Lemma revokeEach_minted us s : Url.minted (Url.revokeEach us s) = Url.minted s.
Proof.
  revert s; induction us as [|u us IH]; intros s; [done|].
  by rewrite revokeEach_cons, IH.
Qed.

Lemma revokeEach_revocations us s :
  Url.revocations (Url.revokeEach us s) = reverse us ++ Url.revocations s.
Proof.
  revert s; induction us as [|u us IH]; intros s; [done|].
  rewrite revokeEach_cons, IH, reverse_cons, <-app_assoc. done.
Qed.

Lemma revokeIf_wf o s : Url.wf s -> Url.wf (Url.revokeIf o s).
Proof. destruct o; simpl; auto using wf_revoke. Qed.

Lemma revokeIf_minted o s : Url.minted (Url.revokeIf o s) = Url.minted s.
Proof. by destruct o. Qed.

Lemma revokeIf_lookup u s : Url.lookup u (Url.revokeIf (Some u) s) = None.
Proof. apply lookup_revoke. Qed.

(** The URL a call mints is the count of those minted before. *)
Lemma create_eta b s :
  Url.createObjectURL b s = (Url.minted s, (Url.createObjectURL b s).2).
Proof. done. Qed.

Lemma lookup_create_new b s :
  Url.lookup (Url.minted s) (Url.createObjectURL b s).2 = Some b.
Proof. apply lookup_create. Qed.

Lemma create_minted b s : Url.minted (Url.createObjectURL b s).2 = S (Url.minted s).
Proof. done. Qed.

Lemma times_revoked_revoke u v s :
  Url.times_revoked u (Url.revokeObjectURL v s) =
  (if decide (v = u) then 1 else 0) + Url.times_revoked u s.
Proof.
  unfold Url.times_revoked. simpl. rewrite filter_cons.
  by case_decide.
Qed.

Lemma lookup_empty_store u : Url.lookup u Url.empty = None.
Proof. apply lookup_empty. Qed.

Lemma times_revoked_revokeEach u us s :
  Url.times_revoked u (Url.revokeEach us s) =
  length (filter (fun v => v = u) us) + Url.times_revoked u s.
Proof.
  revert s; induction us as [|v us IH]; intros s; [done|].
  rewrite revokeEach_cons, IH, times_revoked_revoke, filter_cons.
  case_decide; simpl; lia.
Qed.

(** A list in which [u] occurs once, at its end. *)
Lemma filter_eq_snoc u us :
  u ∉ us -> length (filter (fun v => v = u) (us ++ [u])) = 1.
Proof.
  intros Hu. rewrite filter_app, length_app, filter_cons_True by done.
  destruct (filter (fun v => v = u) us) as [|v l] eqn:Hf; [done|].
  assert (v ∈ filter (fun v => v = u) us) as [-> ?]%list_elem_of_filter; [|done].
  rewrite Hf. left.
Qed.

End url_client.

#[export] Hint Resolve wf_empty wf_create wf_revoke revokeEach_wf revokeIf_wf : js.
#[export] Hint Rewrite revokeEach_minted revokeIf_minted create_minted : js.

(** ** Ledger safety *)

Section url_safety.
Implicit Types (ops : list (@ledger_op nat Blob)) (u : nat).

(** C5. Ledger safety of the document's URL store: after any sequence of
    [createObjectURL] and [revokeObjectURL] calls, a URL the store has
    minted and that is revoked never resolves again, whatever calls follow,
    revocations of URLs that are not live (revoked before, or never minted)
    included; and the store stays well formed. *)
Theorem url_store_safety ops ops' u :
  u < Url.minted (run_ops ops Url.empty) ->
  Url.lookup u (run_ops (ops ++ OpRevoke u :: ops') Url.empty) = None /\
  Url.wf (run_ops (ops ++ OpRevoke u :: ops') Url.empty).
Proof.
  intros Hu. rewrite run_ops_app. set (s := run_ops ops Url.empty) in *.
  assert (Hok : Url.wf s) by apply (run_ops_ok (L := url_ledger)), wf_empty.
  split; [|by apply (run_ops_ok (L := url_ledger) (_ :: _))].
  apply (run_ops_keeps_none (L := url_ledger) ops' (Url.revokeObjectURL u s)).
  - by apply wf_revoke.
  - done.
  - apply lookup_revoke.
Qed.

Lemma url_store_safety_witness :
  let ops := [OpRegister (mkBlob [] []); OpRevoke 7] in
  let ops' := [OpRevokeAll [0; 0; 3]; OpRegister (mkBlob [] []); OpRevokeAll []] in
  Url.lookup 0 (run_ops (ops ++ OpRevoke 0 :: ops') Url.empty) = None /\
  Url.wf (run_ops (ops ++ OpRevoke 0 :: ops') Url.empty).
Proof.
  apply (url_store_safety [OpRegister (mkBlob [] []); OpRevoke 7]
           [OpRevokeAll [0; 0; 3]; OpRegister (mkBlob [] []); OpRevokeAll []] 0).
  vm_compute. lia.
Defined.

End url_safety.
