(* ===== verification/React.v ===== *)
(** * The part of React the forms rely on

    Each form is a function component with [useState] cells and one
    [useEffect(() => cleanup, deps)].  What matters to the forms is when the
    cleanup runs and which values it sees:

    - the state updates an event handler makes between two [await]s are
      applied together, and the component renders once with the result;
    - after a render whose dependencies differ (by [Object.is]) from those of
      the render before, React runs the cleanup returned by the earlier
      render: it sees that render's values, not the new ones;
    - on unmount React runs the cleanup of the last render.

    An array in a dependency list is compared by identity, so an array value
    carries the stamp of its allocation.  [Class Effect] is the interface of
    a form's effect, [commit] and [unmount] are React's two moves.
    [render_each] renders after every update, as React before version 18
    does outside its event handlers; [render_each_batch] says when that
    makes no difference. *)

From stdpp Require Import base tactics option list.
From S2P Require Import Prelude Js Browser.

(** ** Arrays with identity *)

(** An array value: the stamp of its allocation and its members. *)
Record array (A : Type) : Type := mkArray {
  ref : nat;
  items : list A;
}.
Arguments mkArray {A} ref items.
Arguments ref {A} a.
Arguments items {A} a.

(** [Object.is(a, b)] for two values that are a URL or [null]. *)
Definition same_value (a b : option nat) : bool := bool_decide (a = b).

(** [Object.is(a, b)] for two arrays. *)
Definition same_array {A} (a b : array A) : bool := bool_decide (ref a = ref b).

(** ** Effects *)

(** The effect of a form with state [St]: whether the dependencies of two
    renders differ, what the cleanup of a render does to the URL store, and
    the URLs that cleanup revokes, in order. *)
Class Effect (St : Type) : Type := {
  deps_changed : St -> St -> bool;
  cleanup : St -> Url.store -> Url.store;
  held : St -> list nat;
  cleanup_held st s : cleanup st s = Url.revokeEach (held st) s;
}.

Section effect.
Context {St : Type} `{!Effect St}.
Implicit Types (old new : St) (s : Url.store) (u : nat).

(** The render that follows a batch of updates: with changed dependencies
    the cleanup of the render before runs. *)
Definition commit old new s : Url.store :=
  if deps_changed old new then cleanup old s else s.

(** Unmounting runs the cleanup of the last render. *)
Definition unmount old s : Url.store := cleanup old s.

Lemma commit_unchanged old new s : deps_changed old new = false -> commit old new s = s.
Proof. unfold commit. by intros ->. Qed.

Lemma commit_changed old new s :
  deps_changed old new = true -> commit old new s = Url.revokeEach (held old) s.
Proof. unfold commit. intros ->. apply cleanup_held. Qed.

Lemma commit_wf old new s : Url.wf s -> Url.wf (commit old new s).
Proof.
  unfold commit. case_match; [|done]. rewrite cleanup_held. apply revokeEach_wf.
Qed.

Lemma commit_minted old new s : Url.minted (commit old new s) = Url.minted s.
Proof.
  unfold commit. case_match; [|done]. by rewrite cleanup_held, revokeEach_minted.
Qed.

(** A commit revokes nothing but what the render before held. *)
Lemma commit_lookup_ne old new s u :
  u ∉ held old -> Url.lookup u (commit old new s) = Url.lookup u s.
Proof.
  intros Hu. unfold commit. case_match; [|done].
  rewrite cleanup_held. by apply revokeEach_lookup_ne.
Qed.

(** A commit never makes a URL resolve. *)
Lemma commit_lookup_none old new s u :
  Url.lookup u s = None -> Url.lookup u (commit old new s) = None.
Proof.
  intros Hu. unfold commit. case_match; [|done].
  rewrite cleanup_held. by apply (revoke_all_keeps_none (L := url_ledger)).
Qed.

(** When the dependencies changed, everything the render before held is
    revoked, whether or not the new state still refers to it. *)
Lemma commit_revokes old new s u :
  deps_changed old new = true -> u ∈ held old ->
  Url.lookup u (commit old new s) = None.
Proof. intros Hd Hu. rewrite commit_changed by done. by apply revokeEach_lookup. Qed.

(** After a cleanup, what is live was live before and was not held. *)
Lemma commit_live old new s u :
  deps_changed old new = true -> is_Some (Url.lookup u (commit old new s)) ->
  is_Some (Url.lookup u s) /\ u ∉ held old.
Proof.
  intros Hd Hu. destruct (decide (u ∈ held old)) as [Hin|Hin].
  - rewrite commit_revokes in Hu by done. by destruct Hu.
  - by rewrite commit_lookup_ne in Hu.
Qed.

(** When every live URL is held, a render that holds a newly minted URL and
    runs the cleanup of the render before leaves no URL live that it does
    not hold. *)
Lemma commit_fresh_held old new s b :
  (forall u, is_Some (Url.lookup u s) -> u ∈ held old) ->
  deps_changed old new = true -> Url.minted s ∈ held new ->
  forall u, is_Some (Url.lookup u (commit old new (Url.createObjectURL b s).2)) ->
            u ∈ held new.
Proof.
  intros Hheld Hd Hnew u [Hu Hnot]%commit_live; [|done].
  destruct (decide (u = Url.minted s)) as [->|Hne]; [done|].
  rewrite lookup_create_ne in Hu by done. by apply Hheld in Hu.
Qed.

Lemma unmount_revokes old s u : u ∈ held old -> Url.lookup u (unmount old s) = None.
Proof. intros Hu. unfold unmount. rewrite cleanup_held. by apply revokeEach_lookup. Qed.

Lemma unmount_lookup_ne old s u :
  u ∉ held old -> Url.lookup u (unmount old s) = Url.lookup u s.
Proof. intros Hu. unfold unmount. rewrite cleanup_held. by apply revokeEach_lookup_ne. Qed.

(** When every live URL is held by the last render, unmounting leaves no
    URL live. *)
Lemma unmount_all old s u :
  (forall v, is_Some (Url.lookup v s) -> v ∈ held old) ->
  Url.lookup u (unmount old s) = None.
Proof.
  intros Hheld. destruct (decide (u ∈ held old)) as [Hu|Hu]; [by apply unmount_revokes|].
  rewrite unmount_lookup_ne by done. destruct (Url.lookup u s) eqn:Hl; [|done].
  destruct Hu. apply Hheld. by rewrite Hl.
Qed.

Lemma unmount_wf old s : Url.wf s -> Url.wf (unmount old s).
Proof. unfold unmount. rewrite cleanup_held. apply revokeEach_wf. Qed.

(** ** Rendering without batching *)

(** Updates made after an [await] are outside React's event handler; a
    React that does not batch them renders once per update, and each render
    commits against the one before. *)
Fixpoint render_each old (updates : list (St -> St)) s : St * Url.store :=
  match updates with
  | [] => (old, s)
  | f :: fs => render_each (f old) fs (commit old (f old) s)
  end.

(** The same updates applied together and rendered once. *)
Definition render_batch old (updates : list (St -> St)) s : St * Url.store :=
  let new := foldl (fun st f => f st) old updates in (new, commit old new s).

(** An update the effect cannot tell from no update: it changes no
    dependency and nothing the cleanup reads. *)
Definition inert (f : St -> St) : Prop :=
  forall st, (forall new, deps_changed (f st) new = deps_changed st new) /\
             (forall old, deps_changed old (f st) = deps_changed old st) /\
             (forall s, cleanup (f st) s = cleanup st s).

Lemma commit_inert_l f old new s : inert f -> commit (f old) new s = commit old new s.
Proof. intros Hf. destruct (Hf old) as (Hl & _ & Hc). unfold commit. by rewrite Hl, Hc. Qed.

Lemma commit_inert_r f old new s : inert f -> commit old (f new) s = commit old new s.
Proof. intros Hf. destruct (Hf new) as (_ & Hr & _). unfold commit. by rewrite Hr. Qed.

Lemma commit_foldl_inert fs old new s :
  Forall inert fs -> commit old (foldl (fun st f => f st) new fs) s = commit old new s.
Proof.
  intros Hfs. revert new. induction Hfs as [|f fs Hf _ IH]; intros new; simpl; [done|].
  by rewrite IH, commit_inert_r.
Qed.

Section unbatched.
Hypothesis deps_refl : forall st : St, deps_changed st st = false.

(** Inert updates leave the store alone however they are rendered. *)
Lemma render_each_inert fs old s :
  Forall inert fs -> render_each old fs s = (foldl (fun st f => f st) old fs, s).
Proof.
  intros Hfs. revert old. induction Hfs as [|f fs Hf _ IH]; intros old; simpl; [done|].
  by rewrite commit_inert_r, (commit_unchanged old old s), IH.
Qed.

(** When one update at most of a stretch touches the dependencies, a render
    per update and one render for the stretch end in the same state with
    the same store. *)
Lemma render_each_batch pre f post old s :
  Forall inert pre -> Forall inert post ->
  render_each old (pre ++ f :: post) s = render_batch old (pre ++ f :: post) s.
Proof.
  intros Hpre Hpost. revert old.
  induction Hpre as [|g pre Hg _ IH]; intros old; unfold render_batch; simpl.
  - by rewrite render_each_inert, commit_foldl_inert.
  - rewrite commit_inert_r, (commit_unchanged old old s), IH by done.
    unfold render_batch. by rewrite commit_inert_l.
Qed.

Lemma render_each_batch_inert fs old s :
  Forall inert fs -> render_each old fs s = render_batch old fs s.
Proof.
  intros Hfs. unfold render_batch.
  by rewrite render_each_inert, commit_foldl_inert, (commit_unchanged old old s).
Qed.

End unbatched.

End effect.

#[export] Hint Resolve commit_wf unmount_wf : js.
#[export] Hint Rewrite @commit_minted : js.
