(* ===== verification/Remote.v ===== *)
(** * The conversion service as the forms see it

    The three converters post a multipart form with [fetch] and classify the
    response the same way: a response that is not [ok] is read as text, and
    the text (or a default message when it is empty) becomes the message of
    the error the handler throws; an [ok] response is read as a blob.  This
    file has the request and response values, the error the handlers build,
    and [classify], the one-shot reading of a settled exchange that the
    handlers implement await by await. *)

From stdpp Require Import base tactics option list.
From S2P Require Import Prelude Js Browser.

(** A value appended to a [FormData]. *)
Inductive form_value : Type :=
| FormFile (f : File)
| FormString (s : jsstring).

(** A [fetch(url, {method: 'POST', body: formData})] call: the address and
    the fields of the form in the order they were appended. *)
Record Request : Type := mkRequest {
  req_url : jsstring;
  req_body : list (jsstring * form_value);
}.

(** What the handlers read of a [Response] before its body: [response.ok]. *)
Record Response : Type := mkResponse {
  ok : bool;
}.

(** [new Error(errorText || fallback)]. *)
Definition error_of_text (fallback errorText : jsstring) : Exn.thrown :=
  Exn.ErrorObj (Str.or_default errorText fallback).

(** A settled exchange: how [fetch] settled, and how reading the body as
    text and as a blob would settle. *)
Record Exchange : Type := mkExchange {
  ex_fetch : settled Response;
  ex_text : settled jsstring;
  ex_blob : settled Blob;
}.

(** The blob of a successful exchange, or the error the handler's [catch]
    receives. *)
Definition classify (fallback : jsstring) (x : Exchange) : settled Blob :=
  match ex_fetch x with
  | Rejected e => Rejected e
  | Fulfilled r =>
      if ok r then ex_blob x
      else match ex_text x with
           | Rejected e => Rejected e
           | Fulfilled errorText => Rejected (error_of_text fallback errorText)
           end
  end.

(** ** Properties of the classification *)

Section classify.
Implicit Types (x : Exchange) (fallback : jsstring).

(** The error built from the server's text always has a message, and the
    message is never empty when the fallback is not. *)
Lemma error_of_text_message fallback t :
  Exn.message (error_of_text fallback t) = Some (Str.or_default t fallback).
Proof. done. Qed.

Lemma error_of_text_nonempty fallback t m :
  fallback <> [] -> Exn.message (error_of_text fallback t) = Some m -> m <> [].
Proof. intros Hf [= <-]. by apply or_default_truthy. Qed.

(** The server's text is passed on verbatim when there is one. *)
Lemma error_of_text_verbatim fallback t :
  t <> [] -> error_of_text fallback t = Exn.ErrorObj t.
Proof. intros Ht. unfold error_of_text. by rewrite or_default_nonempty. Qed.

Lemma error_of_text_empty fallback : error_of_text fallback [] = Exn.ErrorObj fallback.
Proof. done. Qed.

(** A blob is delivered only by an [ok] response whose body could be read. *)
Lemma classify_fulfilled fallback x b :
  classify fallback x = Fulfilled b <->
  exists r, ex_fetch x = Fulfilled r /\ ok r = true /\ ex_blob x = Fulfilled b.
Proof.
  unfold classify. destruct (ex_fetch x) as [[[]]|e]; simpl.
  - split; [intros ->; by eexists | by intros (? & [= <-] & _ & ->)].
  - split; [by destruct (ex_text x) | by intros (? & [= <-] & ? & _)].
  - split; [done | by intros (? & ? & _)].
Qed.

(** Every other exchange is classified as an error: no exchange is left
    unclassified. *)
Lemma classify_total fallback x :
  (exists b, classify fallback x = Fulfilled b) \/ (exists e, classify fallback x = Rejected e).
Proof. destruct (classify fallback x); eauto. Qed.

(** The error built from the server's text shows on the page. *)
Lemma shown_error_of_text fallback t :
  fallback <> [] -> shown (Exn.message (error_of_text fallback t)) = true.
Proof. intros Hf. simpl. by apply truthy_nonempty, or_default_truthy. Qed.

End classify.

#[export] Hint Resolve error_of_text_nonempty : js.
