(* ===== verification/Flight.v ===== *)
(** * Submissions in flight

    A form keeps no record of the [handleSubmit] calls it has started: each
    call lives on as a continuation suspended at an [await].  The models keep
    them in a list of tasks, and call a task active while handler code of
    its call is still to run.  This file counts the active tasks of a list,
    bounds the settlements they still wait for, and states once when a
    submission ends;
    the forms' invariants say that the count is one while the loading flag is
    set and zero otherwise. *)

From stdpp Require Import base tactics option list.
From Stdlib Require Import Lia Relation_Operators Wellfounded.Lexicographic_Product Wf_nat.
From S2P Require Import Prelude.

Section flight.
Context {T : Type} (active : T -> bool).
Implicit Types (ts : list T) (k : T) (t : nat).

Fixpoint activeCount ts : nat :=
  match ts with
  | [] => 0
  | k :: ts' => (if active k then 1 else 0) + activeCount ts'
  end.

Lemma activeCount_app ts1 ts2 : activeCount (ts1 ++ ts2) = activeCount ts1 + activeCount ts2.
Proof. induction ts1 as [|k ts1 IH]; simpl; [done|]. rewrite IH. lia. Qed.

Lemma activeCount_lookup ts t k :
  ts !! t = Some k -> active k = true -> 1 <= activeCount ts.
Proof.
  revert t; induction ts as [|k' ts IH]; intros [|t] Ht Hk; simplify_eq/=.
  - rewrite Hk. lia.
  - specialize (IH _ Ht Hk). lia.
Qed.

Lemma activeCount_insert ts t k k' :
  ts !! t = Some k ->
  activeCount (<[t := k']> ts) + (if active k then 1 else 0) =
  activeCount ts + (if active k' then 1 else 0).
Proof.
  revert t; induction ts as [|k0 ts IH]; intros [|t] Ht; simplify_eq/=; [lia|].
  specialize (IH _ Ht). lia.
Qed.

Lemma activeCount_0 ts : activeCount ts = 0 -> Forall (fun k => active k = false) ts.
Proof.
  induction ts as [|k ts IH]; simpl; [done|]. intros H.
  destruct (active k) eqn:Hk; [lia|]. constructor; [done|]. apply IH. lia.
Qed.

(** With a count of one, some task is active. *)
Lemma activeCount_1 ts : activeCount ts = 1 -> exists t k, ts !! t = Some k /\ active k = true.
Proof.
  induction ts as [|k ts IH]; simpl; [done|]. intros H.
  destruct (active k) eqn:Hk; [by exists 0, k|].
  destruct IH as (t & k' & ? & ?); [lia|]. by exists (S t), k'.
Qed.

(** With one active task, the others are not. *)
Lemma activeCount_sole ts t k k' :
  activeCount ts = 1 -> ts !! t = Some k -> active k = true ->
  Forall (fun k'' => k'' = k' \/ active k'' = false) (<[t := k']> ts).
Proof.
  revert t; induction ts as [|k0 ts IH]; intros [|t] Hc Ht Hk; simplify_eq/=.
  - rewrite Hk in Hc. constructor; [by left|].
    eapply Forall_impl; [apply activeCount_0; lia|]. naive_solver.
  - destruct (active k0) eqn:Hk0.
    + pose proof (activeCount_lookup _ _ _ Ht Hk). lia.
    + constructor; [by right|]. eapply IH; eauto.
Qed.

(** A task that moves between two active stages, or between two inactive
    ones, leaves the count as it is; an active task that ends lowers it. *)
Lemma activeCount_insert_same ts t k k' :
  ts !! t = Some k -> active k' = active k -> activeCount (<[t := k']> ts) = activeCount ts.
Proof. intros Ht Hk. pose proof (activeCount_insert _ _ _ k' Ht). rewrite Hk in *. lia. Qed.

Lemma activeCount_insert_end ts t k k' :
  ts !! t = Some k -> active k = true -> active k' = false ->
  S (activeCount (<[t := k']> ts)) = activeCount ts.
Proof.
  intros Ht Hk Hk'. pose proof (activeCount_insert _ _ _ k' Ht). rewrite Hk, Hk' in *. lia.
Qed.

(** ** The task in flight *)

(** With no active task, none is found. *)
Lemma find_active_0 ts : activeCount ts = 0 -> find active ts = None.
Proof.
  induction ts as [|k ts IH]; simpl; [done|]. destruct (active k); [lia|]. intros. apply IH. lia.
Qed.

(** The one active task is the task found. *)
Lemma find_active_sole ts t k :
  activeCount ts = 1 -> ts !! t = Some k -> active k = true -> find active ts = Some k.
Proof.
  revert t; induction ts as [|k0 ts IH]; intros [|t] Hc Ht Hk; simplify_eq/=.
  - by rewrite Hk.
  - destruct (active k0) eqn:Hk0; [|by eapply IH].
    pose proof (activeCount_lookup _ _ _ Ht Hk). lia.
Qed.

(** When the one active task moves, the task found is the task it became,
    if that is active. *)
Lemma find_active_insert ts t k k' :
  activeCount ts = 1 -> ts !! t = Some k -> active k = true ->
  find active (<[t := k']> ts) = if active k' then Some k' else None.
Proof.
  intros Hc Ht Hk. pose proof (activeCount_insert _ _ _ k' Ht) as Hins.
  pose proof (lookup_lt_Some _ _ _ Ht) as Hlt. rewrite Hk in Hins.
  destruct (active k') eqn:Hk'.
  - apply (find_active_sole _ t); [lia|by apply list_lookup_insert_eq|done].
  - apply find_active_0. lia.
Qed.

(** A task that was not active and does not become so is not in the way. *)
Lemma find_active_insert_inactive ts t k k' :
  ts !! t = Some k -> active k = false -> active k' = false ->
  find active (<[t := k']> ts) = find active ts.
Proof.
  revert t; induction ts as [|k0 ts IH]; intros [|t] Ht Hk Hk'; simplify_eq/=.
  - by rewrite Hk, Hk'.
  - destruct (active k0); [done|]. by eapply IH.
Qed.

(** A task started when none is active is the task found. *)
Lemma find_active_snoc ts k :
  activeCount ts = 0 -> find active (ts ++ [k]) = if active k then Some k else None.
Proof.
  induction ts as [|k0 ts IH]; simpl; [by destruct (active k)|].
  destruct (active k0); [lia|]. intros. apply IH. lia.
Qed.

End flight.

(** ** The awaits a list of tasks still has before it

    [awaits k] bounds the number of promises the handler of a task at stage
    [k] will still wait for; [remaining] adds them up.  A settlement that
    moves a task to a stage with fewer awaits lowers the sum, so the sum
    bounds the number of settlements the page can still see. *)

Section remaining.
Context {T : Type} (active : T -> bool) (awaits : T -> nat).
Implicit Types (ts : list T) (k : T) (t : nat).

Fixpoint remaining ts : nat :=
  match ts with
  | [] => 0
  | k :: ts' => awaits k + remaining ts'
  end.

Lemma remaining_app ts1 ts2 : remaining (ts1 ++ ts2) = remaining ts1 + remaining ts2.
Proof. induction ts1 as [|k ts1 IH]; simpl; [done|]. rewrite IH. lia. Qed.

Lemma remaining_insert ts t k k' :
  ts !! t = Some k -> remaining (<[t := k']> ts) + awaits k = remaining ts + awaits k'.
Proof.
  revert t; induction ts as [|k0 ts IH]; intros [|t] Ht; simplify_eq/=; [lia|].
  specialize (IH _ Ht). lia.
Qed.

(** A task that moves to a stage with fewer awaits lowers the sum. *)
Lemma remaining_insert_lt ts t k k' :
  ts !! t = Some k -> awaits k' < awaits k -> remaining (<[t := k']> ts) < remaining ts.
Proof. intros Ht Hlt. pose proof (remaining_insert _ _ _ k' Ht). lia. Qed.

(** When only active tasks have awaits, and at most [n] of them each, the
    sum is at most [n] per active task, and is zero exactly when no task is
    active. *)
Lemma remaining_bound n ts :
  (forall k, awaits k <= if active k then n else 0) ->
  remaining ts <= n * activeCount active ts.
Proof.
  intros Hb. induction ts as [|k ts IH]; simpl; [lia|].
  specialize (Hb k). destruct (active k); lia.
Qed.

Lemma remaining_0 ts :
  (forall k, awaits k = 0 <-> active k = false) ->
  remaining ts = 0 <-> activeCount active ts = 0.
Proof.
  intros Hz. induction ts as [|k ts IH]; simpl; [done|].
  specialize (Hz k). destruct (active k); [|lia].
  split; [|lia]. intros H. assert (awaits k = 0) as ?%Hz by lia. done.
Qed.

End remaining.

(** ** Two measures, ordered lexicographically

    Where the number of awaits is not known in advance (the entries of an
    archive appear when the archive is loaded), a task is measured by its
    stage and, within a stage, by the promises it still waits for. *)

Section ranked.
Context {T : Type} (rank pending : T -> nat).
Implicit Types (ts : list T) (k : T) (t : nat).

Definition lex_lt : (nat * nat) -> (nat * nat) -> Prop := slexprod nat nat lt lt.

Lemma lex_lt_wf : well_founded lex_lt.
Proof. apply wf_slexprod; apply lt_wf. Qed.

Definition measure ts : nat * nat := (remaining rank ts, remaining pending ts).

(** A task that moves to an earlier stage, or stays at its stage with
    fewer promises to wait for, lowers the measure. *)
Lemma measure_insert ts t k k' :
  ts !! t = Some k ->
  rank k' < rank k \/ (rank k' = rank k /\ pending k' < pending k) ->
  lex_lt (measure (<[t := k']> ts)) (measure ts).
Proof.
  intros Ht Hlt. unfold measure.
  pose proof (remaining_insert rank _ _ _ k' Ht) as Hr.
  pose proof (remaining_insert pending _ _ _ k' Ht) as Hp.
  destruct Hlt as [Hlt|[Heq Hlt]].
  - apply left_slex. lia.
  - replace (remaining rank (<[t := k']> ts)) with (remaining rank ts) by lia.
    apply right_slex. lia.
Qed.

End ranked.

(** ** A submission ends

    What the forms with a fixed number of awaits share: when the awaits of
    the active tasks are bounded by [n], every settlement lowers their sum and
    every active task waits for a promise that can settle, a configuration
    with one active task while the loading flag is set and none otherwise
    is at most [n] settlements away from a clear loading flag. *)

Section submission.
Context {C E T : Type} (tasks : C -> list T) (loading : C -> bool).
Context (step : E -> C -> option C) (settlement : E -> bool).
Context (active : T -> bool) (awaits : T -> nat) (n : nat).
Implicit Types (c : C) (e : E) (k : T) (t : nat).

Definition ends c : Prop :=
  remaining awaits (tasks c) <= n /\
  (remaining awaits (tasks c) = 0 <-> loading c = false) /\
  (forall e c', settlement e = true -> step e c = Some c' ->
                remaining awaits (tasks c') < remaining awaits (tasks c)) /\
  (loading c = true -> exists e c', settlement e = true /\ step e c = Some c').

Hypothesis awaits_bound : forall k, awaits k <= if active k then n else 0.
Hypothesis awaits_0 : forall k, awaits k = 0 <-> active k = false.
Hypothesis settle_lt : forall e c c',
  settlement e = true -> step e c = Some c' ->
  remaining awaits (tasks c') < remaining awaits (tasks c).
Hypothesis can_settle : forall c t k,
  tasks c !! t = Some k -> active k = true ->
  exists e c', settlement e = true /\ step e c = Some c'.

Lemma submission_ends c :
  activeCount active (tasks c) = (if loading c then 1 else 0) -> ends c.
Proof.
  intros Hact. pose proof (remaining_bound active awaits n (tasks c) awaits_bound) as Hb.
  pose proof (remaining_0 active awaits (tasks c) awaits_0) as Hz. split_and!.
  - destruct (loading c); lia.
  - rewrite Hz, Hact. by destruct (loading c).
  - intros e c'. apply settle_lt.
  - intros Hl. rewrite Hl in Hact.
    destruct (activeCount_1 active _ Hact) as (t & k & Ht & Hk). by eapply can_settle.
Qed.

End submission.

Arguments remaining_app {T awaits} ts1 ts2.
Arguments remaining_insert {T awaits} ts t k k'.
Arguments remaining_insert_lt {T awaits} ts t k k'.
Arguments remaining_bound {T active awaits} n ts.
Arguments remaining_0 {T active awaits} ts.
Arguments find_active_0 {T active} ts.
Arguments find_active_sole {T active} ts t k.
Arguments find_active_insert {T active} ts t k k'.
Arguments find_active_insert_inactive {T active} ts t k k'.
Arguments find_active_snoc {T active} ts k.
Arguments activeCount_app {T active} ts1 ts2.
Arguments activeCount_lookup {T active} ts t k.
Arguments activeCount_insert {T active} ts t k k'.
Arguments activeCount_0 {T active} ts.
Arguments activeCount_1 {T active} ts.
Arguments activeCount_sole {T active} ts t k k'.
Arguments activeCount_insert_same {T active} ts t k k'.
Arguments activeCount_insert_end {T active} ts t k k'.
