(* ===== verification/Session.v ===== *)
(** * The conversion session of the design, and what it is to implement it

    The design describes every form as one state machine, the conversion
    session: an input is staged, submitted, the answer decoded, and the
    session ends ready or failed.  [Module Session] has that machine: its
    phases, its labels and its transition function.  It extends the
    design's list of transitions by one edge the design leaves out and
    every form has: a staged input may be submitted again from [Ready] and
    from [Failed].

    A form implements the session through a [Form] instance: a phase for
    each configuration, and for each event the labels of the transitions it
    stands for (none for an event the session does not see, two for an
    event that delivers an answer which needs no decoding).  The instance
    also names the events at which the form {e departs} from the design;
    [simulates] says that every other event moves the phase as the session
    does, and [conforming_accepts] concludes that the labels of a run
    without departures are a run of the session.  A form mounted inside
    another system keeps its simulation: [embeds] says that the system, at
    the configurations that wrap the form's, does for the form's events
    what the form does, and [simulates_embedded] carries the form's
    simulation over. *)

From stdpp Require Import base tactics option list.
From S2P Require Import Prelude.

Module Session.

Inductive Phase : Type := Idle | Staged | Submitting | Decoding | Ready | Failed.

(** [SelectInputs valid]: a selection, with whether any of it is valid. *)
Inductive Label : Type :=
| SelectInputs (valid : bool)
| Submit
| RemoteSuccess
| RemoteFailure
| DecodeSuccess
| DecodeFailure
| Reset.

Definition transition (l : Label) (p : Phase) : option Phase :=
  match l, p with
  | SelectInputs true, _ => Some Staged
  | SelectInputs false, _ => Some Failed
  | Submit, (Staged | Ready | Failed) => Some Submitting
  | RemoteSuccess, Submitting => Some Decoding
  | RemoteFailure, Submitting => Some Failed
  | DecodeSuccess, Decoding => Some Ready
  | DecodeFailure, Decoding => Some Failed
  | Reset, (Ready | Failed) => Some Idle
  | _, _ => None
  end.

(** The phase a sequence of labels leads to, if the session accepts it. *)
Fixpoint accepts (ls : list Label) (p : Phase) : option Phase :=
  match ls with
  | [] => Some p
  | l :: ls' => p' ← transition l p; accepts ls' p'
  end.

(** The phase a page shows: the stage of the submission in flight when
    there is one; otherwise an output on the page means [Ready], a message
    [Failed], and a staged input [Staged]. *)
Definition display (flight : option Phase) (output failed staged : bool) : Phase :=
  match flight with
  | Some p => p
  | None =>
      if output then Ready else if failed then Failed else if staged then Staged else Idle
  end.

End Session.

#[export] Instance phase_eq_dec : EqDecision Session.Phase.
Proof. solve_decision. Defined.

#[export] Instance label_eq_dec : EqDecision Session.Label.
Proof. solve_decision. Defined.

(** A form seen as a session. *)
Class Form (C E : Type) : Type := {
  form_init : C;
  form_enabled : E -> C -> bool;
  form_step : E -> C -> option C;
  form_phase : C -> Session.Phase;
  form_labels : E -> C -> list Session.Label;
  form_departs : E -> C -> bool;
}.

Section refinement.
Context {C E : Type} `{!Form C E}.
Implicit Types (c : C) (e : E) (es : list E) (ls : list Session.Label) (I : C -> Prop).

(** A run of the form without departures, with the labels of its events. *)
Fixpoint conforming es c : option (C * list Session.Label) :=
  match es with
  | [] => Some (c, [])
  | e :: es' =>
      if form_enabled e c && negb (form_departs e c) then
        c' ← form_step e c;
        '(c'', ls) ← conforming es' c';
        Some (c'', form_labels e c ++ ls)
      else None
  end.

(** [I] holds at the first render and along every step, and every step
    that is not a departure moves the phase as the session does. *)
Definition simulates I : Prop :=
  I form_init /\
  forall e c c', I c -> form_enabled e c = true -> form_step e c = Some c' ->
    I c' /\
    (form_departs e c = false ->
     Session.accepts (form_labels e c) (form_phase c) = Some (form_phase c')).

Lemma accepts_app ls1 ls2 p :
  Session.accepts (ls1 ++ ls2) p = Session.accepts ls1 p ≫= Session.accepts ls2.
Proof.
  revert p; induction ls1 as [|l ls1 IH]; intros p; simpl; [done|].
  destruct (Session.transition l p); simpl; [apply IH|done].
Qed.

(** The session accepts the labels of a run without departures, and ends in
    the phase of the configuration the run ends in. *)
Lemma conforming_accepts I es c c' ls :
  simulates I -> I c -> conforming es c = Some (c', ls) ->
  I c' /\ Session.accepts ls (form_phase c) = Some (form_phase c').
Proof.
  intros [_ Hsim]. revert c ls; induction es as [|e es IH]; intros c ls Hc Hes;
    simplify_eq/=; [done|].
  destruct (form_enabled e c) eqn:He, (form_departs e c) eqn:Hd; simplify_eq/=.
  destruct (form_step e c) as [c1|] eqn:Hs; simplify_eq/=.
  destruct (conforming es c1) as [[c2 ls2]|] eqn:Hes'; simplify_eq/=.
  destruct (Hsim e c c1 Hc He Hs) as [Hc1 Hacc]. destruct (IH c1 ls2 Hc1 Hes') as [Hc2 Hacc2].
  split; [done|]. by rewrite accepts_app, (Hacc Hd).
Qed.

End refinement.

(** ** A form inside a larger system *)

Section embedding.
Context {C E C' E' : Type} (inner : Form C E) (outer : Form C' E').
Context (wrap : C -> C') (ev : E -> E').
Implicit Types (c : C) (e : E) (I : C -> Prop).

(** At the configurations [wrap c] and for the events [ev e], the outer
    system does what the form does. *)
Record embeds : Prop := mkEmbeds {
  embeds_enabled e c :
    @form_enabled _ _ outer (ev e) (wrap c) = true -> @form_enabled _ _ inner e c = true;
  embeds_step e c :
    @form_step _ _ outer (ev e) (wrap c) = wrap <$> @form_step _ _ inner e c;
  embeds_phase c : @form_phase _ _ outer (wrap c) = @form_phase _ _ inner c;
  embeds_labels e c :
    @form_labels _ _ outer (ev e) (wrap c) = @form_labels _ _ inner e c;
  embeds_departs e c :
    @form_departs _ _ outer (ev e) (wrap c) = @form_departs _ _ inner e c;
}.

(** The form's simulation holds of its events inside the system. *)
Lemma simulates_embedded I e c (d : C') :
  embeds -> @simulates _ _ inner I -> I c ->
  @form_enabled _ _ outer (ev e) (wrap c) = true ->
  @form_step _ _ outer (ev e) (wrap c) = Some d ->
  exists c', d = wrap c' /\ I c' /\
    (@form_departs _ _ outer (ev e) (wrap c) = false ->
     Session.accepts (@form_labels _ _ outer (ev e) (wrap c)) (@form_phase _ _ outer (wrap c))
     = Some (@form_phase _ _ outer d)).
Proof.
  intros [Hen Hst Hph Hla Hde] [_ Hsim] Hc He Hs.
  rewrite Hst in Hs. apply fmap_Some in Hs as (c' & Hs & ->).
  destruct (Hsim e c c' Hc (Hen _ _ He) Hs) as [Hc' Hacc].
  exists c'. split_and!; [done..|]. rewrite Hde, Hla, !Hph. apply Hacc.
Qed.

End embedding.
