(* ===== verification/PdfToImage.v ===== *)
(** * The PDF-to-image form (src/my-tools-io/src/components/PdfToImageConverter.jsx)

    [Module PdfToImageConverter] models the component: its six state cells,
    the effect that revokes object URLs, [handleFileChange], [handleSubmit]
    (one definition per stretch of code between two [await]s, the archive
    entries settling one at a time), and what the component renders.  A
    configuration [Config] is the component's state together with the
    document's URL store, the requests sent so far and the continuations of
    the [handleSubmit] calls in flight; [step] applies one event to it. *)

From stdpp Require Import base tactics option list strings.
From S2P Require Import Prelude Js Browser React Remote.

Module PdfToImageConverter.

(** ** Data *)

(** A member of a loaded archive, as [zip.forEach] presents it:
    [zipEntry.name] and [zipEntry.dir]. *)
Record ZipObject : Type := mkZipObject {
  zip_name : jsstring;
  zip_dir : bool;
}.

(** A preview: [{ name, url }]. *)
Record Image : Type := mkImage {
  name : jsstring;
  url : nat;
}.

(** The [useState] cells of the component. *)
Record State : Type := mkState {
  selectedFile : option File;
  targetFormat : jsstring;
  convertedImages : array Image;
  zipUrl : option nat;
  isLoading : bool;
  error : option jsstring;
}.

(** The state of the first render; the initial array has stamp [0]. *)
Definition initial : State :=
  {| selectedFile := None;
     targetFormat := Str.lit "png";
     convertedImages := mkArray 0 [];
     zipUrl := None;
     isLoading := false;
     error := None |}.

Definition setSelectedFile (v : option File) (s : State) : State :=
  mkState v (targetFormat s) (convertedImages s) (zipUrl s) (isLoading s) (error s).
Definition setTargetFormat (v : jsstring) (s : State) : State :=
  mkState (selectedFile s) v (convertedImages s) (zipUrl s) (isLoading s) (error s).
Definition setConvertedImages (v : array Image) (s : State) : State :=
  mkState (selectedFile s) (targetFormat s) v (zipUrl s) (isLoading s) (error s).
Definition setZipUrl (v : option nat) (s : State) : State :=
  mkState (selectedFile s) (targetFormat s) (convertedImages s) v (isLoading s) (error s).
Definition setIsLoading (v : bool) (s : State) : State :=
  mkState (selectedFile s) (targetFormat s) (convertedImages s) (zipUrl s) v (error s).
Definition setError (v : option jsstring) (s : State) : State :=
  mkState (selectedFile s) (targetFormat s) (convertedImages s) (zipUrl s) (isLoading s) v.

(** ** The effect *)

(** The cleanup of a render: every preview URL, then the archive URL. *)
Definition revokeUrls (s : State) (σ : Url.store) : Url.store :=
  Url.revokeIf (zipUrl s) (Url.revokeEach (url <$> items (convertedImages s)) σ).

(** The dependency list is [[convertedImages, zipUrl]]. *)
Definition depsChanged (old new : State) : bool :=
  negb (same_array (convertedImages old) (convertedImages new))
  || negb (same_value (zipUrl old) (zipUrl new)).

(** The URLs a render holds, in the order its cleanup revokes them. *)
Definition heldUrls (s : State) : list nat :=
  (url <$> items (convertedImages s)) ++ option_list (zipUrl s).

#[export] Instance effect : Effect State.
Proof.
  refine {| deps_changed := depsChanged; cleanup := revokeUrls; held := heldUrls |}.
  intros st σ. unfold revokeUrls, heldUrls, Url.revokeEach.
  rewrite foldl_app. by destruct (zipUrl st).
Defined.

(** ** Configurations *)

(** Where a [handleSubmit] call stands: the [await] it is suspended at.
    [AwaitAll] is the [await Promise.all(imagePromises)]: the names of the
    entries, how each entry's promise stands, and whether [Promise.all] has
    already rejected (the handler has then run its [catch], and only the
    entries' own [then] callbacks remain). *)
Inductive Task : Type :=
| AwaitFetch
| AwaitText
| AwaitBlob
| AwaitLoad (zipBlob : Blob)
| AwaitAll (rejected : bool) (names : list jsstring) (slots : list (PromiseAll.slot Image))
| Finished.

Record Config : Type := mkConfig {
  state : State;
  urls : Url.store;
  stamp : nat;
  tasks : list Task;
  requests : list Request;
}.

(** The component just mounted; stamp [0] is taken by the initial array. *)
Definition init : Config :=
  {| state := initial; urls := Url.empty; stamp := 1; tasks := []; requests := [] |}.

(** The render after a stretch of handler code: the new state is committed
    ([σ] is the store as the handler left it). *)
Definition render_with (new : State) (σ : Url.store) (c : Config) : Config :=
  mkConfig new (commit (state c) new σ) (stamp c) (tasks c) (requests c).

Definition setTask (t : nat) (k : Task) (c : Config) : Config :=
  mkConfig (state c) (urls c) (stamp c) (<[t := k]> (tasks c)) (requests c).

(** A fresh array [l]: a new stamp is taken. *)
Definition newArray (l : list Image) (c : Config) : array Image * Config :=
  (mkArray (stamp c) l,
   mkConfig (state c) (urls c) (S (stamp c)) (tasks c) (requests c)).

(** ** [handleFileChange] *)

Definition pdfMime : jsstring := Str.lit "application/pdf".

Definition handleFileChange (files : list File) (c : Config) : Config :=
  match head files with
  | Some file =>
      if bool_decide (file_type file = pdfMime) then
        let '(arr, c) := newArray [] c in
        render_with
          (setError None (setZipUrl None (setConvertedImages arr
             (setSelectedFile (Some file) (state c)))))
          (urls c) c
      else
        render_with
          (setError (Some (Str.lit "Please select a valid PDF file."))
             (setSelectedFile None (state c)))
          (urls c) c
  | None =>
      render_with
        (setError (Some (Str.lit "Please select a valid PDF file."))
           (setSelectedFile None (state c)))
        (urls c) c
  end.

(** The [onChange] of the format select. *)
Definition handleFormatChange (value : jsstring) (c : Config) : Config :=
  render_with (setTargetFormat value (state c)) (urls c) c.

(** ** [handleSubmit] *)

Definition endpoint : jsstring :=
  Str.lit "http://localhost:8080/api/convert/pdf-to-image".

Definition fallbackMessage : jsstring := Str.lit "PDF to Image conversion failed.".

(** The form data of a submission. *)
Definition formData (file : File) (format : jsstring) : list (jsstring * form_value) :=
  [(Str.lit "file", FormFile file); (Str.lit "format", FormString format)].

(** From the call to the first [await]: the guard, the four resets, the
    request. *)
Definition handleSubmit (c : Config) : Config :=
  match selectedFile (state c) with
  | None =>
      render_with (setError (Some (Str.lit "Please select a PDF file first.")) (state c))
        (urls c) c
  | Some file =>
      let '(arr, c) := newArray [] c in
      let c :=
        render_with
          (setZipUrl None (setConvertedImages arr (setError None
             (setIsLoading true (state c)))))
          (urls c) c in
      mkConfig (state c) (urls c) (stamp c) (tasks c ++ [AwaitFetch])
        (requests c ++ [mkRequest endpoint (formData file (targetFormat (state c)))])
  end.

(** The [catch] and [finally] clauses: the error's message is shown and the
    loading flag cleared. *)
Definition catchFinally (err : Exn.thrown) (c : Config) : Config :=
  render_with (setIsLoading false (setError (Exn.message err) (state c))) (urls c) c.

(** [await fetch(...)] settled. *)
Definition onFetch (t : nat) (r : settled Response) (c : Config) : Config :=
  match r with
  | Rejected err => setTask t Finished (catchFinally err c)
  | Fulfilled response =>
      if ok response then setTask t AwaitBlob c else setTask t AwaitText c
  end.

(** [await response.text()] settled: the handler throws the server's text. *)
Definition onText (t : nat) (r : settled jsstring) (c : Config) : Config :=
  match r with
  | Rejected err => setTask t Finished (catchFinally err c)
  | Fulfilled errorText =>
      setTask t Finished (catchFinally (error_of_text fallbackMessage errorText) c)
  end.

(** [await response.blob()] settled: the archive gets its URL, and loading
    it starts. *)
Definition onBlob (t : nat) (r : settled Blob) (c : Config) : Config :=
  match r with
  | Rejected err => setTask t Finished (catchFinally err c)
  | Fulfilled zipBlob =>
      let '(u, σ) := Url.createObjectURL zipBlob (urls c) in
      setTask t (AwaitLoad zipBlob) (render_with (setZipUrl (Some u) (state c)) σ c)
  end.

(** The entries [zip.forEach] pushes a promise for: those that are not
    directories, in the archive's order. *)
Definition imagePromises (zip : list ZipObject) : list jsstring :=
  zip_name <$> filter (fun e => zip_dir e = false) zip.

(** After [await Promise.all(imagePromises)]: the previews are stored and
    the loading flag cleared. *)
Definition showImages (images : list Image) (c : Config) : Config :=
  let '(arr, c) := newArray images c in
  render_with (setIsLoading false (setConvertedImages arr (state c))) (urls c) c.

(** [await JSZip.loadAsync(zipBlob)] settled.  With no entry to read,
    [Promise.all([])] is fulfilled at once. *)
Definition onLoad (t : nat) (r : settled (list ZipObject)) (c : Config) : Config :=
  match r with
  | Rejected err => setTask t Finished (catchFinally err c)
  | Fulfilled zip =>
      match imagePromises zip with
      | [] => setTask t Finished (showImages [] c)
      | names => setTask t (AwaitAll false names (const PromiseAll.Pending <$> names)) c
      end
  end.

(** What remains of an [AwaitAll] task once [Promise.all] has rejected: the
    entries still to settle, or nothing. *)
Definition awaitAll (rejected : bool) (names : list jsstring)
    (slots : list (PromiseAll.slot Image)) : Task :=
  if PromiseAll.unsettled slots then AwaitAll rejected names slots else Finished.

(** [zipEntry.async('blob')] of entry [i] settled.  A fulfilled entry gets
    its URL in the [then] callback, whatever became of [Promise.all]; the
    last entry to be fulfilled resumes the handler; the first entry to be
    rejected makes [Promise.all] reject. *)
Definition onEntry (t i : nat) (rejected : bool) (names : list jsstring)
    (slots : list (PromiseAll.slot Image)) (r : settled Blob) (c : Config) : Config :=
  match r with
  | Fulfilled blob =>
      let '(u, σ) := Url.createObjectURL blob (urls c) in
      let slots := <[i := PromiseAll.Done (mkImage (names !!! i) u)]> slots in
      let c := mkConfig (state c) σ (stamp c) (tasks c) (requests c) in
      if rejected then setTask t (awaitAll true names slots) c
      else match PromiseAll.values slots with
           | Some images => setTask t Finished (showImages images c)
           | None => setTask t (AwaitAll false names slots) c
           end
  | Rejected err =>
      let slots := <[i := PromiseAll.Failed]> slots in
      if rejected then setTask t (awaitAll true names slots) c
      else setTask t (awaitAll true names slots) (catchFinally err c)
  end.

(** ** Events *)

Inductive Event : Type :=
| FileChange (files : list File)
| FormatChange (value : jsstring)
| Submit
| FetchSettled (t : nat) (r : settled Response)
| TextSettled (t : nat) (r : settled jsstring)
| BlobSettled (t : nat) (r : settled Blob)
| LoadSettled (t : nat) (r : settled (list ZipObject))
| EntrySettled (t i : nat) (r : settled Blob).

(** One event applied to a configuration; [None] when the event cannot
    happen there (no such task, or the task is not at that [await]). *)
Definition step (e : Event) (c : Config) : option Config :=
  match e with
  | FileChange files => Some (handleFileChange files c)
  | FormatChange value => Some (handleFormatChange value c)
  | Submit => Some (handleSubmit c)
  | FetchSettled t r =>
      match tasks c !! t with Some AwaitFetch => Some (onFetch t r c) | _ => None end
  | TextSettled t r =>
      match tasks c !! t with Some AwaitText => Some (onText t r c) | _ => None end
  | BlobSettled t r =>
      match tasks c !! t with Some AwaitBlob => Some (onBlob t r c) | _ => None end
  | LoadSettled t r =>
      match tasks c !! t with Some (AwaitLoad _) => Some (onLoad t r c) | _ => None end
  | EntrySettled t i r =>
      match tasks c !! t with
      | Some (AwaitAll rejected names slots) =>
          match slots !! i with
          | Some PromiseAll.Pending => Some (onEntry t i rejected names slots r c)
          | _ => None
          end
      | _ => None
      end
  end.

(** ** What the component renders *)

(** A thumbnail of the grid. *)
Record Thumb : Type := mkThumb {
  thumb_src : nat;
  thumb_alt : jsstring;
  thumb_caption : jsstring;
}.

(** The results section. *)
Record Results : Type := mkResults {
  res_heading : jsstring;
  res_zip : option (nat * jsstring);
  res_wait : bool;
  res_grid : list Thumb;
}.

(** The parts of the page that depend on the state: the select's value, the
    submit button, the alert, the results section. *)
Record View : Type := mkView {
  view_format : jsstring;
  view_disabled : bool;
  view_label : jsstring;
  view_alert : option jsstring;
  view_results : option Results;
}.

(** The [download] attribute of the archive link:
    [selectedFile.name.replace('.pdf', '.zip')], which throws when no file is
    selected. *)
Definition zipName (s : State) : settled jsstring :=
  match selectedFile s with
  | Some file => Fulfilled (Str.replace (Str.lit ".pdf") (Str.lit ".zip") (file_name file))
  | None => Rejected (Exn.null_read (Str.lit "name"))
  end.

Definition thumb (index : nat) (image : Image) : Thumb :=
  {| thumb_src := url image;
     thumb_alt := Str.lit "Page " ++ Str.of_nat (index + 1);
     thumb_caption := name image |}.

Definition results (s : State) : settled (option Results) :=
  let images := items (convertedImages s) in
  if isLoading s || bool_decide (0 < length images) then
    link ← match zipUrl s with
           | Some u => download ← zipName s; Fulfilled (Some (u, download))
           | None => Fulfilled None
           end;
    Fulfilled (Some
      {| res_heading :=
           Str.lit "Converted Images (" ++ Str.of_nat (length images) ++ Str.lit " pages)";
         res_zip := link;
         res_wait := isLoading s;
         res_grid := imap thumb images |})
  else Fulfilled None.

Definition render (s : State) : settled View :=
  res ← results s;
  Fulfilled
    {| view_format := targetFormat s;
       view_disabled := isLoading s || bool_decide (selectedFile s = None);
       view_label :=
         if isLoading s then Str.lit "Converting..." else Str.lit "3. Convert to Images";
       view_alert := match error s with
                     | Some m => if Str.truthy m then Some m else None
                     | None => None
                     end;
       view_results := res |}.

(** The options of the format select: the value and the label of each. *)
Definition formats : list (jsstring * jsstring) :=
  [(Str.lit "png", Str.lit "PNG"); (Str.lit "jpeg", Str.lit "JPEG")].

(** An event the page lets the user or the environment cause: the select
    changes to the value of one of its options, submitting needs an enabled
    button. *)
Definition enabled (e : Event) (c : Config) : bool :=
  match e with
  | FormatChange value => bool_decide (value ∈ formats.*1)
  | Submit => negb (isLoading (state c) || bool_decide (selectedFile (state c) = None))
  | _ => true
  end.

(** The page is up: the last render did not throw. *)
Definition alive (c : Config) : bool := is_fulfilled (render (state c)).

(** The configurations the page can be in: events happen to a page that is
    up. *)
Inductive reachable : Config -> Prop :=
| reachable_init : reachable init
| reachable_step e c c' :
    reachable c -> alive c = true -> enabled e c = true -> step e c = Some c' ->
    reachable c'.

(** A sequence of events, applied in order. *)
Fixpoint run (es : list Event) (c : Config) : option Config :=
  match es with
  | [] => Some c
  | e :: es' => c' ← step e c; run es' c'
  end.

(** A sequence of events played on the page: each event must be admitted
    by a page that is up. *)
Fixpoint play (es : list Event) (c : Config) : option Config :=
  match es with
  | [] => Some c
  | e :: es' =>
      if alive c && enabled e c then c' ← step e c; play es' c' else None
  end.

End PdfToImageConverter.

Import PdfToImageConverter.

(** Unfold the projections of a configuration that was just built. *)
Ltac cfg := unfold render_with, setTask, newArray in *;
            cbn [state urls stamp tasks requests
                 selectedFile targetFormat convertedImages zipUrl isLoading error
                 setSelectedFile setTargetFormat setConvertedImages setZipUrl
                 setIsLoading setError ref items fst snd] in *.

(** ** Basic facts about commits *)

Section commits.
Implicit Types (c : Config) (s old new : State) (σ : Url.store).

(** A batch of updates that touches neither [convertedImages] nor [zipUrl]
    leaves the dependencies as they are. *)
Lemma depsChanged_same old new :
  convertedImages new = convertedImages old -> zipUrl new = zipUrl old ->
  depsChanged old new = false.
Proof.
  intros H1 H2. unfold depsChanged, same_array, same_value. rewrite H1, H2.
  by rewrite !bool_decide_true.
Qed.

(** A fresh array always changes them. *)
Lemma depsChanged_fresh old new :
  ref (convertedImages new) <> ref (convertedImages old) -> depsChanged old new = true.
Proof.
  intros H. unfold depsChanged, same_array. by rewrite bool_decide_false.
Qed.

Lemma depsChanged_zip old new :
  zipUrl new <> zipUrl old -> depsChanged old new = true.
Proof.
  intros H. unfold depsChanged, same_value.
  rewrite (bool_decide_false (zipUrl old = zipUrl new)) by done. apply orb_true_r.
Qed.

Lemma render_with_same new σ c :
  convertedImages new = convertedImages (state c) -> zipUrl new = zipUrl (state c) ->
  render_with new σ c = mkConfig new σ (stamp c) (tasks c) (requests c).
Proof.
  intros H1 H2. unfold render_with. f_equal.
  apply (commit_unchanged (St := State)). by apply depsChanged_same.
Qed.

Lemma play_reachable es c c' : reachable c -> play es c = Some c' -> reachable c'.
Proof.
  revert c; induction es as [|e es IH]; intros c Hc Hp; simplify_eq/=; [done|].
  destruct (alive c) eqn:Ha, (enabled e c) eqn:He, (step e c) as [c1|] eqn:Hs;
    simplify_eq/=.
  eapply IH; [|done]. by eapply reachable_step.
Qed.

Lemma setTask_setTask t k k' c : setTask t k (setTask t k' c) = setTask t k c.
Proof. unfold setTask. simpl. by rewrite list_insert_insert_eq. Qed.

Lemma setTask_lookup t k k0 c :
  tasks c !! t = Some k0 -> tasks (setTask t k c) !! t = Some k.
Proof. intros H%lookup_lt_Some. simpl. by apply list_lookup_insert_eq. Qed.

(** The [catch] and [finally] clauses touch the error and the loading flag
    only. *)
Lemma catchFinally_eq err c :
  catchFinally err c =
  mkConfig (setIsLoading false (setError (Exn.message err) (state c)))
    (urls c) (stamp c) (tasks c) (requests c).
Proof. by apply render_with_same. Qed.

Lemma onBlob_setTask t k r c : onBlob t r (setTask t k c) = onBlob t r c.
Proof.
  unfold onBlob. destruct r as [b|err];
    [rewrite (create_eta b (urls c)), (create_eta b (urls (setTask t k c)))|];
    unfold catchFinally, render_with, setTask; simpl; by rewrite list_insert_insert_eq.
Qed.

Lemma onText_setTask t k r c : onText t r (setTask t k c) = onText t r c.
Proof.
  unfold onText. destruct r;
    unfold catchFinally, render_with, setTask; simpl; by rewrite list_insert_insert_eq.
Qed.

Lemma run_app es1 es2 c : run (es1 ++ es2) c = run es1 c ≫= run es2.
Proof.
  revert c; induction es1 as [|e es1 IH]; intros c; simpl; [done|].
  destruct (step e c); simpl; auto.
Qed.

Lemma play_run es c c' : play es c = Some c' -> run es c = Some c'.
Proof.
  revert c; induction es as [|e es IH]; intros c; simpl; [done|].
  destruct (alive c && enabled e c); [|done]. destruct (step e c); simpl; auto.
Qed.

Lemma play_app es1 es2 c : play (es1 ++ es2) c = play es1 c ≫= play es2.
Proof.
  revert c; induction es1 as [|e es1 IH]; intros c; simpl; [done|].
  destruct (alive c && enabled e c); [|done]. destruct (step e c); simpl; auto.
Qed.

End commits.

(** ** Basic facts about rendering *)

Section rendering.
Implicit Types (s : State).

(** The results section is rendered while loading or with previews. *)
Definition showsResults s : bool :=
  isLoading s || bool_decide (0 < length (items (convertedImages s))).

(** A render throws exactly when the results section with the archive link
    is rendered without a selected file. *)
Lemma render_rejected s :
  selectedFile s = None -> is_Some (zipUrl s) -> showsResults s = true ->
  render s = Rejected (Exn.null_read (Str.lit "name")).
Proof.
  intros Hf [u Hz] Hr. unfold render, results, zipName. fold (showsResults s).
  by rewrite Hr, Hz, Hf.
Qed.

Lemma render_fulfilled s :
  is_Some (selectedFile s) \/ zipUrl s = None \/ showsResults s = false ->
  is_fulfilled (render s) = true.
Proof.
  intros H. unfold render, results, zipName. fold (showsResults s).
  destruct (showsResults s); [|done].
  destruct (zipUrl s); [|done]. destruct (selectedFile s); [done|].
  destruct H as [[? [=]]|[[=]|[=]]].
Qed.

End rendering.

(** ** Submitting without a file *)

(** [handleSubmit] with no file selected only sets the error message:
    no request is sent, no continuation is started, no object URL is touched
    and the other state cells keep their values. *)
Lemma p2i_submit_without_file c :
  selectedFile (state c) = None ->
  handleSubmit c =
  mkConfig (setError (Some (Str.lit "Please select a PDF file first.")) (state c))
    (urls c) (stamp c) (tasks c) (requests c).
Proof. intros H. unfold handleSubmit. rewrite H. by apply render_with_same. Qed.

Lemma p2i_submit_without_file_witness :
  handleSubmit init =
  mkConfig (setError (Some (Str.lit "Please select a PDF file first.")) (state init))
    (urls init) (stamp init) (tasks init) (requests init).
Proof. apply (p2i_submit_without_file init). reflexivity. Defined.
