(* ===== verification/PdfToImageArchive.v ===== *)
(** * The PDF-to-image form: reading the archive

    [handleSubmit] reads the entries of the archive concurrently and waits
    for all of them with [Promise.all].  This file shows that the previews
    the page ends up with are the archive's entries that are not
    directories, in the archive's order, whatever the order in which the
    entries were read. *)

From stdpp Require Import base tactics option list strings.
From Stdlib Require Import Lia.
From S2P Require Import Prelude Js Browser React Remote PdfToImage.
Import PdfToImageConverter.

(** The entries [order] are read, in that order; entry [i] gives
    [blobs i]. *)
Definition entry_events (t : nat) (blobs : nat -> Blob) (order : list nat) : list Event :=
  (fun i => EntrySettled t i (Fulfilled (blobs i))) <$> order.

(** Where [Promise.all] stands when the entries [order] are still to be
    read: they are the pending slots, and every other slot is fulfilled with
    a preview under the entry's name. *)
Record settling (names : list jsstring) (order : list nat)
    (slots : list (PromiseAll.slot Image)) : Prop := mkSettling {
  settling_length : length slots = length names;
  settling_nodup : NoDup order;
  settling_pending : forall i, i ∈ order <-> slots !! i = Some PromiseAll.Pending;
  settling_done : forall i sl, slots !! i = Some sl ->
    sl = PromiseAll.Pending \/ exists u, sl = PromiseAll.Done (mkImage (names !!! i) u);
}.

(** What a finished conversion of an archive with entries [names] looks
    like. *)
Definition shows (names : list jsstring) (t : nat) (c : Config) : Prop :=
  name <$> items (convertedImages (state c)) = names /\
  isLoading (state c) = false /\
  tasks c !! t = Some Finished.

Section settling.
Implicit Types (names : list jsstring) (order : list nat) (c : Config) (t i u : nat)
  (slots : list (PromiseAll.slot Image)).

Lemma settling_start names order :
  order ≡ₚ seq 0 (length names) ->
  settling names order (const PromiseAll.Pending <$> names).
Proof.
  intros Hp. split.
  - by rewrite length_fmap.
  - rewrite Hp. apply NoDup_seq.
  - intros i. rewrite Hp, elem_of_seq, list_lookup_fmap, fmap_Some. split.
    + intros [_ Hi]. destruct (lookup_lt_is_Some_2 names i) as [n Hn]; [lia|eauto].
    + intros (n & Hn%lookup_lt_Some & _). lia.
  - intros i sl (n & -> & _)%list_lookup_fmap_Some. by left.
Qed.

Lemma settling_step names i order slots u :
  settling names (i :: order) slots ->
  settling names order (<[i := PromiseAll.Done (mkImage (names !!! i) u)]> slots).
Proof.
  intros [Hlen Hnd Hpen Hdone]. apply NoDup_cons in Hnd as [Hi Hnd].
  assert (i < length slots) by (eapply lookup_lt_Some, Hpen; left).
  split; [by rewrite length_insert|done| |].
  - intros j. destruct (decide (j = i)) as [->|Hne].
    + rewrite list_lookup_insert_eq by done. naive_solver.
    + rewrite list_lookup_insert_ne by done. rewrite <-Hpen, elem_of_cons. naive_solver.
  - intros j sl. destruct (decide (j = i)) as [->|Hne].
    + rewrite list_lookup_insert_eq by done. intros [= <-]. eauto.
    + rewrite list_lookup_insert_ne by done. apply Hdone.
Qed.

(** With entries still to read there are no values yet. *)
Lemma settling_waiting names i order slots :
  settling names (i :: order) slots -> PromiseAll.values slots = None.
Proof.
  intros Hs. apply (values_None _ i PromiseAll.Pending); [|done].
  apply (settling_pending _ _ _ Hs). left.
Qed.

(** With every entry read the values are previews under the entries'
    names, in the entries' order. *)
Lemma settling_values names slots :
  settling names [] slots ->
  exists images, PromiseAll.values slots = Some images /\ name <$> images = names.
Proof.
  intros [Hlen _ Hpen Hdone].
  assert (Hall : forall i sl, slots !! i = Some sl ->
            exists u, sl = PromiseAll.Done (mkImage (names !!! i) u)).
  { intros i sl Hsl. destruct (Hdone i sl Hsl) as [->|?]; [|done].
    apply Hpen in Hsl. by apply elem_of_nil in Hsl. }
  destruct (values_all_done slots) as [images Hv]; [naive_solver|].
  exists images. split; [done|]. pose proof (values_length _ _ Hv) as Hl.
  apply list_eq_same_length with (length names); [done|rewrite length_fmap; lia|].
  intros i n n' Hi Hn Hn'. apply list_lookup_fmap_Some in Hn as (img & -> & Himg).
  destruct (Hall i _ (values_lookup _ _ _ _ Hv Himg)) as [u [= ->]].
  apply list_lookup_total_correct in Hn'. by rewrite Hn'.
Qed.

End settling.

(** ** Reading the entries in any order *)

Section entries.
Context (t : nat) (blobs : nat -> Blob) (names : list jsstring).
Implicit Types (order : list nat) (c : Config) (slots : list (PromiseAll.slot Image)).

Lemma showImages_shows images c k :
  tasks c !! t = Some k -> name <$> images = names ->
  shows names t (setTask t Finished (showImages images c)).
Proof.
  intros Ht%lookup_lt_Some Hn. unfold shows, showImages. cfg.
  split_and!; [done..|]. by apply list_lookup_insert_eq.
Qed.

(** Reading the entries still pending, in any order, ends with the previews
    of all entries on the page, in the entries' order. *)
Lemma entries_run order slots c :
  order <> [] -> settling names order slots ->
  tasks c !! t = Some (AwaitAll false names slots) ->
  exists c', run (entry_events t blobs order) c = Some c' /\ shows names t c'.
Proof.
  revert slots c; induction order as [|i order IH]; intros slots c Hne Hs Ht; [done|].
  cbn [entry_events fmap list_fmap run step]. rewrite Ht.
  rewrite (proj1 (settling_pending _ _ _ Hs i)) by left.
  cbn [mbind option_bind]. unfold onEntry. rewrite (create_eta (blobs i)).
  pose proof (settling_step _ _ _ _ (Url.minted (urls c)) Hs) as Hs'.
  destruct order as [|j order].
  - destruct (settling_values _ _ Hs') as (images & -> & Hn).
    eexists; split; [done|]. by eapply showImages_shows.
  - rewrite (settling_waiting _ _ _ _ Hs'). eapply IH; [done|done|].
    by eapply setTask_lookup.
Qed.

End entries.
