(* ===== verification/PdfToImageInv.v ===== *)
(** * The PDF-to-image form: what holds in every reachable configuration

    The invariant [Inv] relates the component's state, the URL store and the
    continuations in flight.  It is preserved by every event the page
    admits.  From it follow the facts about the configurations a user can
    reach: the loading flag is set exactly while a submission is in flight,
    the previews shown are live, and, whenever previews are shown, the
    archive link is not. *)

From stdpp Require Import base tactics option list strings.
From Stdlib Require Import Lia.
From S2P Require Import Prelude Js Browser React Remote Flight PdfToImage.
Import PdfToImageConverter.

(** ** Continuations that will still touch the state *)

(** A task whose handler code is still to run: it is suspended at an
    [await] of [handleSubmit], and [Promise.all] has not rejected. *)
Definition active (k : Task) : bool :=
  match k with
  | AwaitFetch | AwaitText | AwaitBlob | AwaitLoad _ | AwaitAll false _ _ => true
  | AwaitAll true _ _ | Finished => false
  end.

(** The active tasks of a configuration are counted with [active]. *)
Abbreviation activeCount := (Flight.activeCount active).

(** What an entry's slot must satisfy while the handler waits for it: a
    fulfilled entry carries the entry's name and a live URL of its own, and
    no entry has been rejected. *)
Definition slot_ok (s : State) (σ : Url.store) (nm : option jsstring)
    (sl : PromiseAll.slot Image) : Prop :=
  match sl with
  | PromiseAll.Pending => True
  | PromiseAll.Done img =>
      nm = Some (name img) /\ is_Some (Url.lookup (url img) σ) /\ zipUrl s <> Some (url img)
  | PromiseAll.Failed => False
  end.

(** What holds of the state while a task is active: no previews are shown
    until the task stores its own. *)
Definition phase_ok (s : State) (σ : Url.store) (k : Task) : Prop :=
  match k with
  | AwaitFetch | AwaitText | AwaitBlob | AwaitLoad _ => items (convertedImages s) = []
  | AwaitAll false names slots =>
      items (convertedImages s) = [] /\ length names = length slots /\
      forall i sl, slots !! i = Some sl -> slot_ok s σ (names !! i) sl
  | AwaitAll true _ _ | Finished => True
  end.

(** The invariant. *)
Record Inv (c : Config) : Prop := mkInv {
  inv_wf : Url.wf (urls c);
  inv_stamp : ref (convertedImages (state c)) < stamp c;
  inv_zip_minted : forall u, zipUrl (state c) = Some u -> u < Url.minted (urls c);
  inv_active : activeCount (tasks c) = if isLoading (state c) then 1 else 0;
  inv_phase : Forall (phase_ok (state c) (urls c)) (tasks c);
  inv_live : forall img, img ∈ items (convertedImages (state c)) ->
             is_Some (Url.lookup (url img) (urls c));
  inv_zip_dead : items (convertedImages (state c)) <> [] ->
                 forall u, zipUrl (state c) = Some u -> Url.lookup u (urls c) = None;
}.

(** ** Frames for the per-task condition *)

Section phase.
Implicit Types (s : State) (σ : Url.store) (k : Task).

Lemma phase_ok_inactive s σ k : active k = false -> phase_ok s σ k.
Proof. by destruct k as [| | | |[]|]. Qed.

(** While a task is active no previews are shown. *)
Lemma phase_ok_active s σ k :
  active k = true -> phase_ok s σ k -> items (convertedImages s) = [].
Proof. destruct k as [| | | |[]|]; simpl; naive_solver. Qed.

(** The condition survives a change of state and store that shows no
    previews and keeps the slots' URLs live and apart from the archive's. *)
Lemma phase_ok_frame s σ s' σ' k :
  phase_ok s σ k ->
  (items (convertedImages s) = [] -> items (convertedImages s') = []) ->
  (items (convertedImages s) = [] ->
   forall u, is_Some (Url.lookup u σ) -> zipUrl s <> Some u ->
     is_Some (Url.lookup u σ') /\ zipUrl s' <> Some u) ->
  phase_ok s' σ' k.
Proof.
  intros Hk Hi Hu. destruct k as [| | | |[] names slots|]; simpl in *; auto.
  destruct Hk as (Hitems & Hlen & Hslots). split_and!; auto.
  intros i sl Hsl. specialize (Hslots i sl Hsl).
  destruct sl as [|img|]; simpl in *; auto.
  destruct Hslots as (Hn & Hl & Hz). split; [done|]. by apply Hu.
Qed.

Lemma Forall_phase_ok_frame s σ s' σ' ts :
  Forall (phase_ok s σ) ts ->
  (items (convertedImages s) = [] -> items (convertedImages s') = []) ->
  (items (convertedImages s) = [] ->
   forall u, is_Some (Url.lookup u σ) -> zipUrl s <> Some u ->
     is_Some (Url.lookup u σ') /\ zipUrl s' <> Some u) ->
  Forall (phase_ok s' σ') ts.
Proof. intros H ??. eapply Forall_impl; [done|]. eauto using phase_ok_frame. Qed.

(** The cleanup of a render that shows no previews revokes the archive's
    URL and nothing else. *)
Lemma commit_keeps s s' σ u :
  items (convertedImages s) = [] -> zipUrl s <> Some u ->
  Url.lookup u (commit s s' σ) = Url.lookup u σ.
Proof.
  intros Hi Hz. apply (commit_lookup_ne (St := State)). simpl.
  unfold heldUrls. rewrite Hi. simpl.
  destruct (zipUrl s) as [u'|]; [|by intros ?%elem_of_nil].
  intros ->%list_elem_of_singleton. done.
Qed.

(** With one active task replaced, only the new task needs looking at. *)
Lemma Forall_phase_ok_sole s σ ts t k k' :
  activeCount ts = 1 -> ts !! t = Some k -> active k = true ->
  phase_ok s σ k' -> Forall (phase_ok s σ) (<[t := k']> ts).
Proof.
  intros Hc Ht Hk Hk'. eapply Forall_impl; [by eapply activeCount_sole|].
  intros k'' [->|?]; [done|]. by apply phase_ok_inactive.
Qed.

(** With the active count at one, some task is active. *)
Lemma Forall_phase_ok_loading s σ ts :
  activeCount ts = 1 -> Forall (phase_ok s σ) ts ->
  exists k, active k = true /\ phase_ok s σ k.
Proof.
  induction ts as [|k ts IH]; simpl; [done|]. intros Hc [Hk Hts]%Forall_cons.
  destruct (active k) eqn:Ha; [by exists k|]. apply IH; [lia|done].
Qed.

End phase.

(** ** Moves that preserve the invariant *)

Section moves.
Implicit Types (c : Config) (s : State) (σ : Url.store) (k : Task) (t : nat).

Lemma Inv_init : Inv init.
Proof.
  split; simpl; [apply wf_empty|lia|done|done|done| |done].
  by intros img ?%elem_of_nil.
Qed.

(** The invariant reads the state through [convertedImages], [zipUrl] and
    [isLoading] only. *)
Lemma Inv_state c s' :
  Inv c ->
  convertedImages s' = convertedImages (state c) ->
  zipUrl s' = zipUrl (state c) ->
  isLoading s' = isLoading (state c) ->
  Inv (mkConfig s' (urls c) (stamp c) (tasks c) (requests c)).
Proof.
  intros [Hwf Hst Hzm Hact Hph Hliv Hzd] Hi Hz Hl.
  split; cfg; rewrite ?Hi, ?Hz, ?Hl; auto.
  eapply Forall_phase_ok_frame; [done| |]; rewrite ?Hi, ?Hz; auto.
Qed.

(** The invariant does not read the request log. *)
Lemma Inv_requests c rs :
  Inv c -> Inv (mkConfig (state c) (urls c) (stamp c) (tasks c) rs).
Proof. intros []. by split. Qed.

(** Minting a URL that nothing refers to yet. *)
Lemma Inv_create c b :
  Inv c ->
  Inv (mkConfig (state c) (Url.createObjectURL b (urls c)).2 (stamp c) (tasks c) (requests c)).
Proof.
  intros [Hwf Hst Hzm Hact Hph Hliv Hzd].
  assert (Hlive : forall u, is_Some (Url.lookup u (urls c)) ->
    is_Some (Url.lookup u (Url.createObjectURL b (urls c)).2)).
  { intros u Hu. rewrite lookup_create_ne; [done|]. apply Hwf in Hu. lia. }
  split; cfg.
  - by apply wf_create.
  - done.
  - intros u Hu%Hzm. rewrite create_minted. lia.
  - done.
  - eapply Forall_phase_ok_frame; [done|done|]. auto.
  - auto.
  - intros Hne u Hz. rewrite lookup_create_ne; [by eapply Hzd|].
    apply Hzm in Hz. lia.
Qed.

(** A task that is not active moves on. *)
Lemma Inv_setTask_inactive c t k k' :
  Inv c -> tasks c !! t = Some k -> active k = false -> active k' = false ->
  Inv (setTask t k' c).
Proof.
  intros [Hwf Hst Hzm Hact Hph Hliv Hzd] Ht Hk Hk'. split; cfg; auto.
  - pose proof (activeCount_insert (active:=active) _ _ _ k' Ht) as H. rewrite Hk, Hk' in H. lia.
  - apply Forall_insert; [done|]. by apply phase_ok_inactive.
Qed.

(** An active task moves to its next [await]. *)
Lemma Inv_setTask_active c t k k' :
  Inv c -> tasks c !! t = Some k -> active k = true -> active k' = true ->
  phase_ok (state c) (urls c) k' ->
  Inv (setTask t k' c).
Proof.
  intros [Hwf Hst Hzm Hact Hph Hliv Hzd] Ht Hk Hk' Hp. split; cfg; auto.
  - pose proof (activeCount_insert (active:=active) _ _ _ k' Ht) as H. rewrite Hk, Hk' in H. lia.
  - by apply Forall_insert.
Qed.

(** The loading flag is set while a task is active. *)
Lemma Inv_active_loading c t k :
  Inv c -> tasks c !! t = Some k -> active k = true ->
  isLoading (state c) = true /\ activeCount (tasks c) = 1.
Proof.
  intros [Hwf Hst Hzm Hact Hph Hliv Hzd] Ht Hk.
  pose proof (activeCount_lookup (active:=active) _ _ _ Ht Hk).
  destruct (isLoading (state c)); [done|lia].
Qed.

(** The [catch] of an active task: the flag is cleared and the task ends. *)
Lemma Inv_catchFinally c t k k' err :
  Inv c -> tasks c !! t = Some k -> active k = true -> active k' = false ->
  Inv (setTask t k' (catchFinally err c)).
Proof.
  intros HI Ht Hk Hk'. destruct (Inv_active_loading _ _ _ HI Ht Hk) as [Hl Hc].
  unfold catchFinally. rewrite render_with_same by done.
  destruct HI as [Hwf Hst Hzm Hact Hph Hliv Hzd]. split; cfg; auto.
  - pose proof (activeCount_insert (active:=active) _ _ _ k' Ht) as H. rewrite Hk, Hk' in H. lia.
  - eapply Forall_phase_ok_sole; eauto using phase_ok_inactive.
Qed.

(** A render with a fresh, empty preview array and no archive URL: the
    cleanup of the render before runs, and nothing an active task waits for is
    revoked.  [handleFileChange] and [handleSubmit] both start this way. *)
Lemma Inv_reset c s' ts' :
  Inv c ->
  convertedImages s' = mkArray (stamp c) [] -> zipUrl s' = None ->
  activeCount ts' = (if isLoading s' then 1 else 0) ->
  (forall k, k ∈ ts' -> k ∈ tasks c \/ k = AwaitFetch) ->
  Inv (mkConfig s' (commit (state c) s' (urls c)) (S (stamp c)) ts' (requests c)).
Proof.
  intros [Hwf Hst Hzm Hact Hph Hliv Hzd] Hi Hz Hact' Hts. split; cfg.
  - eauto with js.
  - rewrite Hi. simpl. lia.
  - by rewrite Hz.
  - done.
  - apply Forall_forall. intros k [Hk| ->]%Hts; [|simpl; by rewrite Hi].
    rewrite Forall_forall in Hph. eapply phase_ok_frame; [by apply Hph| |].
    + by rewrite Hi.
    + intros Hitems u Hu Hzu. rewrite commit_keeps, Hz by done. done.
  - rewrite Hi. by intros img ?%elem_of_nil.
  - by rewrite Hi.
Qed.

Lemma Inv_handleFormatChange c value : Inv c -> Inv (handleFormatChange value c).
Proof.
  intros HI. unfold handleFormatChange. rewrite render_with_same by done.
  by apply Inv_state.
Qed.

Lemma Inv_handleFileChange c files : Inv c -> Inv (handleFileChange files c).
Proof.
  intros HI. unfold handleFileChange.
  destruct (head files) as [file|]; [case_bool_decide|];
    try (rewrite render_with_same by done; by apply Inv_state).
  cfg. apply Inv_reset; auto. apply HI.
Qed.

Lemma Inv_handleSubmit c :
  Inv c -> isLoading (state c) = false -> Inv (handleSubmit c).
Proof.
  intros HI Hl. unfold handleSubmit. destruct (selectedFile (state c)) as [file|].
  - cfg. pose proof (inv_active _ HI) as Hact. rewrite Hl in Hact.
    apply (Inv_requests (mkConfig _ _ _ (tasks c ++ [AwaitFetch]) (requests c))), Inv_reset; auto.
    + rewrite activeCount_app, Hact. done.
    + intros k [?| ->%list_elem_of_singleton]%elem_of_app; auto.
  - rewrite render_with_same by done. by apply Inv_state.
Qed.

(** What an active task found at index [t] satisfies. *)
Lemma Inv_phase_lookup c t k :
  Inv c -> tasks c !! t = Some k -> phase_ok (state c) (urls c) k.
Proof. intros HI Ht. eapply Forall_lookup_1; [apply HI|done]. Qed.

Lemma Inv_onFetch c t r :
  Inv c -> tasks c !! t = Some AwaitFetch -> Inv (onFetch t r c).
Proof.
  intros HI Ht. pose proof (Inv_phase_lookup _ _ _ HI Ht).
  destruct r as [[[]]|err]; simpl;
    eauto using Inv_catchFinally, Inv_setTask_active.
Qed.

Lemma Inv_onText c t r :
  Inv c -> tasks c !! t = Some AwaitText -> Inv (onText t r c).
Proof. intros HI Ht. destruct r; simpl; eauto using Inv_catchFinally. Qed.

(** The archive gets its URL: the render that follows revokes the archive
    URL of the render before, if any, and nothing else. *)
Lemma Inv_onBlob c t r :
  Inv c -> tasks c !! t = Some AwaitBlob -> Inv (onBlob t r c).
Proof.
  intros HI Ht. unfold onBlob.
  destruct r as [zipBlob|err]; [|eauto using Inv_catchFinally].
  pose proof (Inv_phase_lookup _ _ _ HI Ht) as Hitems. simpl in Hitems.
  destruct (Inv_active_loading _ _ _ HI Ht eq_refl) as [Hl Hc].
  destruct HI as [Hwf Hst Hzm Hact Hph Hliv Hzd].
  rewrite (create_eta zipBlob). split; cfg.
  - eauto with js.
  - done.
  - intros u [= <-]. rewrite commit_minted, create_minted. simpl. lia.
  - pose proof (activeCount_insert (active:=active) _ _ _ (AwaitLoad zipBlob) Ht) as H. simpl in H. lia.
  - by eapply Forall_phase_ok_sole.
  - rewrite Hitems. by intros img ?%elem_of_nil.
  - done.
Qed.

(** The handler resumes after [Promise.all]: with the previews it stores
    live and apart from the archive URL, they stay live, and the archive URL
    is revoked by the cleanup of the render before. *)
Lemma Inv_showImages c t k images :
  Inv c -> tasks c !! t = Some k -> active k = true ->
  Forall (fun img => is_Some (Url.lookup (url img) (urls c)) /\
                     zipUrl (state c) <> Some (url img)) images ->
  Inv (setTask t Finished (showImages images c)).
Proof.
  intros HI Ht Hk Himgs.
  pose proof (phase_ok_active _ _ _ Hk (Inv_phase_lookup _ _ _ HI Ht)) as Hitems.
  destruct (Inv_active_loading _ _ _ HI Ht Hk) as [Hl Hc].
  destruct HI as [Hwf Hst Hzm Hact Hph Hliv Hzd]. unfold showImages. split; cfg.
  - eauto with js.
  - lia.
  - intros u Hu. rewrite commit_minted. auto.
  - pose proof (activeCount_insert (active:=active) _ _ _ Finished Ht) as H. rewrite Hk in H.
    simpl in H. lia.
  - by eapply Forall_phase_ok_sole.
  - intros img Himg. rewrite Forall_forall in Himgs.
    destruct (Himgs _ Himg). by rewrite commit_keeps.
  - intros _ u Hu. apply (commit_revokes (St := State)).
    + apply depsChanged_fresh. simpl. lia.
    + simpl. unfold heldUrls. rewrite Hu. apply elem_of_app. right. by left.
Qed.

Lemma Inv_onLoad c t zipBlob r :
  Inv c -> tasks c !! t = Some (AwaitLoad zipBlob) -> Inv (onLoad t r c).
Proof.
  intros HI Ht. unfold onLoad. destruct r as [zip|err]; [|eauto using Inv_catchFinally].
  pose proof (Inv_phase_lookup _ _ _ HI Ht) as Hitems. simpl in Hitems.
  destruct (imagePromises zip) as [|n names] eqn:Hn.
  - eapply Inv_showImages; eauto.
  - eapply Inv_setTask_active; eauto. generalize (n :: names). intros l.
    split_and!; [done|by rewrite length_fmap|].
    intros i sl Hsl. rewrite list_lookup_fmap in Hsl.
    destruct (l !! i); by simplify_eq/=.
Qed.

Lemma active_awaitAll names slots : active (awaitAll true names slots) = false.
Proof. unfold awaitAll. by case_match. Qed.

(** The slots of an active task once entry [i] is fulfilled with a newly
    minted URL. *)
Lemma phase_ok_fulfil c t i names slots blob :
  Inv c -> tasks c !! t = Some (AwaitAll false names slots) ->
  slots !! i = Some PromiseAll.Pending ->
  phase_ok (state c) (Url.createObjectURL blob (urls c)).2
    (AwaitAll false names
       (<[i := PromiseAll.Done (mkImage (names !!! i) (Url.minted (urls c)))]> slots)).
Proof.
  intros HI Ht Hi.
  destruct (Inv_phase_lookup _ _ _ (Inv_create _ blob HI) Ht) as (Hitems & Hlen & Hslots).
  split_and!; [done|by rewrite length_insert|]. intros j sl Hj.
  destruct (decide (j = i)) as [->|Hne].
  - apply lookup_lt_Some in Hi as Hlt.
    rewrite list_lookup_insert_eq in Hj by done. simplify_eq. split_and!; cbn [url name].
    + apply list_lookup_lookup_total_lt. lia.
    + rewrite lookup_create_new. by eexists.
    + intros Hz%(inv_zip_minted _ HI). lia.
  - rewrite list_lookup_insert_ne in Hj by done. by apply Hslots.
Qed.

(** The previews read off fulfilled slots are live and apart from the
    archive URL. *)
Lemma slots_values s σ (names : list jsstring) slots images :
  (forall i sl, slots !! i = Some sl -> slot_ok s σ (names !! i) sl) ->
  PromiseAll.values slots = Some images ->
  Forall (fun img => is_Some (Url.lookup (url img) σ) /\ zipUrl s <> Some (url img)) images.
Proof.
  intros Hslots ->%values_Some. apply Forall_lookup. intros j img Hj.
  destruct (Hslots j (PromiseAll.Done img)) as (_ & ? & ?); [|done].
  by rewrite list_lookup_fmap, Hj.
Qed.

Lemma Inv_onEntry c t i rejected names slots r :
  Inv c -> tasks c !! t = Some (AwaitAll rejected names slots) ->
  slots !! i = Some PromiseAll.Pending ->
  Inv (onEntry t i rejected names slots r c).
Proof.
  intros HI Ht Hi. unfold onEntry. destruct r as [blob|err].
  - rewrite (create_eta blob). pose proof (Inv_create _ blob HI) as HI1.
    destruct rejected.
    + eapply Inv_setTask_inactive; eauto using active_awaitAll.
    + pose proof (phase_ok_fulfil _ _ _ _ _ blob HI Ht Hi) as Hp. case_match.
      * eapply Inv_showImages; eauto. eapply slots_values; [apply Hp|done].
      * eapply Inv_setTask_active; eauto.
  - destruct rejected.
    + eapply Inv_setTask_inactive; eauto using active_awaitAll.
    + eapply Inv_catchFinally; eauto using active_awaitAll.
Qed.

(** Every event the page admits preserves the invariant. *)
Lemma Inv_step e c c' :
  Inv c -> enabled e c = true -> step e c = Some c' -> Inv c'.
Proof.
  intros HI He Hs. destruct e; simpl in Hs; repeat case_match; simplify_eq;
    eauto using Inv_handleFileChange, Inv_handleFormatChange, Inv_onFetch,
      Inv_onText, Inv_onBlob, Inv_onLoad, Inv_onEntry.
  apply Inv_handleSubmit; [done|]. simpl in He.
  by destruct (isLoading (state c)).
Qed.

Lemma reachable_Inv c : reachable c -> Inv c.
Proof. induction 1; eauto using Inv_init, Inv_step. Qed.

End moves.
