(* ===== verification/PdfToImageProps.v ===== *)
(** * The PDF-to-image form: properties

    The theorems about the form: what holds of every configuration a user
    can bring the page to (from the invariant of PdfToImageInv.v), what each
    handler does on each of its branches, and the runs that show where the
    page departs from what it promises.  The sample values at the top are
    the inputs at which the theorems are instantiated. *)

From stdpp Require Import base tactics option list strings.
From Stdlib Require Import Lia.
From S2P Require Import Prelude Js Browser React Remote Flight PdfToImage PdfToImageArchive PdfToImageInv.
Import PdfToImageConverter.

(** ** Sample values *)

Definition report : File := mkFile (Str.lit "report.pdf") pdfMime [].
Definition notes : File := mkFile (Str.lit "notes.txt") (Str.lit "text/plain") [].
Definition archive : Blob := mkBlob (Str.lit "application/zip") [].
Definition page : Blob := mkBlob (Str.lit "image/png") [].
Definition pages : list ZipObject :=
  [mkZipObject (Str.lit "pages/") true;
   mkZipObject (Str.lit "pages/page_1.png") false;
   mkZipObject (Str.lit "pages/page_2.png") false].

(** The configuration a sequence of events leads to from the first render
    (the first render itself if the page does not admit the sequence). *)
Definition after (es : list Event) : Config := default init (play es init).

(** A file is chosen and submitted; the request is in flight. *)
Definition submitted : list Event := [FileChange [report]; Submit].

(** The server answered with an archive, which is being read. *)
Definition loading : list Event :=
  submitted ++ [FetchSettled 0 (Fulfilled (mkResponse true));
                BlobSettled 0 (Fulfilled archive);
                LoadSettled 0 (Fulfilled pages)].

(** Both pages were read, the second one first. *)
Definition converted : list Event :=
  loading ++ [EntrySettled 0 1 (Fulfilled page); EntrySettled 0 0 (Fulfilled page)].

(** ** Every configuration the page can reach *)

Section reachable.
Implicit Types (c : Config) (u : nat) (img : Image).

Lemma after_reachable es : reachable (after es).
Proof.
  unfold after. destruct (play es init) eqn:H; simpl;
    eauto using play_reachable, reachable_init.
Qed.

(** C1. Every preview the page shows is backed by a live object URL: no
    sequence of file selections, submissions and responses makes the grid
    display an image whose URL has been revoked. *)
Theorem p2i_previews_live c img :
  reachable c -> img ∈ items (convertedImages (state c)) ->
  is_Some (Url.lookup (url img) (urls c)).
Proof. intros HI%reachable_Inv. apply HI. Qed.

Lemma p2i_previews_live_witness :
  is_Some (Url.lookup 2 (urls (after converted))).
Proof.
  apply (p2i_previews_live (after converted) (mkImage (Str.lit "pages/page_1.png") 2)).
  - apply after_reachable.
  - vm_compute. apply list_elem_of_here.
Defined.

(** C2. The loading flag is set exactly while one [handleSubmit] call is
    still to run handler code: at most one submission is in flight, and once
    it has run its [finally] the flag is clear. *)
Theorem p2i_loading_while_in_flight c :
  reachable c -> activeCount (tasks c) = if isLoading (state c) then 1 else 0.
Proof. intros HI%reachable_Inv. apply HI. Qed.

Lemma p2i_loading_while_in_flight_witness :
  activeCount (tasks (after loading)) = if isLoading (state (after loading)) then 1 else 0.
Proof. apply (p2i_loading_while_in_flight (after loading) (after_reachable loading)). Defined.

(** C4. Whenever previews are shown, the archive link is dead: the render
    that stores the previews runs the cleanup of the render before, which
    revokes the archive URL that [zipUrl] still holds.  The link the page
    offers for downloading all pages never resolves. *)
Theorem p2i_zip_link_dead c u :
  reachable c -> items (convertedImages (state c)) <> [] ->
  zipUrl (state c) = Some u -> Url.lookup u (urls c) = None.
Proof. intros HI%reachable_Inv Hne Hz. by apply (inv_zip_dead _ HI). Qed.

Lemma p2i_zip_link_dead_witness : Url.lookup 0 (urls (after converted)) = None.
Proof.
  apply (p2i_zip_link_dead (after converted) 0).
  - apply after_reachable.
  - vm_compute. discriminate.
  - vm_compute. reflexivity.
Defined.

(** C23. While a submission is in flight no previews are shown: the output
    set is empty from the submission until the whole archive has been read,
    never a part of it. *)
Theorem p2i_no_partial_output c :
  reachable c -> isLoading (state c) = true -> items (convertedImages (state c)) = [].
Proof.
  intros HI%reachable_Inv Hl. pose proof (inv_active _ HI) as Hact. rewrite Hl in Hact.
  destruct (Forall_phase_ok_loading _ _ _ Hact (inv_phase _ HI)) as [k [Hk Hp]].
  by eapply phase_ok_active.
Qed.

Lemma p2i_no_partial_output_witness : items (convertedImages (state (after loading))) = [].
Proof.
  apply (p2i_no_partial_output (after loading)); [apply after_reachable|].
  vm_compute. reflexivity.
Defined.

(** The archive URL and every preview URL the state refers to was issued
    by the document. *)
Lemma p2i_urls_issued c u :
  reachable c -> u ∈ heldUrls (state c) -> u < Url.minted (urls c).
Proof.
  intros HI%reachable_Inv [Hu|Hu]%elem_of_app.
  - apply list_elem_of_fmap in Hu as (img & -> & Himg).
    destruct (inv_live _ HI _ Himg) as [b Hb]. eapply (inv_wf _ HI). by eexists.
  - destruct (zipUrl (state c)) as [u'|] eqn:Hz; simpl in Hu; [|by apply elem_of_nil in Hu].
    apply list_elem_of_singleton in Hu as ->. by apply (inv_zip_minted _ HI).
Qed.

End reachable.

(** ** The handlers, branch by branch *)

Section handlers.
Implicit Types (c : Config) (u t : nat) (f : File) (files : list File).

(** A render with a fresh preview array revokes every URL the render before
    held. *)
Lemma fresh_array_releases c new σ u :
  Inv c -> ref (convertedImages new) = stamp c -> u ∈ heldUrls (state c) ->
  Url.lookup u (commit (state c) new σ) = None.
Proof.
  intros HI Hr Hu. apply (commit_revokes (St := State)); [|done].
  apply depsChanged_fresh. rewrite Hr. pose proof (inv_stamp _ HI). lia.
Qed.

(** Choosing a PDF stages it: the file is selected, the error, the
    previews and the archive link are cleared, and every object URL the page
    held is revoked. *)
Lemma p2i_select_pdf c f files u :
  reachable c -> file_type f = pdfMime -> u ∈ heldUrls (state c) ->
  let c' := handleFileChange (f :: files) c in
  state c' = mkState (Some f) (targetFormat (state c)) (mkArray (stamp c) []) None
               (isLoading (state c)) None /\
  Url.lookup u (urls c') = None.
Proof.
  intros HI%reachable_Inv Hf Hu. unfold handleFileChange. simpl.
  rewrite bool_decide_true by done. cfg. split; [done|]. by apply fresh_array_releases.
Qed.

Lemma p2i_select_pdf_witness :
  let c' := handleFileChange [report] (after converted) in
  state c' = mkState (Some report) (targetFormat (state (after converted)))
               (mkArray (stamp (after converted)) []) None
               (isLoading (state (after converted))) None /\
  Url.lookup 1 (urls c') = None.
Proof.
  apply (p2i_select_pdf (after converted) report [] 1).
  - apply after_reachable.
  - reflexivity.
  - vm_compute. apply list_elem_of_further, list_elem_of_here.
Defined.

(** Choosing no file, or a file that is not a PDF, deselects the file
    and shows the validation message; previews, archive link, requests in
    flight and object URLs stay as they are. *)
Lemma p2i_select_invalid c files :
  (forall f, head files = Some f -> file_type f <> pdfMime) ->
  handleFileChange files c =
  mkConfig (setError (Some (Str.lit "Please select a valid PDF file."))
              (setSelectedFile None (state c)))
    (urls c) (stamp c) (tasks c) (requests c).
Proof.
  intros Hf. unfold handleFileChange. destruct (head files) as [f|].
  - rewrite bool_decide_false by auto. by apply render_with_same.
  - by apply render_with_same.
Qed.

Lemma p2i_select_invalid_witness :
  handleFileChange [notes] init =
  mkConfig (setError (Some (Str.lit "Please select a valid PDF file."))
              (setSelectedFile None (state init)))
    (urls init) (stamp init) (tasks init) (requests init).
Proof. apply (p2i_select_invalid init [notes]). intros f [= <-]. discriminate. Defined.

(** Submitting a staged file sends one request to the conversion
    endpoint, carrying the file and the chosen format, and starts one
    continuation; the loading flag is set, the error, the previews and the
    archive link are cleared, and every object URL the page held is
    revoked. *)
Lemma p2i_submit_request c f u :
  reachable c -> selectedFile (state c) = Some f -> u ∈ heldUrls (state c) ->
  let c' := handleSubmit c in
  state c' = mkState (Some f) (targetFormat (state c)) (mkArray (stamp c) []) None true None /\
  requests c' = requests c ++
    [mkRequest endpoint [(Str.lit "file", FormFile f);
                         (Str.lit "format", FormString (targetFormat (state c)))]] /\
  tasks c' = tasks c ++ [AwaitFetch] /\
  Url.lookup u (urls c') = None.
Proof.
  intros HI%reachable_Inv Hf Hu. unfold handleSubmit. rewrite Hf. cfg.
  split_and!; [|done..|by apply fresh_array_releases].
  unfold setZipUrl, setConvertedImages, setError, setIsLoading. simpl. by rewrite Hf.
Qed.

Lemma p2i_submit_request_witness :
  let c := after converted in
  let c' := handleSubmit c in
  state c' = mkState (Some report) (targetFormat (state c)) (mkArray (stamp c) []) None true None /\
  requests c' = requests c ++
    [mkRequest endpoint [(Str.lit "file", FormFile report);
                         (Str.lit "format", FormString (targetFormat (state c)))]] /\
  tasks c' = tasks c ++ [AwaitFetch] /\
  Url.lookup 2 (urls c') = None.
Proof.
  apply (p2i_submit_request (after converted) report 2).
  - apply after_reachable.
  - reflexivity.
  - vm_compute. apply list_elem_of_here.
Defined.

End handlers.

(** ** The exchange with the server *)

(** The events of one exchange, as [handleSubmit] awaits them: the response,
    then its body as a blob when the response is [ok], as text when not. *)
Definition exchange_events (t : nat) (x : Exchange) : list Event :=
  FetchSettled t (ex_fetch x) ::
  match ex_fetch x with
  | Fulfilled r => if ok r then [BlobSettled t (ex_blob x)] else [TextSettled t (ex_text x)]
  | Rejected _ => []
  end.

Definition refused : Exchange :=
  mkExchange (Fulfilled (mkResponse false)) (Fulfilled (Str.lit "File too large"))
    (Fulfilled archive).

Section exchange.
Implicit Types (c : Config) (t : nat) (x : Exchange).

(** The settlements of an exchange take a call that waits for its response
    to where [classify] says. *)
Lemma p2i_exchange_run c t x :
  tasks c !! t = Some AwaitFetch ->
  run (exchange_events t x) c =
  Some match classify fallbackMessage x with
       | Rejected err => setTask t Finished (catchFinally err c)
       | Fulfilled zipBlob => onBlob t (Fulfilled zipBlob) c
       end.
Proof.
  intros Ht. unfold exchange_events, classify.
  destruct (ex_fetch x) as [[[]]|err]; cbn [run step]; rewrite Ht;
    cbn [mbind option_bind onFetch ok]; [| |done].
  - cbn [run step]. erewrite setTask_lookup by done. cbn [mbind option_bind].
    rewrite onBlob_setTask. by destruct (ex_blob x).
  - cbn [run step]. erewrite setTask_lookup by done. cbn [mbind option_bind].
    rewrite onText_setTask. by destruct (ex_text x).
Qed.

(** C20. The handler, await by await, implements the one-shot reading of an
    exchange: an exchange classified as an error ends the submission in the
    [catch] clause with that error, an exchange classified as a blob leaves
    the handler where the blob has just been read. *)
Theorem p2i_exchange_classified c t x :
  tasks c !! t = Some AwaitFetch ->
  run (exchange_events t x) c =
  Some match classify fallbackMessage x with
       | Rejected err => setTask t Finished (catchFinally err c)
       | Fulfilled zipBlob => onBlob t (Fulfilled zipBlob) c
       end.
Proof. apply p2i_exchange_run. Qed.

Lemma p2i_exchange_classified_witness :
  run (exchange_events 0 refused) (after submitted) =
  Some match classify fallbackMessage refused with
       | Rejected err => setTask 0 Finished (catchFinally err (after submitted))
       | Fulfilled zipBlob => onBlob 0 (Fulfilled zipBlob) (after submitted)
       end.
Proof. apply (p2i_exchange_classified (after submitted) 0 refused). reflexivity. Defined.

(** A submission that fails, at whichever await, ends with the
    error's message shown, the loading flag clear and no previews on the
    page; the selected file, the format and the archive link are as they
    were, and no object URL is touched. *)
Lemma p2i_failure_shown c t k err :
  reachable c -> tasks c !! t = Some k -> active k = true ->
  let c' := setTask t Finished (catchFinally err c) in
  state c' = mkState (selectedFile (state c)) (targetFormat (state c))
               (mkArray (ref (convertedImages (state c))) []) (zipUrl (state c))
               false (Exn.message err) /\
  urls c' = urls c.
Proof.
  intros HI%reachable_Inv Ht Hk. rewrite catchFinally_eq. simpl.
  pose proof (phase_ok_active _ _ _ Hk (Inv_phase_lookup _ _ _ HI Ht)) as Hi.
  split; [|done]. unfold setIsLoading, setError. simpl. f_equal.
  destruct (convertedImages (state c)); simpl in *. by subst.
Qed.

Lemma p2i_failure_shown_witness :
  let c := after submitted in
  let c' := setTask 0 Finished (catchFinally Exn.NotAnError c) in
  state c' = mkState (selectedFile (state c)) (targetFormat (state c))
               (mkArray (ref (convertedImages (state c))) []) (zipUrl (state c))
               false (Exn.message Exn.NotAnError) /\
  urls c' = urls c.
Proof.
  apply (p2i_failure_shown (after submitted) 0 AwaitFetch Exn.NotAnError);
    [apply after_reachable|reflexivity..].
Defined.

(** What the server says when it refuses is what the page shows: its
    text, or the default message when the text is empty; the message shown
    is never empty. *)
Lemma p2i_server_error_text c t errorText :
  error (state (onText t (Fulfilled errorText) c)) =
    Some (Str.or_default errorText fallbackMessage) /\
  Str.or_default errorText fallbackMessage <> [] /\
  isLoading (state (onText t (Fulfilled errorText) c)) = false.
Proof.
  cbn [onText]. rewrite catchFinally_eq. split_and!; [done| |done].
  by apply or_default_truthy.
Qed.

End exchange.

(** ** Reading the archive *)

(** The archive has arrived and has its URL. *)
Definition fetched : list Event :=
  submitted ++ [FetchSettled 0 (Fulfilled (mkResponse true));
                BlobSettled 0 (Fulfilled archive)].

Section archive.
Implicit Types (c : Config) (t : nat) (zip : list ZipObject) (order : list nat).

(** Loading the archive and reading its entries, in any order, ends with
    the previews of the entries that are not directories. *)
Lemma p2i_archive_run c t zipBlob zip blobs order :
  tasks c !! t = Some (AwaitLoad zipBlob) ->
  order ≡ₚ seq 0 (length (imagePromises zip)) ->
  exists c', run (LoadSettled t (Fulfilled zip) :: entry_events t blobs order) c = Some c' /\
             shows (imagePromises zip) t c'.
Proof.
  intros Ht Hp. cbn [run step]. rewrite Ht. cbn [mbind option_bind onLoad].
  destruct (imagePromises zip) as [|n names] eqn:Hn.
  - apply Permutation_nil_r in Hp as ->. eexists; split; [done|].
    by eapply showImages_shows.
  - eapply entries_run; [|by apply settling_start|by eapply setTask_lookup].
    intros ->. by apply Permutation_nil_cons in Hp.
Qed.

(** C3. Once the archive is loaded and its entries are read, in whatever
    order the reads complete, the page shows one preview per entry that is
    not a directory, named after the entry, in the archive's order, and the
    loading flag is clear.  An archive without such entries ends the same
    way, with no previews. *)
Theorem p2i_archive_order c t zipBlob zip blobs order :
  tasks c !! t = Some (AwaitLoad zipBlob) ->
  order ≡ₚ seq 0 (length (filter (fun e => zip_dir e = false) zip)) ->
  exists c', run (LoadSettled t (Fulfilled zip) :: entry_events t blobs order) c = Some c' /\
             shows (zip_name <$> filter (fun e => zip_dir e = false) zip) t c'.
Proof.
  intros Ht Hp. rewrite <-(length_fmap zip_name) in Hp.
  by apply (p2i_archive_run c t zipBlob).
Qed.

Lemma p2i_archive_order_witness :
  exists c', run (LoadSettled 0 (Fulfilled pages) :: entry_events 0 (fun _ => page) [1; 0])
               (after fetched) = Some c' /\
             shows (zip_name <$> filter (fun e => zip_dir e = false) pages) 0 c'.
Proof.
  apply (p2i_archive_order (after fetched) 0 archive pages (fun _ => page) [1; 0]).
  - reflexivity.
  - vm_compute. apply Permutation_swap.
Defined.

End archive.

(** ** What the form posts *)

(** A request of the form: a PDF and a format the select offers, posted to
    the conversion endpoint. *)
Definition conversion_request (r : Request) : Prop :=
  exists file value,
    file_type file = pdfMime /\ value ∈ formats.*1 /\
    r = mkRequest endpoint (formData file value).

(** What is staged for the next submission is fit to post, and so was
    everything posted before. *)
Record Posted (c : Config) : Prop := mkPosted {
  posted_format : targetFormat (state c) ∈ formats.*1;
  posted_file : forall file, selectedFile (state c) = Some file -> file_type file = pdfMime;
  posted_requests : Forall conversion_request (requests c);
}.

(** Unfold the handlers down to the state they build. *)
Ltac p2i_handlers :=
  unfold handleFileChange, handleFormatChange, handleSubmit, onFetch, onText, onBlob,
    onLoad, onEntry, showImages, catchFinally, newArray;
  repeat case_match; simplify_eq/=.

Section p2i_posted.
Implicit Types (c : Config) (value : jsstring) (r : Request) (file : File).

(** Only the select changes the format. *)
Lemma p2i_step_format e c c' :
  step e c = Some c' ->
  targetFormat (state c') =
  match e with FormatChange value => value | _ => targetFormat (state c) end.
Proof.
  destruct e; cbn [step]; intros Hs; repeat case_match; simplify_eq; by p2i_handlers.
Qed.

(** Only the file input changes the file, and it accepts a PDF only. *)
Lemma p2i_step_file e c c' file :
  step e c = Some c' -> selectedFile (state c') = Some file ->
  selectedFile (state c) = Some file \/ file_type file = pdfMime.
Proof.
  destruct e; cbn [step]; intros Hs; repeat case_match; simplify_eq; p2i_handlers;
    try case_bool_decide; naive_solver.
Qed.

(** Only [handleSubmit] posts, and it posts what is staged. *)
Lemma p2i_step_requests e c c' :
  step e c = Some c' ->
  requests c' = requests c \/
  exists file, selectedFile (state c) = Some file /\
    requests c' = requests c ++ [mkRequest endpoint (formData file (targetFormat (state c)))].
Proof.
  destruct e; cbn [step]; intros Hs; repeat case_match; simplify_eq; p2i_handlers;
    naive_solver.
Qed.

Lemma p2i_Posted_step e c c' :
  Posted c -> enabled e c = true -> step e c = Some c' -> Posted c'.
Proof.
  intros [Hv Hf Hr] He Hs. split.
  - rewrite (p2i_step_format _ _ _ Hs). destruct e; try done. by apply bool_decide_eq_true in He.
  - intros file [?| ?]%(p2i_step_file _ _ _ _ Hs); auto.
  - destruct (p2i_step_requests _ _ _ Hs) as [->|(file & Hfile & ->)]; [done|].
    apply Forall_app. split; [done|]. apply Forall_singleton. exists file, (targetFormat (state c)).
    auto.
Qed.

Lemma p2i_reachable_Posted c : reachable c -> Posted c.
Proof.
  induction 1 as [|e c c' _ IH _ He Hs]; [|by eapply p2i_Posted_step].
  split; [compute_done|done|constructor].
Qed.

(** C22. Every request the form has sent carries a PDF and a format the
    select offers, under the field names the endpoint reads, and went to the
    conversion endpoint. *)
Theorem p2i_requests_well_formed c : reachable c -> Forall conversion_request (requests c).
Proof. by intros [_ _ H]%p2i_reachable_Posted. Qed.

Lemma p2i_requests_well_formed_witness : Forall conversion_request (requests (after converted)).
Proof. apply (p2i_requests_well_formed (after converted)). apply after_reachable. Defined.

(** The format of a reachable page is one of the two the select offers. *)
Lemma p2i_format_offered c :
  reachable c -> targetFormat (state c) = Str.lit "png" \/ targetFormat (state c) = Str.lit "jpeg".
Proof.
  intros [H _ _]%p2i_reachable_Posted.
  repeat (apply elem_of_cons in H as [H|H]; [by auto|]). by apply elem_of_nil in H.
Qed.

End p2i_posted.
