(* ===== verification/PdfToImageRuns.v ===== *)
(** * The PDF-to-image form: a submission comes to an end

    A submission waits for the response, its body, the archive, and then
    for as many entries as the archive turns out to have: no number bounds
    its awaits before the archive is loaded.  This file measures a task by
    its stage and, at the last stage, by the entries still to settle, and
    proves that every settlement lowers the measure in the lexicographic
    order: no run of the page has infinitely many settlements in a row. *)

From stdpp Require Import base tactics option list strings.
From Stdlib Require Import Lia Relation_Operators Wellfounded.Inverse_Image Wellfounded.Inclusion.
From S2P Require Import Prelude Js Browser React Remote Flight PdfToImage.
Import PdfToImageConverter.

(** The stage of a task, counted from the end. *)
Definition rank (k : Task) : nat :=
  match k with
  | AwaitFetch => 4
  | AwaitText | AwaitBlob => 3
  | AwaitLoad _ => 2
  | AwaitAll _ _ _ => 1
  | Finished => 0
  end.

(** The entries a task still waits for. *)
Definition pending (k : Task) : nat :=
  match k with
  | AwaitAll _ _ slots => Flight.activeCount PromiseAll.is_pending slots
  | _ => 0
  end.

(** The events that settle a promise. *)
Definition settlement (e : Event) : bool :=
  match e with FileChange _ | FormatChange _ | Submit => false | _ => true end.

(** [settles c' c]: a settlement takes the page from [c] to [c']. *)
Definition settles (c' c : Config) : Prop :=
  exists e, settlement e = true /\ step e c = Some c'.

Section p2i_runs.
Implicit Types (c : Config) (e : Event) (t i : nat) (k : Task).

(** A settled slot lowers the number of pending entries. *)
Lemma p2i_pending_insert {A} (slots : list (PromiseAll.slot A)) i sl :
  slots !! i = Some PromiseAll.Pending -> PromiseAll.is_pending sl = false ->
  Flight.activeCount PromiseAll.is_pending (<[i := sl]> slots)
  < Flight.activeCount PromiseAll.is_pending slots.
Proof.
  intros Hi Hsl.
  pose proof (activeCount_insert_end (active:=PromiseAll.is_pending) _ _ _ sl Hi eq_refl Hsl).
  lia.
Qed.

(** Every settlement moves one task, to an earlier stage or to fewer
    entries to wait for. *)
Lemma p2i_settlement_moves e c c' :
  settlement e = true -> step e c = Some c' ->
  exists t k k', tasks c !! t = Some k /\ tasks c' = <[t := k']> (tasks c) /\
    (rank k' < rank k \/ (rank k' = rank k /\ pending k' < pending k)).
Proof.
  intros He Hs. destruct e as [| | |t r|t r|t r|t r|t i r]; try done; cbn [step] in Hs;
    destruct (tasks c !! t) as [k|] eqn:Ht; try done; exists t, k.
  - destruct k; try done. injection Hs as <-.
    destruct r as [[[]]|]; eexists; (split_and!; [done|done|left; simpl; lia]).
  - destruct k; try done. injection Hs as <-.
    destruct r; eexists; (split_and!; [done|done|left; simpl; lia]).
  - destruct k; try done. injection Hs as <-.
    destruct r; simpl; eexists; (split_and!; [done|done|left; simpl; lia]).
  - destruct k; try done. injection Hs as <-. destruct r as [zip|]; simpl.
    + destruct (imagePromises zip); eexists; (split_and!; [done|done|left; simpl; lia]).
    + eexists; (split_and!; [done|done|left; simpl; lia]).
  - destruct k as [| | | |rejected names slots|]; try done.
    destruct (slots !! i) as [[]|] eqn:Hi; try done. injection Hs as <-.
    destruct r as [blob|err]; simpl; unfold awaitAll;
      repeat case_match; eexists; (split_and!; [done|done|]);
      first [by left; simpl; lia | right; split; [done|]; by apply p2i_pending_insert].
Qed.

Lemma p2i_settlement_decreases c' c :
  settles c' c ->
  lex_lt (measure rank pending (tasks c')) (measure rank pending (tasks c)).
Proof.
  intros (e & He & Hs).
  destruct (p2i_settlement_moves e c c' He Hs) as (t & k & k' & Ht & -> & Hlt).
  by eapply measure_insert.
Qed.

(** C11. Settlements come to an end: the relation that takes the page from
    a configuration to the next by a settled promise is well founded,
    whatever the number of entries the archive has and the order in which
    they settle.  A submission cannot keep the page waiting through
    infinitely many settlements. *)
Theorem p2i_settlements_terminate : well_founded settles.
Proof.
  eapply wf_incl; [|apply wf_inverse_image with (f := fun c => measure rank pending (tasks c));
                    apply lex_lt_wf].
  intros c' c. apply p2i_settlement_decreases.
Qed.

End p2i_runs.
