(* ===== verification/PdfToImageDefects.v ===== *)
(** * The PDF-to-image form: where the page departs from its design

    The design of the conversion session asks that a preview handle is
    revoked exactly once and never used after that, that a response which
    arrives after the input was replaced is discarded, that an archive
    without entries is shown as an empty result, and that no error crosses
    the session's boundary.  The theorems of this file are about the runs of
    the form where one of these fails; each is proved of the model of
    PdfToImage.v and instantiated at a run from the first render. *)

From stdpp Require Import base tactics option list strings.
From Stdlib Require Import Lia.
From S2P Require Import Prelude Js Browser React Remote Flight.
From S2P Require Import PdfToImage PdfToImageArchive PdfToImageInv PdfToImageProps.
From S2P Require Import PdfToImageRuns.
Import PdfToImageConverter.

(** ** Sample values *)

Definition memo : File := mkFile (Str.lit "memo.pdf") pdfMime [].

(** The settlements of a conversion that succeeds: the exchange with the
    server, the archive loaded, and its entries read in [order]. *)
Definition conversion_events (t : nat) (x : Exchange) (zip : list ZipObject)
    (blobs : nat -> Blob) (order : list nat) : list Event :=
  exchange_events t x ++ LoadSettled t (Fulfilled zip) :: entry_events t blobs order.

(** The server answers with the archive. *)
Definition delivered : Exchange :=
  mkExchange (Fulfilled (mkResponse true)) (Fulfilled []) (Fulfilled archive).

(** The file input is emptied while the response is being read. *)
Definition emptied : list Event :=
  submitted ++ [FileChange []; FetchSettled 0 (Fulfilled (mkResponse true))].

(** The first page is read, the second one cannot be. *)
Definition damaged : list Event := loading ++ [EntrySettled 0 0 (Fulfilled page)].

(** The archive has directories only. *)
Definition hollow : list ZipObject := [mkZipObject (Str.lit "pages/") true].

Section defects.
Implicit Types (c : Config) (u t i : nat) (f : File) (files : list File).

(** C24. After a conversion that produced previews, emptying the file input
    (or choosing a file that is not a PDF) takes the page down: the file is
    deselected while the previews and the archive link stay, and the next
    render reads [selectedFile.name] of [null]. *)
Theorem p2i_deselect_crashes c files u :
  reachable c -> alive c = true ->
  zipUrl (state c) = Some u ->
  isLoading (state c) = true \/ items (convertedImages (state c)) <> [] ->
  (forall f, head files = Some f -> file_type f <> pdfMime) ->
  reachable (handleFileChange files c) /\
  render (state (handleFileChange files c)) = Rejected (Exn.null_read (Str.lit "name")).
Proof.
  intros Hc Ha Hz Hshown Hf. split.
  - by apply (reachable_step (FileChange files) c).
  - assert (Hs : exists s', state (handleFileChange files c) = setError s' (setSelectedFile None (state c))).
    { unfold handleFileChange. destruct (head files) as [f|];
        [rewrite bool_decide_false by auto|]; rewrite render_with_same by done; by eexists. }
    destruct Hs as [s' ->]. apply render_rejected; [done|by exists u|].
    unfold showsResults. cbn [setError setSelectedFile isLoading convertedImages].
    destruct Hshown as [->|Hi]; [done|]. apply orb_true_iff. right.
    apply bool_decide_eq_true. destruct (items _); [done|simpl; lia].
Qed.

Lemma p2i_deselect_crashes_witness :
  reachable (handleFileChange [] (after converted)) /\
  render (state (handleFileChange [] (after converted))) =
    Rejected (Exn.null_read (Str.lit "name")).
Proof.
  apply (p2i_deselect_crashes (after converted) [] 0).
  - apply after_reachable.
  - reflexivity.
  - reflexivity.
  - right. vm_compute. discriminate.
  - intros f [=].
Defined.

(** C25. The same crash with the events in the other order: when the file
    input is emptied while the conversion is in flight, the page stays up
    until the archive arrives, and the render that stores the archive's URL
    reads [selectedFile.name] of [null]. *)
Theorem p2i_late_archive_crashes c t zipBlob :
  reachable c -> alive c = true ->
  tasks c !! t = Some AwaitBlob -> selectedFile (state c) = None ->
  reachable (onBlob t (Fulfilled zipBlob) c) /\
  render (state (onBlob t (Fulfilled zipBlob) c)) = Rejected (Exn.null_read (Str.lit "name")).
Proof.
  intros Hc Ha Ht Hf. split.
  - apply (reachable_step (BlobSettled t (Fulfilled zipBlob)) c); [done..|].
    cbn [step]. by rewrite Ht.
  - destruct (Inv_active_loading _ _ _ (reachable_Inv _ Hc) Ht eq_refl) as [Hl _].
    cbn [onBlob]. rewrite (create_eta zipBlob). cfg.
    apply render_rejected; [done|by eexists|]. unfold showsResults. cfg. by rewrite Hl.
Qed.

Lemma p2i_late_archive_crashes_witness :
  reachable (onBlob 0 (Fulfilled archive) (after emptied)) /\
  render (state (onBlob 0 (Fulfilled archive) (after emptied))) =
    Rejected (Exn.null_read (Str.lit "name")).
Proof.
  apply (p2i_late_archive_crashes (after emptied) 0 archive);
    [apply after_reachable|reflexivity..].
Defined.

(** A settlement leaves the selection and the requests as they are. *)
Lemma p2i_settlement_selection e c c' :
  settlement e = true -> step e c = Some c' ->
  selectedFile (state c') = selectedFile (state c) /\ requests c' = requests c.
Proof.
  destruct e; try done; cbn [step]; intros _ Hs; repeat case_match; simplify_eq;
    by p2i_handlers.
Qed.

(** Settlements that run on a page with a file selected are admitted: the
    page stays up through them. *)
Lemma p2i_settlements_play es c c' f :
  Forall (fun e => settlement e = true) es -> selectedFile (state c) = Some f ->
  run es c = Some c' ->
  play es c = Some c' /\ selectedFile (state c') = Some f /\ requests c' = requests c.
Proof.
  intros Hes. revert c. induction Hes as [|e es He _ IH]; intros c Hf Hr; [by simplify_eq/=|].
  cbn [run play] in *. unfold alive. rewrite render_fulfilled by (left; rewrite Hf; eauto).
  replace (enabled e c) with true by (by destruct e).
  destruct (step e c) as [c1|] eqn:Hs; [|done]. cbn [andb mbind option_bind] in *.
  destruct (p2i_settlement_selection _ _ _ He Hs) as [Hsel <-].
  apply IH; [congruence|done].
Qed.

Lemma conversion_events_settle t x zip blobs order :
  Forall (fun e => settlement e = true) (conversion_events t x zip blobs order).
Proof.
  apply Forall_app. split; [|constructor; [done|by apply Forall_fmap, Forall_true]].
  unfold exchange_events. constructor; [done|]. repeat case_match; by repeat constructor.
Qed.

(** Choosing another PDF leaves the calls of the handler as they are. *)
Lemma p2i_select_in_flight c g files :
  file_type g = pdfMime ->
  let c' := handleFileChange (g :: files) c in
  selectedFile (state c') = Some g /\ tasks c' = tasks c /\ requests c' = requests c.
Proof. intros Hg. unfold handleFileChange. cbn [head]. by rewrite bool_decide_true. Qed.

(** C26. A response is not checked against the selection it was requested
    for.  Whenever a conversion is in flight and another PDF is chosen, the
    conversion goes on: whatever archive the server answers the earlier
    request with, and in whatever order its entries are read, the page ends
    up showing the pages of that archive with the new file selected, for
    which it sent no request. *)
Theorem p2i_stale_response_shown c t g files x zipBlob zip blobs order :
  reachable c -> alive c = true -> tasks c !! t = Some AwaitFetch ->
  file_type g = pdfMime ->
  classify fallbackMessage x = Fulfilled zipBlob ->
  order ≡ₚ seq 0 (length (imagePromises zip)) ->
  exists c',
    play (FileChange (g :: files) :: conversion_events t x zip blobs order) c = Some c' /\
    reachable c' /\
    selectedFile (state c') = Some g /\
    shows (imagePromises zip) t c' /\
    requests c' = requests c.
Proof.
  intros Hc Ha Ht Hg Hx Hp.
  destruct (p2i_select_in_flight c g files Hg) as (Hsel & Htasks & Hreq).
  destruct (p2i_archive_run (onBlob t (Fulfilled zipBlob) (handleFileChange (g :: files) c))
              t zipBlob zip blobs order) as (c' & Hrun & Hshows); [|done|].
  { cbn [onBlob]. rewrite (create_eta zipBlob). apply list_lookup_insert_eq.
    cfg. rewrite Htasks. by eapply lookup_lt_Some. }
  destruct (p2i_settlements_play (conversion_events t x zip blobs order)
              (handleFileChange (g :: files) c) c' g) as (Hplay & Hsel' & Hreq');
    [apply conversion_events_settle|done| |].
  { unfold conversion_events. rewrite run_app, p2i_exchange_run by by rewrite Htasks.
    by rewrite Hx. }
  exists c'. assert (Hall : play (FileChange (g :: files) :: conversion_events t x zip blobs order) c = Some c').
  { cbn [play enabled step]. by rewrite Ha. }
  split_and!; [done|by eapply play_reachable|done|done|congruence].
Qed.

Lemma p2i_stale_response_shown_witness :
  exists c',
    play (FileChange [memo] :: conversion_events 0 delivered pages (fun _ => page) [1; 0])
      (after submitted) = Some c' /\
    reachable c' /\
    selectedFile (state c') = Some memo /\
    shows (imagePromises pages) 0 c' /\
    requests c' = requests (after submitted).
Proof.
  apply (p2i_stale_response_shown (after submitted) 0 memo [] delivered archive pages
           (fun _ => page) [1; 0]).
  - apply after_reachable.
  - reflexivity.
  - reflexivity.
  - reflexivity.
  - reflexivity.
  - vm_compute. apply Permutation_swap.
Defined.

(** When an entry of the archive cannot be read, the object URLs of the
    entries read before it are orphaned: they stay live, the state does not
    refer to them, and no continuation is left that would store them. *)
Lemma p2i_entry_orphaned c t i names slots err img :
  reachable c -> tasks c !! t = Some (AwaitAll false names slots) ->
  slots !! i = Some PromiseAll.Pending -> PromiseAll.Done img ∈ slots ->
  let c' := onEntry t i false names slots (Rejected err) c in
  is_Some (Url.lookup (url img) (urls c')) /\
  (url img ∉ heldUrls (state c')) /\
  Forall (fun k => active k = false) (tasks c').
Proof.
  intros HI%reachable_Inv Ht Hi [j Hj]%list_elem_of_lookup.
  destruct (Inv_phase_lookup _ _ _ HI Ht) as (Hitems & _ & Hslots).
  destruct (Hslots j _ Hj) as (_ & Hlive & Hzip).
  destruct (Inv_active_loading _ _ _ HI Ht eq_refl) as [_ Hc].
  cbn [onEntry]. rewrite catchFinally_eq. cfg. split_and!; [done| |].
  - unfold heldUrls. cfg. rewrite Hitems.
    destruct (zipUrl (state c)); [|apply not_elem_of_nil].
    intros Heq%list_elem_of_singleton. by rewrite Heq in Hzip.
  - apply activeCount_0.
    pose proof (activeCount_insert (active:=active) _ _ _ (awaitAll true names
      (<[i:=PromiseAll.Failed]> slots)) Ht) as H.
    rewrite active_awaitAll in H. simpl in H. lia.
Qed.

Lemma p2i_entry_orphaned_witness :
  let c' := onEntry 0 1 false (imagePromises pages)
              [PromiseAll.Done (mkImage (Str.lit "pages/page_1.png") 1); PromiseAll.Pending]
              (Rejected Exn.NotAnError) (after damaged) in
  is_Some (Url.lookup 1 (urls c')) /\
  (1 ∉ heldUrls (state c')) /\
  Forall (fun k => active k = false) (tasks c').
Proof.
  apply (p2i_entry_orphaned (after damaged) 0 1 (imagePromises pages)
           [PromiseAll.Done (mkImage (Str.lit "pages/page_1.png") 1); PromiseAll.Pending]
           Exn.NotAnError (mkImage (Str.lit "pages/page_1.png") 1)).
  - apply after_reachable.
  - reflexivity.
  - reflexivity.
  - apply list_elem_of_here.
Defined.

(** C35. The archive URL is revoked a second time: after a conversion that
    produced previews the URL is already revoked, and the cleanup that runs
    when the next PDF is chosen passes it to [revokeObjectURL] once more. *)
Theorem p2i_zip_revoked_again c f files u :
  reachable c -> items (convertedImages (state c)) <> [] -> zipUrl (state c) = Some u ->
  file_type f = pdfMime ->
  Url.lookup u (urls c) = None /\
  Url.times_revoked u (urls (handleFileChange (f :: files) c)) =
    S (Url.times_revoked u (urls c)).
Proof.
  intros HI%reachable_Inv Hne Hz Hf. pose proof (inv_zip_dead _ HI Hne _ Hz) as Hdead.
  split; [done|]. unfold handleFileChange. cbn [head]. rewrite bool_decide_true by done.
  cfg. rewrite (commit_changed (St := State)).
  - rewrite times_revoked_revokeEach. cbn [held effect]. unfold heldUrls.
    rewrite Hz. cbn [option_list]. rewrite filter_eq_snoc; [done|].
    intros (img & -> & Himg)%list_elem_of_fmap.
    destruct (inv_live _ HI _ Himg) as [b Hb]. congruence.
  - apply depsChanged_fresh. cfg. pose proof (inv_stamp _ HI). lia.
Qed.

Lemma p2i_zip_revoked_again_witness :
  Url.lookup 0 (urls (after converted)) = None /\
  Url.times_revoked 0 (urls (handleFileChange [memo] (after converted))) =
    S (Url.times_revoked 0 (urls (after converted))).
Proof.
  apply (p2i_zip_revoked_again (after converted) memo [] 0).
  - apply after_reachable.
  - vm_compute. discriminate.
  - reflexivity.
  - reflexivity.
Defined.

(** C39. An archive without entries leaves no trace on the page: the
    conversion ends without error, but the results section is not rendered
    (no heading, no link), and the archive URL the state keeps is already
    revoked. *)
Theorem p2i_empty_archive_hidden c t zipBlob zip u :
  reachable c -> tasks c !! t = Some (AwaitLoad zipBlob) -> zipUrl (state c) = Some u ->
  imagePromises zip = [] ->
  let c' := onLoad t (Fulfilled zip) c in
  results (state c') = Fulfilled None /\ error (state c') = error (state c) /\
  zipUrl (state c') = Some u /\ Url.lookup u (urls c') = None.
Proof.
  intros HI%reachable_Inv Ht Hz Hn. cbn [onLoad]. rewrite Hn.
  unfold showImages. cfg. split_and!; [done..|].
  apply (commit_revokes (St := State)).
  - apply depsChanged_fresh. cfg. pose proof (inv_stamp _ HI). lia.
  - cbn [held effect]. unfold heldUrls. rewrite Hz. apply elem_of_app. right. left.
Qed.

Lemma p2i_empty_archive_hidden_witness :
  let c' := onLoad 0 (Fulfilled hollow) (after fetched) in
  results (state c') = Fulfilled None /\ error (state c') = error (state (after fetched)) /\
  zipUrl (state c') = Some 0 /\ Url.lookup 0 (urls c') = None.
Proof.
  apply (p2i_empty_archive_hidden (after fetched) 0 archive hollow 0);
    [apply after_reachable|reflexivity..].
Defined.

(** The name offered for the archive is the file's name with the
    first occurrence of [.pdf] replaced by [.zip], wherever in the name that
    is; a name whose extension is written otherwise is kept as it is. *)
Lemma p2i_zip_name s f a b :
  selectedFile s = Some f -> 46%N ∉ a ->
  file_name f = a ++ Str.lit ".pdf" ++ b ->
  zipName s = Fulfilled (a ++ Str.lit ".zip" ++ b).
Proof.
  intros Hf Ha Hn. unfold zipName. rewrite Hf, Hn. f_equal.
  by apply (replace_first 46%N (Str.lit "pdf")).
Qed.

Lemma p2i_zip_name_witness :
  zipName (state (after submitted)) = Fulfilled (Str.lit "report" ++ Str.lit ".zip" ++ []).
Proof.
  apply (p2i_zip_name (state (after submitted)) report (Str.lit "report") []).
  - reflexivity.
  - vm_compute. intros H. repeat (apply elem_of_cons in H as [H|H]; [discriminate|]).
    by apply elem_of_nil in H.
  - reflexivity.
Defined.

End defects.
