(* ===== verification/PdfToImageLeak.v ===== *)
(** * The PDF-to-image form: object URLs that are never released

    The effect's cleanup revokes what the state of a render holds.  A URL
    that the state does not hold, and that no suspended call will store, is
    out of the cleanup's reach.  This file defines such URLs ([orphan]),
    proves that an orphan stays one under every event and is still live
    after the component has unmounted, and that a failed entry of an
    archive makes orphans of the entries read before it. *)

From stdpp Require Import base tactics option list sets strings.
From Stdlib Require Import Lia.
From S2P Require Import Prelude Js Browser React Remote Flight.
From S2P Require Import PdfToImage PdfToImageArchive PdfToImageInv PdfToImageProps.
From S2P Require Import PdfToImageDefects.
Import PdfToImageConverter.

(** The URLs a suspended call will store when it resumes: those of the
    entries read so far, while [Promise.all] has not rejected. *)
Definition awaited (k : Task) : list nat :=
  match k with
  | AwaitAll false _ slots => url <$> PromiseAll.fulfilled slots
  | _ => []
  end.

(** The URLs a cleanup can still reach: those the state holds and those a
    suspended call will store. *)
Definition claimed (c : Config) : list nat := heldUrls (state c) ++ (tasks c ≫= awaited).

(** A live URL out of the cleanup's reach. *)
Definition orphan (u : nat) (c : Config) : Prop :=
  is_Some (Url.lookup u (urls c)) /\ u ∉ claimed c.

#[export] Instance orphan_dec u c : Decision (orphan u c).
Proof. unfold orphan. apply _. Defined.

(** The configurations that follow [c]. *)
Inductive follows (c : Config) : Config -> Prop :=
| follows_refl : follows c c
| follows_step e c' c'' :
    follows c c' -> alive c' = true -> enabled e c' = true -> step e c' = Some c'' ->
    follows c c''.

(** After the failure the user converts another file. *)
Definition retried : list Event := [FileChange [memo]; Submit].

Section leak.
Implicit Types (c : Config) (u v t i : nat) (k : Task) (ts : list Task).

(** A handler leaves the store as it is, or mints one URL; the render
    after it may run the cleanup of the render before. *)
Lemma p2i_step_urls e c c' :
  step e c = Some c' ->
  exists σ,
    (σ = urls c \/ exists b, σ = (Url.createObjectURL b (urls c)).2) /\
    (urls c' = σ \/ exists new, urls c' = commit (state c) new σ).
Proof.
  destruct e; cbn [step]; intros Hs; repeat case_match; simplify_eq; p2i_handlers; cfg;
    try match goal with
        | H : Url.createObjectURL _ _ = (_, _) |- _ =>
            unfold Url.createObjectURL in H; simplify_eq
        end;
    eexists;
    first [ split; [left; reflexivity|]; first [by left|right; by eexists]
          | split; [right; eexists; reflexivity|]; first [by left|right; by eexists] ].
Qed.

(** An event revokes nothing but what the render before it held. *)
Lemma p2i_step_lookup e c c' u :
  Url.wf (urls c) -> step e c = Some c' ->
  is_Some (Url.lookup u (urls c)) -> u ∉ heldUrls (state c) ->
  Url.lookup u (urls c') = Url.lookup u (urls c).
Proof.
  intros Hwf (σ & Hσ & Hc')%p2i_step_urls Hu Hheld.
  assert (Url.lookup u σ = Url.lookup u (urls c)) as <-.
  { destruct Hσ as [->|[b ->]]; [done|]. apply lookup_create_ne.
    apply Hwf in Hu. lia. }
  destruct Hc' as [->|[new ->]]; [done|]. by apply (commit_lookup_ne (St := State)).
Qed.

Lemma awaited_insert ts t k v :
  v ∈ (<[t := k]> ts ≫= awaited) -> v ∈ awaited k \/ v ∈ (ts ≫= awaited).
Proof.
  revert t; induction ts as [|k0 ts IH]; intros [|t]; simpl; [set_solver..| |].
  - rewrite !elem_of_app. naive_solver.
  - rewrite !elem_of_app. intros [?|?%IH]; naive_solver.
Qed.

Lemma awaited_lookup ts t k v : ts !! t = Some k -> v ∈ awaited k -> v ∈ (ts ≫= awaited).
Proof. intros Ht Hv. apply list_elem_of_bind. exists k. eauto using list_elem_of_lookup_2. Qed.

Lemma awaited_awaitAll names slots v : v ∉ awaited (awaitAll true names slots).
Proof. unfold awaitAll. case_match; apply not_elem_of_nil. Qed.

(** An entry that is read adds its URL to those its call will store. *)
Lemma awaited_fulfil slots i img v :
  slots !! i = Some PromiseAll.Pending ->
  v ∈ url <$> PromiseAll.fulfilled (<[i := PromiseAll.Done img]> slots) ->
  v = url img \/ v ∈ url <$> PromiseAll.fulfilled slots.
Proof.
  intros Hi. rewrite (fulfilled_insert_pending _ _ _ Hi), fmap_cons, elem_of_cons. tauto.
Qed.

Lemma claimed_mk s σ st ts rs v :
  v ∈ claimed (mkConfig s σ st ts rs) <-> v ∈ heldUrls s \/ v ∈ (ts ≫= awaited).
Proof. unfold claimed. by rewrite elem_of_app. Qed.

Lemma claimed_tasks c t k v : tasks c !! t = Some k -> v ∈ awaited k -> v ∈ claimed c.
Proof. intros Ht Hv. apply elem_of_app. right. by eapply awaited_lookup. Qed.

Lemma claimed_held c v : v ∈ heldUrls (state c) -> v ∈ claimed c.
Proof. intros Hv. apply elem_of_app. by left. Qed.

(** What can be claimed after a task has moved: what the new state holds
    and what the task will store at its new stage, besides what could be
    claimed before. *)
Lemma claimed_moved c s σ st rs t k' v (P : Prop) :
  (v ∈ heldUrls s -> P) -> (v ∈ awaited k' -> P) -> (v ∈ claimed c -> P) ->
  v ∈ claimed (mkConfig s σ st (<[t := k']> (tasks c)) rs) -> P.
Proof.
  intros Hs Hk Hc [Hv|[Hv|Hv]%awaited_insert]%claimed_mk; auto.
  apply Hc, elem_of_app. by right.
Qed.

Lemma claimed_onEntry c t i rejected names slots r v :
  tasks c !! t = Some (AwaitAll rejected names slots) ->
  slots !! i = Some PromiseAll.Pending ->
  v ∈ claimed (onEntry t i rejected names slots r c) ->
  v ∈ claimed c \/ v = Url.minted (urls c).
Proof.
  intros Ht Hi. destruct r as [blob|err]; cbn [onEntry].
  - rewrite (create_eta blob). destruct rejected.
    + cfg. apply claimed_moved; [by left; apply claimed_held| |by left].
      by intros ?%awaited_awaitAll.
    + destruct (PromiseAll.values _) as [images|] eqn:Hv.
      * unfold showImages. cfg. apply claimed_moved; [|by intros ?%elem_of_nil|by left].
        unfold heldUrls. cfg. rewrite <- (values_fulfilled _ _ Hv).
        intros [[->|Hu]%(awaited_fulfil _ _ _ _ Hi)|Hz]%elem_of_app; [by right|left..].
        -- by apply (claimed_tasks _ _ _ _ Ht).
        -- apply claimed_held, elem_of_app. by right.
      * cfg. apply claimed_moved; [by left; apply claimed_held| |by left].
        intros [->|Hu]%(awaited_fulfil _ _ _ _ Hi); [by right|left].
        by apply (claimed_tasks _ _ _ _ Ht).
  - destruct rejected; [|rewrite catchFinally_eq]; cfg;
      (apply claimed_moved; [by left; apply claimed_held| |by left]);
      by intros ?%awaited_awaitAll.
Qed.

Lemma fulfilled_pending {A B} (l : list B) :
  PromiseAll.fulfilled (A := A) (const PromiseAll.Pending <$> l) = [].
Proof. by induction l. Qed.

Lemma claimed_onLoad c t r v :
  v ∈ claimed (onLoad t r c) -> v ∈ claimed c.
Proof.
  destruct r as [zip|err]; cbn [onLoad]; [destruct (imagePromises zip) as [|n ns] eqn:Hn|].
  - unfold showImages. cfg. apply claimed_moved; [|by intros ?%elem_of_nil|done].
    unfold heldUrls. cfg. intros Hz. apply claimed_held, elem_of_app. by right.
  - cfg. apply claimed_moved; [apply claimed_held| |done].
    cbn [awaited]. rewrite fulfilled_pending. by intros ?%elem_of_nil.
  - rewrite catchFinally_eq. cfg. apply claimed_moved; [apply claimed_held|by intros ?%elem_of_nil|done].
Qed.

(** An event lets the cleanup reach nothing it could not reach before,
    except the URL the event mints. *)
Lemma p2i_step_claimed e c c' v :
  step e c = Some c' -> v ∈ claimed c' -> v ∈ claimed c \/ v = Url.minted (urls c).
Proof.
  destruct e as [| | | | | |t r|t i r]; cbn [step]; intros Hs; repeat case_match; simplify_eq;
    [..|by left; eapply claimed_onLoad|by eapply claimed_onEntry].
  all: unfold claimed; p2i_handlers; cfg;
    try match goal with
        | H : Url.createObjectURL _ _ = (_, _) |- _ =>
            unfold Url.createObjectURL in H; simplify_eq
        end; unfold heldUrls; cfg; simpl.
  all: rewrite ?bind_app, ?elem_of_app; intros Hv;
    repeat match goal with
           | H : _ \/ _ |- _ => destruct H
           | H : _ ∈ (<[_:=_]> _ ≫= awaited) |- _ => apply awaited_insert in H
           end; try (by auto); by set_solver.
Qed.

Lemma awaited_inactive k : active k = false -> awaited k = [].
Proof. by destruct k as [| | | |[]|]. Qed.

(** With no call left that would resume, only the state's URLs can be
    claimed. *)
Lemma claimed_idle c v :
  Forall (fun k => active k = false) (tasks c) -> v ∈ claimed c -> v ∈ heldUrls (state c).
Proof.
  intros Hts [Hv|(k & Hv & Hk)%list_elem_of_bind]%elem_of_app; [done|].
  rewrite Forall_forall in Hts. rewrite (awaited_inactive k) in Hv by auto.
  by apply elem_of_nil in Hv.
Qed.

(** An orphan stays an orphan under every event. *)
Lemma orphan_step e c c' u :
  Url.wf (urls c) -> orphan u c -> step e c = Some c' -> orphan u c'.
Proof.
  intros Hwf [Hu Hc] Hs. split.
  - rewrite (p2i_step_lookup e c c' u) by eauto using claimed_held. done.
  - intros [? | ->]%(p2i_step_claimed _ _ _ _ Hs); [done|]. apply Hwf in Hu. lia.
Qed.

Lemma follows_reachable c c' : reachable c -> follows c c' -> reachable c'.
Proof. induction 2; eauto using reachable_step. Qed.

Lemma follows_play es c c' : play es c = Some c' -> follows c c'.
Proof.
  revert c'. induction es as [|e es IH] using rev_ind; intros c' Hp; simplify_eq/=.
  { constructor. }
  rewrite play_app in Hp. destruct (play es c) as [c1|] eqn:H1; simplify_eq/=.
  destruct (alive c1) eqn:Ha, (enabled e c1) eqn:He, (step e c1) as [c2|] eqn:Hs;
    simplify_eq/=.
  eapply follows_step; eauto.
Qed.

(** An orphan is out of reach for good: it is an orphan in every
    configuration that follows, and unmounting the component there leaves
    it live. *)
Lemma orphan_follows c c' u :
  reachable c -> orphan u c -> follows c c' ->
  orphan u c' /\ is_Some (Url.lookup u (unmount (state c') (urls c'))).
Proof.
  intros Hr Ho Hf. assert (orphan u c') as [Hu Hc].
  { induction Hf as [|e c' c'' Hf IH _ _ Hs]; [done|].
    eapply orphan_step; [|by apply IH|done].
    by apply reachable_Inv, (follows_reachable c). }
  split; [done|]. rewrite (unmount_lookup_ne (St := State)); [done|].
  intros ?. by apply Hc, claimed_held.
Qed.

(** C13. When an entry of the archive cannot be read, the object URL of
    every entry read before it is leaked for good: whatever the user does
    next, and whether or not the component is unmounted in the end, the URL
    stays live, and no render holds it. *)
Theorem p2i_leak_permanent c t i names slots err img c' :
  reachable c -> alive c = true -> tasks c !! t = Some (AwaitAll false names slots) ->
  slots !! i = Some PromiseAll.Pending -> PromiseAll.Done img ∈ slots ->
  follows (onEntry t i false names slots (Rejected err) c) c' ->
  is_Some (Url.lookup (url img) (urls c')) /\
  (url img ∉ heldUrls (state c')) /\
  is_Some (Url.lookup (url img) (unmount (state c') (urls c'))).
Proof.
  intros Hr Ha Ht Hi Himg Hf.
  destruct (p2i_entry_orphaned c t i names slots err img Hr Ht Hi Himg) as (Hu & Hh & Hts).
  destruct (orphan_follows (onEntry t i false names slots (Rejected err) c) c' (url img))
    as [[Hu' Hc'] Hun]; [| |done|].
  - apply (reachable_step (EntrySettled t i (Rejected err)) c); [done..|].
    cbn [step]. by rewrite Ht, Hi.
  - split; [done|]. intros ?%claimed_idle; done.
  - split_and!; [done| |done]. intros ?. by apply Hc', claimed_held.
Qed.

Lemma p2i_leak_permanent_witness :
  let c' := default init
              (play retried
                 (onEntry 0 1 false (imagePromises pages)
                    [PromiseAll.Done (mkImage (Str.lit "pages/page_1.png") 1);
                     PromiseAll.Pending]
                    (Rejected Exn.NotAnError) (after damaged))) in
  is_Some (Url.lookup 1 (urls c')) /\
  (1 ∉ heldUrls (state c')) /\
  is_Some (Url.lookup 1 (unmount (state c') (urls c'))).
Proof.
  apply (p2i_leak_permanent (after damaged) 0 1 (imagePromises pages)
           [PromiseAll.Done (mkImage (Str.lit "pages/page_1.png") 1); PromiseAll.Pending]
           Exn.NotAnError (mkImage (Str.lit "pages/page_1.png") 1)).
  - apply after_reachable.
  - reflexivity.
  - reflexivity.
  - reflexivity.
  - apply list_elem_of_here.
  - apply (follows_play retried). by vm_compute.
Defined.

End leak.

(** ** Without a failed entry nothing leaks *)

(** An entry of an archive could not be read. *)
Definition failed_entry (e : Event) : bool :=
  match e with EntrySettled _ _ (Rejected _) => true | _ => false end.

(** No [Promise.all] has rejected. *)
Definition unrejected (k : Task) : bool :=
  match k with AwaitAll true _ _ => false | _ => true end.

(** Every live URL is within the cleanup's reach. *)
Record Covered (c : Config) : Prop := mkCovered {
  covered_live : forall u, is_Some (Url.lookup u (urls c)) -> u ∈ claimed c;
  covered_tasks : Forall (fun k => unrejected k = true) (tasks c);
}.

Section covered.
Implicit Types (c : Config) (u v t i : nat) (k : Task) (ts : list Task).

(** What a task will store stays claimed when the task moves to a stage
    that will store as much. *)
Lemma awaited_moved ts t k k' v :
  ts !! t = Some k -> (v ∈ awaited k -> v ∈ awaited k') ->
  v ∈ (ts ≫= awaited) -> v ∈ (<[t := k']> ts ≫= awaited).
Proof.
  intros Ht Hk (k0 & Hv & [j Hj]%list_elem_of_lookup)%list_elem_of_bind.
  apply list_elem_of_bind. destruct (decide (j = t)) as [->|Hne].
  - exists k'. simplify_eq. split; [auto|]. apply list_elem_of_lookup. exists t.
    apply list_lookup_insert_eq. by eapply lookup_lt_Some.
  - exists k0. split; [done|]. apply list_elem_of_lookup. exists j.
    by rewrite list_lookup_insert_ne.
Qed.

Lemma awaited_stored ts t k k' v :
  ts !! t = Some k -> v ∈ awaited k' -> v ∈ (<[t := k']> ts ≫= awaited).
Proof.
  intros Ht Hv. apply list_elem_of_bind. exists k'. split; [done|].
  apply list_elem_of_lookup. exists t. apply list_lookup_insert_eq. by eapply lookup_lt_Some.
Qed.

(** What the other tasks will store is not touched when one task moves. *)
Lemma awaited_split ts t k k' v :
  ts !! t = Some k -> v ∈ (ts ≫= awaited) -> v ∈ awaited k \/ v ∈ (<[t := k']> ts ≫= awaited).
Proof.
  intros Ht Hv. destruct (decide (v ∈ awaited k)) as [|Hn]; [by left|right].
  by apply (awaited_moved ts t k).
Qed.

Lemma created_live b σ u :
  is_Some (Url.lookup u (Url.createObjectURL b σ).2) ->
  u = Url.minted σ \/ is_Some (Url.lookup u σ).
Proof.
  intros Hu. destruct (decide (u = Url.minted σ)) as [|Hne]; [by left|right].
  by rewrite lookup_create_ne in Hu.
Qed.

Lemma unrejected_insert ts t k :
  Forall (fun k => unrejected k = true) ts -> unrejected k = true ->
  Forall (fun k => unrejected k = true) (<[t := k]> ts).
Proof. intros Hts Hk. by apply Forall_insert. Qed.

(** A render that runs no cleanup: what was claimed must stay claimed. *)
Lemma Covered_intro c s' σ st ts' rs :
  Covered c ->
  (forall u, is_Some (Url.lookup u σ) ->
             is_Some (Url.lookup u (urls c)) \/ u ∈ heldUrls s' \/ u ∈ (ts' ≫= awaited)) ->
  (forall v, v ∈ claimed c -> v ∈ heldUrls s' \/ v ∈ (ts' ≫= awaited)) ->
  Forall (fun k => unrejected k = true) ts' ->
  Covered (mkConfig s' σ st ts' rs).
Proof.
  intros [Hl _] Hσ Hc Hts. split; [|done]. intros u Hu. apply claimed_mk.
  destruct (Hσ u Hu) as [?|?]; auto.
Qed.

(** A render that runs the cleanup of the render before: what the tasks
    will store must stay claimed. *)
Lemma Covered_commit c s' σ st ts' rs :
  Covered c -> depsChanged (state c) s' = true ->
  (forall u, is_Some (Url.lookup u σ) ->
             is_Some (Url.lookup u (urls c)) \/ u ∈ heldUrls s' \/ u ∈ (ts' ≫= awaited)) ->
  (forall v, v ∈ (tasks c ≫= awaited) -> v ∈ heldUrls s' \/ v ∈ (ts' ≫= awaited)) ->
  Forall (fun k => unrejected k = true) ts' ->
  Covered (mkConfig s' (commit (state c) s' σ) st ts' rs).
Proof.
  intros [Hl _] Hd Hσ Hc Hts. split; [|done].
  intros u [Hu Hh]%(commit_live (St := State)); [|done]. apply claimed_mk.
  destruct (Hσ u Hu) as [[?|?]%Hl%elem_of_app|?]; auto. done.
Qed.

(** The [catch] clause of a call that has stored nothing yet. *)
Lemma Covered_catchFinally c t k err :
  Covered c -> tasks c !! t = Some k -> awaited k = [] ->
  Covered (setTask t Finished (catchFinally err c)).
Proof.
  intros HC Ht Hk. rewrite catchFinally_eq. cfg. apply (Covered_intro c); [done|by left| |].
  - intros v [?|?%(awaited_moved _ t k Finished)]%elem_of_app; auto.
    rewrite Hk. by intros ?%elem_of_nil.
  - apply unrejected_insert; [apply HC|done].
Qed.

Lemma Covered_state c s' :
  Covered c -> heldUrls s' = heldUrls (state c) ->
  Covered (mkConfig s' (urls c) (stamp c) (tasks c) (requests c)).
Proof.
  intros HC Hh. apply (Covered_intro c); [done|by left| |apply HC].
  intros v. rewrite Hh. by intros ?%elem_of_app.
Qed.

(** A render with a fresh preview array: [handleFileChange] and
    [handleSubmit] start this way, and [showImages] ends this way. *)
Lemma Covered_fresh c s' σ l ts' rs :
  Inv c -> Covered c -> convertedImages s' = mkArray (stamp c) l ->
  (forall u, is_Some (Url.lookup u σ) ->
             is_Some (Url.lookup u (urls c)) \/ u ∈ heldUrls s' \/ u ∈ (ts' ≫= awaited)) ->
  (forall v, v ∈ (tasks c ≫= awaited) -> v ∈ heldUrls s' \/ v ∈ (ts' ≫= awaited)) ->
  Forall (fun k => unrejected k = true) ts' ->
  Covered (mkConfig s' (commit (state c) s' σ) (S (stamp c)) ts' rs).
Proof.
  intros HI HC Hi Hσ Hts Hun. apply Covered_commit; [done| |done..].
  apply depsChanged_fresh. rewrite Hi. simpl. pose proof (inv_stamp _ HI). lia.
Qed.

Lemma Covered_handleFileChange c files :
  Inv c -> Covered c -> Covered (handleFileChange files c).
Proof.
  intros HI HC. unfold handleFileChange. destruct (head files) as [f|]; [case_bool_decide|];
    [|rewrite render_with_same by done; by apply Covered_state..].
  cfg. apply (Covered_fresh c _ _ []); [done..|by left|auto|apply HC].
Qed.

Lemma Covered_handleSubmit c : Inv c -> Covered c -> Covered (handleSubmit c).
Proof.
  intros HI HC. unfold handleSubmit. destruct (selectedFile (state c)) as [f|];
    [|rewrite render_with_same by done; by apply Covered_state].
  cfg. apply (Covered_fresh c _ _ []); [done..|by left| |].
  - intros v Hv. right. rewrite bind_app. apply elem_of_app. by left.
  - apply Forall_app. split; [apply HC|by constructor].
Qed.

Lemma Covered_setTask c t k k' :
  Covered c -> tasks c !! t = Some k -> (forall v, v ∈ awaited k -> v ∈ awaited k') ->
  unrejected k' = true -> Covered (setTask t k' c).
Proof.
  intros HC Ht Hk Hun. cfg. apply (Covered_intro c); [done|by left| |].
  - intros v [?|?%(awaited_moved _ t k k')]%elem_of_app; auto.
  - apply unrejected_insert; [apply HC|done].
Qed.

Lemma Covered_onBlob c t r :
  Inv c -> Covered c -> tasks c !! t = Some AwaitBlob -> Covered (onBlob t r c).
Proof.
  intros HI HC Ht. destruct r as [zipBlob|err]; cbn [onBlob];
    [|by apply (Covered_catchFinally c t AwaitBlob)].
  rewrite (create_eta zipBlob). cfg. apply Covered_commit; [done| | | |].
  - apply depsChanged_zip. cfg. intros Hz. symmetry in Hz.
    apply (inv_zip_minted _ HI) in Hz. lia.
  - intros u [->|?]%created_live; [right; left|by left].
    unfold heldUrls. cfg. apply elem_of_app. right. by left.
  - intros v ?%(awaited_moved _ t AwaitBlob (AwaitLoad zipBlob)); auto.
  - apply unrejected_insert; [apply HC|done].
Qed.

(** The handler resumes after [Promise.all] and stores the previews. *)
Lemma Covered_showImages c c1 t k images :
  Inv c -> Covered c -> tasks c !! t = Some k ->
  state c1 = state c -> stamp c1 = stamp c -> tasks c1 = tasks c ->
  (forall v, v ∈ awaited k -> v ∈ url <$> images) ->
  (forall u, is_Some (Url.lookup u (urls c1)) ->
             is_Some (Url.lookup u (urls c)) \/ u ∈ url <$> images) ->
  Covered (setTask t Finished (showImages images c1)).
Proof.
  intros HI HC Ht Hs Hst Hts Hk Hσ. unfold showImages. cfg. rewrite Hs, Hst, Hts.
  assert (forall v, v ∈ url <$> images ->
            v ∈ heldUrls (setIsLoading false
                            (setConvertedImages (mkArray (stamp c) images) (state c)))) as Hh.
  { intros v Hv. unfold heldUrls. cfg. apply elem_of_app. by left. }
  apply (Covered_fresh c _ _ images); [done..| | |].
  - intros u [?|?]%Hσ; auto.
  - intros v [?|?]%(awaited_split _ t k Finished); auto.
  - apply unrejected_insert; [apply HC|done].
Qed.

Lemma Covered_onLoad c t zipBlob r :
  Inv c -> Covered c -> tasks c !! t = Some (AwaitLoad zipBlob) -> Covered (onLoad t r c).
Proof.
  intros HI HC Ht. destruct r as [zip|err]; cbn [onLoad];
    [|by apply (Covered_catchFinally c t (AwaitLoad zipBlob))].
  destruct (imagePromises zip) as [|n ns] eqn:Hn.
  - apply (Covered_showImages c c t (AwaitLoad zipBlob)); [done..| |by left].
    by intros v ?%elem_of_nil.
  - apply (Covered_setTask c t (AwaitLoad zipBlob)); [done..| |done].
    by intros v ?%elem_of_nil.
Qed.

(** An entry is read: its URL is stored in the entry's slot, or in the
    state with the others when it was the last. *)
Lemma Covered_onEntry c t i names slots blob :
  Inv c -> Covered c -> tasks c !! t = Some (AwaitAll false names slots) ->
  slots !! i = Some PromiseAll.Pending ->
  Covered (onEntry t i false names slots (Fulfilled blob) c).
Proof.
  intros HI HC Ht Hi. cbn [onEntry]. rewrite (create_eta blob).
  pose proof (fulfilled_insert_pending slots i (mkImage (names !!! i) (Url.minted (urls c))) Hi)
    as Hp.
  destruct (PromiseAll.values _) as [images|] eqn:Hv.
  - apply (Covered_showImages c _ t (AwaitAll false names slots)); [done..| |]; cbn [urls].
    + intros v Hv'. rewrite <- (values_fulfilled _ _ Hv), Hp. cbn [awaited] in Hv'.
      rewrite fmap_cons. by right.
    + intros u [->|?]%created_live; [right|by left].
      rewrite <- (values_fulfilled _ _ Hv), Hp, fmap_cons. by left.
  - cfg. apply (Covered_intro c); [done| | |].
    + intros u [->|?]%created_live; [right; right|by left].
      eapply (awaited_stored _ t); [done|]. cbn [awaited]. rewrite Hp, fmap_cons. by left.
    + intros v [?|Hv']%elem_of_app; [by left|right].
      apply (awaited_moved _ t (AwaitAll false names slots)); [done| |done].
      cbn [awaited]. rewrite Hp, fmap_cons. by right.
    + apply unrejected_insert; [apply HC|done].
Qed.

(** An event other than a failed entry leaves every live URL within the
    cleanup's reach. *)
Lemma p2i_Covered_step e c c' :
  Inv c -> Covered c -> failed_entry e = false -> step e c = Some c' -> Covered c'.
Proof.
  intros HI HC He Hs.
  destruct e as [files|value| |t r|t r|t r|t r|t i r]; cbn [step] in Hs;
    repeat case_match; simplify_eq.
  - by apply Covered_handleFileChange.
  - unfold handleFormatChange. rewrite render_with_same by done. by apply Covered_state.
  - by apply Covered_handleSubmit.
  - destruct r as [[[]]|err]; cbn [onFetch ok];
      eauto using Covered_setTask, Covered_catchFinally.
  - destruct r; cbn [onText]; eauto using Covered_catchFinally.
  - by apply Covered_onBlob.
  - by eapply Covered_onLoad.
  - destruct r as [blob|]; [|done]. pose proof (covered_tasks _ HC) as Hts.
    rewrite Forall_lookup in Hts. specialize (Hts _ _ H).
    destruct rejected; [done|]. by apply Covered_onEntry.
Qed.

Lemma Covered_init : Covered init.
Proof.
  split; [|constructor]. intros u Hu. rewrite lookup_empty_store in Hu. by destruct Hu.
Qed.

Lemma p2i_play_Covered es c c' :
  reachable c -> Covered c -> Forall (fun e => failed_entry e = false) es ->
  play es c = Some c' -> Covered c'.
Proof.
  revert c; induction es as [|e es IH]; intros c Hr HC Hes Hp; simplify_eq/=; [done|].
  apply Forall_cons in Hes as [He Hes].
  destruct (alive c) eqn:Ha, (enabled e c) eqn:Hen, (step e c) as [c1|] eqn:Hs;
    simplify_eq/=.
  apply (IH c1); [by eapply reachable_step| |done..].
  eapply p2i_Covered_step; eauto using reachable_Inv.
Qed.

(** C12. As long as every entry of every archive can be read, nothing
    leaks: each live URL is held by the state or will be stored by a
    suspended call, and once no submission is in flight, unmounting the
    component leaves no URL live. *)
Theorem p2i_no_leak es c :
  play es init = Some c -> Forall (fun e => failed_entry e = false) es ->
  (forall u, is_Some (Url.lookup u (urls c)) -> u ∈ claimed c) /\
  (isLoading (state c) = false ->
   forall u, Url.lookup u (unmount (state c) (urls c)) = None).
Proof.
  intros Hp Hes.
  pose proof (p2i_play_Covered es init c reachable_init Covered_init Hes Hp) as [Hl _].
  split; [done|]. intros Hi u. apply (unmount_all (St := State)). intros v Hv%Hl.
  apply (claimed_idle c); [|done]. apply activeCount_0.
  pose proof (inv_active _ (reachable_Inv _ (play_reachable _ _ _ reachable_init Hp))) as Ha.
  by rewrite Hi in Ha.
Qed.

Lemma p2i_no_leak_witness :
  (forall u, is_Some (Url.lookup u (urls (after converted))) -> u ∈ claimed (after converted)) /\
  (isLoading (state (after converted)) = false ->
   forall u, Url.lookup u (unmount (state (after converted)) (urls (after converted))) = None).
Proof.
  apply (p2i_no_leak converted (after converted)); [by vm_compute|].
  repeat (apply Forall_cons; split; [reflexivity|]). apply Forall_nil_2.
Defined.

End covered.
