(* ===== verification/PdfToImageSession.v ===== *)
(** * The PDF-to-image form as a conversion session

    The phase of the form is the stage of the submission in flight, and
    with none in flight what its page shows; the chosen PDF is the staged
    input.  Reading the response is the session's [Submitting], loading the
    archive and reading its entries is its [Decoding].

    The form departs from the design at a selection made while a conversion
    is in flight (the conversion goes on), at an invalid selection made
    under previews (the previews stay, where a failed session shows no
    output), at an archive without entries (the page shows no result, where
    the session is ready with an empty one), and at a failure whose error
    has no message.  Everywhere else it moves as the session does. *)

From stdpp Require Import base tactics option list strings.
From Stdlib Require Import Lia.
From S2P Require Import Prelude Js Browser React Remote Flight Session.
From S2P Require Import PdfToImage PdfToImageInv PdfToImageProps.
Import PdfToImageConverter.

(** The phase of the session a suspended call is in. *)
Definition stage (k : Task) : Session.Phase :=
  match k with
  | AwaitLoad _ | AwaitAll _ _ _ => Session.Decoding
  | _ => Session.Submitting
  end.

Definition p2i_output (c : Config) : bool :=
  bool_decide (items (convertedImages (state c)) <> []).

Definition p2i_phase (c : Config) : Session.Phase :=
  Session.display (stage <$> find active (tasks c)) (p2i_output c)
    (shown (error (state c))) (bool_decide (is_Some (selectedFile (state c)))).

(** A selection with a PDF at its head. *)
Definition valid (files : list File) : bool :=
  match head files with
  | Some file => bool_decide (file_type file = pdfMime)
  | None => false
  end.

(** The entry that settles is the last the handler waits for. *)
Definition last_entry (i : nat) (names : list jsstring) (slots : list (PromiseAll.slot Image))
    (c : Config) : bool :=
  bool_decide
    (is_Some (PromiseAll.values
                (<[i := PromiseAll.Done (mkImage (names !!! i) (Url.minted (urls c)))]> slots))).

Definition p2i_labels (e : Event) (c : Config) : list Session.Label :=
  match e with
  | FileChange files => [Session.SelectInputs (valid files)]
  | FormatChange _ => []
  | Submit => [Session.Submit]
  | FetchSettled _ (Fulfilled _) => []
  | BlobSettled _ (Fulfilled _) => [Session.RemoteSuccess]
  | FetchSettled _ (Rejected _) | TextSettled _ _ | BlobSettled _ (Rejected _) =>
      [Session.RemoteFailure]
  | LoadSettled _ (Fulfilled zip) =>
      if bool_decide (imagePromises zip = []) then [Session.DecodeSuccess] else []
  | LoadSettled _ (Rejected _) => [Session.DecodeFailure]
  | EntrySettled t i r =>
      match tasks c !! t, r with
      | Some (AwaitAll false names slots), Fulfilled _ =>
          if last_entry i names slots c then [Session.DecodeSuccess] else []
      | Some (AwaitAll false _ _), Rejected _ => [Session.DecodeFailure]
      | _, _ => []
      end
  end.

Definition p2i_departs (e : Event) (c : Config) : bool :=
  match e with
  | FileChange files => isLoading (state c) || (negb (valid files) && p2i_output c)
  | LoadSettled _ (Fulfilled zip) => bool_decide (imagePromises zip = [])
  | FetchSettled _ (Rejected err) | TextSettled _ (Rejected err)
  | BlobSettled _ (Rejected err) | LoadSettled _ (Rejected err) =>
      negb (shown (Exn.message err))
  | EntrySettled t _ (Rejected err) =>
      match tasks c !! t with
      | Some (AwaitAll false _ _) => negb (shown (Exn.message err))
      | _ => false
      end
  | _ => false
  end.

#[export] Instance p2i_form : Form Config Event :=
  {| form_init := init;
     form_enabled := fun e c => alive c && enabled e c;
     form_step := step;
     form_phase := p2i_phase;
     form_labels := p2i_labels;
     form_departs := p2i_departs |}.

(** A visit that goes through every phase the form has: a conversion, then
    a second submission that the server refuses. *)
Definition p2i_visit : list Event :=
  converted ++ [Submit; FetchSettled 1 (Fulfilled (mkResponse false));
                TextSettled 1 (Fulfilled (Str.lit "File too large"))].

Section p2i_session.
Implicit Types (c : Config) (e : Event) (t i : nat) (k : Task).

(** With a call in flight, the phase is its stage. *)
Lemma p2i_phase_active c t k :
  Inv c -> tasks c !! t = Some k -> active k = true -> p2i_phase c = stage k.
Proof.
  intros HI Ht Hk. destruct (Inv_active_loading _ _ _ HI Ht Hk) as [_ Hc].
  unfold p2i_phase. by rewrite (find_active_sole _ t k).
Qed.

(** With none in flight, it is what the page shows. *)
Lemma p2i_phase_rest c :
  Inv c -> isLoading (state c) = false ->
  p2i_phase c = Session.display None (p2i_output c) (shown (error (state c)))
                  (bool_decide (is_Some (selectedFile (state c)))).
Proof.
  intros HI Hl. unfold p2i_phase. rewrite find_active_0; [done|].
  rewrite (inv_active _ HI). by rewrite Hl.
Qed.

(** The phase after the call in flight has moved. *)
Lemma p2i_phase_moved c c' t k k' :
  Inv c -> tasks c !! t = Some k -> active k = true ->
  tasks c' = <[t := k']> (tasks c) ->
  p2i_phase c' =
  Session.display (if active k' then Some (stage k') else None) (p2i_output c')
    (shown (error (state c'))) (bool_decide (is_Some (selectedFile (state c')))).
Proof.
  intros HI Ht Hk Hts. destruct (Inv_active_loading _ _ _ HI Ht Hk) as [_ Hc].
  unfold p2i_phase. rewrite Hts, (find_active_insert _ t k k') by done.
  by destruct (active k').
Qed.

(** The [catch] clause ends a call in flight in [Failed] when the error has
    a message to show. *)
Lemma p2i_phase_catch c t k k' err :
  Inv c -> tasks c !! t = Some k -> active k = true -> active k' = false ->
  shown (Exn.message err) = true ->
  p2i_phase (setTask t k' (catchFinally err c)) = Session.Failed.
Proof.
  intros HI Ht Hk Hk' Hm.
  rewrite (p2i_phase_moved c _ t k k' HI Ht Hk) by (by rewrite catchFinally_eq).
  rewrite Hk', catchFinally_eq. unfold p2i_output. cfg.
  rewrite (phase_ok_active _ _ _ Hk (Inv_phase_lookup _ _ _ HI Ht)), Hm.
  by rewrite bool_decide_false by auto.
Qed.

(** A selection outside a conversion. *)
Lemma p2i_simulates_select files c :
  Inv c -> p2i_departs (FileChange files) c = false ->
  Session.accepts [Session.SelectInputs (valid files)] (p2i_phase c)
  = Some (p2i_phase (handleFileChange files c)).
Proof.
  intros HI [Hl Hd]%orb_false_iff.
  unfold handleFileChange, valid in *. destruct (head files) as [file|]; [case_bool_decide|].
  - cfg. unfold p2i_phase at 2, p2i_output. cfg.
    rewrite find_active_0 by (by rewrite (inv_active _ HI), Hl). done.
  - simpl in Hd. apply bool_decide_eq_false in Hd. rewrite render_with_same by done.
    unfold p2i_phase at 2, p2i_output. cfg.
    rewrite find_active_0 by (by rewrite (inv_active _ HI), Hl).
    by rewrite bool_decide_false.
  - simpl in Hd. apply bool_decide_eq_false in Hd. rewrite render_with_same by done.
    unfold p2i_phase at 2, p2i_output. cfg.
    rewrite find_active_0 by (by rewrite (inv_active _ HI), Hl).
    by rewrite bool_decide_false.
Qed.

(** A submission. *)
Lemma p2i_simulates_submit c :
  Inv c -> enabled Submit c = true ->
  Session.accepts [Session.Submit] (p2i_phase c) = Some (p2i_phase (handleSubmit c)).
Proof.
  intros HI [Hl Hf%bool_decide_eq_false]%negb_true_iff%orb_false_iff.
  rewrite (p2i_phase_rest c HI Hl). unfold handleSubmit.
  destruct (selectedFile (state c)) as [file|] eqn:Hfile; [|done].
  unfold p2i_phase. cfg. rewrite find_active_snoc by (by rewrite (inv_active _ HI), Hl).
  simpl. by destruct (p2i_output c), (shown (error (state c))).
Qed.

(** The response and its body. *)
Lemma p2i_simulates_remote e c c' t k :
  Inv c -> tasks c !! t = Some k ->
  (k = AwaitFetch /\ exists r, e = FetchSettled t r) \/
  (k = AwaitText /\ exists r, e = TextSettled t r) \/
  (k = AwaitBlob /\ exists r, e = BlobSettled t r) ->
  step e c = Some c' -> p2i_departs e c = false ->
  Session.accepts (p2i_labels e c) (p2i_phase c) = Some (p2i_phase c').
Proof.
  intros HI Ht Hk Hs Hd.
  assert (active k = true) as Ha by (by destruct Hk as [[-> _]|[[-> _]|[-> _]]]).
  rewrite (p2i_phase_active c t k HI Ht Ha).
  destruct Hk as [[-> [r ->]]|[[-> [r ->]]|[-> [r ->]]]]; cbn [step] in Hs; rewrite Ht in Hs;
    injection Hs as <-; destruct r as [v|err]; cbn [p2i_labels p2i_departs] in *;
    try (apply negb_false_iff in Hd; cbn [onFetch onText onBlob];
         by rewrite (p2i_phase_catch c t _ Finished err HI Ht Ha eq_refl Hd)).
  - destruct v as [[]]; cbn [onFetch ok].
    + by rewrite (p2i_phase_moved c (setTask t AwaitBlob c) t AwaitFetch AwaitBlob HI Ht Ha eq_refl).
    + by rewrite (p2i_phase_moved c (setTask t AwaitText c) t AwaitFetch AwaitText HI Ht Ha eq_refl).
  - cbn [onText]. rewrite (p2i_phase_catch c t _ Finished _ HI Ht Ha eq_refl); [done|].
    by apply shown_error_of_text.
  - unfold onBlob. destruct (Url.createObjectURL v (urls c)) as [u σ].
    by rewrite (p2i_phase_moved c (setTask t (AwaitLoad v) (render_with (setZipUrl (Some u) (state c)) σ c))
                  t AwaitBlob (AwaitLoad v) HI Ht Ha eq_refl).
Qed.

(** A task that is not in flight and does not come back leaves the phase
    as it is. *)
Lemma p2i_phase_inactive c c' t k k' :
  tasks c !! t = Some k -> active k = false -> active k' = false ->
  tasks c' = <[t := k']> (tasks c) -> state c' = state c ->
  p2i_phase c' = p2i_phase c.
Proof.
  intros Ht Hk Hk' Hts Hst. unfold p2i_phase, p2i_output.
  by rewrite Hts, Hst, (find_active_insert_inactive _ t k k').
Qed.

(** The archive. *)
Lemma p2i_simulates_load c t zipBlob r :
  Inv c -> tasks c !! t = Some (AwaitLoad zipBlob) ->
  p2i_departs (LoadSettled t r) c = false ->
  Session.accepts (p2i_labels (LoadSettled t r) c) (p2i_phase c)
  = Some (p2i_phase (onLoad t r c)).
Proof.
  intros HI Ht Hd. rewrite (p2i_phase_active c t _ HI Ht eq_refl).
  destruct r as [zip|err]; cbn [p2i_labels p2i_departs onLoad] in *.
  - rewrite Hd. apply bool_decide_eq_false in Hd.
    destruct (imagePromises zip) as [|nm names] eqn:Hn; [done|].
    by rewrite (p2i_phase_moved c (setTask t (AwaitAll false (nm :: names)
                                            (const PromiseAll.Pending <$> nm :: names)) c)
                  t (AwaitLoad zipBlob) (AwaitAll false (nm :: names) _) HI Ht eq_refl eq_refl).
  - apply negb_false_iff in Hd.
    by rewrite (p2i_phase_catch c t _ Finished err HI Ht eq_refl eq_refl Hd).
Qed.

(** The previews stored by the last entry are on the page. *)
Lemma p2i_phase_shown c t k images :
  Inv c -> tasks c !! t = Some k -> active k = true -> images <> [] ->
  p2i_phase (setTask t Finished (showImages images c)) = Session.Ready.
Proof.
  intros HI Ht Hk Hne.
  rewrite (p2i_phase_moved c _ t k Finished HI Ht Hk) by (unfold showImages; by cfg).
  unfold showImages, p2i_output. cfg. by rewrite bool_decide_true.
Qed.

(** The entries. *)
Lemma p2i_simulates_entry c t i rejected names slots r :
  Inv c -> tasks c !! t = Some (AwaitAll rejected names slots) ->
  slots !! i = Some PromiseAll.Pending ->
  p2i_departs (EntrySettled t i r) c = false ->
  Session.accepts (p2i_labels (EntrySettled t i r) c) (p2i_phase c)
  = Some (p2i_phase (onEntry t i rejected names slots r c)).
Proof.
  intros HI Ht Hi Hd. cbn [p2i_labels p2i_departs] in *. rewrite Ht in *.
  destruct rejected.
  - destruct r as [blob|err]; cbn [onEntry Session.accepts];
      [rewrite (create_eta blob (urls c))|]; f_equal; symmetry;
      by eapply (p2i_phase_inactive c _ t); eauto using active_awaitAll.
  - rewrite (p2i_phase_active c t _ HI Ht eq_refl). destruct r as [blob|err].
    + cbn [onEntry]. rewrite (create_eta blob (urls c)). unfold last_entry.
      destruct (PromiseAll.values _) as [images|] eqn:Hv.
      * rewrite bool_decide_true by done.
        rewrite (p2i_phase_shown _ t (AwaitAll false names slots) images); [done| |done..|].
        -- by apply Inv_create.
        -- apply values_length in Hv. rewrite length_insert in Hv.
           apply lookup_lt_Some in Hi. destruct images; [simpl in Hv; lia|done].
      * rewrite bool_decide_false by (by intros []).
        by erewrite (p2i_phase_moved
                       (mkConfig (state c) (Url.createObjectURL blob (urls c)).2 (stamp c)
                          (tasks c) (requests c)) _ t (AwaitAll false names slots));
          [|by apply Inv_create|done..].
    + apply negb_false_iff in Hd. cbn [onEntry].
      by rewrite (p2i_phase_catch c t _ _ err HI Ht eq_refl (active_awaitAll _ _) Hd).
Qed.

Lemma p2i_simulates_step e c c' :
  Inv c -> enabled e c = true -> step e c = Some c' -> p2i_departs e c = false ->
  Session.accepts (p2i_labels e c) (p2i_phase c) = Some (p2i_phase c').
Proof.
  intros HI He Hs Hd. destruct e as [files|value| |t r|t r|t r|t r|t i r].
  - injection Hs as <-. by apply p2i_simulates_select.
  - by injection Hs as <-.
  - injection Hs as <-. by apply p2i_simulates_submit.
  - cbn [step] in Hs. destruct (tasks c !! t) as [[]|] eqn:Ht; try done.
    apply (p2i_simulates_remote _ c c' t AwaitFetch); try done;
      [left; eauto|by cbn [step]; rewrite Ht].
  - cbn [step] in Hs. destruct (tasks c !! t) as [[]|] eqn:Ht; try done.
    apply (p2i_simulates_remote _ c c' t AwaitText); try done;
      [right; left; eauto|by cbn [step]; rewrite Ht].
  - cbn [step] in Hs. destruct (tasks c !! t) as [[]|] eqn:Ht; try done.
    apply (p2i_simulates_remote _ c c' t AwaitBlob); try done;
      [right; right; eauto|by cbn [step]; rewrite Ht].
  - cbn [step] in Hs. destruct (tasks c !! t) as [[]|] eqn:Ht; try done.
    injection Hs as <-. by eapply p2i_simulates_load.
  - cbn [step] in Hs. destruct (tasks c !! t) as [[| | | |rejected names slots|]|] eqn:Ht;
      try done.
    destruct (slots !! i) as [[]|] eqn:Hi; try done. injection Hs as <-.
    by apply p2i_simulates_entry.
Qed.

Lemma p2i_simulates : simulates Inv.
Proof.
  split; [apply Inv_init|]. intros e c c' HI [_ He]%andb_true_iff Hs.
  split; [by eapply Inv_step|]. by apply p2i_simulates_step.
Qed.

(** C6. The form implements the conversion session: along a run from the
    first render in which no file is chosen while a conversion is in
    flight, no invalid selection is made under previews, no archive is
    empty and every error has a message, the events of the page, read as
    labels of the session, are a run of the session from [Idle], and the
    phase of the page is the phase the session is in. *)
Theorem p2i_session_refinement es c ls :
  conforming es init = Some (c, ls) ->
  Session.accepts ls Session.Idle = Some (p2i_phase c).
Proof.
  intros Hes. by destruct (conforming_accepts Inv es init c ls p2i_simulates Inv_init Hes).
Qed.

Lemma p2i_session_refinement_witness :
  Session.accepts
    [Session.SelectInputs true; Session.Submit; Session.RemoteSuccess; Session.DecodeSuccess;
     Session.Submit; Session.RemoteFailure] Session.Idle
  = Some (p2i_phase (after p2i_visit)).
Proof.
  apply (p2i_session_refinement p2i_visit (after p2i_visit)
           [Session.SelectInputs true; Session.Submit; Session.RemoteSuccess;
            Session.DecodeSuccess; Session.Submit; Session.RemoteFailure]).
  by vm_compute.
Defined.

End p2i_session.
