(* ===== verification/ImageConverter.v ===== *)
(** * The image converter form (src/my-tools-io/src/components/ImageConverter.jsx)

    [Module ImageConverter] models the component: its six state cells, the
    effect that revokes the two object URLs, [handleFileChange],
    [handleFormatChange], [handleSubmit] (one definition per stretch of code
    between two [await]s), [getDownloadFileName], and what the component
    renders.  The configuration and the events follow PdfToImage.v; this
    form has one output, so its array has no identity to track. *)

From stdpp Require Import base tactics option list strings.
From S2P Require Import Prelude Js Browser React Remote.

Module ImageConverter.

(** ** Data *)

(** The [useState] cells of the component. *)
Record State : Type := mkState {
  selectedFile : option File;
  originalImagePreview : option nat;
  targetFormat : jsstring;
  convertedImageUrl : option nat;
  isLoading : bool;
  error : option jsstring;
}.

Definition initial : State :=
  {| selectedFile := None;
     originalImagePreview := None;
     targetFormat := Str.lit "jpeg";
     convertedImageUrl := None;
     isLoading := false;
     error := None |}.

Definition setSelectedFile (v : option File) (s : State) : State :=
  mkState v (originalImagePreview s) (targetFormat s) (convertedImageUrl s)
    (isLoading s) (error s).
Definition setOriginalImagePreview (v : option nat) (s : State) : State :=
  mkState (selectedFile s) v (targetFormat s) (convertedImageUrl s) (isLoading s) (error s).
Definition setTargetFormat (v : jsstring) (s : State) : State :=
  mkState (selectedFile s) (originalImagePreview s) v (convertedImageUrl s)
    (isLoading s) (error s).
Definition setConvertedImageUrl (v : option nat) (s : State) : State :=
  mkState (selectedFile s) (originalImagePreview s) (targetFormat s) v (isLoading s) (error s).
Definition setIsLoading (v : bool) (s : State) : State :=
  mkState (selectedFile s) (originalImagePreview s) (targetFormat s) (convertedImageUrl s)
    v (error s).
Definition setError (v : option jsstring) (s : State) : State :=
  mkState (selectedFile s) (originalImagePreview s) (targetFormat s) (convertedImageUrl s)
    (isLoading s) v.

(** ** The effect *)

(** The cleanup of a render: the preview of the original, then the
    converted image. *)
Definition revokeUrls (s : State) (σ : Url.store) : Url.store :=
  Url.revokeIf (convertedImageUrl s) (Url.revokeIf (originalImagePreview s) σ).

(** The dependency list is [[originalImagePreview, convertedImageUrl]]. *)
Definition depsChanged (old new : State) : bool :=
  negb (same_value (originalImagePreview old) (originalImagePreview new))
  || negb (same_value (convertedImageUrl old) (convertedImageUrl new)).

Definition heldUrls (s : State) : list nat :=
  option_list (originalImagePreview s) ++ option_list (convertedImageUrl s).

#[export] Instance effect : Effect State.
Proof.
  refine {| deps_changed := depsChanged; cleanup := revokeUrls; held := heldUrls |}.
  intros st σ. unfold revokeUrls, heldUrls, Url.revokeEach.
  rewrite foldl_app. by destruct (originalImagePreview st), (convertedImageUrl st).
Defined.

(** ** Configurations *)

(** Where a [handleSubmit] call stands. *)
Inductive Task : Type :=
| AwaitFetch
| AwaitText
| AwaitBlob
| Finished.

Record Config : Type := mkConfig {
  state : State;
  urls : Url.store;
  tasks : list Task;
  requests : list Request;
}.

Definition init : Config :=
  {| state := initial; urls := Url.empty; tasks := []; requests := [] |}.

Definition render_with (new : State) (σ : Url.store) (c : Config) : Config :=
  mkConfig new (commit (state c) new σ) (tasks c) (requests c).

Definition setTask (t : nat) (k : Task) (c : Config) : Config :=
  mkConfig (state c) (urls c) (<[t := k]> (tasks c)) (requests c).

(** ** [handleFileChange] and [handleFormatChange] *)

(** With no file chosen the handler sets nothing, and nothing renders. *)
Definition handleFileChange (files : list File) (c : Config) : Config :=
  match head files with
  | Some file =>
      let '(u, σ) := Url.createObjectURL (file_blob file) (urls c) in
      render_with
        (setError None (setConvertedImageUrl None (setOriginalImagePreview (Some u)
           (setSelectedFile (Some file) (state c)))))
        σ c
  | None => c
  end.

Definition handleFormatChange (value : jsstring) (c : Config) : Config :=
  render_with (setTargetFormat value (state c)) (urls c) c.

(** ** [handleSubmit] *)

Definition endpoint : jsstring := Str.lit "http://localhost:8080/api/convert/image".

Definition fallbackMessage : jsstring := Str.lit "Image conversion failed.".

Definition formData (file : File) (format : jsstring) : list (jsstring * form_value) :=
  [(Str.lit "file", FormFile file); (Str.lit "toFormat", FormString format)].

(** From the call to the first [await]: the guard, the three resets, the
    request. *)
Definition handleSubmit (c : Config) : Config :=
  match selectedFile (state c) with
  | None =>
      render_with (setError (Some (Str.lit "Please select an image file first.")) (state c))
        (urls c) c
  | Some file =>
      let c :=
        render_with
          (setConvertedImageUrl None (setError None (setIsLoading true (state c))))
          (urls c) c in
      mkConfig (state c) (urls c) (tasks c ++ [AwaitFetch])
        (requests c ++ [mkRequest endpoint (formData file (targetFormat (state c)))])
  end.

(** The [catch] and [finally] clauses. *)
Definition catchFinally (err : Exn.thrown) (c : Config) : Config :=
  render_with (setIsLoading false (setError (Exn.message err) (state c))) (urls c) c.

(** [await fetch(...)] settled. *)
Definition onFetch (t : nat) (r : settled Response) (c : Config) : Config :=
  match r with
  | Rejected err => setTask t Finished (catchFinally err c)
  | Fulfilled response =>
      if ok response then setTask t AwaitBlob c else setTask t AwaitText c
  end.

(** [await response.text()] settled: the handler throws the server's text. *)
Definition onText (t : nat) (r : settled jsstring) (c : Config) : Config :=
  match r with
  | Rejected err => setTask t Finished (catchFinally err c)
  | Fulfilled errorText =>
      setTask t Finished (catchFinally (error_of_text fallbackMessage errorText) c)
  end.

(** [await response.blob()] settled: the converted image gets its URL, and
    the [finally] clause clears the loading flag in the same render. *)
Definition onBlob (t : nat) (r : settled Blob) (c : Config) : Config :=
  match r with
  | Rejected err => setTask t Finished (catchFinally err c)
  | Fulfilled imageBlob =>
      let '(u, σ) := Url.createObjectURL imageBlob (urls c) in
      setTask t Finished
        (render_with (setIsLoading false (setConvertedImageUrl (Some u) (state c))) σ c)
  end.

(** ** Events *)

Inductive Event : Type :=
| FileChange (files : list File)
| FormatChange (value : jsstring)
| Submit
| FetchSettled (t : nat) (r : settled Response)
| TextSettled (t : nat) (r : settled jsstring)
| BlobSettled (t : nat) (r : settled Blob).

Definition step (e : Event) (c : Config) : option Config :=
  match e with
  | FileChange files => Some (handleFileChange files c)
  | FormatChange value => Some (handleFormatChange value c)
  | Submit => Some (handleSubmit c)
  | FetchSettled t r =>
      match tasks c !! t with Some AwaitFetch => Some (onFetch t r c) | _ => None end
  | TextSettled t r =>
      match tasks c !! t with Some AwaitText => Some (onText t r c) | _ => None end
  | BlobSettled t r =>
      match tasks c !! t with Some AwaitBlob => Some (onBlob t r c) | _ => None end
  end.

(** ** What the component renders *)

(** [getDownloadFileName()]. *)
Definition getDownloadFileName (s : State) : jsstring :=
  match selectedFile s with
  | None => Str.lit "converted_image." ++ targetFormat s
  | Some file =>
      let nameWithoutExtension :=
        Arr.join (Str.lit ".") (Arr.slice 0 (-1) (Str.split 46 (file_name file))) in
      nameWithoutExtension ++ Str.lit "_converted." ++ targetFormat s
  end.

(** The parts of the page that depend on the state: the select's value, the
    submit button, the alert, the preview of the original (or its
    placeholder), and the panel of the converted image: its heading, the
    processing note, the image, the placeholder and the download link. *)
Record View : Type := mkView {
  view_format : jsstring;
  view_disabled : bool;
  view_label : jsstring;
  view_alert : option jsstring;
  view_original : option nat;
  view_heading : jsstring;
  view_processing : bool;
  view_converted : option nat;
  view_placeholder : bool;
  view_download : option (nat * jsstring);
}.

Definition render (s : State) : View :=
  {| view_format := targetFormat s;
     view_disabled := isLoading s || bool_decide (selectedFile s = None);
     view_label := if isLoading s then Str.lit "Converting..." else Str.lit "Convert Image";
     view_alert := match error s with
                   | Some m => if Str.truthy m then Some m else None
                   | None => None
                   end;
     view_original := originalImagePreview s;
     view_heading := Str.lit "Converted (" ++ Str.toUpperCase (targetFormat s) ++ Str.lit ")";
     view_processing := isLoading s;
     view_converted := if isLoading s then None else convertedImageUrl s;
     view_placeholder := negb (isLoading s) && bool_decide (convertedImageUrl s = None);
     view_download := (fun u => (u, getDownloadFileName s)) <$> convertedImageUrl s |}.

(** The options of the format select: the value and the label of each. *)
Definition formats : list (jsstring * jsstring) :=
  [(Str.lit "jpeg", Str.lit "JPEG"); (Str.lit "png", Str.lit "PNG");
   (Str.lit "gif", Str.lit "GIF"); (Str.lit "bmp", Str.lit "BMP")].

(** An event the page lets happen: the select changes to the value of one
    of its options, submitting needs an enabled button. *)
Definition enabled (e : Event) (c : Config) : bool :=
  match e with
  | FormatChange value => bool_decide (value ∈ formats.*1)
  | Submit => negb (isLoading (state c) || bool_decide (selectedFile (state c) = None))
  | _ => true
  end.

(** A sequence of events played on the page. *)
Fixpoint play (es : list Event) (c : Config) : option Config :=
  match es with
  | [] => Some c
  | e :: es' => if enabled e c then c' ← step e c; play es' c' else None
  end.

(** The configurations the page can be in. *)
Inductive reachable : Config -> Prop :=
| reachable_init : reachable init
| reachable_step e c c' :
    reachable c -> enabled e c = true -> step e c = Some c' -> reachable c'.

End ImageConverter.
