(* ===== verification/ImageConverterInv.v ===== *)
(** * The image converter form: what holds in every reachable configuration

    The invariant [Inv] of the form and its preservation by every event the
    page admits.  It says that the converted image, once shown, is backed by
    a live object URL, and that the preview of the original is then backed
    by a revoked one. *)

From stdpp Require Import base tactics option list strings.
From Stdlib Require Import Lia.
From S2P Require Import Prelude Js Browser React Remote Flight ImageConverter.
Import ImageConverter.

(** A task whose handler code is still to run. *)
Definition active (k : Task) : bool :=
  match k with AwaitFetch | AwaitText | AwaitBlob => true | Finished => false end.

Abbreviation activeCount := (Flight.activeCount active).

(** The invariant. *)
Record Inv (c : Config) : Prop := mkInv {
  inv_wf : Url.wf (urls c);
  inv_active : activeCount (tasks c) = if isLoading (state c) then 1 else 0;
  inv_loading : isLoading (state c) = true -> convertedImageUrl (state c) = None;
  inv_original : forall p, originalImagePreview (state c) = Some p -> p < Url.minted (urls c);
  inv_file : selectedFile (state c) = None ->
             tasks c = [] /\ convertedImageUrl (state c) = None;
  inv_converted : forall u, convertedImageUrl (state c) = Some u ->
                  is_Some (Url.lookup u (urls c)) /\
                  forall p, originalImagePreview (state c) = Some p ->
                            Url.lookup p (urls c) = None;
  inv_held : forall u, is_Some (Url.lookup u (urls c)) -> u ∈ heldUrls (state c);
}.

(** Unfold the projections of a configuration that was just built. *)
Ltac ic_cfg := unfold render_with, setTask in *;
               cbn [state urls tasks requests selectedFile originalImagePreview
                    targetFormat convertedImageUrl isLoading error
                    setSelectedFile setOriginalImagePreview setTargetFormat
                    setConvertedImageUrl setIsLoading setError fst snd] in *.

Section moves.
Implicit Types (c : Config) (s : State) (σ : Url.store) (k : Task) (t u : nat).

Lemma ic_depsChanged_same old new :
  originalImagePreview new = originalImagePreview old ->
  convertedImageUrl new = convertedImageUrl old ->
  depsChanged old new = false.
Proof.
  intros H1 H2. unfold depsChanged, same_value. rewrite H1, H2.
  by rewrite !bool_decide_true.
Qed.

Lemma ic_render_with_same new σ c :
  originalImagePreview new = originalImagePreview (state c) ->
  convertedImageUrl new = convertedImageUrl (state c) ->
  render_with new σ c = mkConfig new σ (tasks c) (requests c).
Proof.
  intros H1 H2. unfold render_with. f_equal.
  apply (commit_unchanged (St := State)). by apply ic_depsChanged_same.
Qed.

Lemma ic_catchFinally_eq err c :
  catchFinally err c =
  mkConfig (setIsLoading false (setError (Exn.message err) (state c)))
    (urls c) (tasks c) (requests c).
Proof. by apply ic_render_with_same. Qed.

Lemma ic_depsChanged_original old new :
  originalImagePreview new <> originalImagePreview old -> depsChanged old new = true.
Proof.
  intros H. unfold depsChanged, same_value.
  by rewrite (bool_decide_false (originalImagePreview old = _)).
Qed.

Lemma ic_depsChanged_converted old new :
  convertedImageUrl new <> convertedImageUrl old -> depsChanged old new = true.
Proof.
  intros H. unfold depsChanged, same_value.
  rewrite (bool_decide_false (convertedImageUrl old = _)) by done. apply orb_true_r.
Qed.

Lemma ic_Inv_init : Inv init.
Proof.
  split; simpl; try done; [apply wf_empty|].
  intros u [b Hb]. by rewrite lookup_empty_store in Hb.
Qed.

(** A URL that a render did not hold survives the commit that follows. *)
Lemma ic_commit_keeps s s' σ u :
  originalImagePreview s <> Some u -> convertedImageUrl s <> Some u ->
  Url.lookup u (commit s s' σ) = Url.lookup u σ.
Proof.
  intros Ho Hc. apply (commit_lookup_ne (St := State)). simpl. unfold heldUrls.
  intros [H|H]%elem_of_app; [destruct (originalImagePreview s)|destruct (convertedImageUrl s)];
    simpl in H; try (by apply elem_of_nil in H);
    apply list_elem_of_singleton in H; congruence.
Qed.

(** The facts of React.v about commits, in the form's own terms. *)
Lemma ic_commit_live s s' σ u :
  depsChanged s s' = true -> is_Some (Url.lookup u (commit s s' σ)) ->
  is_Some (Url.lookup u σ) /\ u ∉ heldUrls s.
Proof. exact (commit_live (St := State) s s' σ u). Qed.

Lemma ic_fresh_held s s' σ b :
  (forall u, is_Some (Url.lookup u σ) -> u ∈ heldUrls s) ->
  depsChanged s s' = true -> Url.minted σ ∈ heldUrls s' ->
  forall u, is_Some (Url.lookup u (commit s s' (Url.createObjectURL b σ).2)) ->
            u ∈ heldUrls s'.
Proof. exact (commit_fresh_held (St := State) s s' σ b). Qed.

(** The loading flag is set while a task is active. *)
Lemma ic_Inv_active_loading c t k :
  Inv c -> tasks c !! t = Some k -> active k = true ->
  isLoading (state c) = true /\ convertedImageUrl (state c) = None /\
  is_Some (selectedFile (state c)).
Proof.
  intros HI Ht Hk. pose proof (activeCount_lookup (active:=active) _ _ _ Ht Hk).
  pose proof (inv_active _ HI) as Hact.
  destruct (isLoading (state c)) eqn:Hl; [|lia]. split_and!; [done|by apply HI|].
  destruct (selectedFile (state c)) eqn:Hf; [done|].
  destruct (inv_file _ HI Hf) as [Hts _]. by rewrite Hts in Ht.
Qed.

Lemma ic_Inv_handleFormatChange c value : Inv c -> Inv (handleFormatChange value c).
Proof.
  intros [Hwf Hact Hload Horig Hfile Hconv Hheld]. unfold handleFormatChange.
  rewrite ic_render_with_same by done. by split.
Qed.

(** Choosing a file: the new preview is live, the cleanup of the render
    before revokes the two URLs that render held. *)
Lemma ic_Inv_handleFileChange c files : Inv c -> Inv (handleFileChange files c).
Proof.
  intros HI. unfold handleFileChange. destruct (head files) as [file|]; [|done].
  destruct HI as [Hwf Hact Hload Horig Hfile Hconv Hheld].
  rewrite (create_eta (file_blob file)). split; ic_cfg.
  - eauto with js.
  - done.
  - done.
  - intros p [= <-]. rewrite commit_minted, create_minted. lia.
  - done.
  - done.
  - apply ic_fresh_held; [done| |left].
    apply ic_depsChanged_original. ic_cfg. intros Hp. symmetry in Hp.
    apply Horig in Hp. lia.
Qed.

Lemma ic_Inv_handleSubmit c :
  Inv c -> isLoading (state c) = false -> Inv (handleSubmit c).
Proof.
  intros [Hwf Hact Hload Horig Hfile Hconv Hheld] Hl. unfold handleSubmit.
  destruct (selectedFile (state c)) as [file|] eqn:Hf.
  - split; ic_cfg; try done.
    + eauto with js.
    + rewrite activeCount_app, Hact, Hl. done.
    + intros p Hp. rewrite commit_minted. auto.
    + by rewrite Hf.
    + intros u Hu. destruct (convertedImageUrl (state c)) as [v|] eqn:Hc.
      * apply ic_commit_live in Hu as [Hu%Hheld ?]; [done|].
        apply ic_depsChanged_converted. ic_cfg. by rewrite Hc.
      * rewrite (commit_unchanged (St := State)) in Hu.
        -- apply Hheld in Hu. unfold heldUrls in *. ic_cfg. by rewrite Hc in Hu.
        -- apply ic_depsChanged_same; ic_cfg; by rewrite ?Hc.
  - rewrite ic_render_with_same by done. split; ic_cfg; auto.
Qed.

(** The [catch] of an active task. *)
Lemma ic_Inv_catchFinally c t k err :
  Inv c -> tasks c !! t = Some k -> active k = true ->
  Inv (setTask t Finished (catchFinally err c)).
Proof.
  intros HI Ht Hk. destruct (ic_Inv_active_loading _ _ _ HI Ht Hk) as (Hl & Hc & Hf).
  rewrite ic_catchFinally_eq. destruct HI as [Hwf Hact Hload Horig Hfile Hconv Hheld].
  split; ic_cfg; try done.
  - pose proof (activeCount_insert_end (active:=active) _ _ _ Finished Ht Hk eq_refl).
    rewrite Hl in Hact. lia.
  - intros Hn. rewrite Hn in Hf. by destruct Hf.
Qed.

(** An active task moves to its next [await]. *)
Lemma ic_Inv_setTask c t k k' :
  Inv c -> tasks c !! t = Some k -> active k = true -> active k' = true ->
  Inv (setTask t k' c).
Proof.
  intros HI Ht Hk Hk'. destruct (ic_Inv_active_loading _ _ _ HI Ht Hk) as (Hl & Hc & Hf).
  destruct HI as [Hwf Hact Hload Horig Hfile Hconv Hheld]. split; ic_cfg; try done.
  - rewrite activeCount_insert_same with (k := k); [done..|]. by rewrite Hk, Hk'.
  - intros Hn. rewrite Hn in Hf. by destruct Hf.
Qed.

Lemma ic_Inv_onFetch c t r :
  Inv c -> tasks c !! t = Some AwaitFetch -> Inv (onFetch t r c).
Proof.
  intros HI Ht. destruct r as [[[]]|err]; simpl;
    eauto using ic_Inv_catchFinally, ic_Inv_setTask.
Qed.

Lemma ic_Inv_onText c t r :
  Inv c -> tasks c !! t = Some AwaitText -> Inv (onText t r c).
Proof. intros HI Ht. destruct r; simpl; eauto using ic_Inv_catchFinally. Qed.

(** The converted image gets its URL: the render that follows runs the
    cleanup of the render before, which revokes the preview of the
    original. *)
Lemma ic_Inv_onBlob c t r :
  Inv c -> tasks c !! t = Some AwaitBlob -> Inv (onBlob t r c).
Proof.
  intros HI Ht. unfold onBlob.
  destruct r as [imageBlob|err]; [|eauto using ic_Inv_catchFinally].
  destruct (ic_Inv_active_loading _ _ _ HI Ht eq_refl) as (Hl & Hc & Hf).
  destruct HI as [Hwf Hact Hload Horig Hfile Hconv Hheld].
  rewrite (create_eta imageBlob). split; ic_cfg; try done.
  - eauto with js.
  - pose proof (activeCount_insert_end (active:=active) _ _ _ Finished Ht eq_refl eq_refl).
    rewrite Hl in Hact. lia.
  - intros p Hp%Horig. rewrite commit_minted, create_minted. lia.
  - intros Hn. rewrite Hn in Hf. by destruct Hf.
  - intros u [= <-]. split.
    + rewrite ic_commit_keeps, lookup_create_new; [done| |by rewrite Hc].
      intros Hp%Horig. lia.
    + intros p Hp. apply (commit_revokes (St := State)).
      * unfold deps_changed; simpl. unfold depsChanged, same_value. ic_cfg.
        rewrite Hc. rewrite (bool_decide_false (None = Some _)) by done.
        apply orb_true_r.
      * simpl. unfold heldUrls. rewrite Hp. apply elem_of_app. left. left.
  - apply ic_fresh_held; [done| |].
    + apply ic_depsChanged_converted. ic_cfg. by rewrite Hc.
    + unfold heldUrls. ic_cfg. apply elem_of_app. right. left.
Qed.

(** Every event the page admits preserves the invariant. *)
Lemma ic_Inv_step e c c' :
  Inv c -> enabled e c = true -> step e c = Some c' -> Inv c'.
Proof.
  intros HI He Hs. destruct e; simpl in Hs; repeat case_match; simplify_eq;
    eauto using ic_Inv_handleFileChange, ic_Inv_handleFormatChange, ic_Inv_onFetch,
      ic_Inv_onText, ic_Inv_onBlob.
  apply ic_Inv_handleSubmit; [done|]. simpl in He.
  by destruct (isLoading (state c)).
Qed.

Lemma ic_reachable_Inv c : reachable c -> Inv c.
Proof. induction 1; eauto using ic_Inv_init, ic_Inv_step. Qed.

Lemma ic_play_reachable es c c' : reachable c -> play es c = Some c' -> reachable c'.
Proof.
  revert c; induction es as [|e es IH]; intros c Hc Hp; simplify_eq/=; [done|].
  destruct (enabled e c) eqn:He, (step e c) as [c1|] eqn:Hs; simplify_eq/=.
  eapply IH; [|done]. by eapply reachable_step.
Qed.

End moves.
