(* ===== verification/ImageConverterProps.v ===== *)
(** * The image converter form: properties

    What holds of every configuration a user can bring the page to, what
    each handler does on each of its branches, the name offered for the
    download, and the runs in which the form departs from the design of the
    conversion session. *)

From stdpp Require Import base tactics option list strings.
From Stdlib Require Import Lia.
From S2P Require Import Prelude Js Browser React Remote Flight.
From S2P Require Import ImageConverter ImageConverterInv.
Import ImageConverter.

(** ** Sample values *)

Definition photo : File := mkFile (Str.lit "holiday.photo.png") (Str.lit "image/png") [].
Definition sketch : File := mkFile (Str.lit "sketch") (Str.lit "image/bmp") [].
Definition jpeg : Blob := mkBlob (Str.lit "image/jpeg") [].

(** The configuration a sequence of events leads to from the first render
    (the first render itself if the page does not admit the sequence). *)
Definition ic_after (es : list Event) : Config := default init (play es init).

(** A file is chosen and submitted; the request is in flight. *)
Definition ic_submitted : list Event := [FileChange [photo]; Submit].

(** The server answered, and the body is being read. *)
Definition ic_answered : list Event :=
  ic_submitted ++ [FetchSettled 0 (Fulfilled (mkResponse true))].

(** The converted image is shown. *)
Definition ic_converted : list Event := ic_answered ++ [BlobSettled 0 (Fulfilled jpeg)].

(** Another file is chosen while the conversion of the first is in flight. *)
Definition ic_superseded : list Event :=
  ic_submitted ++ [FileChange [sketch];
                   FetchSettled 0 (Fulfilled (mkResponse true));
                   BlobSettled 0 (Fulfilled jpeg)].

(** ** Every configuration the page can reach *)

Section ic_reachable.
Implicit Types (c : Config) (u p t : nat).

Lemma ic_after_reachable es : reachable (ic_after es).
Proof.
  unfold ic_after. destruct (play es init) eqn:H; simpl;
    eauto using ic_play_reachable, reachable_init.
Qed.

(** C14. The converted image the page shows, and offers for download, is
    backed by a live object URL. *)
Theorem ic_converted_live c u :
  reachable c -> convertedImageUrl (state c) = Some u ->
  is_Some (Url.lookup u (urls c)).
Proof. intros HI%ic_reachable_Inv Hu. by apply (inv_converted _ HI). Qed.

Lemma ic_converted_live_witness : is_Some (Url.lookup 1 (urls (ic_after ic_converted))).
Proof.
  apply (ic_converted_live (ic_after ic_converted) 1);
    [apply ic_after_reachable|reflexivity].
Defined.

(** C27. Once a converted image is shown, the preview of the original is
    backed by a revoked object URL: the render that stores the converted
    image runs the cleanup of the render before, which revokes the preview
    URL that [originalImagePreview] still holds. *)
Theorem ic_original_revoked c u p :
  reachable c -> convertedImageUrl (state c) = Some u ->
  originalImagePreview (state c) = Some p -> Url.lookup p (urls c) = None.
Proof.
  intros HI%ic_reachable_Inv Hu Hp. by apply (proj2 (inv_converted _ HI _ Hu)).
Qed.

Lemma ic_original_revoked_witness : Url.lookup 0 (urls (ic_after ic_converted)) = None.
Proof.
  apply (ic_original_revoked (ic_after ic_converted) 1 0);
    [apply ic_after_reachable|reflexivity..].
Defined.

(** The loading flag is set exactly while one [handleSubmit] call is
    still to run handler code, and no converted image is shown meanwhile. *)
Lemma ic_loading_while_in_flight c :
  reachable c ->
  activeCount (tasks c) = (if isLoading (state c) then 1 else 0) /\
  (isLoading (state c) = true -> convertedImageUrl (state c) = None).
Proof. intros HI%ic_reachable_Inv. split; apply HI. Qed.

Lemma ic_loading_while_in_flight_witness :
  let c := ic_after ic_answered in
  activeCount (tasks c) = (if isLoading (state c) then 1 else 0) /\
  (isLoading (state c) = true -> convertedImageUrl (state c) = None).
Proof. apply (ic_loading_while_in_flight (ic_after ic_answered) (ic_after_reachable _)). Defined.

(** Whenever the download link is rendered a file is selected: the
    branch of [getDownloadFileName] for no selected file never names a
    download. *)
Lemma ic_download_has_file c u :
  reachable c -> convertedImageUrl (state c) = Some u -> is_Some (selectedFile (state c)).
Proof.
  intros HI%ic_reachable_Inv Hu. destruct (selectedFile (state c)) eqn:Hf; [done|].
  destruct (inv_file _ HI Hf) as [_ Hc]. congruence.
Qed.

Lemma ic_download_has_file_witness : is_Some (selectedFile (state (ic_after ic_converted))).
Proof.
  apply (ic_download_has_file (ic_after ic_converted) 1);
    [apply ic_after_reachable|reflexivity].
Defined.

(** C34. The form leaks no object URL: every live URL is one the state
    holds, so that when the component is unmounted no URL it created stays
    live. *)
Theorem ic_unmount_releases_all c u :
  reachable c ->
  (is_Some (Url.lookup u (urls c)) -> u ∈ heldUrls (state c)) /\
  Url.lookup u (unmount (state c) (urls c)) = None.
Proof.
  intros HI%ic_reachable_Inv. split; [apply (inv_held _ HI)|].
  apply (unmount_all (St := State)), (inv_held _ HI).
Qed.

Lemma ic_unmount_releases_all_witness :
  let c := ic_after ic_converted in
  (is_Some (Url.lookup 1 (urls c)) -> 1 ∈ heldUrls (state c)) /\
  Url.lookup 1 (unmount (state c) (urls c)) = None.
Proof. apply (ic_unmount_releases_all (ic_after ic_converted) 1 (ic_after_reachable _)). Defined.

End ic_reachable.

(** ** The name of the download *)

Section ic_names.
Implicit Types (s : State) (f : File) (stem ext : jsstring).

(** The name without its extension, as [getDownloadFileName] computes it. *)
Lemma ic_name_stem stem ext :
  46%N ∉ ext ->
  Arr.join (Str.lit ".") (Arr.slice 0 (-1) (Str.split 46 (stem ++ Str.lit "." ++ ext))) = stem.
Proof. apply (split_init_join 46%N). Qed.

(** For a file named [stem.ext] the download is named
    [stem_converted.] followed by the target format; [stem] is everything
    before the last dot, dots included. *)
Lemma ic_download_name s f stem ext :
  selectedFile s = Some f -> file_name f = stem ++ Str.lit "." ++ ext -> 46%N ∉ ext ->
  getDownloadFileName s = stem ++ Str.lit "_converted." ++ targetFormat s.
Proof.
  intros Hf Hn Hext. unfold getDownloadFileName. rewrite Hf, Hn.
  by rewrite ic_name_stem.
Qed.

Lemma ic_download_name_witness :
  getDownloadFileName (state (ic_after ic_converted)) =
  Str.lit "holiday.photo" ++ Str.lit "_converted." ++ targetFormat (state (ic_after ic_converted)).
Proof.
  apply (ic_download_name (state (ic_after ic_converted)) photo
           (Str.lit "holiday.photo") (Str.lit "png")); [reflexivity..|].
  vm_compute. intros H. repeat (apply elem_of_cons in H as [H|H]; [discriminate|]).
  by apply elem_of_nil in H.
Defined.

(** C40. For a file whose name has no dot the whole name is dropped: the
    download is named [_converted.] followed by the target format. *)
Theorem ic_download_name_no_dot s f :
  selectedFile s = Some f -> 46%N ∉ file_name f ->
  getDownloadFileName s = Str.lit "_converted." ++ targetFormat s.
Proof.
  intros Hf Hn. unfold getDownloadFileName. rewrite Hf.
  change (Str.lit ".") with [46%N]. by rewrite split_init_none.
Qed.

Lemma ic_download_name_no_dot_witness :
  getDownloadFileName (state (ic_after [FileChange [sketch]])) =
  Str.lit "_converted." ++ targetFormat (state (ic_after [FileChange [sketch]])).
Proof.
  apply (ic_download_name_no_dot (state (ic_after [FileChange [sketch]])) sketch);
    [reflexivity|].
  vm_compute. intros H. repeat (apply elem_of_cons in H as [H|H]; [discriminate|]).
  by apply elem_of_nil in H.
Defined.

(** Changing the format after a conversion changes the extension of
    the download's name and the heading of the panel, but not the image:
    the converted image keeps its URL, and so the format it was converted
    to. *)
Lemma ic_format_change_renames c value :
  let c' := handleFormatChange value c in
  convertedImageUrl (state c') = convertedImageUrl (state c) /\
  urls c' = urls c /\
  view_heading (render (state c')) =
    Str.lit "Converted (" ++ Str.toUpperCase value ++ Str.lit ")" /\
  (forall f stem ext, selectedFile (state c) = Some f ->
     file_name f = stem ++ Str.lit "." ++ ext -> 46%N ∉ ext ->
     getDownloadFileName (state c') = stem ++ Str.lit "_converted." ++ value).
Proof.
  unfold handleFormatChange. rewrite ic_render_with_same by done. cbn [state urls].
  split_and!; [done..|]. intros f stem ext Hf Hn Hext.
  unfold getDownloadFileName. cbn [selectedFile setTargetFormat targetFormat].
  by rewrite Hf, Hn, ic_name_stem.
Qed.

End ic_names.

(** ** The handlers, branch by branch *)

Section ic_handlers.
Implicit Types (c : Config) (u t : nat) (f : File) (files : list File).

(** Choosing a file stages it: the file is selected and gets a preview
    URL of its own that resolves to the file's content, the error and the
    converted image are cleared, and the object URLs the page held are
    revoked.  Choosing nothing changes nothing. *)
Lemma ic_select_file c f files u :
  reachable c -> u ∈ heldUrls (state c) ->
  let c' := handleFileChange (f :: files) c in
  state c' = mkState (Some f) (Some (Url.minted (urls c))) (targetFormat (state c)) None
               (isLoading (state c)) None /\
  Url.lookup (Url.minted (urls c)) (urls c') = Some (file_blob f) /\
  Url.lookup u (urls c') = None /\
  handleFileChange [] c = c.
Proof.
  intros HI%ic_reachable_Inv Hu. unfold handleFileChange. cbn [head].
  rewrite (create_eta (file_blob f)). ic_cfg. split_and!; [done| | |done].
  - rewrite ic_commit_keeps, lookup_create_new; [done|..].
    + intros Hp%(inv_original _ HI). lia.
    + intros [[b Hb] _]%(inv_converted _ HI). assert (Url.minted (urls c) < Url.minted (urls c)); [|lia].
      apply (inv_wf _ HI). by exists b.
  - apply (commit_revokes (St := State)); [|done].
    unfold deps_changed; simpl. unfold depsChanged, same_value. ic_cfg.
    rewrite bool_decide_false; [done|]. intros Hp%(inv_original _ HI). lia.
Qed.

Lemma ic_select_file_witness :
  let c := ic_after ic_converted in
  let c' := handleFileChange [sketch] c in
  state c' = mkState (Some sketch) (Some (Url.minted (urls c))) (targetFormat (state c)) None
               (isLoading (state c)) None /\
  Url.lookup (Url.minted (urls c)) (urls c') = Some (file_blob sketch) /\
  Url.lookup 1 (urls c') = None /\
  handleFileChange [] c = c.
Proof.
  apply (ic_select_file (ic_after ic_converted) sketch [] 1).
  - apply ic_after_reachable.
  - vm_compute. apply list_elem_of_further, list_elem_of_here.
Defined.

(** [handleSubmit] with no file selected only sets the error message:
    no request is sent, no continuation is started and no object URL is
    touched. *)
Lemma ic_submit_without_file c :
  selectedFile (state c) = None ->
  handleSubmit c =
  mkConfig (setError (Some (Str.lit "Please select an image file first.")) (state c))
    (urls c) (tasks c) (requests c).
Proof. intros H. unfold handleSubmit. rewrite H. by apply ic_render_with_same. Qed.

Lemma ic_submit_without_file_witness :
  handleSubmit init =
  mkConfig (setError (Some (Str.lit "Please select an image file first.")) (state init))
    (urls init) (tasks init) (requests init).
Proof. apply (ic_submit_without_file init). reflexivity. Defined.

(** Submitting a staged file sends one request to the conversion
    endpoint, carrying the file and the chosen format, and starts one
    continuation; the loading flag is set and the error and the converted
    image are cleared.  A converted image that was shown has its URL
    revoked. *)
Lemma ic_submit_request c f :
  selectedFile (state c) = Some f ->
  let c' := handleSubmit c in
  state c' = mkState (Some f) (originalImagePreview (state c)) (targetFormat (state c))
               None true None /\
  requests c' = requests c ++
    [mkRequest endpoint [(Str.lit "file", FormFile f);
                         (Str.lit "toFormat", FormString (targetFormat (state c)))]] /\
  tasks c' = tasks c ++ [AwaitFetch] /\
  (forall u, convertedImageUrl (state c) = Some u -> Url.lookup u (urls c') = None).
Proof.
  intros Hf. unfold handleSubmit. rewrite Hf. ic_cfg. split_and!; [|done..|].
  - unfold setConvertedImageUrl, setError, setIsLoading. simpl. by rewrite Hf.
  - intros u Hu. apply (commit_revokes (St := State)).
    + unfold deps_changed; simpl. unfold depsChanged, same_value. ic_cfg. rewrite Hu.
      rewrite (bool_decide_false (Some u = None)) by done. apply orb_true_r.
    + simpl. unfold heldUrls. rewrite Hu. apply elem_of_app. right. left.
Qed.

Lemma ic_submit_request_witness :
  let c := ic_after ic_converted in
  let c' := handleSubmit c in
  state c' = mkState (Some photo) (originalImagePreview (state c)) (targetFormat (state c))
               None true None /\
  requests c' = requests c ++
    [mkRequest endpoint [(Str.lit "file", FormFile photo);
                         (Str.lit "toFormat", FormString (targetFormat (state c)))]] /\
  tasks c' = tasks c ++ [AwaitFetch] /\
  (forall u, convertedImageUrl (state c) = Some u -> Url.lookup u (urls c') = None).
Proof. apply (ic_submit_request (ic_after ic_converted) photo). reflexivity. Defined.

(** A response that is read to its end shows exactly one converted
    image, whatever the bytes are: its URL is new and resolves to the blob of
    the response, and the loading flag is clear. *)
Lemma ic_conversion_shown c t imageBlob :
  reachable c -> tasks c !! t = Some AwaitBlob ->
  let c' := onBlob t (Fulfilled imageBlob) c in
  convertedImageUrl (state c') = Some (Url.minted (urls c)) /\
  Url.lookup (Url.minted (urls c)) (urls c') = Some imageBlob /\
  isLoading (state c') = false /\ error (state c') = error (state c) /\
  tasks c' !! t = Some Finished.
Proof.
  intros HI%ic_reachable_Inv Ht.
  destruct (ic_Inv_active_loading _ _ _ HI Ht eq_refl) as (Hl & Hc & Hf).
  unfold onBlob. rewrite (create_eta imageBlob). ic_cfg. split_and!; [done| |done..|].
  - rewrite ic_commit_keeps, lookup_create_new; [done| |by rewrite Hc].
    intros Hp%(inv_original _ HI). lia.
  - apply list_lookup_insert_eq. by eapply lookup_lt_Some.
Qed.

Lemma ic_conversion_shown_witness :
  let c := ic_after ic_answered in
  let c' := onBlob 0 (Fulfilled jpeg) c in
  convertedImageUrl (state c') = Some (Url.minted (urls c)) /\
  Url.lookup (Url.minted (urls c)) (urls c') = Some jpeg /\
  isLoading (state c') = false /\ error (state c') = error (state c) /\
  tasks c' !! 0 = Some Finished.
Proof.
  apply (ic_conversion_shown (ic_after ic_answered) 0 jpeg);
    [apply ic_after_reachable|reflexivity].
Defined.

(** A submission that fails, at whichever await, ends with the error's
    message shown, the loading flag clear and no converted image;
    no object URL is touched. *)
Lemma ic_failure_shown c t k err :
  reachable c -> tasks c !! t = Some k -> active k = true ->
  let c' := setTask t Finished (catchFinally err c) in
  state c' = mkState (selectedFile (state c)) (originalImagePreview (state c))
               (targetFormat (state c)) None false (Exn.message err) /\
  urls c' = urls c.
Proof.
  intros HI%ic_reachable_Inv Ht Hk.
  destruct (ic_Inv_active_loading _ _ _ HI Ht Hk) as (Hl & Hc & Hf).
  rewrite ic_catchFinally_eq. ic_cfg. split; [|done].
  unfold setIsLoading, setError. simpl. by rewrite Hc.
Qed.

(** A response is not checked against the selection it was requested
    for: when another file is chosen while a conversion is in flight, the
    page ends up showing the converted first file beside the second file,
    whose own preview URL the same render revokes. *)
Lemma ic_stale_response_shown :
  exists c, play ic_superseded init = Some c /\
    selectedFile (state c) = Some sketch /\
    requests c = [mkRequest endpoint (formData photo (Str.lit "jpeg"))] /\
    (exists u, convertedImageUrl (state c) = Some u /\ Url.lookup u (urls c) = Some jpeg) /\
    (exists p, originalImagePreview (state c) = Some p /\ Url.lookup p (urls c) = None).
Proof.
  eexists. split; [by vm_compute|]. split_and!; [by vm_compute..| |].
  - exists 2. by vm_compute.
  - exists 1. by vm_compute.
Qed.

End ic_handlers.

(** ** What the form posts, and the format it shows *)

(** A request of the form: a file and a format the select offers, posted
    to the conversion endpoint. *)
Definition ic_conversion_request (r : Request) : Prop :=
  exists file value,
    value ∈ formats.*1 /\ r = mkRequest endpoint (formData file value).

(** Unfold the handlers down to the state they build. *)
Ltac ic_handlers :=
  unfold handleFileChange, handleFormatChange, handleSubmit, onFetch, onText, onBlob,
    catchFinally;
  repeat case_match; simplify_eq/=.

Section ic_posted.
Implicit Types (c : Config) (value : jsstring) (r : Request) (file : File).

(** Only the select changes the format. *)
Lemma ic_step_format e c c' :
  step e c = Some c' ->
  targetFormat (state c') =
  match e with FormatChange value => value | _ => targetFormat (state c) end.
Proof.
  destruct e; cbn [step]; intros Hs; repeat case_match; simplify_eq; by ic_handlers.
Qed.

(** Only [handleSubmit] posts, and it posts what is staged. *)
Lemma ic_step_requests e c c' :
  step e c = Some c' ->
  requests c' = requests c \/
  exists file, selectedFile (state c) = Some file /\
    requests c' = requests c ++ [mkRequest endpoint (formData file (targetFormat (state c)))].
Proof.
  destruct e; cbn [step]; intros Hs; repeat case_match; simplify_eq; ic_handlers;
    naive_solver.
Qed.

(** The format of a reachable page is one the select offers. *)
Lemma ic_format_offered c : reachable c -> targetFormat (state c) ∈ formats.*1.
Proof.
  induction 1 as [|e c c' _ IH He Hs]; [compute_done|].
  rewrite (ic_step_format _ _ _ Hs). destruct e; try done. by apply bool_decide_eq_true in He.
Qed.

(** Every request the form has sent carries a file and a format the
    select offers, under the field names the endpoint reads, and went to
    the conversion endpoint. *)
Lemma ic_requests_well_formed c : reachable c -> Forall ic_conversion_request (requests c).
Proof.
  induction 1 as [|e c c' Hr IH He Hs]; [constructor|].
  destruct (ic_step_requests _ _ _ Hs) as [->|(file & Hfile & ->)]; [done|].
  apply Forall_app. split; [done|]. apply Forall_singleton.
  exists file, (targetFormat (state c)). eauto using ic_format_offered.
Qed.

Lemma ic_requests_well_formed_witness :
  Forall ic_conversion_request (requests (ic_after ic_converted)).
Proof. apply (ic_requests_well_formed (ic_after ic_converted)). apply ic_after_reachable. Defined.

(** The label of each option is its value in upper case. *)
Lemma ic_formats_upper value label : (value, label) ∈ formats -> Str.toUpperCase value = label.
Proof.
  intros H. repeat (apply elem_of_cons in H as [[= -> ->]|H]; [by vm_compute|]).
  by apply elem_of_nil in H.
Qed.

(** The heading of the converted panel names the format by the label of
    the option that is selected. *)
Lemma ic_heading_label c :
  reachable c ->
  exists label, (targetFormat (state c), label) ∈ formats /\
    view_heading (render (state c)) = Str.lit "Converted (" ++ label ++ Str.lit ")".
Proof.
  intros ([value label] & Hv & Hin)%ic_format_offered%list_elem_of_fmap. simpl in Hv.
  exists label. split; [by rewrite Hv|]. cbn [render view_heading].
  by rewrite Hv, (ic_formats_upper _ _ Hin).
Qed.

Lemma ic_heading_label_witness :
  exists label, (targetFormat (state (ic_after ic_converted)), label) ∈ formats /\
    view_heading (render (state (ic_after ic_converted))) =
    Str.lit "Converted (" ++ label ++ Str.lit ")".
Proof. apply (ic_heading_label (ic_after ic_converted)). apply ic_after_reachable. Defined.

End ic_posted.

Section ic_any.
(** The file input accepts [image/*], which narrows what the file picker
    offers and nothing else: [handleFileChange] stages whatever file the
    change event carries, and [handleSubmit] posts it. *)
Lemma ic_posts_any_file file :
  exists c, play [FileChange [file]; Submit] init = Some c /\
    selectedFile (state c) = Some file /\
    requests c = [mkRequest endpoint (formData file (Str.lit "jpeg"))].
Proof. eexists. split; [reflexivity|]. by split. Qed.
End ic_any.
