(* ===== verification/ImageConverterRuns.v ===== *)
(** * The image converter form: a submission from its request to its end

    [handleSubmit] reads an exchange with the service await by await.  This
    file proves that its stretches compose to [classify], the one-shot
    reading of an exchange (Remote.v), that the page ends every exchange
    with the loading flag clear and the converted image or the error stored,
    and that a submission waits for two settlements at most. *)

From stdpp Require Import base tactics option list strings.
From Stdlib Require Import Lia.
From S2P Require Import Prelude Js Browser React Remote Flight.
From S2P Require Import ImageConverter ImageConverterInv ImageConverterProps.
Import ImageConverter.

(** The events of one exchange, as [handleSubmit] awaits them: the response,
    then its body as a blob when the response is [ok], as text when not. *)
Definition ic_exchange_events (t : nat) (x : Exchange) : list Event :=
  FetchSettled t (ex_fetch x) ::
  match ex_fetch x with
  | Fulfilled r => if ok r then [BlobSettled t (ex_blob x)] else [TextSettled t (ex_text x)]
  | Rejected _ => []
  end.

(** The end of a call: the converted image stored under a URL of its own,
    or the [catch] clause; the [finally] clause in both. *)
Definition ic_finish (t : nat) (o : settled Blob) (c : Config) : Config :=
  match o with
  | Fulfilled imageBlob => onBlob t (Fulfilled imageBlob) c
  | Rejected err => setTask t Finished (catchFinally err c)
  end.

(** The promises a call at stage [k] still waits for, at most. *)
Definition ic_awaits (k : Task) : nat :=
  match k with
  | AwaitFetch => 2
  | AwaitText | AwaitBlob => 1
  | Finished => 0
  end.

Abbreviation ic_remaining := (Flight.remaining ic_awaits).

(** The events that settle a promise. *)
Definition ic_settlement (e : Event) : bool :=
  match e with FileChange _ | FormatChange _ | Submit => false | _ => true end.

Definition ic_delivered : Exchange :=
  mkExchange (Fulfilled (mkResponse true)) (Rejected Exn.NotAnError) (Fulfilled jpeg).

Section ic_runs.
Implicit Types (c : Config) (t : nat) (x : Exchange) (k : Task) (o : settled Blob).

Lemma ic_setTask_lookup t k k0 c :
  tasks c !! t = Some k0 -> tasks (setTask t k c) !! t = Some k.
Proof. intros H%lookup_lt_Some. simpl. by apply list_lookup_insert_eq. Qed.

(** The stage a call was at does not matter to how it ends. *)
Lemma ic_finish_setTask t k o c : ic_finish t o (setTask t k c) = ic_finish t o c.
Proof.
  destruct o as [b|err]; unfold ic_finish, onBlob, catchFinally, render_with, setTask; simpl;
    [destruct (Url.createObjectURL b (urls c)) as [u σ]; simpl|];
    by rewrite list_insert_insert_eq.
Qed.

Lemma ic_onBlob_finish t r c : onBlob t r c = ic_finish t r c.
Proof. by destruct r. Qed.

Lemma ic_onText_finish t r c :
  onText t r c =
  ic_finish t (Rejected match r with
                        | Rejected e => e
                        | Fulfilled errorText => error_of_text fallbackMessage errorText
                        end) c.
Proof. by destruct r. Qed.

(** The handler, await by await, implements the one-shot reading of an
    exchange: played on a call that waits for its response, the events of
    an exchange end the call where [onBlob] stores the blob [classify]
    finds, or in the [catch] clause with the error it finds. *)
Lemma ic_exchange_play c t x :
  tasks c !! t = Some AwaitFetch ->
  play (ic_exchange_events t x) c = Some (ic_finish t (classify fallbackMessage x) c).
Proof.
  intros Ht. unfold ic_exchange_events, classify.
  destruct (ex_fetch x) as [[[]]|err]; cbn [play enabled step]; rewrite Ht;
    cbn [mbind option_bind onFetch ok]; [| |done].
  - cbn [play enabled step]. erewrite ic_setTask_lookup by done. cbn [mbind option_bind].
    by rewrite ic_onBlob_finish, ic_finish_setTask.
  - cbn [play enabled step]. erewrite ic_setTask_lookup by done. cbn [mbind option_bind].
    rewrite ic_onText_finish, ic_finish_setTask. by destruct (ex_text x).
Qed.

(** How a call ends, on the page. *)
Lemma ic_finish_shown c t k o :
  reachable c -> tasks c !! t = Some k -> active k = true ->
  let c' := ic_finish t o c in
  isLoading (state c') = false /\
  match o with
  | Fulfilled imageBlob =>
      exists u, view_converted (render (state c')) = Some u /\
                Url.lookup u (urls c') = Some imageBlob /\
                error (state c') = error (state c)
  | Rejected err =>
      error (state c') = Exn.message err /\ view_converted (render (state c')) = None /\
      urls c' = urls c
  end.
Proof.
  intros Hr Ht Hk. destruct o as [b|err]; cbn [ic_finish].
  - pose proof (ic_reachable_Inv _ Hr) as HI.
    destruct (ic_Inv_active_loading _ _ _ HI Ht Hk) as (Hl & Hc & Hf).
    unfold onBlob. rewrite (create_eta b). ic_cfg. split; [done|].
    exists (Url.minted (urls c)). split_and!; [done| |done].
    rewrite ic_commit_keeps, lookup_create_new; [done| |by rewrite Hc].
    intros Hp%(inv_original _ HI). lia.
  - destruct (ic_failure_shown c t k err Hr Ht Hk) as [Hs Hu]. cbn zeta in Hs, Hu.
    by rewrite Hs, Hu.
Qed.

(** C31. Whatever the service answers, the submission ends: once the promises
    of the exchange have settled, the loading flag is clear and the page
    shows the converted image under a URL that resolves to the blob of the
    response, or holds the message of the error the exchange ended with. *)
Theorem ic_always_settles c t x :
  reachable c -> tasks c !! t = Some AwaitFetch ->
  exists c', play (ic_exchange_events t x) c = Some c' /\
    isLoading (state c') = false /\
    match classify fallbackMessage x with
    | Fulfilled imageBlob =>
        exists u, view_converted (render (state c')) = Some u /\
                  Url.lookup u (urls c') = Some imageBlob /\
                  error (state c') = error (state c)
    | Rejected err =>
        error (state c') = Exn.message err /\ view_converted (render (state c')) = None /\
        urls c' = urls c
    end.
Proof.
  intros Hr Ht. eexists. split; [by apply ic_exchange_play|].
  by apply (ic_finish_shown c t AwaitFetch).
Qed.

Lemma ic_always_settles_witness :
  exists c', play (ic_exchange_events 0 ic_delivered) (ic_after ic_submitted) = Some c' /\
    isLoading (state c') = false /\
    exists u, view_converted (render (state c')) = Some u /\
              Url.lookup u (urls c') = Some jpeg /\
              error (state c') = error (state (ic_after ic_submitted)).
Proof.
  apply (ic_always_settles (ic_after ic_submitted) 0 ic_delivered);
    [apply ic_after_reachable|reflexivity].
Defined.

(** Every settlement lowers the number of awaits left. *)
Lemma ic_settlement_lt e c c' :
  ic_settlement e = true -> step e c = Some c' ->
  ic_remaining (tasks c') < ic_remaining (tasks c).
Proof.
  intros He Hs. destruct e as [| | |t r|t r|t r]; try done; cbn [step] in Hs;
    destruct (tasks c !! t) as [[]|] eqn:Ht; try done; injection Hs as <-.
  - destruct r as [[[]]|]; simpl;
      (apply (remaining_insert_lt _ _ AwaitFetch); [done|simpl; lia]).
  - rewrite ic_onText_finish. simpl.
    apply (remaining_insert_lt _ _ AwaitText); [done|simpl; lia].
  - destruct r as [b|]; unfold onBlob; [rewrite (create_eta b)|]; simpl;
      (apply (remaining_insert_lt _ _ AwaitBlob); [done|simpl; lia]).
Qed.

(** A suspended call waits for a promise that can settle. *)
Lemma ic_can_settle c t k :
  tasks c !! t = Some k -> active k = true ->
  exists e c', ic_settlement e = true /\ step e c = Some c'.
Proof.
  intros Ht Hk. destruct k; try done.
  - exists (FetchSettled t (Rejected Exn.NotAnError)). eexists. by cbn [step]; rewrite Ht.
  - exists (TextSettled t (Rejected Exn.NotAnError)). eexists. by cbn [step]; rewrite Ht.
  - exists (BlobSettled t (Rejected Exn.NotAnError)). eexists. by cbn [step]; rewrite Ht.
Qed.

(** A submission ends: the calls of the handler wait for two settlements
    at most between them, every settlement lowers that number, the loading
    flag is clear exactly when it is zero, and while it is not zero the
    page waits for a promise that can settle. *)
Lemma ic_submission_ends c :
  reachable c ->
  ic_remaining (tasks c) <= 2 /\
  (ic_remaining (tasks c) = 0 <-> isLoading (state c) = false) /\
  (forall e c', ic_settlement e = true -> step e c = Some c' ->
                ic_remaining (tasks c') < ic_remaining (tasks c)) /\
  (isLoading (state c) = true -> exists e c', ic_settlement e = true /\ step e c = Some c').
Proof.
  intros HI%ic_reachable_Inv.
  apply (submission_ends tasks (isLoading ∘ state) step ic_settlement active ic_awaits 2).
  - intros []; simpl; lia.
  - by intros [].
  - apply ic_settlement_lt.
  - apply ic_can_settle.
  - apply (inv_active _ HI).
Qed.

Lemma ic_submission_ends_witness :
  let c := ic_after ic_answered in
  ic_remaining (tasks c) <= 2 /\
  (ic_remaining (tasks c) = 0 <-> isLoading (state c) = false) /\
  (forall e c', ic_settlement e = true -> step e c = Some c' ->
                ic_remaining (tasks c') < ic_remaining (tasks c)) /\
  (isLoading (state c) = true -> exists e c', ic_settlement e = true /\ step e c = Some c').
Proof. apply (ic_submission_ends (ic_after ic_answered)). apply ic_after_reachable. Defined.

End ic_runs.
