(* ===== verification/ImageConverterSession.v ===== *)
(** * The image converter form as a conversion session

    The phase of the form is read off what its page shows; the chosen file
    is the staged input.  The form departs from the design where a file is
    chosen while a conversion is in flight (the conversion goes on, where
    the session would be staged anew) and where a submission fails with an
    error that has no message (the page shows nothing, where the session
    would have failed).  Everywhere else it moves as the session does. *)

From stdpp Require Import base tactics option list strings.
From Stdlib Require Import Lia.
From S2P Require Import Prelude Js Browser React Remote Flight Session.
From S2P Require Import ImageConverter ImageConverterInv ImageConverterProps.
Import ImageConverter.

Definition ic_phase (c : Config) : Session.Phase :=
  Session.display (if isLoading (state c) then Some Session.Submitting else None)
    (bool_decide (is_Some (convertedImageUrl (state c)))) (shown (error (state c)))
    (bool_decide (is_Some (selectedFile (state c)))).

(** The converted image needs no decoding: the event that delivers it
    stands for the remote success and the decoding at once. *)
Definition ic_labels (e : Event) (c : Config) : list Session.Label :=
  match e with
  | FileChange files => if head files is Some _ then [Session.SelectInputs true] else []
  | FormatChange _ => []
  | Submit => [Session.Submit]
  | FetchSettled _ (Fulfilled _) => []
  | BlobSettled _ (Fulfilled _) => [Session.RemoteSuccess; Session.DecodeSuccess]
  | FetchSettled _ (Rejected _) | BlobSettled _ (Rejected _) | TextSettled _ _ =>
      [Session.RemoteFailure]
  end.

Definition ic_departs (e : Event) (c : Config) : bool :=
  match e with
  | FileChange files => bool_decide (is_Some (head files)) && isLoading (state c)
  | FetchSettled _ (Rejected err) | BlobSettled _ (Rejected err) | TextSettled _ (Rejected err) =>
      negb (shown (Exn.message err))
  | _ => false
  end.

#[export] Instance ic_form : Form Config Event :=
  {| form_init := init;
     form_enabled := enabled;
     form_step := step;
     form_phase := ic_phase;
     form_labels := ic_labels;
     form_departs := ic_departs |}.

(** A visit that goes through every phase the form has: a conversion, then
    a second submission that the server refuses. *)
Definition ic_visit : list Event :=
  ic_converted ++ [Submit; FetchSettled 1 (Fulfilled (mkResponse false));
                   TextSettled 1 (Fulfilled (Str.lit "Unsupported format"))].

Section ic_session.
Implicit Types (c : Config) (e : Event) (t : nat) (k : Task).

Lemma ic_phase_loading c : isLoading (state c) = true -> ic_phase c = Session.Submitting.
Proof. unfold ic_phase, Session.display. by intros ->. Qed.

Lemma ic_phase_setTask t k c : ic_phase (setTask t k c) = ic_phase c.
Proof. done. Qed.

(** The [catch] clause ends a submission in [Failed] when the error has a
    message to show. *)
Lemma ic_phase_catch c t k err :
  Inv c -> tasks c !! t = Some k -> active k = true -> shown (Exn.message err) = true ->
  ic_phase c = Session.Submitting /\
  ic_phase (setTask t Finished (catchFinally err c)) = Session.Failed.
Proof.
  intros HI Ht Hk Hm. destruct (ic_Inv_active_loading _ _ _ HI Ht Hk) as (Hl & Hc & _).
  split; [by apply ic_phase_loading|].
  rewrite ic_catchFinally_eq. unfold ic_phase, Session.display. ic_cfg. by rewrite Hc, Hm.
Qed.

Lemma ic_simulates_step e c c' :
  Inv c -> enabled e c = true -> step e c = Some c' -> ic_departs e c = false ->
  Session.accepts (ic_labels e c) (ic_phase c) = Some (ic_phase c').
Proof.
  intros HI He Hs Hd. destruct e as [files|value| |t r|t r|t r]; cbn [step] in Hs.
  - injection Hs as <-. unfold handleFileChange. cbn [ic_labels ic_departs] in *.
    destruct (head files) as [file|]; [|done]. simpl in Hd.
    destruct (Url.createObjectURL _ _) as [u σ]. unfold ic_phase, Session.display. ic_cfg. by rewrite Hd.
  - by injection Hs as <-.
  - injection Hs as <-. simpl in He.
    apply negb_true_iff, orb_false_iff in He as [Hl Hf%bool_decide_eq_false].
    unfold handleSubmit. destruct (selectedFile (state c)) as [file|] eqn:Hfile; [|done].
    unfold ic_phase, Session.display. ic_cfg. rewrite Hl, Hfile. simpl.
    by destruct (bool_decide _), (shown (error (state c))).
  - destruct (tasks c !! t) as [[]|] eqn:Ht; try done. injection Hs as <-.
    destruct r as [[[]]|err]; simpl; [done..|]. apply negb_false_iff in Hd.
    by destruct (ic_phase_catch c t AwaitFetch err HI Ht eq_refl Hd) as [-> ->].
  - destruct (tasks c !! t) as [[]|] eqn:Ht; try done. injection Hs as <-.
    destruct r as [errorText|err]; simpl.
    + destruct (ic_phase_catch c t AwaitText (error_of_text fallbackMessage errorText)
                  HI Ht eq_refl) as [-> ->]; [|done].
      by apply shown_error_of_text.
    + apply negb_false_iff in Hd.
      by destruct (ic_phase_catch c t AwaitText err HI Ht eq_refl Hd) as [-> ->].
  - destruct (tasks c !! t) as [[]|] eqn:Ht; try done. injection Hs as <-.
    destruct (ic_Inv_active_loading _ _ _ HI Ht eq_refl) as (Hl & _).
    rewrite (ic_phase_loading c Hl). destruct r as [imageBlob|err].
    + unfold onBlob. destruct (Url.createObjectURL imageBlob (urls c)) as [u σ].
      unfold ic_phase, Session.display. by ic_cfg.
    + simpl. apply negb_false_iff in Hd.
      by destruct (ic_phase_catch c t AwaitBlob err HI Ht eq_refl Hd) as [_ ->].
Qed.

Lemma ic_simulates : simulates Inv.
Proof.
  split; [apply ic_Inv_init|]. intros e c c' HI He Hs.
  split; [by eapply ic_Inv_step|]. by apply ic_simulates_step.
Qed.

(** C29. The form implements the conversion session: along a run from the
    first render in which no file is chosen while a conversion is in
    flight and every error has a message, the events of the page, read as
    labels of the session, are a run of the session from [Idle], and the
    phase the page shows is the phase the session is in. *)
Theorem ic_session_refinement es c ls :
  conforming es init = Some (c, ls) ->
  Session.accepts ls Session.Idle = Some (ic_phase c).
Proof.
  intros Hes. by destruct (conforming_accepts Inv es init c ls ic_simulates ic_Inv_init Hes).
Qed.

Lemma ic_session_refinement_witness :
  Session.accepts
    [Session.SelectInputs true; Session.Submit; Session.RemoteSuccess; Session.DecodeSuccess;
     Session.Submit; Session.RemoteFailure] Session.Idle
  = Some (ic_phase (ic_after ic_visit)).
Proof.
  apply (ic_session_refinement ic_visit (ic_after ic_visit)
           [Session.SelectInputs true; Session.Submit; Session.RemoteSuccess;
            Session.DecodeSuccess; Session.Submit; Session.RemoteFailure]).
  by vm_compute.
Defined.

End ic_session.
