(* ===== verification/ImageToPdf.v ===== *)
(** * The image-to-PDF form (src/my-tools-io/src/components/ImageToPdfConverter.jsx)

    [Module ImageToPdfConverter] models the component: its five state cells,
    the effect that revokes the previews' URLs and the document's,
    [handleFileChange], which mints one preview URL per chosen file,
    [handleSubmit] (one definition per stretch of code between two
    [await]s), and what the component renders.  The configuration and the
    events follow PdfToImage.v. *)

From stdpp Require Import base tactics option list strings.
From S2P Require Import Prelude Js Browser React Remote.

Module ImageToPdfConverter.

(** ** Data *)

(** A preview: [{ name, url }]. *)
Record Preview : Type := mkPreview {
  name : jsstring;
  url : nat;
}.

(** The [useState] cells of the component. *)
Record State : Type := mkState {
  selectedFiles : list File;
  imagePreviews : array Preview;
  pdfUrl : option nat;
  isLoading : bool;
  error : option jsstring;
}.

(** The state of the first render; the initial array has stamp [0]. *)
Definition initial : State :=
  {| selectedFiles := [];
     imagePreviews := mkArray 0 [];
     pdfUrl := None;
     isLoading := false;
     error := None |}.

Definition setSelectedFiles (v : list File) (s : State) : State :=
  mkState v (imagePreviews s) (pdfUrl s) (isLoading s) (error s).
Definition setImagePreviews (v : array Preview) (s : State) : State :=
  mkState (selectedFiles s) v (pdfUrl s) (isLoading s) (error s).
Definition setPdfUrl (v : option nat) (s : State) : State :=
  mkState (selectedFiles s) (imagePreviews s) v (isLoading s) (error s).
Definition setIsLoading (v : bool) (s : State) : State :=
  mkState (selectedFiles s) (imagePreviews s) (pdfUrl s) v (error s).
Definition setError (v : option jsstring) (s : State) : State :=
  mkState (selectedFiles s) (imagePreviews s) (pdfUrl s) (isLoading s) v.

(** ** The effect *)

(** The cleanup of a render: every preview URL, then the document's. *)
Definition revokeUrls (s : State) (σ : Url.store) : Url.store :=
  Url.revokeIf (pdfUrl s) (Url.revokeEach (url <$> items (imagePreviews s)) σ).

(** The dependency list is [[imagePreviews, pdfUrl]]. *)
Definition depsChanged (old new : State) : bool :=
  negb (same_array (imagePreviews old) (imagePreviews new))
  || negb (same_value (pdfUrl old) (pdfUrl new)).

Definition heldUrls (s : State) : list nat :=
  (url <$> items (imagePreviews s)) ++ option_list (pdfUrl s).

#[export] Instance effect : Effect State.
Proof.
  refine {| deps_changed := depsChanged; cleanup := revokeUrls; held := heldUrls |}.
  intros st σ. unfold revokeUrls, heldUrls, Url.revokeEach.
  rewrite foldl_app. by destruct (pdfUrl st).
Defined.

(** ** Configurations *)

(** Where a [handleSubmit] call stands. *)
Inductive Task : Type :=
| AwaitFetch
| AwaitText
| AwaitBlob
| Finished.

Record Config : Type := mkConfig {
  state : State;
  urls : Url.store;
  stamp : nat;
  tasks : list Task;
  requests : list Request;
}.

(** The component just mounted; stamp [0] is taken by the initial array. *)
Definition init : Config :=
  {| state := initial; urls := Url.empty; stamp := 1; tasks := []; requests := [] |}.

Definition render_with (new : State) (σ : Url.store) (c : Config) : Config :=
  mkConfig new (commit (state c) new σ) (stamp c) (tasks c) (requests c).

Definition setTask (t : nat) (k : Task) (c : Config) : Config :=
  mkConfig (state c) (urls c) (stamp c) (<[t := k]> (tasks c)) (requests c).

(** ** [handleFileChange] *)

(** [files.map(file => ({ name: file.name, url: URL.createObjectURL(file) }))]:
    one URL per file, minted in the files' order. *)
Fixpoint previewUrls (files : list File) (σ : Url.store) : list Preview * Url.store :=
  match files with
  | [] => ([], σ)
  | file :: files' =>
      let '(u, σ) := Url.createObjectURL (file_blob file) σ in
      let '(ps, σ) := previewUrls files' σ in
      (mkPreview (file_name file) u :: ps, σ)
  end.

(** With no file chosen the handler sets nothing, and nothing renders. *)
Definition handleFileChange (files : list File) (c : Config) : Config :=
  if bool_decide (0 < length files) then
    let '(ps, σ) := previewUrls files (urls c) in
    let c' := mkConfig (state c) (urls c) (S (stamp c)) (tasks c) (requests c) in
    render_with
      (setError None (setPdfUrl None (setImagePreviews (mkArray (stamp c) ps)
         (setSelectedFiles files (state c)))))
      σ c'
  else c.

(** ** [handleSubmit] *)

Definition endpoint : jsstring :=
  Str.lit "http://localhost:8080/api/convert/image-to-pdf".

Definition fallbackMessage : jsstring := Str.lit "PDF conversion failed.".

(** Every file is appended under the key [files], in the files' order. *)
Definition formData (files : list File) : list (jsstring * form_value) :=
  (fun file => (Str.lit "files", FormFile file)) <$> files.

(** From the call to the first [await]: the guard, the three resets, the
    request. *)
Definition handleSubmit (c : Config) : Config :=
  if bool_decide (length (selectedFiles (state c)) = 0) then
    render_with (setError (Some (Str.lit "Please select one or more image files.")) (state c))
      (urls c) c
  else
    let c' :=
      render_with (setPdfUrl None (setError None (setIsLoading true (state c))))
        (urls c) c in
    mkConfig (state c') (urls c') (stamp c') (tasks c' ++ [AwaitFetch])
      (requests c' ++ [mkRequest endpoint (formData (selectedFiles (state c)))]).

(** The [catch] and [finally] clauses. *)
Definition catchFinally (err : Exn.thrown) (c : Config) : Config :=
  render_with (setIsLoading false (setError (Exn.message err) (state c))) (urls c) c.

(** [await fetch(...)] settled. *)
Definition onFetch (t : nat) (r : settled Response) (c : Config) : Config :=
  match r with
  | Rejected err => setTask t Finished (catchFinally err c)
  | Fulfilled response =>
      if ok response then setTask t AwaitBlob c else setTask t AwaitText c
  end.

(** [await response.text()] settled: the handler throws the server's text. *)
Definition onText (t : nat) (r : settled jsstring) (c : Config) : Config :=
  match r with
  | Rejected err => setTask t Finished (catchFinally err c)
  | Fulfilled errorText =>
      setTask t Finished (catchFinally (error_of_text fallbackMessage errorText) c)
  end.

(** [await response.blob()] settled: the document gets its URL, and the
    [finally] clause clears the loading flag in the same render. *)
Definition onBlob (t : nat) (r : settled Blob) (c : Config) : Config :=
  match r with
  | Rejected err => setTask t Finished (catchFinally err c)
  | Fulfilled pdfBlob =>
      let '(u, σ) := Url.createObjectURL pdfBlob (urls c) in
      setTask t Finished
        (render_with (setIsLoading false (setPdfUrl (Some u) (state c))) σ c)
  end.

(** ** Events *)

Inductive Event : Type :=
| FileChange (files : list File)
| Submit
| FetchSettled (t : nat) (r : settled Response)
| TextSettled (t : nat) (r : settled jsstring)
| BlobSettled (t : nat) (r : settled Blob).

Definition step (e : Event) (c : Config) : option Config :=
  match e with
  | FileChange files => Some (handleFileChange files c)
  | Submit => Some (handleSubmit c)
  | FetchSettled t r =>
      match tasks c !! t with Some AwaitFetch => Some (onFetch t r c) | _ => None end
  | TextSettled t r =>
      match tasks c !! t with Some AwaitText => Some (onText t r c) | _ => None end
  | BlobSettled t r =>
      match tasks c !! t with Some AwaitBlob => Some (onBlob t r c) | _ => None end
  end.

(** ** What the component renders *)

(** A thumbnail of the grid: the image's source and alternative text, and
    the caption with its title. *)
Record Thumb : Type := mkThumb {
  thumb_src : nat;
  thumb_alt : jsstring;
  thumb_caption : jsstring;
}.

(** The preview section. *)
Record Section_ : Type := mkSection {
  sec_heading : jsstring;
  sec_pdf : option nat;
  sec_grid : list Thumb;
}.

(** The parts of the page that depend on the state: the submit button, the
    alert, the preview section. *)
Record View : Type := mkView {
  view_disabled : bool;
  view_label : jsstring;
  view_alert : option jsstring;
  view_section : option Section_;
}.

Definition thumb (image : Preview) : Thumb :=
  {| thumb_src := url image; thumb_alt := name image; thumb_caption := name image |}.

Definition render (s : State) : View :=
  let previews := items (imagePreviews s) in
  {| view_disabled := isLoading s || bool_decide (length (selectedFiles s) = 0);
     view_label := if isLoading s then Str.lit "Creating PDF..." else Str.lit "Convert to PDF";
     view_alert := match error s with
                   | Some m => if Str.truthy m then Some m else None
                   | None => None
                   end;
     view_section :=
       if bool_decide (0 < length previews) then
         Some {| sec_heading :=
                   Str.lit "Image Previews (" ++ Str.of_nat (length previews)
                     ++ Str.lit " files)";
                 sec_pdf := if isLoading s then None else pdfUrl s;
                 sec_grid := thumb <$> previews |}
       else None |}.

(** An event the page lets happen: submitting needs an enabled button. *)
Definition enabled (e : Event) (c : Config) : bool :=
  match e with
  | Submit =>
      negb (isLoading (state c) || bool_decide (length (selectedFiles (state c)) = 0))
  | _ => true
  end.

(** A sequence of events played on the page. *)
Fixpoint play (es : list Event) (c : Config) : option Config :=
  match es with
  | [] => Some c
  | e :: es' => if enabled e c then c' ← step e c; play es' c' else None
  end.

(** The configurations the page can be in. *)
Inductive reachable : Config -> Prop :=
| reachable_init : reachable init
| reachable_step e c c' :
    reachable c -> enabled e c = true -> step e c = Some c' -> reachable c'.

End ImageToPdfConverter.
