(* ===== verification/ImageToPdfInv.v ===== *)
(** * The image-to-PDF form: what holds in every reachable configuration

    The URLs [handleFileChange] mints for the previews, the invariant [Inv]
    of the form and its preservation by every event the page admits.  The
    invariant says that the previews are those of the selected files, that
    the document, once offered, is backed by a live object URL, and that
    the previews are then backed by revoked ones. *)

From stdpp Require Import base tactics option list strings.
From Stdlib Require Import Lia.
From S2P Require Import Prelude Js Browser React Remote Flight ImageToPdf.
Import ImageToPdfConverter.

(** A task whose handler code is still to run. *)
Definition active (k : Task) : bool :=
  match k with AwaitFetch | AwaitText | AwaitBlob => true | Finished => false end.

Abbreviation activeCount := (Flight.activeCount active).

(** The invariant. *)
Record Inv (c : Config) : Prop := mkInv {
  inv_wf : Url.wf (urls c);
  inv_stamp : ref (imagePreviews (state c)) < stamp c;
  inv_active : activeCount (tasks c) = if isLoading (state c) then 1 else 0;
  inv_loading : isLoading (state c) = true -> pdfUrl (state c) = None;
  inv_names : name <$> items (imagePreviews (state c)) = file_name <$> selectedFiles (state c);
  inv_minted : forall u, u ∈ heldUrls (state c) -> u < Url.minted (urls c);
  inv_files : selectedFiles (state c) = [] -> tasks c = [] /\ pdfUrl (state c) = None;
  inv_pdf : forall u, pdfUrl (state c) = Some u ->
            is_Some (Url.lookup u (urls c)) /\
            forall img, img ∈ items (imagePreviews (state c)) ->
                        Url.lookup (url img) (urls c) = None;
  inv_held : forall u, is_Some (Url.lookup u (urls c)) -> u ∈ heldUrls (state c);
}.

(** Unfold the projections of a configuration that was just built. *)
Ltac i2p_cfg := unfold render_with, setTask in *;
                cbn [state urls stamp tasks requests selectedFiles imagePreviews pdfUrl
                     isLoading error setSelectedFiles setImagePreviews setPdfUrl
                     setIsLoading setError ref items fst snd] in *.

(** ** The preview URLs *)

Section previews.
Implicit Types (files : list File) (σ : Url.store) (u i : nat).

Lemma previewUrls_cons file files σ :
  previewUrls (file :: files) σ =
  (mkPreview (file_name file) (Url.minted σ)
     :: (previewUrls files (Url.createObjectURL (file_blob file) σ).2).1,
   (previewUrls files (Url.createObjectURL (file_blob file) σ).2).2).
Proof.
  cbn [previewUrls]. rewrite (create_eta (file_blob file)).
  by destruct (previewUrls files _).
Qed.

(** The previews carry the files' names, in the files' order. *)
Lemma previewUrls_names files σ :
  name <$> (previewUrls files σ).1 = file_name <$> files.
Proof.
  revert σ; induction files as [|file files IH]; intros σ; [done|].
  rewrite previewUrls_cons. cbn. by rewrite IH.
Qed.

(** Their URLs are the next URLs of the store, in the files' order. *)
Lemma previewUrls_urls files σ :
  url <$> (previewUrls files σ).1 = seq (Url.minted σ) (length files).
Proof.
  revert σ; induction files as [|file files IH]; intros σ; [done|].
  rewrite previewUrls_cons. cbn. by rewrite IH, create_minted.
Qed.

Lemma previewUrls_minted files σ :
  Url.minted (previewUrls files σ).2 = Url.minted σ + length files.
Proof.
  revert σ; induction files as [|file files IH]; intros σ; [simpl; lia|].
  rewrite previewUrls_cons. cbn. rewrite IH, create_minted. lia.
Qed.

(** URLs minted before resolve as before. *)
Lemma previewUrls_lookup_old files σ u :
  u < Url.minted σ -> Url.lookup u (previewUrls files σ).2 = Url.lookup u σ.
Proof.
  revert σ; induction files as [|file files IH]; intros σ Hu; [done|].
  rewrite previewUrls_cons. cbn. rewrite IH by (rewrite create_minted; lia).
  apply lookup_create_ne. lia.
Qed.

(** The [i]-th new URL resolves to the content of the [i]-th file. *)
Lemma previewUrls_lookup_new files σ i file :
  files !! i = Some file ->
  Url.lookup (Url.minted σ + i) (previewUrls files σ).2 = Some (file_blob file).
Proof.
  revert σ i; induction files as [|f files IH]; intros σ i Hi; [done|].
  rewrite previewUrls_cons. cbn [fst snd]. destruct i as [|i]; simpl in Hi.
  - simplify_eq. rewrite previewUrls_lookup_old by (rewrite create_minted; lia).
    rewrite Nat.add_0_r. apply lookup_create_new.
  - specialize (IH (Url.createObjectURL (file_blob f) σ).2 i Hi).
    rewrite create_minted in IH.
    by replace (Url.minted σ + S i) with (S (Url.minted σ) + i) by lia.
Qed.

Lemma previewUrls_wf files σ : Url.wf σ -> Url.wf (previewUrls files σ).2.
Proof.
  revert σ; induction files as [|file files IH]; intros σ Hwf; [done|].
  rewrite previewUrls_cons. cbn. by apply IH, wf_create.
Qed.

(** Whatever resolves afterwards is a new URL or resolved before. *)
Lemma previewUrls_live files σ u :
  Url.wf σ -> is_Some (Url.lookup u (previewUrls files σ).2) ->
  u ∈ url <$> (previewUrls files σ).1 \/ is_Some (Url.lookup u σ).
Proof.
  intros Hwf Hu. destruct (decide (u < Url.minted σ)) as [Hlt|Hge].
  - right. by rewrite previewUrls_lookup_old in Hu.
  - left. rewrite previewUrls_urls. apply elem_of_seq.
    apply (previewUrls_wf files) in Hwf. apply Hwf in Hu.
    rewrite previewUrls_minted in Hu. lia.
Qed.

End previews.

(** ** Moves that preserve the invariant *)

Section moves.
Implicit Types (c : Config) (s : State) (σ : Url.store) (k : Task) (t u : nat).

Lemma i2p_depsChanged_same old new :
  imagePreviews new = imagePreviews old -> pdfUrl new = pdfUrl old ->
  depsChanged old new = false.
Proof.
  intros H1 H2. unfold depsChanged, same_array, same_value. rewrite H1, H2.
  by rewrite !bool_decide_true.
Qed.

Lemma i2p_depsChanged_fresh old new :
  ref (imagePreviews new) <> ref (imagePreviews old) -> depsChanged old new = true.
Proof. intros H. unfold depsChanged, same_array. by rewrite bool_decide_false. Qed.

Lemma i2p_depsChanged_pdf old new : pdfUrl new <> pdfUrl old -> depsChanged old new = true.
Proof.
  intros H. unfold depsChanged, same_value.
  rewrite (bool_decide_false (pdfUrl old = pdfUrl new)) by done. apply orb_true_r.
Qed.

Lemma i2p_render_with_same new σ c :
  imagePreviews new = imagePreviews (state c) -> pdfUrl new = pdfUrl (state c) ->
  render_with new σ c = mkConfig new σ (stamp c) (tasks c) (requests c).
Proof.
  intros H1 H2. unfold render_with. f_equal.
  apply (commit_unchanged (St := State)). by apply i2p_depsChanged_same.
Qed.

Lemma i2p_catchFinally_eq err c :
  catchFinally err c =
  mkConfig (setIsLoading false (setError (Exn.message err) (state c)))
    (urls c) (stamp c) (tasks c) (requests c).
Proof. by apply i2p_render_with_same. Qed.

(** The facts of React.v about commits, in the form's own terms. *)
Lemma i2p_commit_live s s' σ u :
  depsChanged s s' = true -> is_Some (Url.lookup u (commit s s' σ)) ->
  is_Some (Url.lookup u σ) /\ u ∉ heldUrls s.
Proof. exact (commit_live (St := State) s s' σ u). Qed.

Lemma i2p_commit_revokes s s' σ u :
  depsChanged s s' = true -> u ∈ heldUrls s -> Url.lookup u (commit s s' σ) = None.
Proof. exact (commit_revokes (St := State) s s' σ u). Qed.

Lemma i2p_commit_keeps s s' σ u :
  u ∉ heldUrls s -> Url.lookup u (commit s s' σ) = Url.lookup u σ.
Proof. exact (commit_lookup_ne (St := State) s s' σ u). Qed.

Lemma i2p_fresh_held s s' σ b :
  (forall u, is_Some (Url.lookup u σ) -> u ∈ heldUrls s) ->
  depsChanged s s' = true -> Url.minted σ ∈ heldUrls s' ->
  forall u, is_Some (Url.lookup u (commit s s' (Url.createObjectURL b σ).2)) ->
            u ∈ heldUrls s'.
Proof. exact (commit_fresh_held (St := State) s s' σ b). Qed.

Lemma i2p_Inv_init : Inv init.
Proof.
  split; simpl; try done; [apply wf_empty|lia|by intros u ?%elem_of_nil|].
  intros u [b Hb]. by rewrite lookup_empty_store in Hb.
Qed.

(** While a task is active the loading flag is set, no document is offered
    and files are selected. *)
Lemma i2p_Inv_active_loading c t k :
  Inv c -> tasks c !! t = Some k -> active k = true ->
  isLoading (state c) = true /\ pdfUrl (state c) = None /\ selectedFiles (state c) <> [].
Proof.
  intros HI Ht Hk. pose proof (activeCount_lookup (active:=active) _ _ _ Ht Hk).
  pose proof (inv_active _ HI) as Hact.
  destruct (isLoading (state c)) eqn:Hl; [|lia]. split_and!; [done|by apply HI|].
  intros Hf. destruct (inv_files _ HI Hf) as [Hts _]. by rewrite Hts in Ht.
Qed.

(** Choosing files: the new previews are live, the cleanup of the render
    before revokes what that render held. *)
Lemma i2p_Inv_handleFileChange c files : Inv c -> Inv (handleFileChange files c).
Proof.
  intros HI. unfold handleFileChange. case_bool_decide as Hlen; [|done].
  pose proof (previewUrls_names files (urls c)) as Hnames.
  pose proof (previewUrls_urls files (urls c)) as Hurls.
  pose proof (previewUrls_minted files (urls c)) as Hminted.
  pose proof (previewUrls_wf files (urls c) (inv_wf _ HI)) as Hwf'.
  pose proof (previewUrls_live files (urls c)) as Hlive.
  destruct (previewUrls files (urls c)) as [ps σ1]. cbn [fst snd] in *.
  assert (Hd : forall s', ref (imagePreviews s') = stamp c -> depsChanged (state c) s' = true).
  { intros s' Hr. apply i2p_depsChanged_fresh. rewrite Hr. pose proof (inv_stamp _ HI). lia. }
  destruct HI as [Hwf Hst Hact Hload Hnm Hmint Hfiles Hpdf Hheld]. split; i2p_cfg.
  - eauto with js.
  - lia.
  - done.
  - done.
  - done.
  - intros u. unfold heldUrls. i2p_cfg. rewrite app_nil_r, Hurls, commit_minted, Hminted.
    intros ?%elem_of_seq. lia.
  - intros ->. simpl in Hlen. lia.
  - done.
  - intros u [Hu Hnot]%i2p_commit_live; [|by apply Hd].
    unfold heldUrls. i2p_cfg. rewrite app_nil_r.
    destruct (Hlive u Hwf Hu) as [?|Hold%Hheld]; done.
Qed.

Lemma i2p_Inv_handleSubmit c :
  Inv c -> isLoading (state c) = false -> Inv (handleSubmit c).
Proof.
  intros [Hwf Hst Hact Hload Hnm Hmint Hfiles Hpdf Hheld] Hl. unfold handleSubmit.
  case_bool_decide as Hlen.
  - rewrite i2p_render_with_same by done. split; i2p_cfg; auto.
  - assert (Hsub : forall u, u ∈ heldUrls (setPdfUrl None (setError None
              (setIsLoading true (state c)))) -> u ∈ heldUrls (state c)).
    { unfold heldUrls. i2p_cfg. rewrite app_nil_r. intros u Hu. apply elem_of_app. by left. }
    split; i2p_cfg; try done.
    + eauto with js.
    + rewrite activeCount_app, Hact, Hl. done.
    + intros u Hu%Hsub%Hmint. by rewrite commit_minted.
    + intros Hf. by rewrite Hf in Hlen.
    + intros u Hu. destruct (pdfUrl (state c)) as [v|] eqn:Hp.
      * apply i2p_commit_live in Hu as [Hu%Hheld ?]; [done|].
        apply i2p_depsChanged_pdf. i2p_cfg. by rewrite Hp.
      * rewrite (commit_unchanged (St := State)) in Hu.
        -- apply Hheld in Hu. unfold heldUrls in *. i2p_cfg. by rewrite Hp in Hu.
        -- apply i2p_depsChanged_same; i2p_cfg; by rewrite ?Hp.
Qed.

(** The [catch] of an active task. *)
Lemma i2p_Inv_catchFinally c t k err :
  Inv c -> tasks c !! t = Some k -> active k = true ->
  Inv (setTask t Finished (catchFinally err c)).
Proof.
  intros HI Ht Hk. destruct (i2p_Inv_active_loading _ _ _ HI Ht Hk) as (Hl & Hp & Hf).
  rewrite i2p_catchFinally_eq. destruct HI as [Hwf Hst Hact Hload Hnm Hmint Hfiles Hpdf Hheld].
  split; i2p_cfg; try done.
  pose proof (activeCount_insert_end (active:=active) _ _ _ Finished Ht Hk eq_refl).
  rewrite Hl in Hact. lia.
Qed.

(** An active task moves to its next [await]. *)
Lemma i2p_Inv_setTask c t k k' :
  Inv c -> tasks c !! t = Some k -> active k = true -> active k' = true ->
  Inv (setTask t k' c).
Proof.
  intros HI Ht Hk Hk'. destruct (i2p_Inv_active_loading _ _ _ HI Ht Hk) as (Hl & Hp & Hf).
  destruct HI as [Hwf Hst Hact Hload Hnm Hmint Hfiles Hpdf Hheld]. split; i2p_cfg; try done.
  rewrite activeCount_insert_same with (k := k); [done..|]. by rewrite Hk, Hk'.
Qed.

Lemma i2p_Inv_onFetch c t r :
  Inv c -> tasks c !! t = Some AwaitFetch -> Inv (onFetch t r c).
Proof.
  intros HI Ht. destruct r as [[[]]|err]; simpl;
    eauto using i2p_Inv_catchFinally, i2p_Inv_setTask.
Qed.

Lemma i2p_Inv_onText c t r :
  Inv c -> tasks c !! t = Some AwaitText -> Inv (onText t r c).
Proof. intros HI Ht. destruct r; simpl; eauto using i2p_Inv_catchFinally. Qed.

(** The document gets its URL: the render that follows runs the cleanup of
    the render before, which revokes the previews. *)
Lemma i2p_Inv_onBlob c t r :
  Inv c -> tasks c !! t = Some AwaitBlob -> Inv (onBlob t r c).
Proof.
  intros HI Ht. unfold onBlob.
  destruct r as [pdfBlob|err]; [|eauto using i2p_Inv_catchFinally].
  destruct (i2p_Inv_active_loading _ _ _ HI Ht eq_refl) as (Hl & Hp & Hf).
  destruct HI as [Hwf Hst Hact Hload Hnm Hmint Hfiles Hpdf Hheld].
  assert (Hd : depsChanged (state c)
            (setIsLoading false (setPdfUrl (Some (Url.minted (urls c))) (state c))) = true).
  { apply i2p_depsChanged_pdf. i2p_cfg. by rewrite Hp. }
  rewrite (create_eta pdfBlob). split; i2p_cfg; try done.
  - eauto with js.
  - pose proof (activeCount_insert_end (active:=active) _ _ _ Finished Ht eq_refl eq_refl).
    rewrite Hl in Hact. lia.
  - intros u. rewrite commit_minted, create_minted. unfold heldUrls. i2p_cfg.
    intros [Hu|Hu%list_elem_of_singleton]%elem_of_app; [|lia].
    assert (u < Url.minted (urls c)); [|lia]. apply Hmint, elem_of_app. by left.
  - intros u [= <-]. split.
    + rewrite i2p_commit_keeps, lookup_create_new; [done|].
      intros Hm%Hmint. lia.
    + intros img Himg. apply i2p_commit_revokes; [done|].
      apply elem_of_app. left. by apply list_elem_of_fmap_2.
  - apply i2p_fresh_held; [done..|].
    unfold heldUrls. i2p_cfg. apply elem_of_app. right. left.
Qed.

(** Every event the page admits preserves the invariant. *)
Lemma i2p_Inv_step e c c' :
  Inv c -> enabled e c = true -> step e c = Some c' -> Inv c'.
Proof.
  intros HI He Hs. destruct e; simpl in Hs; repeat case_match; simplify_eq;
    eauto using i2p_Inv_handleFileChange, i2p_Inv_onFetch, i2p_Inv_onText, i2p_Inv_onBlob.
  apply i2p_Inv_handleSubmit; [done|]. simpl in He.
  by destruct (isLoading (state c)).
Qed.

Lemma i2p_reachable_Inv c : reachable c -> Inv c.
Proof. induction 1; eauto using i2p_Inv_init, i2p_Inv_step. Qed.

Lemma i2p_play_reachable es c c' : reachable c -> play es c = Some c' -> reachable c'.
Proof.
  revert c; induction es as [|e es IH]; intros c Hc Hp; simplify_eq/=; [done|].
  destruct (enabled e c) eqn:He, (step e c) as [c1|] eqn:Hs; simplify_eq/=.
  eapply IH; [|done]. by eapply reachable_step.
Qed.

End moves.
