(* ===== verification/ImageToPdfProps.v ===== *)
(** * The image-to-PDF form: properties

    What holds of every configuration a user can bring the page to, and
    what each handler does on each of its branches. *)

From stdpp Require Import base tactics option list strings.
From Stdlib Require Import Lia.
From S2P Require Import Prelude Js Browser React Remote Flight.
From S2P Require Import ImageToPdf ImageToPdfInv.
Import ImageToPdfConverter.

(** ** Sample values *)

Definition scan1 : File := mkFile (Str.lit "scan-1.png") (Str.lit "image/png") [].
Definition scan2 : File := mkFile (Str.lit "scan-2.jpg") (Str.lit "image/jpeg") [].
Definition document : Blob := mkBlob (Str.lit "application/pdf") [].

(** The configuration a sequence of events leads to from the first render
    (the first render itself if the page does not admit the sequence). *)
Definition i2p_after (es : list Event) : Config := default init (play es init).

(** Two images are chosen and submitted; the request is in flight. *)
Definition i2p_submitted : list Event := [FileChange [scan1; scan2]; Submit].

(** The server answered, and the body is being read. *)
Definition i2p_answered : list Event :=
  i2p_submitted ++ [FetchSettled 0 (Fulfilled (mkResponse true))].

(** The document is offered for download. *)
Definition i2p_converted : list Event :=
  i2p_answered ++ [BlobSettled 0 (Fulfilled document)].

Section i2p_reachable.
Implicit Types (c : Config) (u t : nat) (img : Preview).

Lemma i2p_after_reachable es : reachable (i2p_after es).
Proof.
  unfold i2p_after. destruct (play es init) eqn:H; simpl;
    eauto using i2p_play_reachable, reachable_init.
Qed.

(** C33. The document the page offers for download is backed by a live
    object URL. *)
Theorem i2p_pdf_live c u :
  reachable c -> pdfUrl (state c) = Some u -> is_Some (Url.lookup u (urls c)).
Proof. intros HI%i2p_reachable_Inv Hu. by apply (inv_pdf _ HI). Qed.

Lemma i2p_pdf_live_witness : is_Some (Url.lookup 2 (urls (i2p_after i2p_converted))).
Proof.
  apply (i2p_pdf_live (i2p_after i2p_converted) 2);
    [apply i2p_after_reachable|reflexivity].
Defined.

(** C28. Once the document is offered, every preview in the grid is backed
    by a revoked object URL: the render that stores the document's URL runs
    the cleanup of the render before, which revokes the URLs of the previews
    that [imagePreviews] still holds. *)
Theorem i2p_previews_revoked c u img :
  reachable c -> pdfUrl (state c) = Some u -> img ∈ items (imagePreviews (state c)) ->
  Url.lookup (url img) (urls c) = None.
Proof.
  intros HI%i2p_reachable_Inv Hu Himg. by apply (proj2 (inv_pdf _ HI _ Hu)).
Qed.

Lemma i2p_previews_revoked_witness :
  Url.lookup 1 (urls (i2p_after i2p_converted)) = None.
Proof.
  apply (i2p_previews_revoked (i2p_after i2p_converted) 2
           (mkPreview (Str.lit "scan-2.jpg") 1)).
  - apply i2p_after_reachable.
  - reflexivity.
  - vm_compute. apply list_elem_of_further, list_elem_of_here.
Defined.

(** C15. The previews are those of the selected files: one per file, under
    the file's name, in the order of the selection. *)
Theorem i2p_previews_match_files c :
  reachable c ->
  name <$> items (imagePreviews (state c)) = file_name <$> selectedFiles (state c).
Proof. intros HI%i2p_reachable_Inv. apply HI. Qed.

Lemma i2p_previews_match_files_witness :
  name <$> items (imagePreviews (state (i2p_after i2p_converted))) =
  file_name <$> selectedFiles (state (i2p_after i2p_converted)).
Proof. apply (i2p_previews_match_files _ (i2p_after_reachable i2p_converted)). Defined.

(** The loading flag is set exactly while one [handleSubmit] call is
    still to run handler code, and no document is offered meanwhile. *)
Lemma i2p_loading_while_in_flight c :
  reachable c ->
  activeCount (tasks c) = (if isLoading (state c) then 1 else 0) /\
  (isLoading (state c) = true -> pdfUrl (state c) = None).
Proof. intros HI%i2p_reachable_Inv. split; apply HI. Qed.

Lemma i2p_loading_while_in_flight_witness :
  let c := i2p_after i2p_answered in
  activeCount (tasks c) = (if isLoading (state c) then 1 else 0) /\
  (isLoading (state c) = true -> pdfUrl (state c) = None).
Proof. apply (i2p_loading_while_in_flight _ (i2p_after_reachable i2p_answered)). Defined.

(** The form leaks no object URL: every live URL is one the state
    holds, so that when the component is unmounted no URL it created stays
    live. *)
Lemma i2p_unmount_releases_all c u :
  reachable c ->
  (is_Some (Url.lookup u (urls c)) -> u ∈ heldUrls (state c)) /\
  Url.lookup u (unmount (state c) (urls c)) = None.
Proof.
  intros HI%i2p_reachable_Inv. split; [apply (inv_held _ HI)|].
  apply (unmount_all (St := State)), (inv_held _ HI).
Qed.

Lemma i2p_unmount_releases_all_witness :
  let c := i2p_after i2p_converted in
  (is_Some (Url.lookup 2 (urls c)) -> 2 ∈ heldUrls (state c)) /\
  Url.lookup 2 (unmount (state c) (urls c)) = None.
Proof. apply (i2p_unmount_releases_all _ 2 (i2p_after_reachable i2p_converted)). Defined.

End i2p_reachable.

(** ** The handlers, branch by branch *)

Section i2p_handlers.
Implicit Types (c : Config) (u t i : nat) (files : list File).

(** Choosing files stages them: each file gets a preview URL of its
    own that resolves to the file's content, the previews carry the files'
    names in the files' order, the error and the document are cleared, and
    the object URLs the page held are revoked. *)
Lemma i2p_select_files c files i file u :
  reachable c -> files !! i = Some file -> u ∈ heldUrls (state c) ->
  let c' := handleFileChange files c in
  selectedFiles (state c') = files /\
  items (imagePreviews (state c')) !! i =
    Some (mkPreview (file_name file) (Url.minted (urls c) + i)) /\
  Url.lookup (Url.minted (urls c) + i) (urls c') = Some (file_blob file) /\
  pdfUrl (state c') = None /\ error (state c') = None /\
  Url.lookup u (urls c') = None.
Proof.
  intros HI%i2p_reachable_Inv Hi Hu. unfold handleFileChange.
  rewrite bool_decide_true by (apply lookup_lt_Some in Hi; lia).
  pose proof (previewUrls_lookup_new files (urls c) i file Hi) as Hnew.
  pose proof (previewUrls_names files (urls c)) as Hnames.
  pose proof (previewUrls_urls files (urls c)) as Hurls.
  destruct (previewUrls files (urls c)) as [ps σ1]. cbn [fst snd] in *. i2p_cfg.
  assert (Hd : forall s', ref (imagePreviews s') = stamp c -> depsChanged (state c) s' = true).
  { intros s' Hr. apply i2p_depsChanged_fresh. rewrite Hr. pose proof (inv_stamp _ HI). lia. }
  split_and!; [done| | |done..|by apply i2p_commit_revokes; auto].
  - apply (f_equal (.!! i)) in Hnames, Hurls.
    rewrite !list_lookup_fmap, Hi in *. rewrite lookup_seq_lt in Hurls
      by (by apply lookup_lt_Some in Hi).
    destruct (ps !! i) as [[n v]|]; by simplify_eq/=.
  - rewrite i2p_commit_keeps; [done|]. intros Hm%(inv_minted _ HI). lia.
Qed.

Lemma i2p_select_files_witness :
  let c := i2p_after i2p_converted in
  let c' := handleFileChange [scan2; scan1] c in
  selectedFiles (state c') = [scan2; scan1] /\
  items (imagePreviews (state c')) !! 1 =
    Some (mkPreview (file_name scan1) (Url.minted (urls c) + 1)) /\
  Url.lookup (Url.minted (urls c) + 1) (urls c') = Some (file_blob scan1) /\
  pdfUrl (state c') = None /\ error (state c') = None /\
  Url.lookup 2 (urls c') = None.
Proof.
  apply (i2p_select_files (i2p_after i2p_converted) [scan2; scan1] 1 scan1 2).
  - apply i2p_after_reachable.
  - reflexivity.
  - vm_compute. apply list_elem_of_further, list_elem_of_further, list_elem_of_here.
Defined.

(** [handleSubmit] with no file selected only sets the error message;
    with files it sends one request that carries every selected file under
    the key [files], in the order of the selection, starts one continuation,
    sets the loading flag and clears the error and the document. *)
Lemma i2p_submit c :
  (selectedFiles (state c) = [] ->
   handleSubmit c =
   mkConfig (setError (Some (Str.lit "Please select one or more image files.")) (state c))
     (urls c) (stamp c) (tasks c) (requests c)) /\
  (selectedFiles (state c) <> [] ->
   state (handleSubmit c) =
     mkState (selectedFiles (state c)) (imagePreviews (state c)) None true None /\
   requests (handleSubmit c) =
     requests c ++ [mkRequest endpoint
                      ((fun f => (Str.lit "files", FormFile f)) <$> selectedFiles (state c))] /\
   tasks (handleSubmit c) = tasks c ++ [AwaitFetch]).
Proof.
  unfold handleSubmit. split; intros Hf.
  - rewrite Hf. cbn. by apply i2p_render_with_same.
  - rewrite bool_decide_false by (by destruct (selectedFiles (state c))). by i2p_cfg.
Qed.

(** A response that is read to its end offers exactly one document:
    its URL is new and resolves to the blob of the response, and the loading
    flag is clear. *)
Lemma i2p_document_shown c t pdfBlob :
  reachable c -> tasks c !! t = Some AwaitBlob ->
  let c' := onBlob t (Fulfilled pdfBlob) c in
  pdfUrl (state c') = Some (Url.minted (urls c)) /\
  Url.lookup (Url.minted (urls c)) (urls c') = Some pdfBlob /\
  isLoading (state c') = false /\ error (state c') = error (state c) /\
  tasks c' !! t = Some Finished.
Proof.
  intros HI%i2p_reachable_Inv Ht.
  unfold onBlob. rewrite (create_eta pdfBlob). i2p_cfg. split_and!; [done| |done..|].
  - rewrite i2p_commit_keeps, lookup_create_new; [done|].
    intros Hm%(inv_minted _ HI). lia.
  - apply list_lookup_insert_eq. by eapply lookup_lt_Some.
Qed.

Lemma i2p_document_shown_witness :
  let c := i2p_after i2p_answered in
  let c' := onBlob 0 (Fulfilled document) c in
  pdfUrl (state c') = Some (Url.minted (urls c)) /\
  Url.lookup (Url.minted (urls c)) (urls c') = Some document /\
  isLoading (state c') = false /\ error (state c') = error (state c) /\
  tasks c' !! 0 = Some Finished.
Proof.
  apply (i2p_document_shown (i2p_after i2p_answered) 0 document);
    [apply i2p_after_reachable|reflexivity].
Defined.

End i2p_handlers.

(** ** What the form posts *)

(** A request of the form: one file at least, each under the field name
    the endpoint reads, posted to the conversion endpoint. *)
Definition i2p_conversion_request (r : Request) : Prop :=
  exists files, files <> [] /\ r = mkRequest endpoint (formData files).

Section i2p_posted.
Implicit Types (c : Config) (r : Request).

(** Only [handleSubmit] posts, and it posts the files that are staged. *)
Lemma i2p_step_requests e c c' :
  step e c = Some c' ->
  requests c' = requests c \/
  selectedFiles (state c) <> [] /\
  requests c' = requests c ++ [mkRequest endpoint (formData (selectedFiles (state c)))].
Proof.
  destruct e; cbn [step]; intros Hs; repeat case_match; simplify_eq;
    unfold handleFileChange, handleSubmit, onFetch, onText, onBlob, catchFinally;
    repeat case_match; simplify_eq/=; try case_bool_decide; try naive_solver.
  right. split; [|done]. by destruct (selectedFiles (state c)).
Qed.

(** Every request the form has sent carries one file at least, under
    the field name the endpoint reads, and went to the conversion
    endpoint. *)
Lemma i2p_requests_well_formed c :
  reachable c -> Forall i2p_conversion_request (requests c).
Proof.
  induction 1 as [|e c c' Hr IH He Hs]; [constructor|].
  destruct (i2p_step_requests _ _ _ Hs) as [->|[Hfiles ->]]; [done|].
  apply Forall_app. split; [done|]. apply Forall_singleton. by eexists.
Qed.

Lemma i2p_requests_well_formed_witness :
  Forall i2p_conversion_request (requests (i2p_after i2p_converted)).
Proof.
  apply (i2p_requests_well_formed (i2p_after i2p_converted)). apply i2p_after_reachable.
Defined.

End i2p_posted.

Section i2p_any.
(** The file input accepts four image types, which narrows what the file
    picker offers and nothing else: [handleFileChange] stages whatever
    files the change event carries, and [handleSubmit] posts them. *)
Lemma i2p_posts_any_file file :
  exists c, play [FileChange [file]; Submit] init = Some c /\
    selectedFiles (state c) = [file] /\
    requests c = [mkRequest endpoint (formData [file])].
Proof. eexists. split; [reflexivity|]. by split. Qed.
End i2p_any.
