(* ===== verification/ImageToPdfRuns.v ===== *)
(** * The image-to-PDF form: a submission from its request to its end

    [handleSubmit] reads an exchange with the service await by await.  This
    file proves that its stretches compose to [classify], the one-shot
    reading of an exchange (Remote.v), that the page ends every exchange
    with the loading flag clear and the document or the error stored,
    and that a submission waits for two settlements at most. *)

From stdpp Require Import base tactics option list strings.
From Stdlib Require Import Lia.
From S2P Require Import Prelude Js Browser React Remote Flight.
From S2P Require Import ImageToPdf ImageToPdfInv ImageToPdfProps.
Import ImageToPdfConverter.

(** The events of one exchange, as [handleSubmit] awaits them: the response,
    then its body as a blob when the response is [ok], as text when not. *)
Definition i2p_exchange_events (t : nat) (x : Exchange) : list Event :=
  FetchSettled t (ex_fetch x) ::
  match ex_fetch x with
  | Fulfilled r => if ok r then [BlobSettled t (ex_blob x)] else [TextSettled t (ex_text x)]
  | Rejected _ => []
  end.

(** The end of a call: the document stored under a URL of its own,
    or the [catch] clause; the [finally] clause in both. *)
Definition i2p_finish (t : nat) (o : settled Blob) (c : Config) : Config :=
  match o with
  | Fulfilled pdfBlob => onBlob t (Fulfilled pdfBlob) c
  | Rejected err => setTask t Finished (catchFinally err c)
  end.

(** The promises a call at stage [k] still waits for, at most. *)
Definition i2p_awaits (k : Task) : nat :=
  match k with
  | AwaitFetch => 2
  | AwaitText | AwaitBlob => 1
  | Finished => 0
  end.

Abbreviation i2p_remaining := (Flight.remaining i2p_awaits).

(** The events that settle a promise. *)
Definition i2p_settlement (e : Event) : bool :=
  match e with FileChange _ | Submit => false | _ => true end.

Definition i2p_delivered : Exchange :=
  mkExchange (Fulfilled (mkResponse true)) (Rejected Exn.NotAnError) (Fulfilled document).

Section i2p_runs.
Implicit Types (c : Config) (t : nat) (x : Exchange) (k : Task) (o : settled Blob).

Lemma i2p_setTask_lookup t k k0 c :
  tasks c !! t = Some k0 -> tasks (setTask t k c) !! t = Some k.
Proof. intros H%lookup_lt_Some. simpl. by apply list_lookup_insert_eq. Qed.

(** The stage a call was at does not matter to how it ends. *)
Lemma i2p_finish_setTask t k o c : i2p_finish t o (setTask t k c) = i2p_finish t o c.
Proof.
  destruct o as [b|err]; unfold i2p_finish, onBlob, catchFinally, render_with, setTask; simpl;
    [destruct (Url.createObjectURL b (urls c)) as [u σ]; simpl|];
    by rewrite list_insert_insert_eq.
Qed.

Lemma i2p_onBlob_finish t r c : onBlob t r c = i2p_finish t r c.
Proof. by destruct r. Qed.

Lemma i2p_onText_finish t r c :
  onText t r c =
  i2p_finish t (Rejected match r with
                        | Rejected e => e
                        | Fulfilled errorText => error_of_text fallbackMessage errorText
                        end) c.
Proof. by destruct r. Qed.

(** The handler, await by await, implements the one-shot reading of an
    exchange: played on a call that waits for its response, the events of
    an exchange end the call where [onBlob] stores the blob [classify]
    finds, or in the [catch] clause with the error it finds. *)
Lemma i2p_exchange_play c t x :
  tasks c !! t = Some AwaitFetch ->
  play (i2p_exchange_events t x) c = Some (i2p_finish t (classify fallbackMessage x) c).
Proof.
  intros Ht. unfold i2p_exchange_events, classify.
  destruct (ex_fetch x) as [[[]]|err]; cbn [play enabled step]; rewrite Ht;
    cbn [mbind option_bind onFetch ok]; [| |done].
  - cbn [play enabled step]. erewrite i2p_setTask_lookup by done. cbn [mbind option_bind].
    by rewrite i2p_onBlob_finish, i2p_finish_setTask.
  - cbn [play enabled step]. erewrite i2p_setTask_lookup by done. cbn [mbind option_bind].
    rewrite i2p_onText_finish, i2p_finish_setTask. by destruct (ex_text x).
Qed.

(** How a call ends, on the page. *)
Lemma i2p_finish_shown c t k o :
  reachable c -> tasks c !! t = Some k -> active k = true ->
  let c' := i2p_finish t o c in
  isLoading (state c') = false /\
  match o with
  | Fulfilled pdfBlob =>
      exists u, pdfUrl (state c') = Some u /\
                Url.lookup u (urls c') = Some pdfBlob /\
                error (state c') = error (state c)
  | Rejected err =>
      error (state c') = Exn.message err /\ pdfUrl (state c') = None /\
      urls c' = urls c
  end.
Proof.
  intros HI%i2p_reachable_Inv Ht Hk.
  destruct (i2p_Inv_active_loading _ _ _ HI Ht Hk) as (Hl & Hp & Hf).
  destruct o as [b|err]; cbn [i2p_finish].
  - unfold onBlob. rewrite (create_eta b). i2p_cfg. split; [done|].
    exists (Url.minted (urls c)). split_and!; [done| |done].
    rewrite i2p_commit_keeps, lookup_create_new; [done|].
    intros Hm%(inv_minted _ HI). lia.
  - rewrite i2p_catchFinally_eq. by i2p_cfg.
Qed.

(** C32. Whatever the service answers, the submission ends: once the promises
    of the exchange have settled, the loading flag is clear and the page
    offers the document under a URL that resolves to the blob of the
    response, or holds the message of the error the exchange ended with. *)
Theorem i2p_always_settles c t x :
  reachable c -> tasks c !! t = Some AwaitFetch ->
  exists c', play (i2p_exchange_events t x) c = Some c' /\
    isLoading (state c') = false /\
    match classify fallbackMessage x with
    | Fulfilled pdfBlob =>
        exists u, pdfUrl (state c') = Some u /\
                  Url.lookup u (urls c') = Some pdfBlob /\
                  error (state c') = error (state c)
    | Rejected err =>
        error (state c') = Exn.message err /\ pdfUrl (state c') = None /\
        urls c' = urls c
    end.
Proof.
  intros Hr Ht. eexists. split; [by apply i2p_exchange_play|].
  by apply (i2p_finish_shown c t AwaitFetch).
Qed.

Lemma i2p_always_settles_witness :
  exists c', play (i2p_exchange_events 0 i2p_delivered) (i2p_after i2p_submitted) = Some c' /\
    isLoading (state c') = false /\
    exists u, pdfUrl (state c') = Some u /\
              Url.lookup u (urls c') = Some document /\
              error (state c') = error (state (i2p_after i2p_submitted)).
Proof.
  apply (i2p_always_settles (i2p_after i2p_submitted) 0 i2p_delivered);
    [apply i2p_after_reachable|reflexivity].
Defined.

(** Every settlement lowers the number of awaits left. *)
Lemma i2p_settlement_lt e c c' :
  i2p_settlement e = true -> step e c = Some c' ->
  i2p_remaining (tasks c') < i2p_remaining (tasks c).
Proof.
  intros He Hs. destruct e as [| |t r|t r|t r]; try done; cbn [step] in Hs;
    destruct (tasks c !! t) as [[]|] eqn:Ht; try done; injection Hs as <-.
  - destruct r as [[[]]|]; simpl;
      (apply (remaining_insert_lt _ _ AwaitFetch); [done|simpl; lia]).
  - rewrite i2p_onText_finish. simpl.
    apply (remaining_insert_lt _ _ AwaitText); [done|simpl; lia].
  - destruct r as [b|]; unfold onBlob; [rewrite (create_eta b)|]; simpl;
      (apply (remaining_insert_lt _ _ AwaitBlob); [done|simpl; lia]).
Qed.

(** A suspended call waits for a promise that can settle. *)
Lemma i2p_can_settle c t k :
  tasks c !! t = Some k -> active k = true ->
  exists e c', i2p_settlement e = true /\ step e c = Some c'.
Proof.
  intros Ht Hk. destruct k; try done.
  - exists (FetchSettled t (Rejected Exn.NotAnError)). eexists. by cbn [step]; rewrite Ht.
  - exists (TextSettled t (Rejected Exn.NotAnError)). eexists. by cbn [step]; rewrite Ht.
  - exists (BlobSettled t (Rejected Exn.NotAnError)). eexists. by cbn [step]; rewrite Ht.
Qed.

(** A submission ends: the calls of the handler wait for two settlements
    at most between them, every settlement lowers that number, the loading
    flag is clear exactly when it is zero, and while it is not zero the
    page waits for a promise that can settle. *)
Lemma i2p_submission_ends c :
  reachable c ->
  i2p_remaining (tasks c) <= 2 /\
  (i2p_remaining (tasks c) = 0 <-> isLoading (state c) = false) /\
  (forall e c', i2p_settlement e = true -> step e c = Some c' ->
                i2p_remaining (tasks c') < i2p_remaining (tasks c)) /\
  (isLoading (state c) = true -> exists e c', i2p_settlement e = true /\ step e c = Some c').
Proof.
  intros HI%i2p_reachable_Inv.
  apply (submission_ends tasks (isLoading ∘ state) step i2p_settlement active i2p_awaits 2).
  - intros []; simpl; lia.
  - by intros [].
  - apply i2p_settlement_lt.
  - apply i2p_can_settle.
  - apply (inv_active _ HI).
Qed.

Lemma i2p_submission_ends_witness :
  let c := i2p_after i2p_answered in
  i2p_remaining (tasks c) <= 2 /\
  (i2p_remaining (tasks c) = 0 <-> isLoading (state c) = false) /\
  (forall e c', i2p_settlement e = true -> step e c = Some c' ->
                i2p_remaining (tasks c') < i2p_remaining (tasks c)) /\
  (isLoading (state c) = true -> exists e c', i2p_settlement e = true /\ step e c = Some c').
Proof. apply (i2p_submission_ends (i2p_after i2p_answered)). apply i2p_after_reachable. Defined.

End i2p_runs.
