(* ===== verification/ImageToPdfSession.v ===== *)
(** * The image-to-PDF form as a conversion session

    The phase of the form is read off what its page shows; the chosen files
    are the staged input.  The form departs from the design where files are
    chosen while a conversion is in flight (the conversion goes on, where
    the session would be staged anew) and where a submission fails with an
    error that has no message (the page shows nothing, where the session
    would have failed).  Everywhere else it moves as the session does. *)

From stdpp Require Import base tactics option list strings.
From Stdlib Require Import Lia.
From S2P Require Import Prelude Js Browser React Remote Flight Session.
From S2P Require Import ImageToPdf ImageToPdfInv ImageToPdfProps.
Import ImageToPdfConverter.

Definition i2p_phase (c : Config) : Session.Phase :=
  Session.display (if isLoading (state c) then Some Session.Submitting else None)
    (bool_decide (is_Some (pdfUrl (state c)))) (shown (error (state c)))
    (bool_decide (0 < length (selectedFiles (state c)))).

(** The document needs no decoding: the event that delivers it stands for
    the remote success and the decoding at once. *)
Definition i2p_labels (e : Event) (c : Config) : list Session.Label :=
  match e with
  | FileChange files =>
      if bool_decide (0 < length files) then [Session.SelectInputs true] else []
  | Submit => [Session.Submit]
  | FetchSettled _ (Fulfilled _) => []
  | BlobSettled _ (Fulfilled _) => [Session.RemoteSuccess; Session.DecodeSuccess]
  | FetchSettled _ (Rejected _) | BlobSettled _ (Rejected _) | TextSettled _ _ =>
      [Session.RemoteFailure]
  end.

Definition i2p_departs (e : Event) (c : Config) : bool :=
  match e with
  | FileChange files => bool_decide (0 < length files) && isLoading (state c)
  | FetchSettled _ (Rejected err) | BlobSettled _ (Rejected err) | TextSettled _ (Rejected err) =>
      negb (shown (Exn.message err))
  | _ => false
  end.

#[export] Instance i2p_form : Form Config Event :=
  {| form_init := init;
     form_enabled := enabled;
     form_step := step;
     form_phase := i2p_phase;
     form_labels := i2p_labels;
     form_departs := i2p_departs |}.

(** A visit that goes through every phase the form has: a conversion, then
    a second submission that the server refuses. *)
Definition i2p_visit : list Event :=
  i2p_converted ++ [Submit; FetchSettled 1 (Fulfilled (mkResponse false));
                    TextSettled 1 (Fulfilled (Str.lit "Too many files"))].

Section i2p_session.
Implicit Types (c : Config) (e : Event) (t : nat) (k : Task).

Lemma i2p_phase_loading c : isLoading (state c) = true -> i2p_phase c = Session.Submitting.
Proof. unfold i2p_phase. by intros ->. Qed.

(** The [catch] clause ends a submission in [Failed] when the error has a
    message to show. *)
Lemma i2p_phase_catch c t k err :
  Inv c -> tasks c !! t = Some k -> active k = true -> shown (Exn.message err) = true ->
  i2p_phase c = Session.Submitting /\
  i2p_phase (setTask t Finished (catchFinally err c)) = Session.Failed.
Proof.
  intros HI Ht Hk Hm. destruct (i2p_Inv_active_loading _ _ _ HI Ht Hk) as (Hl & Hc & _).
  split; [by apply i2p_phase_loading|].
  rewrite i2p_catchFinally_eq. unfold i2p_phase, Session.display. i2p_cfg. by rewrite Hc, Hm.
Qed.

Lemma i2p_simulates_step e c c' :
  Inv c -> enabled e c = true -> step e c = Some c' -> i2p_departs e c = false ->
  Session.accepts (i2p_labels e c) (i2p_phase c) = Some (i2p_phase c').
Proof.
  intros HI He Hs Hd. destruct e as [files| |t r|t r|t r]; cbn [step] in Hs.
  - injection Hs as <-. unfold handleFileChange. cbn [i2p_labels i2p_departs] in *.
    case_bool_decide as Hlen; [|done]. simpl in Hd.
    destruct (previewUrls files (urls c)) as [ps σ]. unfold i2p_phase, Session.display.
    i2p_cfg. by rewrite Hd, (bool_decide_true (0 < length files)).
  - injection Hs as <-. simpl in He.
    apply negb_true_iff, orb_false_iff in He as [Hl Hf%bool_decide_eq_false].
    unfold handleSubmit. rewrite bool_decide_false by done.
    unfold i2p_phase, Session.display. i2p_cfg. rewrite Hl, (bool_decide_true (0 < _)) by lia.
    simpl. by destruct (bool_decide _), (shown (error (state c))).
  - destruct (tasks c !! t) as [[]|] eqn:Ht; try done. injection Hs as <-.
    destruct r as [[[]]|err]; simpl; [done..|]. apply negb_false_iff in Hd.
    by destruct (i2p_phase_catch c t AwaitFetch err HI Ht eq_refl Hd) as [-> ->].
  - destruct (tasks c !! t) as [[]|] eqn:Ht; try done. injection Hs as <-.
    destruct r as [errorText|err]; simpl.
    + destruct (i2p_phase_catch c t AwaitText (error_of_text fallbackMessage errorText)
                  HI Ht eq_refl) as [-> ->]; [|done].
      by apply shown_error_of_text.
    + apply negb_false_iff in Hd.
      by destruct (i2p_phase_catch c t AwaitText err HI Ht eq_refl Hd) as [-> ->].
  - destruct (tasks c !! t) as [[]|] eqn:Ht; try done. injection Hs as <-.
    destruct (i2p_Inv_active_loading _ _ _ HI Ht eq_refl) as (Hl & _).
    rewrite (i2p_phase_loading c Hl). destruct r as [pdfBlob|err].
    + unfold onBlob. destruct (Url.createObjectURL pdfBlob (urls c)) as [u σ].
      unfold i2p_phase, Session.display. by i2p_cfg.
    + simpl. apply negb_false_iff in Hd.
      by destruct (i2p_phase_catch c t AwaitBlob err HI Ht eq_refl Hd) as [_ ->].
Qed.

Lemma i2p_simulates : simulates Inv.
Proof.
  split; [apply i2p_Inv_init|]. intros e c c' HI He Hs.
  split; [by eapply i2p_Inv_step|]. by apply i2p_simulates_step.
Qed.

(** C30. The form implements the conversion session: along a run from the
    first render in which no files are chosen while a conversion is in
    flight and every error has a message, the events of the page, read as
    labels of the session, are a run of the session from [Idle], and the
    phase the page shows is the phase the session is in. *)
Theorem i2p_session_refinement es c ls :
  conforming es init = Some (c, ls) ->
  Session.accepts ls Session.Idle = Some (i2p_phase c).
Proof.
  intros Hes.
  by destruct (conforming_accepts Inv es init c ls i2p_simulates i2p_Inv_init Hes).
Qed.

Lemma i2p_session_refinement_witness :
  Session.accepts
    [Session.SelectInputs true; Session.Submit; Session.RemoteSuccess; Session.DecodeSuccess;
     Session.Submit; Session.RemoteFailure] Session.Idle
  = Some (i2p_phase (i2p_after i2p_visit)).
Proof.
  apply (i2p_session_refinement i2p_visit (i2p_after i2p_visit)
           [Session.SelectInputs true; Session.Submit; Session.RemoteSuccess;
            Session.DecodeSuccess; Session.Submit; Session.RemoteFailure]).
  by vm_compute.
Defined.

End i2p_session.
