(* ===== verification/Batching.v ===== *)
(** * The forms under a React that does not batch

    The models render once per stretch of handler code (React.v).  React
    before version 18 batches the updates of an event handler only: after an
    [await] every [set...] call renders on its own, and the cleanup of the
    effect runs between two updates of one stretch when the first of them
    changed a dependency.  The sources do not fix the version of React.

    This file shows that the forms behave the same under both: in each
    stretch that follows an [await] one update at most touches the
    dependency list of the effect, so a render per update
    ([React.render_each]) ends in the configuration the model's single render
    gives, and in the PDF form, whose render can throw, the renders in
    between succeed whenever the page was up. *)

From stdpp Require Import base tactics option list strings.
From S2P Require Import Prelude Js Browser React Remote Flight.
From S2P Require Import PdfToImage PdfToImageInv ImageConverter ImageToPdf.

(** ** The PDF form *)

Section p2i_batching.
Import PdfToImageConverter.
Implicit Types (c : Config) (s : State) (σ : Url.store).

(** The configuration after the updates of a stretch, rendered one by
    one. *)
Definition p2i_render_each (updates : list (State -> State)) σ c : Config :=
  let '(new, σ') := render_each (state c) updates σ in
  mkConfig new σ' (stamp c) (tasks c) (requests c).

Lemma p2i_deps_refl s : deps_changed s s = false.
Proof. by apply depsChanged_same. Qed.

Lemma p2i_setIsLoading_inert v : inert (setIsLoading v).
Proof. by intros s. Qed.

Lemma p2i_setError_inert v : inert (setError v).
Proof. by intros s. Qed.

Lemma p2i_render_each_batch pre f post σ c :
  Forall inert pre -> Forall inert post ->
  p2i_render_each (pre ++ f :: post) σ c =
  render_with (foldl (fun st g => g st) (state c) (pre ++ f :: post)) σ c.
Proof.
  intros Hpre Hpost. unfold p2i_render_each.
  by rewrite (render_each_batch p2i_deps_refl) by done.
Qed.

(** C21. The PDF form does not depend on React batching the updates that
    follow an [await]: the [catch] and [finally] clauses, the stretch that
    stores the archive's URL and the stretch that stores the previews end in
    the same state with the same URLs live when every update is rendered on
    its own. *)
Theorem p2i_batching_irrelevant t err zipBlob images c :
  catchFinally err c =
    p2i_render_each [setError (Exn.message err); setIsLoading false] (urls c) c /\
  onBlob t (Fulfilled zipBlob) c =
    (let '(u, σ) := Url.createObjectURL zipBlob (urls c) in
     setTask t (AwaitLoad zipBlob) (p2i_render_each [setZipUrl (Some u)] σ c)) /\
  showImages images c =
    (let '(arr, c1) := newArray images c in
     p2i_render_each [setConvertedImages arr; setIsLoading false] (urls c1) c1).
Proof.
  unfold onBlob, showImages.
  destruct (Url.createObjectURL zipBlob (urls c)) as [u σ], (newArray images c) as [arr c1].
  split_and!; symmetry.
  - apply (p2i_render_each_batch [setError _] (setIsLoading false) []);
      auto using p2i_setError_inert.
  - done.
  - apply (p2i_render_each_batch [] (setConvertedImages arr) [setIsLoading false]);
      auto using p2i_setIsLoading_inert.
Qed.

(** A page that renders while loading renders after any update that keeps
    the file and the archive's URL. *)
Lemma p2i_render_up s s' :
  is_fulfilled (render s) = true -> isLoading s = true ->
  selectedFile s' = selectedFile s -> zipUrl s' = zipUrl s ->
  is_fulfilled (render s') = true.
Proof.
  intros Ha Hl Hf Hz. apply render_fulfilled. rewrite Hf, Hz.
  destruct (selectedFile s) eqn:Hs; [by left|]. destruct (zipUrl s) eqn:Hu; [|by right; left].
  rewrite (render_rejected s) in Ha; [done|done|by rewrite Hu|].
  unfold showsResults. by rewrite Hl.
Qed.

(** The renders in between do not throw: with a call of the handler
    suspended the page is loading, and neither update of a stretch that
    has two changes the file or the archive's URL. *)
Lemma p2i_unbatched_renders_up t k err arr c :
  Inv c -> alive c = true -> tasks c !! t = Some k -> active k = true ->
  is_fulfilled (render (setError (Exn.message err) (state c))) = true /\
  is_fulfilled (render (setConvertedImages arr (state c))) = true.
Proof.
  intros HI Ha Ht Hk. destruct (Inv_active_loading c t k HI Ht Hk) as [Hl _].
  split; by apply (p2i_render_up (state c)).
Qed.

End p2i_batching.

(** ** The image converter *)

Section ic_batching.
Import ImageConverter.
Implicit Types (c : Config) (s : State) (σ : Url.store).

Definition ic_render_each (updates : list (State -> State)) σ c : Config :=
  let '(new, σ') := render_each (state c) updates σ in
  mkConfig new σ' (tasks c) (requests c).

Lemma ic_deps_refl s : deps_changed s s = false.
Proof. simpl. unfold depsChanged, same_value. by rewrite !bool_decide_true. Qed.

Lemma ic_setIsLoading_inert v : inert (setIsLoading v).
Proof. by intros s. Qed.

Lemma ic_setError_inert v : inert (setError v).
Proof. by intros s. Qed.

Lemma ic_render_each_batch pre f post σ c :
  Forall inert pre -> Forall inert post ->
  ic_render_each (pre ++ f :: post) σ c =
  render_with (foldl (fun st g => g st) (state c) (pre ++ f :: post)) σ c.
Proof.
  intros Hpre Hpost. unfold ic_render_each.
  by rewrite (render_each_batch ic_deps_refl) by done.
Qed.

(** The stretches of the image converter that follow an [await] end the
    same when every update is rendered on its own. *)
Lemma ic_batching_irrelevant t err imageBlob c :
  catchFinally err c =
    ic_render_each [setError (Exn.message err); setIsLoading false] (urls c) c /\
  onBlob t (Fulfilled imageBlob) c =
    (let '(u, σ) := Url.createObjectURL imageBlob (urls c) in
     setTask t Finished
       (ic_render_each [setConvertedImageUrl (Some u); setIsLoading false] σ c)).
Proof.
  unfold onBlob. destruct (Url.createObjectURL imageBlob (urls c)) as [u σ].
  split; [|f_equal]; symmetry.
  - apply (ic_render_each_batch [setError _] (setIsLoading false) []);
      auto using ic_setError_inert.
  - apply (ic_render_each_batch [] (setConvertedImageUrl (Some u)) [setIsLoading false]);
      auto using ic_setIsLoading_inert.
Qed.

(** The updates of [handleFileChange], which React batches in every version
    because they run inside the event handler. *)
Definition ic_file_updates (file : File) (u : nat) : list (State -> State) :=
  [setSelectedFile (Some file); setOriginalImagePreview (Some u);
   setConvertedImageUrl None; setError None].

Lemma ic_file_updates_batch file c :
  handleFileChange [file] c =
  (let '(u, σ) := Url.createObjectURL (file_blob file) (urls c) in
   let '(new, σ') := render_batch (state c) (ic_file_updates file u) σ in
   mkConfig new σ' (tasks c) (requests c)).
Proof. unfold handleFileChange. simpl. by destruct (Url.createObjectURL (file_blob file) (urls c)). Qed.

(** The form relies on it: rendered one by one over a converted image, the
    update that clears the converted image runs the cleanup of a render
    that already shows the new preview, and revokes it. *)
Lemma ic_file_change_needs_batch file c :
  is_Some (convertedImageUrl (state c)) ->
  let '(u, σ) := Url.createObjectURL (file_blob file) (urls c) in
  Url.lookup u (render_each (state c) (ic_file_updates file u) σ).2 = None.
Proof.
  intros [v Hv]. destruct (Url.createObjectURL (file_blob file) (urls c)) as [u σ].
  cbn [render_each ic_file_updates snd]. apply commit_lookup_none, commit_revokes.
  - simpl. unfold depsChanged, same_value. simpl. rewrite Hv.
    destruct (bool_decide _); [done|]. by rewrite bool_decide_false.
  - simpl. unfold heldUrls. simpl. apply elem_of_cons. by left.
Qed.

End ic_batching.

(** ** The image to PDF form *)

Section i2p_batching.
Import ImageToPdfConverter.
Implicit Types (c : Config) (s : State) (σ : Url.store).

Definition i2p_render_each (updates : list (State -> State)) σ c : Config :=
  let '(new, σ') := render_each (state c) updates σ in
  mkConfig new σ' (stamp c) (tasks c) (requests c).

Lemma i2p_deps_refl s : deps_changed s s = false.
Proof. simpl. unfold depsChanged, same_array, same_value. by rewrite !bool_decide_true. Qed.

Lemma i2p_setIsLoading_inert v : inert (setIsLoading v).
Proof. by intros s. Qed.

Lemma i2p_setError_inert v : inert (setError v).
Proof. by intros s. Qed.

Lemma i2p_render_each_batch pre f post σ c :
  Forall inert pre -> Forall inert post ->
  i2p_render_each (pre ++ f :: post) σ c =
  render_with (foldl (fun st g => g st) (state c) (pre ++ f :: post)) σ c.
Proof.
  intros Hpre Hpost. unfold i2p_render_each.
  by rewrite (render_each_batch i2p_deps_refl) by done.
Qed.

(** The stretches of the image to PDF form that follow an [await] end the
    same when every update is rendered on its own. *)
Lemma i2p_batching_irrelevant t err pdfBlob c :
  catchFinally err c =
    i2p_render_each [setError (Exn.message err); setIsLoading false] (urls c) c /\
  onBlob t (Fulfilled pdfBlob) c =
    (let '(u, σ) := Url.createObjectURL pdfBlob (urls c) in
     setTask t Finished (i2p_render_each [setPdfUrl (Some u); setIsLoading false] σ c)).
Proof.
  unfold onBlob. destruct (Url.createObjectURL pdfBlob (urls c)) as [u σ].
  split; [|f_equal]; symmetry.
  - apply (i2p_render_each_batch [setError _] (setIsLoading false) []);
      auto using i2p_setError_inert.
  - apply (i2p_render_each_batch [] (setPdfUrl (Some u)) [setIsLoading false]);
      auto using i2p_setIsLoading_inert.
Qed.

End i2p_batching.
