(* ===== verification/Json.v ===== *)
(** * JSON values as a script sees them

    [response.json()] gives the generator form a value parsed from JSON, and
    the form reads it with property accesses, truthiness tests, a comparison
    of [length] with zero and conversions to string.  This file has the
    values ([Json.value]; a value that may be [undefined] is an
    [option Json.value]) and those operations, each defined on every value.

    A number carries what a script can observe of it here: its sign and
    the string [String(n)] gives.  An object made by [JSON.parse] has no
    methods of its own, so converting it to a string or a number goes to
    [Object.prototype]: the result is ["[object Object]"], unless the
    object has a member named [toString], which hides the method and makes
    the conversion throw.  An array is converted by joining its elements.
    Comparing with zero a [length] that is not a number converts it to one
    ([Json.positive]); a string is read as a numeric literal (Number.v). *)

From stdpp Require Import base tactics option list strings.
From Stdlib Require Import Lia.
From S2P Require Import Prelude Js Number.

Module Json.

(** The sign of a number (JSON has no NaN). *)
Inductive sign : Type := Zero | Positive | Negative.

Record number : Type := mkNumber {
  num_sign : sign;
  num_text : jsstring;
}.

#[warning="-register-all"]
Inductive value : Type :=
| JNull
| JBool (b : bool)
| JNumber (n : number)
| JString (s : jsstring)
| JArray (elements : list value)
| JObject (members : list (jsstring * value)).

(** The member [k] of an object: [JSON.parse] keeps the last of the members
    with the same name. *)
Fixpoint member (k : jsstring) (ms : list (jsstring * value)) : option value :=
  match ms with
  | [] => None
  | (k', v) :: ms' =>
      match member k ms' with
      | Some v' => Some v'
      | None => if decide (k' = k) then Some v else None
      end
  end.

(** [v.k] for a name [k] that no prototype defines (the form reads
    [predictions], [bytesBase64Encoded], [error] and [message]): the member
    of an object, [undefined] on the other values, a [TypeError] on
    [null]. *)
Definition prop (k : jsstring) (v : value) : settled (option value) :=
  match v with
  | JNull => Rejected (Exn.null_read k)
  | JObject ms => Fulfilled (member k ms)
  | _ => Fulfilled None
  end.

(** [o.k] where [o] may be [undefined]. *)
Definition prop_of (k : jsstring) (o : option value) : settled (option value) :=
  match o with
  | None => Rejected (Exn.undefined_read k)
  | Some v => prop k v
  end.

(** [o?.k]. *)
Definition opt_prop (k : jsstring) (o : option value) : settled (option value) :=
  match o with
  | None | Some JNull => Fulfilled None
  | Some v => prop k v
  end.

(** Truthiness. *)
Definition truthy (o : option value) : bool :=
  match o with
  | None | Some JNull => false
  | Some (JBool b) => b
  | Some (JNumber n) => match num_sign n with Zero => false | _ => true end
  | Some (JString s) => Str.truthy s
  | Some (JArray _) | Some (JObject _) => true
  end.

(** [String(v)], as a template literal and [new Error(v)] compute it: an
    array is its elements joined by commas, with [null] elements empty; an
    object is ["[object Object]"], and the conversion throws when a member
    named [toString] hides the method of [Object.prototype] (a member is
    never a function, and [valueOf] gives the object back). *)
Fixpoint to_string (v : value) : settled jsstring :=
  match v with
  | JNull => Fulfilled (Str.lit "null")
  | JBool b => Fulfilled (if b then Str.lit "true" else Str.lit "false")
  | JNumber n => Fulfilled (num_text n)
  | JString s => Fulfilled s
  | JArray l =>
      Arr.join (Str.lit ",") <$>
        mapM (fun x => match x with JNull => Fulfilled [] | _ => to_string x end) l
  | JObject ms =>
      match member (Str.lit "toString") ms with
      | Some _ => Rejected Exn.not_primitive
      | None => Fulfilled (Str.lit "[object Object]")
      end
  end.

(** [String(o)] where [o] may be [undefined]. *)
Definition string_of (o : option value) : settled jsstring :=
  match o with None => Fulfilled (Str.lit "undefined") | Some v => to_string v end.

(** [o > 0]: [o] is converted to a number and compared.  [undefined] is
    [NaN] and [null] is zero; a string is read as a numeric literal; an
    array or an object is converted to a string first, which may throw. *)
Definition positive (o : option value) : settled bool :=
  match o with
  | None | Some JNull => Fulfilled false
  | Some (JBool b) => Fulfilled b
  | Some (JNumber n) => Fulfilled match num_sign n with Positive => true | _ => false end
  | Some (JString s) => Fulfilled (Num.positive (Num.of_string s))
  | Some v => s ← to_string v; Fulfilled (Num.positive (Num.of_string s))
  end.

(** [v.length > 0] for a truthy value [v]: the length of an array or a
    string, the member named [length] of an object, [undefined] on the
    other values. *)
Definition length_positive (v : value) : settled bool :=
  match v with
  | JArray l => Fulfilled (bool_decide (0 < length l))
  | JString s => Fulfilled (bool_decide (0 < length s))
  | JObject ms => positive (member (Str.lit "length") ms)
  | JNull | JBool _ | JNumber _ => Fulfilled false
  end.

(** [v[0]]. *)
Definition index0 (v : value) : option value :=
  match v with
  | JArray l => head l
  | JString s => (fun c => JString [c]) <$> head s
  | JObject ms => member (Str.lit "0") ms
  | JNull | JBool _ | JNumber _ => None
  end.

End Json.

(** ** Induction on values *)

Section value_ind.
Import Json.
Context (P : value -> Prop).
Hypothesis Hnull : P JNull.
Hypothesis Hbool : forall b, P (JBool b).
Hypothesis Hnumber : forall n, P (JNumber n).
Hypothesis Hstring : forall s, P (JString s).
Hypothesis Harray : forall l, Forall P l -> P (JArray l).
Hypothesis Hobject : forall ms, Forall (fun m => P m.2) ms -> P (JObject ms).

Lemma value_nested_ind v : P v.
Proof.
  revert v. fix IH 1.
  intros [|b|n|s|l|ms]; [apply Hnull|apply Hbool|apply Hnumber|apply Hstring| |].
  - apply Harray. induction l as [|x l IHl]; constructor; [apply IH|apply IHl].
  - apply Hobject. induction ms as [|[k x] ms IHms]; constructor; [apply IH|apply IHms].
Qed.

End value_ind.

(** ** Facts about members and conversions *)

Section json.
Implicit Types (v : Json.value) (o : option Json.value) (k : jsstring)
  (ms : list (jsstring * Json.value)).

Lemma member_app k ms1 ms2 :
  Json.member k (ms1 ++ ms2) =
  match Json.member k ms2 with Some v => Some v | None => Json.member k ms1 end.
Proof.
  induction ms1 as [|[k' v'] ms1 IH]; simpl; [by destruct (Json.member k ms2)|].
  rewrite IH. by destruct (Json.member k ms2), (Json.member k ms1).
Qed.

(** A member that is there comes from the list. *)
Lemma member_Some k ms v : Json.member k ms = Some v -> (k, v) ∈ ms.
Proof.
  induction ms as [|[k' v'] ms IH]; simpl; [done|].
  destruct (Json.member k ms) as [w|]; [intros [= ->]; right; by apply IH|].
  destruct (decide (k' = k)) as [->|]; [|done]. intros [= ->]. left.
Qed.

(** A name that occurs once has the value written next to it. *)
Lemma member_sole k v ms1 ms2 :
  k ∉ ms1.*1 -> k ∉ ms2.*1 -> Json.member k (ms1 ++ (k, v) :: ms2) = Some v.
Proof.
  intros H1 H2. rewrite member_app. simpl.
  assert (Hnone : forall ms, k ∉ ms.*1 -> Json.member k ms = None).
  { intros ms Hms. destruct (Json.member k ms) as [w|] eqn:Hw; [|done].
    apply member_Some in Hw. destruct Hms. by apply (list_elem_of_fmap_2 fst _ (k, w)). }
  by rewrite (Hnone ms2 H2), decide_True.
Qed.

(** Only [null] makes a property read throw. *)
Lemma prop_rejected k v e : Json.prop k v = Rejected e <-> v = Json.JNull /\ e = Exn.null_read k.
Proof. destruct v; simpl; naive_solver. Qed.

(** Optional chaining never throws on a value read from an object. *)
Lemma opt_prop_fulfilled k o : exists r, Json.opt_prop k o = Fulfilled r.
Proof. destruct o as [[]|]; simpl; eauto. Qed.

(** A string converts to itself. *)
Lemma string_of_string s : Json.string_of (Some (Json.JString s)) = Fulfilled s.
Proof. done. Qed.

(** A conversion of a list stops at the first member whose conversion
    throws. *)
Lemma mapM_rejected {A B} (f : A -> settled B) (l : list A) e :
  mapM f l = Rejected e -> exists x, x ∈ l /\ f x = Rejected e.
Proof.
  induction l as [|x l IH]; [done|]. cbn [mapM]. destruct (f x) as [y|e'] eqn:Hx.
  - cbn [mbind outcome_bind]. destruct (mapM f l); [done|]. intros [= ->].
    destruct IH as (x' & ? & ?); [done|]. exists x'. split; [by right|done].
  - intros [= ->]. exists x. split; [left|done].
Qed.

(** The conversions throw one error only: that of an object whose
    [toString] is hidden by a member. *)
Lemma to_string_rejected v e : Json.to_string v = Rejected e -> e = Exn.not_primitive.
Proof.
  induction v as [| | | |l IH|ms _] using value_nested_ind; try done; cbn [Json.to_string].
  - intros (x & Hx & He)%outcome_map_rejected%mapM_rejected.
    rewrite Forall_forall in IH. destruct x; try done; by apply (IH _ Hx).
  - case_match; [|done]. by intros [= <-].
Qed.

Lemma string_of_rejected o e : Json.string_of o = Rejected e -> e = Exn.not_primitive.
Proof. destruct o; [apply to_string_rejected|done]. Qed.

Lemma positive_rejected o e : Json.positive o = Rejected e -> e = Exn.not_primitive.
Proof.
  destruct o as [v|]; [|done].
  destruct v; try done; unfold Json.positive;
    by intros [?%to_string_rejected|(s & _ & ?)]%outcome_bind_rejected.
Qed.

Lemma length_positive_rejected v e :
  Json.length_positive v = Rejected e -> e = Exn.not_primitive.
Proof. destruct v; try done. apply positive_rejected. Qed.

(** A property read throws on [null] and on [undefined] only. *)
Lemma prop_of_rejected k o e :
  Json.prop_of k o = Rejected e -> e = Exn.undefined_read k \/ e = Exn.null_read k.
Proof.
  destruct o as [v|]; simpl; [|intros [= <-]; by left].
  intros [_ ->]%prop_rejected. by right.
Qed.

End json.
