(* ===== verification/JsonEquiv.v ===== *)
(** * JSON values up to the order of members

    [JSON.parse] gives an object whose members a script reads by name: the
    order in which the text lists them, and the members that a later one
    with the same name shadows, cannot be observed through the operations of
    Json.v.  This file defines that equivalence ([Json_same], written [≡])
    and proves that every operation respects it, so that a reading of an
    answer can be rewritten along it. *)

From stdpp Require Import base tactics option list strings.
From S2P Require Import Prelude Js Json.
Import Json.

(** ** The equivalence *)

(** Two values are the same to a script: scalars are equal, arrays have
    the same elements in order, objects have the same member under every
    name. *)
#[warning="-register-all"]
Inductive Json_same : value -> value -> Prop :=
| same_null : Json_same JNull JNull
| same_bool b : Json_same (JBool b) (JBool b)
| same_number n : Json_same (JNumber n) (JNumber n)
| same_string s : Json_same (JString s) (JString s)
| same_array l l' : Forall2 Json_same l l' -> Json_same (JArray l) (JArray l')
| same_object ms ms' :
    (forall k, option_Forall2 Json_same (member k ms) (member k ms')) ->
    Json_same (JObject ms) (JObject ms').

#[export] Instance value_equiv : Equiv value := Json_same.

(** A settled promise up to a relation on its value. *)
Inductive settled_Forall2 {A} (R : relation A) : relation (settled A) :=
| settled_fulfilled a b : R a b -> settled_Forall2 R (Fulfilled a) (Fulfilled b)
| settled_rejected e : settled_Forall2 R (Rejected e) (Rejected e).

Section same.
Implicit Types (v w : value) (l : list value) (ms : list (jsstring * value)) (k : jsstring).

Lemma Forall2_Forall_impl {A B} (R R' : A -> B -> Prop) (xs : list A) (ys : list B) :
  Forall (fun x => forall y, R x y -> R' x y) xs -> Forall2 R xs ys -> Forall2 R' xs ys.
Proof.
  intros HP HR. induction HR as [|x y xs ys Hxy _ IH]; [constructor|].
  apply Forall_cons in HP as [Hx Hxs]. constructor; auto.
Qed.

(** The members of an object are among the values the induction covers. *)
Lemma member_Forall (P : value -> Prop) k ms v :
  Forall (fun m => P m.2) ms -> member k ms = Some v -> P v.
Proof.
  intros HP Hv%member_Some. rewrite Forall_forall in HP. apply (HP (k, v) Hv).
Qed.

#[export] Instance same_refl : Reflexive Json_same.
Proof.
  intros v. induction v as [| | | |l IH|ms IH] using value_nested_ind; constructor.
  - by apply Forall_Forall2_diag.
  - intros k. destruct (member k ms) as [v|] eqn:Hv; constructor.
    by apply (member_Forall (fun v => Json_same v v) k ms).
Qed.

#[export] Instance same_sym : Symmetric Json_same.
Proof.
  intros v. induction v as [| | | |l IH|ms IH] using value_nested_ind;
    intros w Hw; inversion Hw as [| | | |? l' Hl|? ms' Hms]; subst; constructor.
  - apply Forall2_flip. by eapply Forall2_Forall_impl.
  - intros k. specialize (Hms k).
    destruct (member k ms) as [x|] eqn:Hx; inversion Hms; subst; constructor.
    by apply (member_Forall (fun v => forall w, Json_same v w -> Json_same w v) k ms x).
Qed.

Lemma Forall2_Forall_trans {A} (R : relation A) (xs ys zs : list A) :
  Forall (fun x => forall y z, R x y -> R y z -> R x z) xs ->
  Forall2 R xs ys -> Forall2 R ys zs -> Forall2 R xs zs.
Proof.
  intros HP Hxy. revert zs. induction Hxy as [|x y xs ys Hxy _ IH]; intros zs Hyz;
    inversion Hyz; subst; [constructor|].
  apply Forall_cons in HP as [Hx Hxs]. constructor; eauto.
Qed.

#[export] Instance same_trans : Transitive Json_same.
Proof.
  intros v. induction v as [| | | |l IH|ms IH] using value_nested_ind;
    intros w u Hw Hu; inversion Hw as [| | | |? l' Hl|? ms' Hms]; subst;
    inversion Hu as [| | | |? l'' Hl'|? ms'' Hms']; subst; constructor.
  - by eapply Forall2_Forall_trans.
  - intros k. specialize (Hms k). specialize (Hms' k).
    destruct (member k ms) as [x|] eqn:Hx, (member k ms') as [y|], (member k ms'') as [z|];
      inversion Hms; inversion Hms'; subst; constructor.
    eapply (member_Forall (fun v => forall w u, Json_same v w -> Json_same w u -> Json_same v u)
              k ms x); eauto.
Qed.

#[export] Instance same_equivalence : Equivalence Json_same := {}.

End same.

(** ** The operations respect the equivalence *)

Section proper.
Implicit Types (v w : value) (o : option value) (k : jsstring).

Lemma Forall2_mapM_eq {A B} (R : relation A) (f : A -> settled B) (xs ys : list A) :
  Forall (fun x => forall y, R x y -> f x = f y) xs -> Forall2 R xs ys ->
  mapM f xs = mapM f ys.
Proof.
  intros HP HR. induction HR as [|x y xs ys Hxy _ IH]; [done|].
  apply Forall_cons in HP as [Hx Hxs]. cbn [mapM]. by rewrite (Hx y Hxy), IH.
Qed.

#[export] Instance to_string_proper : Proper (Json_same ==> eq) to_string.
Proof.
  intros v. induction v as [| | | |l IH|ms IH] using value_nested_ind;
    intros w Hw; inversion Hw as [| | | |? l' Hl|? ms' Hms]; subst; try done.
  - cbn [to_string]. f_equal. apply (Forall2_mapM_eq Json_same); [|done].
    eapply Forall_impl; [exact IH|]. intros x Hx y Hy. rewrite (Hx y Hy). by inversion Hy.
  - cbn [to_string]. by destruct (Hms (Str.lit "toString")).
Qed.

#[export] Instance Some_proper : Proper (Json_same ==> option_Forall2 Json_same) Some.
Proof. by constructor. Qed.

#[export] Instance truthy_proper : Proper (option_Forall2 Json_same ==> eq) truthy.
Proof. intros o o' [v w Hvw|]; [|done]. by inversion Hvw. Qed.

#[export] Instance string_of_proper : Proper (option_Forall2 Json_same ==> eq) string_of.
Proof. intros o o' [v w Hvw|]; [|done]. simpl. by rewrite Hvw. Qed.

#[export] Instance prop_proper k :
  Proper (Json_same ==> settled_Forall2 (option_Forall2 Json_same)) (prop k).
Proof.
  intros v w Hvw. inversion Hvw as [| | | | |ms ms' Hms]; subst; simpl;
    constructor; first [constructor|apply Hms].
Qed.

#[export] Instance prop_of_proper k :
  Proper (option_Forall2 Json_same ==> settled_Forall2 (option_Forall2 Json_same)) (prop_of k).
Proof. intros o o' [v w Hvw|]; simpl; [by apply prop_proper|constructor]. Qed.

#[export] Instance opt_prop_proper k :
  Proper (option_Forall2 Json_same ==> settled_Forall2 (option_Forall2 Json_same)) (opt_prop k).
Proof.
  intros o o' [v w Hvw|]; simpl; [|repeat constructor].
  pose proof (prop_proper k v w Hvw) as Hp. inversion Hvw; subst; try done.
  repeat constructor.
Qed.

#[export] Instance positive_proper : Proper (option_Forall2 Json_same ==> eq) positive.
Proof.
  intros o o' [v w Hvw|]; [|done]. pose proof (to_string_proper v w Hvw) as Hs.
  inversion Hvw; subst; try done; unfold positive; by rewrite Hs.
Qed.

#[export] Instance length_positive_proper : Proper (Json_same ==> eq) length_positive.
Proof.
  intros v w Hvw. inversion Hvw as [| | | |l l' Hl|ms ms' Hms]; subst; simpl; try done.
  - by rewrite (Forall2_length _ _ _ Hl).
  - by apply positive_proper.
Qed.

#[export] Instance index0_proper : Proper (Json_same ==> option_Forall2 Json_same) index0.
Proof.
  intros v w Hvw. inversion Hvw as [| | |s|l l' Hl|ms ms' Hms]; subst; simpl;
    try (by constructor); [|destruct Hl; by constructor|apply Hms].
  destruct (head s); by constructor.
Qed.

(** Reading a property of what a promise was fulfilled with. *)
Lemma settled_bind_proper {A B} (R : relation A) (R' : relation B)
    (f g : A -> settled B) (x y : settled A) :
  settled_Forall2 R x y -> (forall a b, R a b -> settled_Forall2 R' (f a) (g b)) ->
  settled_Forall2 R' (x ≫= f) (y ≫= g).
Proof. intros [a b Hab|e] Hfg; simpl; [auto|constructor]. Qed.

End proper.

(** ** Objects that are the same *)

Section objects.
Implicit Types (v w : value) (ms : list (jsstring * value)) (k : jsstring).

Lemma member_None k ms : k ∉ ms.*1 -> member k ms = None.
Proof.
  intros Hk. destruct (member k ms) as [v|] eqn:Hv; [|done].
  destruct Hk. apply member_Some in Hv. by apply (list_elem_of_fmap_2 fst _ (k, v)).
Qed.

(** With every name written once, the member under a name is the value
    written next to it. *)
Lemma member_NoDup k v ms : NoDup ms.*1 -> (k, v) ∈ ms -> member k ms = Some v.
Proof.
  intros Hnd (ms1 & ms2 & ->)%list_elem_of_split.
  rewrite fmap_app, fmap_cons in Hnd. apply NoDup_app in Hnd as (_ & H1 & [H2 _]%NoDup_cons).
  apply member_sole; [|done]. intros Hk. apply (H1 k Hk). left.
Qed.

(** The order in which an object lists its members does not matter. *)
Lemma same_permutation ms ms' :
  NoDup ms.*1 -> ms ≡ₚ ms' -> Json_same (JObject ms) (JObject ms').
Proof.
  intros Hnd Hp. constructor. intros k.
  assert (NoDup ms'.*1) as Hnd' by by rewrite <- Hp.
  destruct (member k ms) as [x|] eqn:Hx.
  - apply member_Some in Hx. rewrite Hp in Hx. rewrite (member_NoDup _ _ _ Hnd' Hx).
    by constructor.
  - destruct (member k ms') as [y|] eqn:Hy; [|constructor].
    apply member_Some in Hy. rewrite <- Hp in Hy. by rewrite (member_NoDup _ _ _ Hnd Hy) in Hx.
Qed.

(** Members that are the same, name by name, make objects that are. *)
Lemma same_members ms ms' :
  Forall2 (fun m m' => m.1 = m'.1 /\ Json_same m.2 m'.2) ms ms' ->
  Json_same (JObject ms) (JObject ms').
Proof.
  intros HF. constructor. intros k.
  induction HF as [|[k1 x] [k2 y] ms ms' [Hk Hxy] _ IH]; simpl in *; [constructor|].
  subst k2. destruct IH; [by constructor|]. destruct (decide (k1 = k)); by constructor.
Qed.

(** A member that a later one with the same name shadows does not matter. *)
Lemma same_shadowed k v w ms :
  Json_same (JObject ((k, v) :: ms ++ [(k, w)])) (JObject (ms ++ [(k, w)])).
Proof.
  constructor. intros k'. cbn [member].
  destruct (member k' (ms ++ [(k, w)])) as [x|] eqn:Hx; [by constructor|].
  rewrite member_app in Hx. simpl in Hx. destruct (decide (k = k')); [done|constructor].
Qed.

End objects.
