(* ===== verification/ImageGenerator.v ===== *)
(** * The image generator form (src/my-tools-io/src/components/ImageGenerator.jsx)

    [Module ImageGenerator] models the component: its four state cells,
    [handleGenerateImage] (one definition per stretch of code between two
    [await]s), the reading of the service's JSON answers, [getDownloadFileName]
    and what the component renders.  The form holds no object URL and has no
    effect: the image is a [data:] URL, a string.

    The body of the request is the JSON value the code serialises
    ([JSON.stringify] is one-to-one on such values).  The key in the
    request's address is a credential written in the source; it is not
    repeated here: [apiKey] stands for it, and nothing proved depends on its
    value. *)

From stdpp Require Import base tactics option list strings.
From S2P Require Import Prelude Js Remote Json.

Module ImageGenerator.

(** ** Helper components *)

Inductive Size : Type := sm | md | lg.

Definition sizeClasses (size : Size) : jsstring :=
  match size with
  | sm => Str.lit "w-5 h-5"
  | md => Str.lit "w-8 h-8"
  | lg => Str.lit "w-12 h-12"
  end.

(** [<Spinner size=... />]: the class of its one element. *)
Definition Spinner (size : Size) : jsstring :=
  Str.lit "animate-spin rounded-full border-t-2 border-b-2 border-black " ++ sizeClasses size.

(** [<ImageIcon className=... />]: the class of its [svg] element. *)
Definition ImageIcon (className : jsstring) : jsstring :=
  Str.lit "w-24 h-24 text-gray-400 " ++ className.

(** ** Data *)

(** The [useState] cells of the component. *)
Record State : Type := mkState {
  prompt : jsstring;
  imageUrl : option jsstring;
  isLoading : bool;
  error : option jsstring;
}.

Definition initial : State :=
  {| prompt := []; imageUrl := None; isLoading := false; error := None |}.

Definition setPrompt (v : jsstring) (s : State) : State :=
  mkState v (imageUrl s) (isLoading s) (error s).
Definition setImageUrl (v : option jsstring) (s : State) : State :=
  mkState (prompt s) v (isLoading s) (error s).
Definition setIsLoading (v : bool) (s : State) : State :=
  mkState (prompt s) (imageUrl s) v (error s).
Definition setError (v : option jsstring) (s : State) : State :=
  mkState (prompt s) (imageUrl s) (isLoading s) v.

(** A [fetch(apiUrl, {method, headers, body})] call. *)
Record ApiRequest : Type := mkApiRequest {
  api_url : jsstring;
  api_method : jsstring;
  api_headers : list (jsstring * jsstring);
  api_body : Json.value;
}.

(** Where a [handleGenerateImage] call stands. *)
Inductive Task : Type :=
| AwaitFetch
| AwaitErrorJson
| AwaitJson
| Finished.

Record Config : Type := mkConfig {
  state : State;
  tasks : list Task;
  requests : list ApiRequest;
}.

Definition init : Config := {| state := initial; tasks := []; requests := [] |}.

Definition render_with (new : State) (c : Config) : Config :=
  mkConfig new (tasks c) (requests c).

Definition setTask (t : nat) (k : Task) (c : Config) : Config :=
  mkConfig (state c) (<[t := k]> (tasks c)) (requests c).

(** ** [handleGenerateImage] *)

(** [{ instances: [{ prompt }], parameters: { "sampleCount": 1 } }]. *)
Definition payload (prompt : jsstring) : Json.value :=
  Json.JObject
    [(Str.lit "instances",
      Json.JArray [Json.JObject [(Str.lit "prompt", Json.JString prompt)]]);
     (Str.lit "parameters",
      Json.JObject [(Str.lit "sampleCount",
                     Json.JNumber (Json.mkNumber Json.Positive (Str.lit "1")))])].

Definition apiKey : jsstring := Str.lit "<apiKey>".

Definition apiUrl : jsstring :=
  Str.lit "https://generativelanguage.googleapis.com/v1beta/models/imagen-3.0-generate-002:predict?key="
  ++ apiKey.

Definition apiRequest (prompt : jsstring) : ApiRequest :=
  {| api_url := apiUrl;
     api_method := Str.lit "POST";
     api_headers := [(Str.lit "Content-Type", Str.lit "application/json")];
     api_body := payload prompt |}.

(** From the call to the first [await]: the guard, the three resets, the
    request. *)
Definition handleGenerateImage (c : Config) : Config :=
  if Str.truthy (Str.trim (prompt (state c))) then
    let c :=
      render_with (setImageUrl None (setError None (setIsLoading true (state c)))) c in
    mkConfig (state c) (tasks c ++ [AwaitFetch])
      (requests c ++ [apiRequest (prompt (state c))])
  else
    render_with
      (setError (Some (Str.lit "Please enter a prompt to generate an image.")) (state c)) c.

(** The [catch] and [finally] clauses. *)
Definition errorMessage (err : Exn.thrown) : jsstring :=
  match err with
  | Exn.ErrorObj message => message
  | Exn.NotAnError => Str.lit "An unknown error occurred."
  end.

Definition catchFinally (err : Exn.thrown) (c : Config) : Config :=
  render_with
    (setIsLoading false
       (setError (Some (Str.lit "Failed to generate image: " ++ errorMessage err)) (state c)))
    c.

(** [await fetch(...)] settled. *)
Definition onFetch (t : nat) (r : settled Response) (c : Config) : Config :=
  match r with
  | Rejected err => setTask t Finished (catchFinally err c)
  | Fulfilled response =>
      if ok response then setTask t AwaitJson c else setTask t AwaitErrorJson c
  end.

(** What line 52 throws: [new Error(errorData.error?.message || '...')], or
    the [TypeError] of reading [error] of [null]. *)
Definition apiError (errorData : Json.value) : Exn.thrown :=
  match Json.prop (Str.lit "error") errorData ≫= Json.opt_prop (Str.lit "message") with
  | Rejected e => e
  | Fulfilled m =>
      if Json.truthy m then
        match Json.string_of m with
        | Fulfilled message => Exn.ErrorObj message
        | Rejected e => e
        end
      else Exn.ErrorObj (Str.lit "The API returned an error.")
  end.

(** [await response.json()] of a response that is not [ok] settled. *)
Definition onErrorJson (t : nat) (r : settled Json.value) (c : Config) : Config :=
  match r with
  | Rejected err => setTask t Finished (catchFinally err c)
  | Fulfilled errorData => setTask t Finished (catchFinally (apiError errorData) c)
  end.

Definition invalidImage : Exn.thrown :=
  Exn.ErrorObj (Str.lit "API did not return a valid image.").

(** Lines 56 to 61: the URL of the image in [result], or what the block
    throws: the error of line 60, or the [TypeError] of a property read or
    of a conversion. *)
Definition generatedImageUrl (result : Json.value) : settled jsstring :=
  match Json.prop (Str.lit "predictions") result with
  | Rejected e => Rejected e
  | Fulfilled None => Rejected invalidImage
  | Fulfilled (Some predictions) =>
      if Json.truthy (Some predictions) then
        positive ← Json.length_positive predictions;
        if positive : bool then
          bytes ← Json.prop_of (Str.lit "bytesBase64Encoded") (Json.index0 predictions);
          if Json.truthy bytes then
            encoded ← Json.string_of bytes;
            Fulfilled (Str.lit "data:image/png;base64," ++ encoded)
          else Rejected invalidImage
        else Rejected invalidImage
      else Rejected invalidImage
  end.

(** [await response.json()] of an [ok] response settled: the image is
    stored, or the error shown; the [finally] clause clears the loading flag
    in the same render. *)
Definition onJson (t : nat) (r : settled Json.value) (c : Config) : Config :=
  match r ≫= generatedImageUrl with
  | Fulfilled url =>
      setTask t Finished
        (render_with (setIsLoading false (setImageUrl (Some url) (state c))) c)
  | Rejected err => setTask t Finished (catchFinally err c)
  end.

(** ** Events *)

Inductive Event : Type :=
| PromptChange (value : jsstring)
| Submit
| FetchSettled (t : nat) (r : settled Response)
| ErrorJsonSettled (t : nat) (r : settled Json.value)
| JsonSettled (t : nat) (r : settled Json.value).

Definition step (e : Event) (c : Config) : option Config :=
  match e with
  | PromptChange value => Some (render_with (setPrompt value (state c)) c)
  | Submit => Some (handleGenerateImage c)
  | FetchSettled t r =>
      match tasks c !! t with Some AwaitFetch => Some (onFetch t r c) | _ => None end
  | ErrorJsonSettled t r =>
      match tasks c !! t with Some AwaitErrorJson => Some (onErrorJson t r c) | _ => None end
  | JsonSettled t r =>
      match tasks c !! t with Some AwaitJson => Some (onJson t r c) | _ => None end
  end.

(** ** What the component renders *)

(** The class of line 73: the units that are not lower-case letters,
    digits, white space or a hyphen. *)
Definition removed (c : N) : bool :=
  negb (((97 <=? c) && (c <=? 122))%N || ((48 <=? c) && (c <=? 57))%N
        || Str.is_space c || (c =? 45)%N).

Definition sanitizedPrompt (prompt : jsstring) : jsstring :=
  Str.replace_runs Str.is_space (Str.lit "-")
    (Str.replace_class removed [] (Str.toLowerCase prompt)).

(** [getDownloadFileName()]. *)
Definition getDownloadFileName (s : State) : jsstring :=
  if Str.truthy (prompt s) then Arr.slice 0 50 (sanitizedPrompt (prompt s)) ++ Str.lit ".png"
  else Str.lit "ai-generated-image.png".

(** A cell that holds [null] or a string, used as a condition. *)
Definition holds (o : option jsstring) : bool :=
  match o with Some s => Str.truthy s | None => false end.

(** The parts of the page that depend on the state: the text area and its
    lock, the button and its face (a spinner or the label), the alert, the
    three alternatives of the result panel, and the download link. *)
Record View : Type := mkView {
  view_prompt : jsstring;
  view_locked : bool;
  view_disabled : bool;
  view_button : jsstring + jsstring;
  view_alert : option jsstring;
  view_generating : option jsstring;
  view_image : option (jsstring * jsstring);
  view_placeholder : option jsstring;
  view_download : option (jsstring * jsstring);
}.

Definition render (s : State) : View :=
  {| view_prompt := prompt s;
     view_locked := isLoading s;
     view_disabled := isLoading s || negb (Str.truthy (Str.trim (prompt s)));
     view_button := if isLoading s then inl (Spinner sm) else inr (Str.lit "Generate");
     view_alert := if holds (error s) then error s else None;
     view_generating := if isLoading s then Some (Spinner lg) else None;
     view_image :=
       if negb (isLoading s) && negb (holds (error s)) && holds (imageUrl s)
       then (fun u => (u, prompt s)) <$> imageUrl s else None;
     view_placeholder :=
       if negb (isLoading s) && negb (holds (error s)) && negb (holds (imageUrl s))
       then Some (ImageIcon (Str.lit "mx-auto")) else None;
     view_download :=
       if holds (imageUrl s) && negb (isLoading s)
       then (fun u => (u, getDownloadFileName s)) <$> imageUrl s else None |}.

(** An event the page lets happen: the text area is locked and the button
    disabled while a request is in flight, and the button is disabled while
    the prompt is blank. *)
Definition enabled (e : Event) (c : Config) : bool :=
  match e with
  | PromptChange _ => negb (view_locked (render (state c)))
  | Submit => negb (view_disabled (render (state c)))
  | _ => true
  end.

(** A sequence of events played on the page. *)
Fixpoint play (es : list Event) (c : Config) : option Config :=
  match es with
  | [] => Some c
  | e :: es' => if enabled e c then c' ← step e c; play es' c' else None
  end.

(** The configurations the page can be in. *)
Inductive reachable : Config -> Prop :=
| reachable_init : reachable init
| reachable_step e c c' :
    reachable c -> enabled e c = true -> step e c = Some c' -> reachable c'.

End ImageGenerator.
