(* ===== verification/ImageGeneratorInv.v ===== *)
(** * The image generator form: what holds in every reachable configuration

    The invariant [Inv] of the form and its preservation by every event the
    page admits.  It says that the loading flag is set exactly while one
    call of the handler is suspended, that the request in flight is the one
    for the prompt on the page, and that a finished call left either an
    image (a [data:] URL) or a message, never both. *)

From stdpp Require Import base tactics option list strings.
From Stdlib Require Import Lia.
From S2P Require Import Prelude Js Remote Flight Json ImageGenerator.
Import ImageGenerator.

(** A task whose handler code is still to run. *)
Definition active (k : Task) : bool :=
  match k with AwaitFetch | AwaitErrorJson | AwaitJson => true | Finished => false end.

Abbreviation activeCount := (Flight.activeCount active).

Definition dataPrefix : jsstring := Str.lit "data:image/png;base64,".

(** The invariant. *)
Record Inv (c : Config) : Prop := mkInv {
  inv_active : activeCount (tasks c) = if isLoading (state c) then 1 else 0;
  inv_requests : length (requests c) = length (tasks c);
  inv_sent : Forall (fun r => exists p, Str.trim p <> [] /\ r = apiRequest p) (requests c);
  inv_loading : isLoading (state c) = true ->
                imageUrl (state c) = None /\ error (state c) = None /\
                last (requests c) = Some (apiRequest (prompt (state c))) /\
                Str.trim (prompt (state c)) <> [];
  inv_image : forall u, imageUrl (state c) = Some u ->
              error (state c) = None /\ exists b, u = dataPrefix ++ b;
  inv_error : forall m, error (state c) = Some m -> m <> [];
  inv_settled : tasks c <> [] -> isLoading (state c) = false ->
                is_Some (imageUrl (state c)) \/ is_Some (error (state c));
}.

(** Unfold the projections of a configuration that was just built. *)
Ltac ig_cfg := unfold render_with, setTask in *;
               cbn [state tasks requests prompt imageUrl isLoading error
                    setPrompt setImageUrl setIsLoading setError] in *.

Section moves.
Implicit Types (c : Config) (s : State) (k : Task) (t : nat).

Lemma ig_Inv_init : Inv init.
Proof. by split. Qed.

(** The loading flag is set while a task is active. *)
Lemma ig_Inv_active_loading c t k :
  Inv c -> tasks c !! t = Some k -> active k = true -> isLoading (state c) = true.
Proof.
  intros HI Ht Hk. pose proof (activeCount_lookup (active:=active) _ _ _ Ht Hk).
  pose proof (inv_active _ HI). destruct (isLoading (state c)); [done|lia].
Qed.

(** The text area is locked while a request is in flight. *)
Lemma ig_Inv_setPrompt c value :
  Inv c -> isLoading (state c) = false -> Inv (render_with (setPrompt value (state c)) c).
Proof. intros [Hact Hreq Hsent Hload Himg Herr Hset] Hl. split; ig_cfg; try done. congruence. Qed.

(** The button is disabled while the prompt is blank, so the handler runs
    past its guard. *)
Lemma ig_Inv_handleGenerateImage c :
  Inv c -> isLoading (state c) = false -> Str.truthy (Str.trim (prompt (state c))) = true ->
  Inv (handleGenerateImage c).
Proof.
  intros [Hact Hreq Hsent Hload Himg Herr Hset] Hl Hp. unfold handleGenerateImage.
  rewrite Hp. split; ig_cfg; try done.
  - by rewrite activeCount_app, Hact, Hl.
  - rewrite !length_app, Hreq. done.
  - apply Forall_app. split; [done|]. constructor; [|done].
    exists (prompt (state c)). by apply truthy_nonempty in Hp.
  - intros _. rewrite last_snoc. by apply truthy_nonempty in Hp.
Qed.

(** The [catch] of an active task. *)
Lemma ig_Inv_catchFinally c t k err :
  Inv c -> tasks c !! t = Some k -> active k = true ->
  Inv (setTask t Finished (catchFinally err c)).
Proof.
  intros HI Ht Hk. pose proof (ig_Inv_active_loading _ _ _ HI Ht Hk) as Hl.
  destruct HI as [Hact Hreq Hsent Hload Himg Herr Hset]. destruct (Hload Hl) as (Hi & _).
  unfold catchFinally. split; ig_cfg; try done.
  - pose proof (activeCount_insert_end (active:=active) _ _ _ Finished Ht Hk eq_refl).
    rewrite Hl in Hact. lia.
  - by rewrite length_insert.
  - by rewrite Hi.
  - by intros m [= <-].
  - intros _ _. right. by eexists.
Qed.

(** An active task moves to its next [await]. *)
Lemma ig_Inv_setTask c t k k' :
  Inv c -> tasks c !! t = Some k -> active k = true -> active k' = true ->
  Inv (setTask t k' c).
Proof.
  intros HI Ht Hk Hk'. pose proof (ig_Inv_active_loading _ _ _ HI Ht Hk) as Hl.
  destruct HI as [Hact Hreq Hsent Hload Himg Herr Hset]. split; ig_cfg; try done.
  - rewrite activeCount_insert_same with (k := k); [done..|]. by rewrite Hk, Hk'.
  - by rewrite length_insert.
  - by rewrite Hl.
Qed.

(** The image of an active task is stored. *)
Lemma ig_Inv_setImageUrl c t k b :
  Inv c -> tasks c !! t = Some k -> active k = true ->
  Inv (setTask t Finished
         (render_with (setIsLoading false (setImageUrl (Some (dataPrefix ++ b)) (state c))) c)).
Proof.
  intros HI Ht Hk. pose proof (ig_Inv_active_loading _ _ _ HI Ht Hk) as Hl.
  destruct HI as [Hact Hreq Hsent Hload Himg Herr Hset]. destruct (Hload Hl) as (_ & He & _).
  split; ig_cfg; try done.
  - pose proof (activeCount_insert_end (active:=active) _ _ _ Finished Ht Hk eq_refl).
    rewrite Hl in Hact. lia.
  - by rewrite length_insert.
  - intros u [= <-]. eauto.
  - intros _ _. left. by eexists.
Qed.

Lemma ig_Inv_onFetch c t r :
  Inv c -> tasks c !! t = Some AwaitFetch -> Inv (onFetch t r c).
Proof.
  intros HI Ht. destruct r as [[[]]|err]; simpl;
    eauto using ig_Inv_catchFinally, ig_Inv_setTask.
Qed.

Lemma ig_Inv_onErrorJson c t r :
  Inv c -> tasks c !! t = Some AwaitErrorJson -> Inv (onErrorJson t r c).
Proof. intros HI Ht. destruct r; simpl; eauto using ig_Inv_catchFinally. Qed.

(** An image URL, when the answer has one, is a [data:] URL. *)
Lemma ig_generatedImageUrl_prefix result u :
  generatedImageUrl result = Fulfilled u -> exists b, u = dataPrefix ++ b.
Proof.
  unfold generatedImageUrl. intros H.
  repeat (case_match || apply outcome_bind_fulfilled in H as (? & ? & H)); simplify_eq.
  by eexists.
Qed.

Lemma ig_Inv_onJson c t r :
  Inv c -> tasks c !! t = Some AwaitJson -> Inv (onJson t r c).
Proof.
  intros HI Ht. unfold onJson.
  destruct (r ≫= generatedImageUrl) as [u|err] eqn:Hg; [|eauto using ig_Inv_catchFinally].
  apply outcome_bind_fulfilled in Hg as (result & _ & Hg).
  apply ig_generatedImageUrl_prefix in Hg as [b ->]. eauto using ig_Inv_setImageUrl.
Qed.

(** Every event the page admits preserves the invariant. *)
Lemma ig_Inv_step e c c' :
  Inv c -> enabled e c = true -> step e c = Some c' -> Inv c'.
Proof.
  intros HI He Hs. destruct e; simpl in Hs, He; repeat case_match; simplify_eq;
    eauto using ig_Inv_onFetch, ig_Inv_onErrorJson, ig_Inv_onJson.
  - apply ig_Inv_setPrompt; [done|]. by destruct (isLoading (state c)).
  - apply negb_true_iff, orb_false_iff in He as [Hl Hp%negb_false_iff].
    by apply ig_Inv_handleGenerateImage.
Qed.

Lemma ig_reachable_Inv c : reachable c -> Inv c.
Proof. induction 1; eauto using ig_Inv_init, ig_Inv_step. Qed.

Lemma ig_play_reachable es c c' : reachable c -> play es c = Some c' -> reachable c'.
Proof.
  revert c; induction es as [|e es IH]; intros c Hc Hp; simplify_eq/=; [done|].
  destruct (enabled e c) eqn:He, (step e c) as [c1|] eqn:Hs; simplify_eq/=.
  eapply IH; [|done]. by eapply reachable_step.
Qed.

End moves.
