(* ===== verification/ImageGeneratorName.v ===== *)
(** * The image generator form: the name offered for the download

    [getDownloadFileName] lower-cases the prompt, deletes what is not a
    letter, a digit, white space or a hyphen, turns each run of white space
    into one hyphen, and keeps fifty units.  This file compares the two
    passes with a reference that reads the prompt once ([slug]), and bounds
    the name: its length and its alphabet. *)

From stdpp Require Import base tactics option list strings.
From Stdlib Require Import NArith Lia.
From S2P Require Import Prelude Js Json ImageGenerator ImageGeneratorInv.
Import ImageGenerator.

(** ** The reference *)

(** What a unit that is not white space contributes to the name. *)
Definition letter (c : N) : option N :=
  if ((65 <=? c) && (c <=? 90))%N then Some (c + 32)%N
  else if ((97 <=? c) && (c <=? 122))%N || ((48 <=? c) && (c <=? 57))%N || (c =? 45)%N
       then Some c
  else if (c =? 304)%N then Some 105%N
  else if (c =? 8490)%N then Some 107%N
  else None.

(** One pass over the prompt: [in_run] says that the last unit read that
    was not dropped was white space. *)
Fixpoint slug (in_run : bool) (s : jsstring) : jsstring :=
  match s with
  | [] => []
  | c :: s' =>
      if Str.is_space c then (if in_run then [] else [45%N]) ++ slug true s'
      else match letter c with
           | Some l => l :: slug false s'
           | None => slug in_run s'
           end
  end.

(** The alphabet of a name: lower-case letters, digits and the hyphen. *)
Definition safe (c : N) : bool :=
  ((97 <=? c) && (c <=? 122))%N || ((48 <=? c) && (c <=? 57))%N || (c =? 45)%N.

(** ** The two passes and the one *)

Section ig_name.
Implicit Types (s : State) (p : jsstring) (c : N) (b : bool).

Lemma ig_letter_safe c l : letter c = Some l -> safe l = true.
Proof.
  unfold letter, safe. intros H.
  repeat (case_match; simplify_eq); try done;
    repeat match goal with
           | H : (_ && _) = true |- _ => apply andb_true_iff in H as [? ?]
           | H : (_ <=? _)%N = true |- _ => apply N.leb_le in H
           end.
  apply orb_true_iff; left. apply orb_true_iff; left.
  apply andb_true_iff; split; apply N.leb_le; lia.
Qed.

Lemma ig_removed_eq c : removed c = negb (safe c) && negb (Str.is_space c).
Proof.
  unfold removed, safe.
  by destruct (_ && _)%N, (_ && _)%N, (Str.is_space c), (c =? 45)%N.
Qed.

Lemma ig_safe_kept l : safe l = true -> removed l = false /\ Str.is_space l = false.
Proof.
  intros H. rewrite ig_removed_eq, H. split; [done|].
  destruct (Str.is_space l) eqn:Hs; [exfalso|done]. apply is_space_range in Hs.
  unfold safe in H.
  repeat match goal with
         | H : (_ || _) = true |- _ => apply orb_true_iff in H as [H|H]
         | H : (_ && _) = true |- _ => apply andb_true_iff in H as [? ?]
         | H : (_ <=? _)%N = true |- _ => apply N.leb_le in H
         | H : (_ =? _)%N = true |- _ => apply N.eqb_eq in H
         end; lia.
Qed.

(** What the two passes make of the lower-case form of one unit that is
    not white space. *)
Lemma ig_lower_unit_letter c :
  Str.is_space c = false ->
  Str.replace_class removed [] (Str.lower_unit c) = option_list (letter c).
Proof.
  intros Hs. unfold Str.lower_unit, letter.
  destruct ((65 <=? c) && (c <=? 90))%N eqn:Hup.
  { apply andb_true_iff in Hup as [?%N.leb_le ?%N.leb_le].
    assert (removed (c + 32) = false) as Hr.
    { apply ig_safe_kept. unfold safe. apply orb_true_iff; left. apply orb_true_iff; left.
      apply andb_true_iff; split; apply N.leb_le; lia. }
    unfold Str.replace_class. simpl. by rewrite Hr. }
  destruct (((97 <=? c) && (c <=? 122))%N || ((48 <=? c) && (c <=? 57))%N || (c =? 45)%N)
    eqn:Hsafe.
  { destruct (ig_safe_kept c Hsafe) as [Hr _].
    assert ((c =? 304)%N = false /\ (c =? 8490)%N = false) as [-> ->].
    { split; apply N.eqb_neq; intros ->; done. }
    unfold Str.replace_class. simpl. by rewrite Hr. }
  destruct (c =? 304)%N eqn:H304; [done|].
  destruct (c =? 8490)%N eqn:H8490; [done|].
  unfold Str.replace_class. simpl. rewrite ig_removed_eq. unfold safe. by rewrite Hsafe, Hs.
Qed.

(** White space is its own lower-case form, and is kept. *)
Lemma ig_lower_unit_space c :
  Str.is_space c = true -> Str.replace_class removed [] (Str.lower_unit c) = [c].
Proof.
  intros Hs. pose proof (is_space_range c Hs) as Hr. unfold Str.lower_unit.
  assert (((65 <=? c) && (c <=? 90))%N = false) as ->.
  { apply andb_false_iff. rewrite !N.leb_gt. lia. }
  assert ((c =? 304)%N = false /\ (c =? 8490)%N = false) as [-> ->].
  { split; apply N.eqb_neq; intros ->; done. }
  unfold Str.replace_class. simpl. by rewrite ig_removed_eq, Hs, andb_false_r.
Qed.

(** The two passes compute the reference, from any position in a run. *)
Lemma ig_passes_slug b p :
  Str.replace_runs_from b Str.is_space [45%N]
    (Str.replace_class removed [] (Str.toLowerCase p)) = slug b p.
Proof.
  revert b; induction p as [|c p IH]; intros b; [done|].
  rewrite toLowerCase_cons, replace_class_app. cbn [slug].
  destruct (Str.is_space c) eqn:Hs.
  - rewrite ig_lower_unit_space by done. simpl. by rewrite Hs, IH.
  - rewrite ig_lower_unit_letter by done.
    destruct (letter c) as [l|] eqn:Hl; simpl; [|apply IH].
    destruct (ig_safe_kept l (ig_letter_safe _ _ Hl)) as [_ ->]. by rewrite IH.
Qed.

Lemma ig_sanitizedPrompt_slug p : sanitizedPrompt p = slug false p.
Proof. apply ig_passes_slug. Qed.

(** The reference writes in the alphabet of names. *)
Lemma ig_slug_safe b p : forallb safe (slug b p) = true.
Proof.
  revert b; induction p as [|c p IH]; intros b; simpl; [done|].
  destruct (Str.is_space c).
  - destruct b; simpl; by rewrite IH.
  - destruct (letter c) as [l|] eqn:Hl; [|done]. simpl.
    by rewrite (ig_letter_safe _ _ Hl), IH.
Qed.

Lemma ig_forallb_take {A} (f : A -> bool) n (l : list A) :
  forallb f l = true -> forallb f (take n l) = true.
Proof.
  revert n; induction l as [|x l IH]; intros [|n]; simpl; try done.
  intros [-> ?]%andb_true_iff. by apply IH.
Qed.

(** C10. The two passes over the prompt compute what one pass computes: the
    units of the prompt in order, letters lower-cased, each run of white
    space as one hyphen, everything else dropped, where a dropped unit inside a run of
    white space does not split the run. *)
Theorem ig_name_one_pass s :
  getDownloadFileName s =
  if Str.truthy (prompt s) then take 50 (slug false (prompt s)) ++ Str.lit ".png"
  else Str.lit "ai-generated-image.png".
Proof.
  unfold getDownloadFileName. destruct (Str.truthy (prompt s)); [|done].
  by rewrite ig_sanitizedPrompt_slug, (slice_0_n _ 50).
Qed.

(** C9. The name offered for the download is at most fifty units of
    lower-case letters, digits and hyphens, followed by [.png]: whatever
    the prompt, it has no separator of paths and no more than 54 units. *)
Theorem ig_name_bounds s :
  exists stem,
    getDownloadFileName s = stem ++ Str.lit ".png" /\
    length stem <= 50 /\ forallb safe stem = true /\
    length (getDownloadFileName s) <= 54.
Proof.
  unfold getDownloadFileName. destruct (Str.truthy (prompt s)).
  - exists (take 50 (sanitizedPrompt (prompt s))). rewrite (slice_0_n _ 50).
    pose proof (length_take (sanitizedPrompt (prompt s)) 50).
    rewrite length_app. change (length (Str.lit ".png")) with 4.
    split_and!; [done|lia| |lia].
    rewrite ig_sanitizedPrompt_slug. apply ig_forallb_take, ig_slug_safe.
  - exists (Str.lit "ai-generated-image"). split_and!; [done|vm_compute; lia|done|vm_compute; lia].
Qed.

(** The name of a prompt in which nothing is a letter, a digit, a hyphen
    or white space has an empty stem. *)
Lemma ig_slug_symbols b p :
  Forall (fun c => Str.is_space c = false /\ letter c = None) p -> slug b p = [].
Proof. induction 1 as [|c p [Hs Hl] _ IH]; simpl; [done|]. by rewrite Hs, Hl. Qed.

(** C38. A prompt written without Latin letters, digits, hyphens or white
    space gives the download the name [.png]: a name with no stem. *)
Theorem ig_name_no_stem s :
  prompt s <> [] ->
  Forall (fun c => Str.is_space c = false /\ letter c = None) (prompt s) ->
  getDownloadFileName s = Str.lit ".png".
Proof.
  intros Hp%truthy_nonempty Hall. unfold getDownloadFileName. rewrite Hp.
  by rewrite ig_sanitizedPrompt_slug, ig_slug_symbols.
Qed.

Lemma ig_name_no_stem_witness :
  getDownloadFileName (mkState [29483; 12398; 32117]%N None false None) = Str.lit ".png".
Proof.
  apply (ig_name_no_stem (mkState [29483; 12398; 32117]%N None false None)); [done|].
  repeat constructor.
Defined.

End ig_name.
