(* ===== verification/ImageGeneratorProps.v ===== *)
(** * The image generator form: properties

    What holds of every configuration a user can bring the page to, what
    the handler does with each kind of answer of the service, and how a
    submission ends. *)

From stdpp Require Import base tactics option list strings.
From Stdlib Require Import Lia.
From S2P Require Import Prelude Js Remote Flight Json.
From S2P Require Import ImageGenerator ImageGeneratorInv.
Import ImageGenerator.

(** ** Sample values *)

Definition lion : jsstring := Str.lit "A majestic lion".

(** An answer of the service with one image. *)
Definition prediction : list (jsstring * Json.value) :=
  [(Str.lit "mimeType", Json.JString (Str.lit "image/png"));
   (Str.lit "bytesBase64Encoded", Json.JString (Str.lit "iVBORw0KGgo="))].
Definition predictions : list (jsstring * Json.value) :=
  [(Str.lit "predictions", Json.JArray [Json.JObject prediction])].
Definition picture : Json.value := Json.JObject predictions.

(** An answer with no image, an answer whose first prediction is [null],
    and the error body of a refused request. *)
Definition filtered : Json.value := Json.JObject [(Str.lit "predictions", Json.JArray [])].
Definition hollow_answer : Json.value :=
  Json.JObject [(Str.lit "predictions", Json.JArray [Json.JNull])].
Definition refusal_error : list (jsstring * Json.value) :=
  [(Str.lit "code", Json.JNumber (Json.mkNumber Json.Positive (Str.lit "400")));
   (Str.lit "message", Json.JString (Str.lit "API key not valid."))].
Definition refusal_members : list (jsstring * Json.value) :=
  [(Str.lit "error", Json.JObject refusal_error)].
Definition refusal : Json.value := Json.JObject refusal_members.

Definition ig_after (es : list Event) : Config := default init (play es init).

(** A prompt is typed and submitted; the request is in flight. *)
Definition ig_submitted : list Event := [PromptChange lion; Submit].

(** The service answered, and the body is being read. *)
Definition ig_answered : list Event :=
  ig_submitted ++ [FetchSettled 0 (Fulfilled (mkResponse true))].

(** The service refused, and the error body is being read. *)
Definition ig_refused : list Event :=
  ig_submitted ++ [FetchSettled 0 (Fulfilled (mkResponse false))].

(** The image is shown. *)
Definition ig_generated : list Event := ig_answered ++ [JsonSettled 0 (Fulfilled picture)].

Definition failurePrefix : jsstring := Str.lit "Failed to generate image: ".

(** An answer in which no image can be found: it has no [predictions], an
    empty list of them, or a first prediction without [bytesBase64Encoded]. *)
Definition imageless (ms : list (jsstring * Json.value)) : Prop :=
  Json.member (Str.lit "predictions") ms = None \/
  Json.member (Str.lit "predictions") ms = Some (Json.JArray []) \/
  exists first rest,
    Json.member (Str.lit "predictions") ms = Some (Json.JArray (Json.JObject first :: rest)) /\
    Json.member (Str.lit "bytesBase64Encoded") first = None.

(** An answer the handler cannot read: [null], or a list of predictions
    that starts with [null]; [unreadable result name] names the property
    whose read fails. *)
Definition unreadable (result : Json.value) (name : jsstring) : Prop :=
  (result = Json.JNull /\ name = Str.lit "predictions") \/
  exists ms rest,
    result = Json.JObject ms /\ name = Str.lit "bytesBase64Encoded" /\
    Json.member (Str.lit "predictions") ms = Some (Json.JArray (Json.JNull :: rest)).

(** ** Every configuration the page can reach *)

Section ig_reachable.
Implicit Types (c : Config) (t : nat) (s : State).

Lemma ig_after_reachable es : reachable (ig_after es).
Proof.
  unfold ig_after. destruct (play es init) eqn:H; simpl;
    eauto using ig_play_reachable, reachable_init.
Qed.

(** What the page shows of a state with an image and no error: the image
    with the prompt as its text, the download link, and nothing else. *)
Lemma ig_render_image s u :
  isLoading s = false -> error s = None -> imageUrl s = Some (dataPrefix ++ u) ->
  view_image (render s) = Some (dataPrefix ++ u, prompt s) /\
  view_download (render s) = Some (dataPrefix ++ u, getDownloadFileName s) /\
  view_alert (render s) = None /\ view_generating (render s) = None /\
  view_placeholder (render s) = None.
Proof. intros Hl He Hi. unfold render. simpl. by rewrite Hl, He, Hi. Qed.

(** What the page shows of a state with a message and no image. *)
Lemma ig_render_error s m :
  isLoading s = false -> error s = Some m -> m <> [] -> imageUrl s = None ->
  view_alert (render s) = Some m /\ view_image (render s) = None /\
  view_download (render s) = None /\ view_generating (render s) = None /\
  view_placeholder (render s) = None.
Proof.
  intros Hl He Hm%truthy_nonempty Hi. unfold render. simpl. by rewrite Hl, He, Hi; simpl; rewrite Hm.
Qed.

(** While loading, the page shows the spinner and nothing of a result. *)
Lemma ig_render_loading s :
  isLoading s = true -> imageUrl s = None -> error s = None ->
  view_generating (render s) = Some (Spinner lg) /\ view_image (render s) = None /\
  view_download (render s) = None /\ view_alert (render s) = None /\
  view_placeholder (render s) = None /\ view_locked (render s) = true /\
  view_disabled (render s) = true.
Proof. intros Hl Hi He. unfold render. simpl. by rewrite Hl, He, Hi. Qed.

(** C19. In every configuration the page can reach, the spinner shows
    exactly while one call of the handler is suspended, and then the page
    shows no image, no link and no message; once a call has finished and
    none is suspended, the page shows either the image with its download
    link, or a message, and not both. *)
Theorem ig_one_outcome c :
  reachable c ->
  let v := render (state c) in
  (is_Some (view_generating v) <-> activeCount (tasks c) = 1) /\
  (is_Some (view_generating v) ->
   view_image v = None /\ view_download v = None /\ view_alert v = None) /\
  (view_generating v = None -> tasks c <> [] ->
   (is_Some (view_image v) /\ is_Some (view_download v) /\ view_alert v = None) \/
   (is_Some (view_alert v) /\ view_image v = None /\ view_download v = None)).
Proof.
  intros [Hact Hreq Hsent Hload Himg Herr Hset]%ig_reachable_Inv v. subst v.
  destruct (isLoading (state c)) eqn:Hl.
  - destruct (Hload eq_refl) as (Hi & He & _).
    destruct (ig_render_loading _ Hl Hi He) as (-> & -> & -> & -> & _).
    split_and!; [by split|done|done].
  - assert (view_generating (render (state c)) = None) as -> by (by simpl; rewrite Hl).
    split_and!; [split; [by intros []|by rewrite Hact] | by intros [] |].
    intros _ Hts. destruct (Hset Hts eq_refl) as [[u Hu]|[m Hm]].
    + destruct (Himg _ Hu) as (He & b & ->).
      destruct (ig_render_image _ _ Hl He Hu) as (-> & -> & -> & _). left. eauto.
    + destruct (imageUrl (state c)) as [u|] eqn:Hu; [destruct (Himg _ eq_refl); congruence|].
      destruct (ig_render_error _ _ Hl Hm (Herr _ Hm) Hu) as (-> & -> & -> & _). right. eauto.
Qed.

Lemma ig_one_outcome_witness :
  let v := render (state (ig_after ig_generated)) in
  (is_Some (view_generating v) <-> activeCount (tasks (ig_after ig_generated)) = 1) /\
  (is_Some (view_generating v) ->
   view_image v = None /\ view_download v = None /\ view_alert v = None) /\
  (view_generating v = None -> tasks (ig_after ig_generated) <> [] ->
   (is_Some (view_image v) /\ is_Some (view_download v) /\ view_alert v = None) \/
   (is_Some (view_alert v) /\ view_image v = None /\ view_download v = None)).
Proof. apply (ig_one_outcome (ig_after ig_generated)). apply ig_after_reachable. Defined.

(** The requests the page has sent are well formed: one per call of the
    handler, each a POST to the service with a JSON body that carries a
    prompt, and no request carries a blank prompt. *)
Lemma ig_requests_well_formed c :
  reachable c ->
  length (requests c) = length (tasks c) /\
  Forall (fun r => api_url r = apiUrl /\ api_method r = Str.lit "POST" /\
                   api_headers r = [(Str.lit "Content-Type", Str.lit "application/json")] /\
                   exists p, Str.trim p <> [] /\ api_body r = payload p)
         (requests c).
Proof.
  intros HI%ig_reachable_Inv. split; [apply (inv_requests _ HI)|].
  eapply Forall_impl; [apply (inv_sent _ HI)|]. intros r (p & Hp & ->). eauto 6.
Qed.

Lemma ig_requests_well_formed_witness :
  length (requests (ig_after ig_generated)) = length (tasks (ig_after ig_generated)) /\
  Forall (fun r => api_url r = apiUrl /\ api_method r = Str.lit "POST" /\
                   api_headers r = [(Str.lit "Content-Type", Str.lit "application/json")] /\
                   exists p, Str.trim p <> [] /\ api_body r = payload p)
         (requests (ig_after ig_generated)).
Proof. apply (ig_requests_well_formed (ig_after ig_generated)). apply ig_after_reachable. Defined.

(** While a request is in flight it is the request for the prompt on
    the page: the text area is locked, and the last request sent carries
    the prompt the page shows. *)
Lemma ig_request_for_prompt c :
  reachable c -> isLoading (state c) = true ->
  view_locked (render (state c)) = true /\
  (api_body <$> last (requests c)) = Some (payload (view_prompt (render (state c)))).
Proof.
  intros HI%ig_reachable_Inv Hl. destruct (inv_loading _ HI Hl) as (_ & _ & -> & _).
  by split.
Qed.

Lemma ig_request_for_prompt_witness :
  (api_body <$> last (requests (ig_after ig_answered))) = Some (payload lion).
Proof.
  apply (ig_request_for_prompt (ig_after ig_answered)); [apply ig_after_reachable|done].
Defined.

End ig_reachable.

(** ** The handler, branch by branch *)

Section ig_handler.
Implicit Types (c : Config) (t : nat) (s : State).

(** Submitting sends one request to the service, with the prompt on the
    page in its body, sets the loading flag, and clears the image and the
    message of the submission before. *)
Lemma ig_submit_request c :
  enabled Submit c = true ->
  exists c', step Submit c = Some c' /\
    requests c' = requests c ++ [apiRequest (prompt (state c))] /\
    tasks c' = tasks c ++ [AwaitFetch] /\
    state c' = mkState (prompt (state c)) None true None.
Proof.
  intros [_ Hp%negb_false_iff]%negb_true_iff%orb_false_iff. eexists. split; [done|].
  simpl in *. unfold handleGenerateImage. by rewrite Hp.
Qed.

Lemma ig_submit_request_witness :
  exists c', step Submit (ig_after [PromptChange lion]) = Some c' /\
    requests c' = [apiRequest lion] /\ tasks c' = [AwaitFetch] /\
    state c' = mkState lion None true None.
Proof. apply (ig_submit_request (ig_after [PromptChange lion])). done. Defined.

(** The [catch] of a suspended call ends it with a message on the page. *)
Lemma ig_catch_shown c t k err :
  Inv c -> tasks c !! t = Some k -> active k = true ->
  let c' := setTask t Finished (catchFinally err c) in
  isLoading (state c') = false /\ tasks c' = <[t := Finished]> (tasks c) /\
  view_alert (render (state c')) = Some (failurePrefix ++ errorMessage err) /\
  view_image (render (state c')) = None /\ view_download (render (state c')) = None.
Proof.
  intros HI Ht Hk c'. pose proof (ig_Inv_active_loading _ _ _ HI Ht Hk) as Hl.
  destruct (inv_loading _ HI Hl) as (Hi & _). subst c'. unfold catchFinally. ig_cfg.
  split_and!; try done; unfold render; simpl; by rewrite ?Hi.
Qed.

(** The URL the handler builds from an answer with an image. *)
Lemma ig_generatedImageUrl_image ms first rest b :
  Json.member (Str.lit "predictions") ms = Some (Json.JArray (Json.JObject first :: rest)) ->
  Json.member (Str.lit "bytesBase64Encoded") first = Some (Json.JString b) -> b <> [] ->
  generatedImageUrl (Json.JObject ms) = Fulfilled (dataPrefix ++ b).
Proof.
  intros Hp Hb Hne%truthy_nonempty. unfold generatedImageUrl, Json.prop. rewrite Hp.
  cbn [Json.truthy Json.length_positive Json.index0 head Json.prop_of Json.prop length].
  rewrite bool_decide_true by (simpl; lia). cbn [mbind outcome_bind]. rewrite Hb.
  cbn [Json.truthy Json.string_of Json.to_string mbind outcome_bind]. by rewrite Hne.
Qed.

(** A settled body whose reading gives [o] ends the call accordingly. *)
Lemma ig_onJson_eq c t result o :
  tasks c !! t = Some AwaitJson -> generatedImageUrl result = o ->
  step (JsonSettled t (Fulfilled result)) c =
  Some match o with
       | Fulfilled url =>
           setTask t Finished
             (render_with (setIsLoading false (setImageUrl (Some url) (state c))) c)
       | Rejected err => setTask t Finished (catchFinally err c)
       end.
Proof. intros Ht Hg. cbn [step]. unfold onJson. cbn [mbind outcome_bind]. by rewrite Ht, Hg. Qed.

(** An answer that has a list of predictions whose first member has a
    non-empty string under [bytesBase64Encoded] ends the call with the
    image on the page: a [data:] URL of that string, with the prompt as the
    text of the image and the download link beside it. *)
Lemma ig_image_shown c t ms first rest b :
  reachable c -> tasks c !! t = Some AwaitJson ->
  Json.member (Str.lit "predictions") ms = Some (Json.JArray (Json.JObject first :: rest)) ->
  Json.member (Str.lit "bytesBase64Encoded") first = Some (Json.JString b) -> b <> [] ->
  exists c', step (JsonSettled t (Fulfilled (Json.JObject ms))) c = Some c' /\
    isLoading (state c') = false /\
    view_image (render (state c')) = Some (dataPrefix ++ b, prompt (state c)) /\
    view_download (render (state c')) = Some (dataPrefix ++ b, getDownloadFileName (state c)) /\
    view_alert (render (state c')) = None.
Proof.
  intros HI%ig_reachable_Inv Ht Hp Hb Hne.
  pose proof (ig_Inv_active_loading _ _ _ HI Ht eq_refl) as Hl.
  destruct (inv_loading _ HI Hl) as (_ & He & _).
  eexists. split; [by eapply ig_onJson_eq, ig_generatedImageUrl_image|].
  ig_cfg. split; [done|].
  by destruct (ig_render_image (setIsLoading false (setImageUrl (Some (dataPrefix ++ b)) (state c)))
              b eq_refl He eq_refl) as (-> & -> & -> & _).
Qed.

Lemma ig_image_shown_witness :
  exists c', step (JsonSettled 0 (Fulfilled picture)) (ig_after ig_answered) = Some c' /\
    isLoading (state c') = false /\
    view_image (render (state c')) = Some (dataPrefix ++ Str.lit "iVBORw0KGgo=", lion) /\
    view_download (render (state c')) =
      Some (dataPrefix ++ Str.lit "iVBORw0KGgo=", Str.lit "a-majestic-lion.png") /\
    view_alert (render (state c')) = None.
Proof.
  apply (ig_image_shown (ig_after ig_answered) 0 predictions prediction []
           (Str.lit "iVBORw0KGgo="));
    [apply ig_after_reachable|done..].
Defined.

Lemma ig_generatedImageUrl_imageless ms :
  imageless ms -> generatedImageUrl (Json.JObject ms) = Rejected invalidImage.
Proof.
  unfold generatedImageUrl, Json.prop. intros [->|[->|(first & rest & -> & Hb)]]; [done..|].
  cbn [Json.truthy Json.length_positive Json.index0 head Json.prop_of Json.prop length].
  rewrite bool_decide_true by (simpl; lia). cbn [mbind outcome_bind]. by rewrite Hb.
Qed.

Lemma ig_generatedImageUrl_unreadable result name :
  unreadable result name -> generatedImageUrl result = Rejected (Exn.null_read name).
Proof.
  unfold generatedImageUrl, Json.prop. intros [[-> ->]|(ms & rest & -> & -> & ->)]; [done|].
  cbn [Json.truthy Json.length_positive Json.index0 head Json.prop_of Json.prop length].
  by rewrite bool_decide_true by (simpl; lia).
Qed.

(** An answer read as an error ends the call in the [catch] clause. *)
Lemma ig_answer_rejected c t result err :
  reachable c -> tasks c !! t = Some AwaitJson ->
  generatedImageUrl result = Rejected err ->
  exists c', step (JsonSettled t (Fulfilled result)) c = Some c' /\
    isLoading (state c') = false /\
    view_alert (render (state c')) = Some (failurePrefix ++ errorMessage err) /\
    view_image (render (state c')) = None /\ view_download (render (state c')) = None.
Proof.
  intros HI%ig_reachable_Inv Ht Hg. eexists. split; [by eapply ig_onJson_eq|].
  by destruct (ig_catch_shown c t AwaitJson err HI Ht eq_refl) as (? & _ & ? & ? & ?).
Qed.

(** An answer in which no image can be found ends the call with the
    message that the service did not return a valid image, and with no
    image and no download link on the page. *)
Lemma ig_invalid_answer c t ms :
  reachable c -> tasks c !! t = Some AwaitJson -> imageless ms ->
  exists c', step (JsonSettled t (Fulfilled (Json.JObject ms))) c = Some c' /\
    isLoading (state c') = false /\
    view_alert (render (state c')) =
      Some (Str.lit "Failed to generate image: API did not return a valid image.") /\
    view_image (render (state c')) = None /\ view_download (render (state c')) = None.
Proof.
  intros Hc Ht Hms.
  exact (ig_answer_rejected c t _ _ Hc Ht (ig_generatedImageUrl_imageless ms Hms)).
Qed.

Lemma ig_invalid_answer_witness :
  exists c', step (JsonSettled 0 (Fulfilled filtered)) (ig_after ig_answered) = Some c' /\
    isLoading (state c') = false /\
    view_alert (render (state c')) =
      Some (Str.lit "Failed to generate image: API did not return a valid image.") /\
    view_image (render (state c')) = None /\ view_download (render (state c')) = None.
Proof.
  apply (ig_invalid_answer (ig_after ig_answered) 0
           [(Str.lit "predictions", Json.JArray [])]);
    [apply ig_after_reachable|done|right; by left].
Defined.

(** C36. An answer that is [null], or whose list of predictions starts with
    [null], is not classified as an invalid answer: the handler's read of
    the missing property throws, and the page shows the engine's
    [TypeError] text after the prefix. *)
Theorem ig_unreadable_answer c t result name :
  reachable c -> tasks c !! t = Some AwaitJson -> unreadable result name ->
  exists c', step (JsonSettled t (Fulfilled result)) c = Some c' /\
    view_alert (render (state c')) =
      Some (failurePrefix ++ Str.lit "Cannot read properties of null (reading '"
              ++ name ++ Str.lit "')") /\
    view_alert (render (state c')) <>
      Some (Str.lit "Failed to generate image: API did not return a valid image.").
Proof.
  intros Hc Ht Hr%ig_generatedImageUrl_unreadable.
  destruct (ig_answer_rejected c t _ _ Hc Ht Hr) as (c' & Hs & _ & Ha & _).
  exists c'. split_and!; [done..|]. rewrite Ha. intros [=].
Qed.

Lemma ig_unreadable_answer_witness :
  exists c', step (JsonSettled 0 (Fulfilled hollow_answer)) (ig_after ig_answered) = Some c' /\
    view_alert (render (state c')) =
      Some (failurePrefix ++ Str.lit "Cannot read properties of null (reading '"
              ++ Str.lit "bytesBase64Encoded" ++ Str.lit "')") /\
    view_alert (render (state c')) <>
      Some (Str.lit "Failed to generate image: API did not return a valid image.").
Proof.
  apply (ig_unreadable_answer (ig_after ig_answered) 0 hollow_answer
           (Str.lit "bytesBase64Encoded"));
    [apply ig_after_reachable|done|].
  right. by exists [(Str.lit "predictions", Json.JArray [Json.JNull])], [].
Defined.

(** The error built from the body of a refused request: the service's
    message when the body has one, the default when it has none. *)
Lemma ig_apiError_message ms es m :
  Json.member (Str.lit "error") ms = Some (Json.JObject es) ->
  Json.member (Str.lit "message") es = Some (Json.JString m) -> m <> [] ->
  apiError (Json.JObject ms) = Exn.ErrorObj m.
Proof.
  intros He Hm Hne%truthy_nonempty. unfold apiError, Json.prop. rewrite He.
  cbn [mbind outcome_bind Json.opt_prop Json.prop]. rewrite Hm.
  cbn [Json.truthy Json.string_of Json.to_string]. by rewrite Hne.
Qed.

Lemma ig_apiError_default ms :
  Json.member (Str.lit "error") ms = None ->
  apiError (Json.JObject ms) = Exn.ErrorObj (Str.lit "The API returned an error.").
Proof. intros He. unfold apiError, Json.prop. by rewrite He. Qed.

(** The body of a refused request ends the call with the service's own
    message on the page, after the prefix, when the body has a non-empty
    string under [error.message]. *)
Lemma ig_refusal_shown c t ms es m :
  reachable c -> tasks c !! t = Some AwaitErrorJson ->
  Json.member (Str.lit "error") ms = Some (Json.JObject es) ->
  Json.member (Str.lit "message") es = Some (Json.JString m) -> m <> [] ->
  exists c', step (ErrorJsonSettled t (Fulfilled (Json.JObject ms))) c = Some c' /\
    isLoading (state c') = false /\
    view_alert (render (state c')) = Some (failurePrefix ++ m) /\
    view_image (render (state c')) = None /\ view_download (render (state c')) = None.
Proof.
  intros HI%ig_reachable_Inv Ht He Hm Hne. eexists. split; [by cbn [step]; rewrite Ht|].
  cbn [onErrorJson]. rewrite (ig_apiError_message ms es m) by done.
  by destruct (ig_catch_shown c t AwaitErrorJson (Exn.ErrorObj m) HI Ht eq_refl)
    as (? & _ & ? & ? & ?).
Qed.

Lemma ig_refusal_shown_witness :
  exists c', step (ErrorJsonSettled 0 (Fulfilled refusal)) (ig_after ig_refused) = Some c' /\
    isLoading (state c') = false /\
    view_alert (render (state c')) = Some (failurePrefix ++ Str.lit "API key not valid.") /\
    view_image (render (state c')) = None /\ view_download (render (state c')) = None.
Proof.
  apply (ig_refusal_shown (ig_after ig_refused) 0 refusal_members refusal_error
           (Str.lit "API key not valid."));
    [apply ig_after_reachable|done..].
Defined.

(** A rejected promise, at whichever await, ends the call with a
    message on the page: the error's own after the prefix, or the words
    for an unknown error when the value thrown is not an [Error]. *)
Lemma ig_failure_shown c t k e err :
  reachable c -> tasks c !! t = Some k ->
  (k = AwaitFetch /\ e = FetchSettled t (Rejected err)) \/
  (k = AwaitErrorJson /\ e = ErrorJsonSettled t (Rejected err)) \/
  (k = AwaitJson /\ e = JsonSettled t (Rejected err)) ->
  exists c', step e c = Some c' /\
    isLoading (state c') = false /\
    view_alert (render (state c')) = Some (failurePrefix ++ errorMessage err) /\
    view_image (render (state c')) = None /\ view_download (render (state c')) = None.
Proof.
  intros HI%ig_reachable_Inv Ht He.
  assert (active k = true) as Hk by (by destruct He as [[-> _]|[[-> _]|[-> _]]]).
  destruct (ig_catch_shown c t k err HI Ht Hk) as (? & _ & ? & ? & ?).
  exists (setTask t Finished (catchFinally err c)).
  by destruct He as [[-> ->]|[[-> ->]|[-> ->]]]; cbn [step]; rewrite Ht.
Qed.

Lemma ig_failure_shown_witness :
  exists c', step (FetchSettled 0 (Rejected Exn.NotAnError)) (ig_after ig_submitted) = Some c' /\
    isLoading (state c') = false /\
    view_alert (render (state c')) =
      Some (failurePrefix ++ Str.lit "An unknown error occurred.") /\
    view_image (render (state c')) = None /\ view_download (render (state c')) = None.
Proof.
  apply (ig_failure_shown (ig_after ig_submitted) 0 AwaitFetch _ Exn.NotAnError);
    [apply ig_after_reachable|done|by left].
Defined.

End ig_handler.
