(* ===== verification/ImageGeneratorReading.v ===== *)
(** * The image generator form: how every answer is read

    [response.json()] may deliver any JSON value.  Lines 56 to 61 read it
    with property accesses, truthiness tests, a comparison of [length] with
    zero and a conversion to string, each of which is defined on every
    value (Json.v, Number.v).  This file lists what the block can throw,
    proves that every answer ends the call with the image or with one of
    those errors on the page, and follows the answers the comparison and
    the conversion decide: a list of predictions that is an object with a
    [length], and image data that is not a string.

    The operations of Json.v cannot tell two answers apart that differ in
    the order of the members of an object, or in members that a later one
    shadows (JsonEquiv.v).  Section ig_answers lifts that to the form: two
    such answers end a call in the same configuration. *)

From stdpp Require Import base tactics option list strings.
From Stdlib Require Import Lia.
From S2P Require Import Prelude Js Number Remote Flight Json JsonEquiv.
From S2P Require Import ImageGenerator ImageGeneratorInv ImageGeneratorProps.
Import ImageGenerator.

(** What lines 56 to 61 can throw: the error of line 60, the [TypeError] of
    a property read of [null] or of [undefined], and that of a conversion. *)
Definition reading_errors : list Exn.thrown :=
  [invalidImage;
   Exn.null_read (Str.lit "predictions");
   Exn.null_read (Str.lit "bytesBase64Encoded");
   Exn.undefined_read (Str.lit "bytesBase64Encoded");
   Exn.not_primitive].

(** An answer whose predictions are an object with a [length] written as
    text and a member named [0]. *)
Definition array_like (length : jsstring) : Json.value :=
  Json.JObject
    [(Str.lit "predictions",
      Json.JObject
        [(Str.lit "length", Json.JString length); (Str.lit "0", Json.JObject prediction)])].

(** An answer whose image data is an object that hides [toString]. *)
Definition opaque_image : Json.value :=
  Json.JObject
    [(Str.lit "predictions",
      Json.JArray
        [Json.JObject
           [(Str.lit "bytesBase64Encoded",
             Json.JObject [(Str.lit "toString", Json.JNull)])]])].

(** The sample answer with the members of the prediction in the other
    order. *)
Definition shuffled : Json.value :=
  Json.JObject
    [(Str.lit "predictions",
      Json.JArray
        [Json.JObject
           [(Str.lit "bytesBase64Encoded", Json.JString (Str.lit "iVBORw0KGgo="));
            (Str.lit "mimeType", Json.JString (Str.lit "image/png"))]])].

(** Membership in a list written out. *)
Ltac listed := by repeat first [apply list_elem_of_here|apply list_elem_of_further].

Section ig_reading.
Implicit Types (c : Config) (t : nat) (result : Json.value) (err : Exn.thrown).

(** The block throws nothing else. *)
Lemma ig_generatedImageUrl_rejected result err :
  generatedImageUrl result = Rejected err -> err ∈ reading_errors.
Proof.
  unfold generatedImageUrl, reading_errors.
  destruct (Json.prop (Str.lit "predictions") result) as [[p|]|e] eqn:Hp.
  - destruct (Json.truthy (Some p)); [|intros [= <-]; listed].
    intros [->%length_positive_rejected|([] & _ & H)]%outcome_bind_rejected;
      [listed| |injection H as <-; listed].
    apply outcome_bind_rejected in H as [[->| ->]%prop_of_rejected|(bytes & _ & H)];
      [listed..|].
    destruct (Json.truthy bytes); [|injection H as <-; listed].
    apply outcome_bind_rejected in H as [->%string_of_rejected|(? & _ & [=])]. listed.
  - intros [= <-]. listed.
  - apply prop_rejected in Hp as [_ ->]. intros [= <-]. listed.
Qed.

(** C18. Every answer is read to an end: whatever JSON value the body of an
    accepted request is, the call ends with the loading flag clear and the
    page shows either the image, under a [data:] URL, or the message of one
    of the five errors the reading can throw, and no image. *)
Theorem ig_reading_total c t result :
  reachable c -> tasks c !! t = Some AwaitJson ->
  exists c', step (JsonSettled t (Fulfilled result)) c = Some c' /\
    isLoading (state c') = false /\
    ((exists encoded,
        view_image (render (state c')) = Some (dataPrefix ++ encoded, prompt (state c)) /\
        view_alert (render (state c')) = None) \/
     (exists err, err ∈ reading_errors /\
        view_alert (render (state c')) = Some (failurePrefix ++ errorMessage err) /\
        view_image (render (state c')) = None)).
Proof.
  intros Hc Ht. pose proof (ig_reachable_Inv _ Hc) as HI.
  pose proof (ig_Inv_active_loading _ _ _ HI Ht eq_refl) as Hl.
  destruct (inv_loading _ HI Hl) as (_ & He & _).
  pose proof (ig_onJson_eq c t result _ Ht eq_refl) as Hs.
  destruct (generatedImageUrl result) as [u|err] eqn:Hg; eexists; (split; [exact Hs|]).
  - apply ig_generatedImageUrl_prefix in Hg as [b ->]. ig_cfg. split; [done|]. left. exists b.
    by destruct (ig_render_image
                   (setIsLoading false (setImageUrl (Some (dataPrefix ++ b)) (state c)))
                   b eq_refl He eq_refl) as (-> & _ & -> & _).
  - destruct (ig_catch_shown c t AwaitJson err HI Ht eq_refl) as (? & _ & ? & ? & _).
    split; [done|]. right. exists err. by split; [apply (ig_generatedImageUrl_rejected result)|].
Qed.

Lemma ig_reading_total_witness :
  exists c', step (JsonSettled 0 (Fulfilled opaque_image)) (ig_after ig_answered) = Some c' /\
    isLoading (state c') = false /\
    ((exists encoded,
        view_image (render (state c')) =
          Some (dataPrefix ++ encoded, prompt (state (ig_after ig_answered))) /\
        view_alert (render (state c')) = None) \/
     (exists err, err ∈ reading_errors /\
        view_alert (render (state c')) = Some (failurePrefix ++ errorMessage err) /\
        view_image (render (state c')) = None)).
Proof.
  apply (ig_reading_total (ig_after ig_answered) 0 opaque_image);
    [apply ig_after_reachable|reflexivity].
Defined.

(** Image data that hides [toString] cannot be put in the URL: the page
    shows the engine's words for it. *)
Lemma ig_opaque_image_read :
  generatedImageUrl opaque_image = Rejected Exn.not_primitive.
Proof. reflexivity. Qed.

(** Predictions need not be a list: an object with a [length] and a member
    named [0] is read the same way, and its [length] may be text, which is
    then read as a number. *)
Lemma ig_array_like_read length :
  generatedImageUrl (array_like length) =
  if Num.positive (Num.of_string length)
  then Fulfilled (dataPrefix ++ Str.lit "iVBORw0KGgo=")
  else Rejected invalidImage.
Proof.
  cbv -[Num.positive Num.of_string]. by destruct (Num.positive (Num.of_string length)).
Qed.

(** A length too small for a double counts as zero, and one written in
    hexadecimal counts. *)
Lemma ig_array_like_lengths :
  generatedImageUrl (array_like (Str.lit "1e-400")) = Rejected invalidImage /\
  generatedImageUrl (array_like (Str.lit "0x1")) =
    Fulfilled (dataPrefix ++ Str.lit "iVBORw0KGgo=").
Proof. by rewrite !ig_array_like_read. Qed.

(** The image data is not checked to be a string: whatever is truthy and
    converts to a string is put in the URL. *)
Lemma ig_payload_converted ms first rest bytes encoded :
  Json.member (Str.lit "predictions") ms = Some (Json.JArray (Json.JObject first :: rest)) ->
  Json.member (Str.lit "bytesBase64Encoded") first = Some bytes ->
  Json.truthy (Some bytes) = true -> Json.to_string bytes = Fulfilled encoded ->
  generatedImageUrl (Json.JObject ms) = Fulfilled (dataPrefix ++ encoded).
Proof.
  intros Hp Hb Ht Hs. unfold generatedImageUrl, Json.prop. rewrite Hp.
  cbn [Json.truthy Json.length_positive Json.index0 head Json.prop_of Json.prop length].
  rewrite bool_decide_true by (simpl; lia). cbn [mbind outcome_bind]. rewrite Hb, Ht.
  cbn [Json.string_of]. by rewrite Hs.
Qed.

End ig_reading.

Section ig_answers.
Implicit Types (c : Config) (t : nat) (result errorData : Json.value).

#[export] Instance generatedImageUrl_proper : Proper (Json_same ==> eq) generatedImageUrl.
Proof.
  intros v w Hvw. unfold generatedImageUrl.
  destruct (prop_proper (Str.lit "predictions") v w Hvw) as [o o' [p p' Hp|]|e]; [|done..].
  rewrite <- Hp, <- (length_positive_proper p p' Hp).
  destruct (Json.truthy (Some p)); [|done].
  destruct (Json.length_positive p) as [[]|]; [|done..]. cbn [mbind outcome_bind].
  destruct (prop_of_proper (Str.lit "bytesBase64Encoded") _ _ (index0_proper p p' Hp))
    as [b b' Hb|e]; [|done]. cbn [mbind outcome_bind].
  by rewrite <- (truthy_proper b b' Hb), <- (string_of_proper b b' Hb).
Qed.

#[export] Instance apiError_proper : Proper (Json_same ==> eq) apiError.
Proof.
  intros v w Hvw. unfold apiError.
  destruct (settled_bind_proper _ (option_Forall2 Json_same)
              (Json.opt_prop (Str.lit "message")) (Json.opt_prop (Str.lit "message")) _ _
              (prop_proper (Str.lit "error") v w Hvw)) as [m m' Hm|e]; [| |done].
  - apply opt_prop_proper.
  - by rewrite <- (truthy_proper m m' Hm), <- (string_of_proper m m' Hm).
Qed.

(** Answers that read the same end the call the same way: the image
    stored, or the error shown, does not depend on the order in which the
    service writes the members of its objects, nor on members that are
    shadowed. *)
Lemma ig_answer_members_unordered c t result result' :
  Json_same result result' ->
  onJson t (Fulfilled result) c = onJson t (Fulfilled result') c /\
  onErrorJson t (Fulfilled result) c = onErrorJson t (Fulfilled result') c.
Proof. intros H. unfold onJson. cbn [onErrorJson mbind outcome_bind]. by rewrite H. Qed.

Lemma ig_answer_members_unordered_witness :
  onJson 0 (Fulfilled picture) (ig_after ig_answered) =
    onJson 0 (Fulfilled shuffled) (ig_after ig_answered) /\
  onErrorJson 0 (Fulfilled picture) (ig_after ig_answered) =
    onErrorJson 0 (Fulfilled shuffled) (ig_after ig_answered).
Proof.
  apply (ig_answer_members_unordered (ig_after ig_answered) 0 picture shuffled).
  apply same_members. constructor; [|constructor]. split; [done|]. constructor.
  constructor; [|constructor]. apply same_permutation; [compute_done|apply Permutation_swap].
Defined.

End ig_answers.
