(* ===== verification/ImageGeneratorRuns.v ===== *)
(** * The image generator form: a submission from its request to its end

    The handler reads an exchange with the service await by await.  This
    file states what it computes in one piece ([apiOutcome]: the image's
    URL, or the error the [catch] clause receives), proves that the
    handler's stretches compose to it, and bounds the settlements a
    submission waits for: two at most, after which the loading flag is
    clear. *)

From stdpp Require Import base tactics option list strings.
From Stdlib Require Import Lia.
From S2P Require Import Prelude Js Remote Flight Json.
From S2P Require Import ImageGenerator ImageGeneratorInv ImageGeneratorProps.
Import ImageGenerator.

(** A settled exchange: how [fetch] settled, and how reading the body would
    settle for a refused and for an accepted request. *)
Record ApiExchange : Type := mkApiExchange {
  ax_fetch : settled Response;
  ax_error : settled Json.value;
  ax_result : settled Json.value;
}.

(** The URL of the image of an exchange, or the error the handler's [catch]
    receives. *)
Definition apiOutcome (x : ApiExchange) : settled jsstring :=
  match ax_fetch x with
  | Rejected e => Rejected e
  | Fulfilled r =>
      if ok r then ax_result x ≫= generatedImageUrl
      else
        Rejected match ax_error x with
                 | Rejected e => e
                 | Fulfilled errorData => apiError errorData
                 end
  end.

(** The events of one exchange, as the handler awaits them. *)
Definition api_events (t : nat) (x : ApiExchange) : list Event :=
  FetchSettled t (ax_fetch x) ::
  match ax_fetch x with
  | Fulfilled r =>
      if ok r then [JsonSettled t (ax_result x)] else [ErrorJsonSettled t (ax_error x)]
  | Rejected _ => []
  end.

(** The end of a call: the image stored, or the [catch] clause; the
    [finally] clause in both. *)
Definition finish (t : nat) (o : settled jsstring) (c : Config) : Config :=
  match o with
  | Fulfilled url =>
      setTask t Finished (render_with (setIsLoading false (setImageUrl (Some url) (state c))) c)
  | Rejected err => setTask t Finished (catchFinally err c)
  end.

(** The promises a call at stage [k] still waits for, at most. *)
Definition awaits (k : Task) : nat :=
  match k with
  | AwaitFetch => 2
  | AwaitErrorJson | AwaitJson => 1
  | Finished => 0
  end.

Abbreviation remaining := (Flight.remaining awaits).

(** The events that settle a promise. *)
Definition settlement (e : Event) : bool :=
  match e with PromptChange _ | Submit => false | _ => true end.

Definition quota : ApiExchange :=
  mkApiExchange (Fulfilled (mkResponse false)) (Fulfilled refusal) (Fulfilled picture).

Section ig_runs.
Implicit Types (c : Config) (t : nat) (x : ApiExchange) (k : Task).

Lemma ig_setTask_lookup t k k0 c :
  tasks c !! t = Some k0 -> tasks (setTask t k c) !! t = Some k.
Proof. intros H%lookup_lt_Some. simpl. by apply list_lookup_insert_eq. Qed.

Lemma ig_finish_setTask t k o c : finish t o (setTask t k c) = finish t o c.
Proof.
  destruct o; unfold finish, catchFinally, render_with, setTask; simpl;
    by rewrite list_insert_insert_eq.
Qed.

(** The body of an accepted request, once read, ends the call. *)
Lemma ig_onJson_finish c t r : onJson t r c = finish t (r ≫= generatedImageUrl) c.
Proof. done. Qed.

(** The handler, await by await, implements the one-shot reading of an
    exchange: played on a call that waits for its response, the events of
    an exchange end the call with the image that [apiOutcome] finds stored,
    or in the [catch] clause with the error it finds. *)
Lemma ig_exchange_play c t x :
  tasks c !! t = Some AwaitFetch ->
  play (api_events t x) c = Some (finish t (apiOutcome x) c).
Proof.
  intros Ht. unfold api_events, apiOutcome.
  destruct (ax_fetch x) as [[[]]|err]; cbn [play enabled step]; rewrite Ht;
    cbn [mbind option_bind onFetch ok]; [| |done].
  - cbn [play enabled step]. erewrite ig_setTask_lookup by done.
    cbn [mbind option_bind]. by rewrite ig_onJson_finish, ig_finish_setTask.
  - cbn [play enabled step]. erewrite ig_setTask_lookup by done.
    destruct (ax_error x); cbn; f_equal;
      apply (ig_finish_setTask t AwaitErrorJson (Rejected _) c).
Qed.

Lemma ig_exchange_play_witness :
  play (api_events 0 quota) (ig_after ig_submitted) =
  Some (finish 0 (apiOutcome quota) (ig_after ig_submitted)).
Proof. apply (ig_exchange_play (ig_after ig_submitted) 0 quota). reflexivity. Defined.

(** An image that an exchange delivers is a [data:] URL. *)
Lemma ig_apiOutcome_prefix x u :
  apiOutcome x = Fulfilled u -> exists b, u = dataPrefix ++ b.
Proof.
  unfold apiOutcome. intros H. repeat case_match; simplify_eq.
  apply outcome_bind_fulfilled in H as (result & _ & H).
  by eapply ig_generatedImageUrl_prefix.
Qed.

(** C17. Whatever the service answers, the submission ends: once the
    promises of the exchange have settled, with any JSON value as the
    body, the loading flag is clear and the page shows the image the
    exchange delivered, under the prompt that was submitted, or the message
    of the error it ended with. *)
Theorem ig_always_settles c t x :
  reachable c -> tasks c !! t = Some AwaitFetch ->
  exists c', play (api_events t x) c = Some c' /\
    isLoading (state c') = false /\
    match apiOutcome x with
    | Fulfilled u =>
        view_image (render (state c')) = Some (u, prompt (state c)) /\
        view_alert (render (state c')) = None
    | Rejected err =>
        view_alert (render (state c')) = Some (failurePrefix ++ errorMessage err) /\
        view_image (render (state c')) = None
    end.
Proof.
  intros HI%ig_reachable_Inv Ht. exists (finish t (apiOutcome x) c).
  rewrite ig_exchange_play by done. split; [done|].
  pose proof (ig_Inv_active_loading _ _ _ HI Ht eq_refl) as Hl.
  destruct (inv_loading _ HI Hl) as (_ & He & _).
  destruct (apiOutcome x) as [u|err] eqn:Ho.
  - apply ig_apiOutcome_prefix in Ho as [b ->]. cbn [finish]. ig_cfg. split; [done|].
    by destruct (ig_render_image
                   (setIsLoading false (setImageUrl (Some (dataPrefix ++ b)) (state c)))
                   b eq_refl He eq_refl) as (-> & _ & -> & _).
  - by destruct (ig_catch_shown c t AwaitFetch err HI Ht eq_refl) as (? & _ & ? & ? & _).
Qed.

Lemma ig_always_settles_witness :
  exists c', play (api_events 0 quota) (ig_after ig_submitted) = Some c' /\
    isLoading (state c') = false /\
    view_alert (render (state c')) = Some (failurePrefix ++ Str.lit "API key not valid.") /\
    view_image (render (state c')) = None.
Proof.
  apply (ig_always_settles (ig_after ig_submitted) 0 quota);
    [apply ig_after_reachable|reflexivity].
Defined.

(** Every settlement lowers the number of awaits left. *)
Lemma ig_settlement_lt e c c' :
  settlement e = true -> step e c = Some c' ->
  remaining (tasks c') < remaining (tasks c).
Proof.
  intros He Hs. destruct e as [| |t r|t r|t r]; try done; cbn [step] in Hs;
    destruct (tasks c !! t) as [[]|] eqn:Ht; try done.
  - injection Hs as <-. destruct r as [[[]]|]; simpl;
      (apply (remaining_insert_lt _ _ AwaitFetch); [done|simpl; lia]).
  - injection Hs as <-. destruct r; simpl;
      (apply (remaining_insert_lt _ _ AwaitErrorJson); [done|simpl; lia]).
  - injection Hs as <-. rewrite ig_onJson_finish.
    destruct (r ≫= generatedImageUrl); simpl;
      (apply (remaining_insert_lt _ _ AwaitJson); [done|simpl; lia]).
Qed.

(** A suspended call waits for a promise that can settle. *)
Lemma ig_can_settle c t k :
  tasks c !! t = Some k -> active k = true ->
  exists e c', settlement e = true /\ step e c = Some c'.
Proof.
  intros Ht Hk. destruct k; try done.
  - exists (FetchSettled t (Rejected Exn.NotAnError)). eexists. by cbn [step]; rewrite Ht.
  - exists (ErrorJsonSettled t (Rejected Exn.NotAnError)). eexists. by cbn [step]; rewrite Ht.
  - exists (JsonSettled t (Rejected Exn.NotAnError)). eexists. by cbn [step]; rewrite Ht.
Qed.

(** C16. A submission ends: the calls of the handler wait for two
    settlements at most between them, every settlement lowers that number,
    the loading flag is clear exactly when it is zero, and while it is not
    zero the page waits for a promise that can settle. *)
Theorem ig_submission_ends c :
  reachable c ->
  remaining (tasks c) <= 2 /\
  (remaining (tasks c) = 0 <-> isLoading (state c) = false) /\
  (forall e c', settlement e = true -> step e c = Some c' ->
                remaining (tasks c') < remaining (tasks c)) /\
  (isLoading (state c) = true -> exists e c', settlement e = true /\ step e c = Some c').
Proof.
  intros HI%ig_reachable_Inv.
  apply (submission_ends tasks (isLoading ∘ state) step settlement active awaits 2).
  - intros []; simpl; lia.
  - by intros [].
  - apply ig_settlement_lt.
  - apply ig_can_settle.
  - apply (inv_active _ HI).
Qed.

Lemma ig_submission_ends_witness :
  remaining (tasks (ig_after ig_answered)) <= 2 /\
  (remaining (tasks (ig_after ig_answered)) = 0 <->
   isLoading (state (ig_after ig_answered)) = false) /\
  (forall e c', settlement e = true -> step e (ig_after ig_answered) = Some c' ->
                remaining (tasks c') < remaining (tasks (ig_after ig_answered))) /\
  (isLoading (state (ig_after ig_answered)) = true ->
   exists e c', settlement e = true /\ step e (ig_after ig_answered) = Some c').
Proof. apply (ig_submission_ends (ig_after ig_answered)). apply ig_after_reachable. Defined.

End ig_runs.
