(* ===== verification/Guide.v ===== *)
(** * The guides below the converters (components/ImageConverter.jsx,
      ImageToPdfConverter.jsx, PdfToImageConverter.jsx)

    Below its form and results, each converter page renders the same two
    static sections: how to use the page, in three numbered steps, and four
    key features.  This file has their text (headings, numbers, titles and
    paragraphs, in the order of the markup; class names and icons are left
    out), and checks what the text says about the form against the form:
    the formats it names against the options of the select, and the button
    it names against the label the page renders. *)

From stdpp Require Import base tactics option list strings.
From S2P Require Import Prelude Js PdfToImage ImageConverter ImageToPdf.

Module Guide.

(** A step of the "how to" section: the number in the circle, the title and
    the paragraph. *)
Record Step : Type := mkStep {
  number : jsstring;
  step_title : jsstring;
  step_text : jsstring;
}.

(** A key feature: the title and the paragraph beside the icon. *)
Record Feature : Type := mkFeature {
  feature_title : jsstring;
  feature_text : jsstring;
}.

Record HowTo : Type := mkHowTo {
  heading : jsstring;
  steps : list Step;
}.

Record KeyFeatures : Type := mkKeyFeatures {
  title : jsstring;
  features : list Feature;
}.

(** Whether [word] occurs in [text]. *)
Fixpoint includes (word text : jsstring) : bool :=
  Str.starts_with word text ||
  match text with
  | [] => false
  | _ :: text' => includes word text'
  end.

(** A name in double quotes. *)
Definition quoted (name : jsstring) : jsstring := [34%N] ++ name ++ [34%N].

End Guide.

Module ImageConverterGuide.

Definition howTo : Guide.HowTo :=
  {| Guide.heading := Str.lit "How to Convert Images Free?";
     Guide.steps :=
       [Guide.mkStep (Str.lit "1") (Str.lit "Upload")
          (Str.lit "Select the image you want to change, then add it to our converter for processing.");
        Guide.mkStep (Str.lit "2") (Str.lit "Choose Format")
          (Str.lit "Our online converter turns your image into your chosen format in seconds.");
        Guide.mkStep (Str.lit "3") (Str.lit "Download")
          (Str.lit "Download your converted file. All remaining files will be deleted from our servers.")] |}.

Definition keyFeatures : Guide.KeyFeatures :=
  {| Guide.title := Str.lit "Key Features";
     Guide.features :=
       [Guide.mkFeature (Str.lit "Multiple Formats")
          (Str.lit "Convert to and from the most popular image formats, including JPEG, PNG, GIF, and BMP.");
        Guide.mkFeature (Str.lit "Instant Previews")
          (Str.lit "See a preview of your original image and the converted result side-by-side before you download.");
        Guide.mkFeature (Str.lit "Transparency Handling")
          (Str.lit "Automatically adds a white background when converting from transparent formats like PNG.");
        Guide.mkFeature (Str.lit "Secure & Private")
          (Str.lit "All conversions are done on our secure servers, and your files are never stored or shared.")] |}.

End ImageConverterGuide.

Module ImageToPdfGuide.

Definition howTo : Guide.HowTo :=
  {| Guide.heading := Str.lit "How to Convert Images to PDF?";
     Guide.steps :=
       [Guide.mkStep (Str.lit "1") (Str.lit "Upload Images")
          (Str.lit "Select one or more images you want to combine into a PDF document.");
        Guide.mkStep (Str.lit "2") (Str.lit "Create PDF")
          (Str.lit "Click the "
           ++ [34%N]
           ++ Str.lit "Convert to PDF"
           ++ [34%N]
           ++ Str.lit " button. Our tool will merge your images into a single file.");
        Guide.mkStep (Str.lit "3") (Str.lit "Download")
          (Str.lit "Download your new PDF file. All uploaded images are deleted from our servers for your privacy.")] |}.

Definition keyFeatures : Guide.KeyFeatures :=
  {| Guide.title := Str.lit "Key Features";
     Guide.features :=
       [Guide.mkFeature (Str.lit "Multi-Image Support")
          (Str.lit "Combine multiple images (JPG, PNG, GIF, BMP) into one convenient PDF document.");
        Guide.mkFeature (Str.lit "Page per Image")
          (Str.lit "Each image you upload is automatically placed on its own separate page for a clean, organized document.");
        Guide.mkFeature (Str.lit "High-Quality Output")
          (Str.lit "Your images are embedded in the PDF at their original quality, ensuring a crisp and professional result.");
        Guide.mkFeature (Str.lit "Secure & Private")
          (Str.lit "All conversions are done on our secure servers, and your files are never stored or shared.")] |}.

End ImageToPdfGuide.

Module PdfToImageGuide.

Definition howTo : Guide.HowTo :=
  {| Guide.heading := Str.lit "How to Convert PDF to Images?";
     Guide.steps :=
       [Guide.mkStep (Str.lit "1") (Str.lit "Upload PDF")
          (Str.lit "Select the PDF file you want to convert from your device.");
        Guide.mkStep (Str.lit "2") (Str.lit "Convert to Images")
          (Str.lit "Choose your desired output format (PNG or JPEG) and click the "
           ++ [34%N]
           ++ Str.lit "Convert"
           ++ [34%N]
           ++ Str.lit " button.");
        Guide.mkStep (Str.lit "3") (Str.lit "Download ZIP")
          (Str.lit "Your converted images will be bundled into a single ZIP file, ready for you to download.")] |}.

Definition keyFeatures : Guide.KeyFeatures :=
  {| Guide.title := Str.lit "Key Features";
     Guide.features :=
       [Guide.mkFeature (Str.lit "Full PDF Conversion")
          (Str.lit "Converts every page of your PDF document into a separate, high-quality image file.");
        Guide.mkFeature (Str.lit "Convenient ZIP Archive")
          (Str.lit "All generated images are conveniently packaged into a single ZIP file for easy downloading.");
        Guide.mkFeature (Str.lit "High-Resolution Output")
          (Str.lit "Images are rendered at 300 DPI to ensure they are crisp and clear for any use case.");
        Guide.mkFeature (Str.lit "Secure & Private")
          (Str.lit "Your files are processed securely and are immediately deleted from our servers after conversion.")] |}.

End PdfToImageGuide.

(** ** What the guides say about the forms *)

Section guides.
Implicit Types (word text : jsstring).

Lemma includes_spec word text :
  Guide.includes word text = true <-> exists p q, text = p ++ word ++ q.
Proof.
  split.
  - induction text as [|c text IH]; simpl.
    + rewrite orb_false_r. intros [r Hr]%starts_with_prefix. by exists [], r.
    + intros [[r Hr]%starts_with_prefix|(p & q & ->)%IH]%orb_true_iff.
      * by exists [], r.
      * by exists (c :: p), q.
  - intros (p & q & ->). induction p as [|c p IH]; simpl.
    + destruct (word ++ q) eqn:H; simpl; by rewrite <- H, starts_with_app.
    + by rewrite IH, orb_true_r.
Qed.

(** The steps of every guide are numbered from one, in order. *)
Lemma guide_steps_numbered :
  Forall (fun g => Guide.number <$> Guide.steps g = Str.of_nat <$> seq 1 (length (Guide.steps g)))
    [ImageConverterGuide.howTo; ImageToPdfGuide.howTo; PdfToImageGuide.howTo].
Proof. repeat constructor. Qed.

(** The image converter's guide names every format the select offers,
    by the label of its option. *)
Lemma ic_guide_formats :
  exists feature, feature ∈ Guide.features ImageConverterGuide.keyFeatures /\
    Guide.feature_title feature = Str.lit "Multiple Formats" /\
    Forall (fun option => Guide.includes option.2 (Guide.feature_text feature) = true)
      ImageConverter.formats.
Proof.
  eexists. split; [apply list_elem_of_here|]. split; [done|]. by repeat constructor.
Qed.

(** The PDF converter's guide names both formats the select offers. *)
Lemma p2i_guide_formats :
  exists step, Guide.steps PdfToImageGuide.howTo !! 1 = Some step /\
    Forall (fun option => Guide.includes option.2 (Guide.step_text step) = true)
      PdfToImageConverter.formats.
Proof. eexists. split; [done|]. by repeat constructor. Qed.

(** The image-to-PDF guide names the submit button by the label the page
    renders while no conversion is in flight. *)
Lemma i2p_guide_button s :
  ImageToPdfConverter.isLoading s = false ->
  exists step, Guide.steps ImageToPdfGuide.howTo !! 1 = Some step /\
    Guide.includes
      (Guide.quoted (ImageToPdfConverter.view_label (ImageToPdfConverter.render s)))
      (Guide.step_text step) = true.
Proof.
  intros Hl. eexists. split; [done|]. cbn [ImageToPdfConverter.render ImageToPdfConverter.view_label].
  by rewrite Hl.
Qed.

Lemma i2p_guide_button_witness :
  exists step, Guide.steps ImageToPdfGuide.howTo !! 1 = Some step /\
    Guide.includes
      (Guide.quoted (ImageToPdfConverter.view_label
                       (ImageToPdfConverter.render ImageToPdfConverter.initial)))
      (Guide.step_text step) = true.
Proof. apply (i2p_guide_button ImageToPdfConverter.initial). reflexivity. Defined.

(** The PDF converter's guide tells the user to click the [Convert]
    button in its second step.  The page has no button of that name: its
    submit button reads [3. Convert to Images], the title of the guide's
    second step behind the number three, or [Converting...]. *)
Lemma p2i_guide_button s v :
  PdfToImageConverter.render s = Fulfilled v ->
  exists step, Guide.steps PdfToImageGuide.howTo !! 1 = Some step /\
    Guide.number step = Str.lit "2" /\
    Guide.includes (Guide.quoted (Str.lit "Convert")) (Guide.step_text step) = true /\
    PdfToImageConverter.view_label v <> Str.lit "Convert" /\
    (PdfToImageConverter.isLoading s = false ->
     PdfToImageConverter.view_label v = Str.lit "3. " ++ Guide.step_title step).
Proof.
  intros Hv. eexists. split; [done|]. split; [done|]. split; [done|].
  unfold PdfToImageConverter.render in Hv.
  destruct (PdfToImageConverter.results s); simplify_eq/=.
  destruct (PdfToImageConverter.isLoading s); split; done.
Qed.

Lemma p2i_guide_button_witness :
  exists step, Guide.steps PdfToImageGuide.howTo !! 1 = Some step /\
    Guide.number step = Str.lit "2" /\
    Guide.includes (Guide.quoted (Str.lit "Convert")) (Guide.step_text step) = true /\
    Str.lit "3. Convert to Images" <> Str.lit "Convert" /\
    (PdfToImageConverter.isLoading PdfToImageConverter.initial = false ->
     Str.lit "3. Convert to Images" = Str.lit "3. " ++ Guide.step_title step).
Proof.
  apply (p2i_guide_button PdfToImageConverter.initial
           (default (PdfToImageConverter.mkView [] false [] None None)
              (match PdfToImageConverter.render PdfToImageConverter.initial with
               | Fulfilled v => Some v
               | Rejected _ => None
               end))).
  reflexivity.
Defined.

End guides.
