(* ===== verification/Shell.v ===== *)
(** * The application shell (src/my-tools-io/src/App.jsx, components/Navigation.jsx,
      components/Footer.jsx)

    [Module Navigation] models the header: its menu flag, its links, and
    what it renders.  [Module Footer] models the footer's text and links.
    [Module App] composes them with the forms: the routes, the page a path
    mounts, and the events of the whole application (the menu button, a
    link followed, an event of the mounted form).

    The links of the header are plain anchors, so following one loads the
    document anew: the application mounts again at the link's path, with
    every component at its first render.  The links of the footer name the
    fragment [#], which leaves the document and its components as they are.
    A path is matched against the routes by equality, which is how the
    router matches the paths the links name.  The application has no error
    boundary: a render that throws unmounts the whole tree. *)

From stdpp Require Import base tactics option list strings.
From S2P Require Import Prelude Js PdfToImage ImageToPdf ImageGenerator.

Module Navigation.

Record Link : Type := mkLink {
  href : jsstring;
  text : jsstring;
}.

Definition initial : bool := false.

Definition navLinks : list Link :=
  [mkLink (Str.lit "/image-to-pdf") (Str.lit "Image to PDF");
   mkLink (Str.lit "/pdf-to-image") (Str.lit "PDF to Image");
   mkLink (Str.lit "/image-generator") (Str.lit "AI Image Generation")].

(** The button's [onClick]. *)
Definition onClick (isMenuOpen : bool) : bool := negb isMenuOpen.

(** An anchor of a list: its key and its link. *)
Definition anchor (link : Link) : jsstring * Link := (text link, link).

(** What the header renders: the logo, the links of the wide layout, and
    the links of the menu when it is open. *)
Record View : Type := mkView {
  view_logo : Link;
  view_desktop : list (jsstring * Link);
  view_mobile : option (list (jsstring * Link));
}.

Definition render (isMenuOpen : bool) : View :=
  {| view_logo := mkLink (Str.lit "/") (Str.lit "PixelShift");
     view_desktop := anchor <$> navLinks;
     view_mobile := if isMenuOpen then Some (anchor <$> navLinks) else None |}.

(** The addresses a visitor can follow from the header. *)
Definition hrefs (v : View) : list jsstring :=
  href (view_logo v) :: (href ∘ snd <$> view_desktop v)
  ++ (href ∘ snd <$> default [] (view_mobile v)).

End Navigation.

Module Footer.

(** The copyright line for the year [new Date().getFullYear()] gives. *)
Definition notice (year : nat) : jsstring :=
  [169%N; 32%N] ++ Str.of_nat year ++ Str.lit " PixelShift. All Rights Reserved.".

Definition links : list Navigation.Link :=
  [Navigation.mkLink (Str.lit "#") (Str.lit "Privacy Policy");
   Navigation.mkLink (Str.lit "#") (Str.lit "Terms of Service");
   Navigation.mkLink (Str.lit "#") (Str.lit "Contact")].

End Footer.

Module App.

(** The elements of the routes. *)
Inductive Element : Type :=
| Home
| ImageToPDFConverter
| PdfToImageConverter
| ImageGenerator.

Definition routes : list (jsstring * Element) :=
  [(Str.lit "/", Home);
   (Str.lit "/image-to-pdf", ImageToPDFConverter);
   (Str.lit "/pdf-to-image", PdfToImageConverter);
   (Str.lit "/image-generator", ImageGenerator)].

(** The element [<Routes>] renders at a path, if any. *)
Definition route (path : jsstring) : option Element :=
  snd <$> find (fun r => bool_decide (r.1 = path)) routes.

(** A mounted page: the form with its configuration.  [Home] is not among
    the sources; its page is opaque. *)
Inductive Mounted : Type :=
| HomePage
| ImageToPdfPage (c : ImageToPdf.ImageToPdfConverter.Config)
| PdfToImagePage (c : PdfToImage.PdfToImageConverter.Config)
| GeneratorPage (c : ImageGenerator.ImageGenerator.Config).

Definition mount (element : Element) : Mounted :=
  match element with
  | Home => HomePage
  | ImageToPDFConverter => ImageToPdfPage ImageToPdf.ImageToPdfConverter.init
  | PdfToImageConverter => PdfToImagePage PdfToImage.PdfToImageConverter.init
  | ImageGenerator => GeneratorPage ImageGenerator.ImageGenerator.init
  end.

(** The application in a document: the path, the header's menu flag, and
    the page the routes mounted. *)
Record Config : Type := mkConfig {
  location : jsstring;
  isMenuOpen : bool;
  page : option Mounted;
}.

(** The document loaded at [path]. *)
Definition load (path : jsstring) : Config :=
  {| location := path; isMenuOpen := Navigation.initial; page := mount <$> route path |}.

Inductive Event : Type :=
| MenuClick
| Follow (href : jsstring)
| OnImageToPdf (e : ImageToPdf.ImageToPdfConverter.Event)
| OnPdfToImage (e : PdfToImage.PdfToImageConverter.Event)
| OnGenerator (e : ImageGenerator.ImageGenerator.Event).

(** The addresses on the page: those of the header and those of the
    footer. *)
Definition anchors (c : Config) : list jsstring :=
  Navigation.hrefs (Navigation.render (isMenuOpen c)) ++ (Navigation.href <$> Footer.links).

(** The tree is mounted: no render has thrown.  The application has no
    error boundary, so a render of a form that throws takes the header and
    the footer down with the form. *)
Definition up (c : Config) : bool :=
  match page c with
  | Some (PdfToImagePage p) => PdfToImage.PdfToImageConverter.alive p
  | _ => true
  end.

(** An event the page lets happen: the tree is mounted, a link followed is
    on the page, an event of a form is admitted by the form that is
    mounted. *)
Definition enabled (e : Event) (c : Config) : bool :=
  up c &&
  match e, page c with
  | MenuClick, _ => true
  | Follow href, _ => bool_decide (href ∈ anchors c)
  | OnImageToPdf e, Some (ImageToPdfPage p) => ImageToPdf.ImageToPdfConverter.enabled e p
  | OnPdfToImage e, Some (PdfToImagePage p) => PdfToImage.PdfToImageConverter.enabled e p
  | OnGenerator e, Some (GeneratorPage p) => ImageGenerator.ImageGenerator.enabled e p
  | _, _ => false
  end.

Definition with_page (m : Mounted) (c : Config) : Config :=
  mkConfig (location c) (isMenuOpen c) (Some m).

Definition step (e : Event) (c : Config) : option Config :=
  match e, page c with
  | MenuClick, _ => Some (mkConfig (location c) (Navigation.onClick (isMenuOpen c)) (page c))
  | Follow href, _ => Some (if bool_decide (href = Str.lit "#") then c else load href)
  | OnImageToPdf e, Some (ImageToPdfPage p) =>
      (fun p' => with_page (ImageToPdfPage p') c) <$> ImageToPdf.ImageToPdfConverter.step e p
  | OnPdfToImage e, Some (PdfToImagePage p) =>
      (fun p' => with_page (PdfToImagePage p') c) <$> PdfToImage.PdfToImageConverter.step e p
  | OnGenerator e, Some (GeneratorPage p) =>
      (fun p' => with_page (GeneratorPage p') c) <$> ImageGenerator.ImageGenerator.step e p
  | _, _ => None
  end.

(** A sequence of events played on the application. *)
Fixpoint play (es : list Event) (c : Config) : option Config :=
  match es with
  | [] => Some c
  | e :: es' => if enabled e c then c' ← step e c; play es' c' else None
  end.

(** The configurations of the application in the documents a visitor can
    get to from the address [path]. *)
Inductive reachable (path : jsstring) : Config -> Prop :=
| reachable_load : reachable path (load path)
| reachable_step e c c' :
    reachable path c -> enabled e c = true -> step e c = Some c' -> reachable path c'.

End App.
