(* ===== verification/ShellProps.v ===== *)
(** * The application shell: properties

    The links of the header lead to pages, the forms keep their own
    guarantees inside the application, and what a visit loses when a link
    is followed or a render throws. *)

From stdpp Require Import base tactics option list strings.
From S2P Require Import Prelude Js PdfToImage PdfToImageProps ImageToPdf ImageGenerator Shell.
Import App.

(** What a mounted page must satisfy: to be a configuration its form can
    reach. *)
Definition page_reachable (m : Mounted) : Prop :=
  match m with
  | HomePage => True
  | ImageToPdfPage p => ImageToPdf.ImageToPdfConverter.reachable p
  | PdfToImagePage p => PdfToImage.PdfToImageConverter.reachable p
  | GeneratorPage p => ImageGenerator.ImageGenerator.reachable p
  end.

(** An event of the mounted form: the form takes the step. *)
Ltac form_event :=
  match goal with
  | Hs : _ = Some _, IH : forall m, page ?c = Some m -> _ |- _ =>
      destruct (page c) as [[]|] eqn:?; try done;
      apply fmap_Some in Hs as (? & ? & ->); simplify_eq/=;
      econstructor; eauto; by apply (IH _ eq_refl)
  end.

Section shell.
Implicit Types (c : Config) (e : Event) (path h : jsstring) (b : bool).

Lemma app_mount_reachable element : page_reachable (mount element).
Proof. destruct element; simpl; auto; constructor. Qed.

Lemma app_load_reachable path m : page (load path) = Some m -> page_reachable m.
Proof.
  unfold load. simpl. intros (element & _ & ->)%fmap_Some. apply app_mount_reachable.
Qed.

(** Inside the application each form is in a configuration it can
    reach on its own: from the document loaded at any address, through any
    sequence of menu clicks, links followed and events of the forms, the
    mounted form has seen only events its page admits, starting from its
    first render. *)
Lemma app_page_reachable path c m :
  reachable path c -> page c = Some m -> page_reachable m.
Proof.
  intros Hc. revert m. induction Hc as [|e c c' Hc IH He Hs]; intros m Hm;
    [by eapply app_load_reachable|].
  apply andb_true_iff in He as [Hup He]. unfold up in Hup.
  destruct e as [|h|e|e|e]; simpl in Hs, He; [| |form_event..].
  - simplify_eq/=. auto.
  - simplify_eq. case_bool_decide; [auto|by eapply app_load_reachable].
Qed.

Lemma app_page_reachable_witness :
  page_reachable (GeneratorPage ImageGenerator.ImageGenerator.init).
Proof.
  apply (app_page_reachable (Str.lit "/image-generator") (load (Str.lit "/image-generator")));
    [constructor|reflexivity].
Defined.

(** Every link of the header, in the wide layout and in the menu,
    leads to a route, and the links of a list have distinct keys. *)
Lemma app_links_routed b :
  let v := Navigation.render b in
  Forall (fun h => is_Some (route h)) (Navigation.hrefs v) /\
  NoDup (fst <$> Navigation.view_desktop v) /\
  NoDup (fst <$> default [] (Navigation.view_mobile v)).
Proof.
  assert (Hkeys : NoDup (fst <$> (Navigation.anchor <$> Navigation.navLinks))).
  { compute_done. }
  destruct b; simpl; (split_and!; [|done|first [done|constructor]]);
    repeat constructor; by eexists.
Qed.

(** Following a link of the header loads the document anew: the page
    of the link's route is at its first render and the menu is closed,
    whatever the form that was mounted had on its page. *)
Lemma app_follow_forgets c link :
  up c = true -> link ∈ Navigation.navLinks ->
  exists element,
    enabled (Follow (Navigation.href link)) c = true /\
    step (Follow (Navigation.href link)) c =
      Some (mkConfig (Navigation.href link) false (Some (mount element))).
Proof.
  intros Hup Hl. unfold enabled. rewrite Hup.
  assert (Hh : Navigation.href link ∈ anchors c /\ Navigation.href link <> Str.lit "#" /\
               exists element, route (Navigation.href link) = Some element).
  { unfold anchors. repeat (apply elem_of_cons in Hl as [->|Hl]);
      [..|by apply elem_of_nil in Hl];
      (split_and!; [|done|by eexists]); destruct (isMenuOpen c);
      apply elem_of_app; left; compute_done. }
  destruct Hh as (Hin & Hne & element & Hr). exists element. cbn [step andb].
  rewrite bool_decide_true, bool_decide_false by done. split; [done|].
  unfold load. by rewrite Hr.
Qed.

Lemma app_follow_forgets_witness :
  exists element,
    enabled (Follow (Str.lit "/pdf-to-image")) (load (Str.lit "/image-generator")) = true /\
    step (Follow (Str.lit "/pdf-to-image")) (load (Str.lit "/image-generator")) =
      Some (mkConfig (Str.lit "/pdf-to-image") false (Some (mount element))).
Proof.
  apply (app_follow_forgets (load (Str.lit "/image-generator"))
           (Navigation.mkLink (Str.lit "/pdf-to-image") (Str.lit "PDF to Image")));
    [reflexivity|right; left].
Defined.

(** The links of the footer leave the page as it is. *)
Lemma app_footer_stays c link :
  link ∈ Footer.links -> step (Follow (Navigation.href link)) c = Some c.
Proof.
  intros Hl. repeat (apply elem_of_cons in Hl as [->|Hl]); [done..|by apply elem_of_nil in Hl].
Qed.

(** Two clicks on the menu button leave the header as it was. *)
Lemma nav_click_twice b : Navigation.onClick (Navigation.onClick b) = b.
Proof. apply negb_involutive. Qed.

(** The menu lists its links exactly while the flag is set. *)
Lemma nav_menu_open b :
  Navigation.view_mobile (Navigation.render b) =
  if b then Some (Navigation.view_desktop (Navigation.render b)) else None.
Proof. by destruct b. Qed.

Lemma app_play_reachable path es c c' :
  reachable path c -> play es c = Some c' -> reachable path c'.
Proof.
  revert c; induction es as [|e es IH]; intros c Hc Hp; simplify_eq/=; [done|].
  destruct (enabled e c) eqn:He, (step e c) as [c1|] eqn:Hs; simplify_eq/=.
  eapply IH; [|done]. by eapply reachable_step.
Qed.

(** A run of the PDF form is a run of the application that has it
    mounted. *)
Lemma app_lift_pdf es p p' c :
  page c = Some (PdfToImagePage p) ->
  PdfToImage.PdfToImageConverter.play es p = Some p' ->
  play (OnPdfToImage <$> es) c = Some (with_page (PdfToImagePage p') c).
Proof.
  revert p c; induction es as [|e es IH]; intros p c Hp Hes; simplify_eq/=.
  { destruct c; simpl in *; by subst. }
  unfold enabled, up, step. rewrite Hp.
  destruct (_ && _); [|done].
  destruct (PdfToImage.PdfToImageConverter.step e p) as [p1|]; simplify_eq/=.
  by rewrite (IH p1 (with_page (PdfToImagePage p1) c)).
Qed.

(** The run that takes the PDF form down: a conversion, then the file
    input emptied. *)
Definition crash : list PdfToImage.PdfToImageConverter.Event :=
  converted ++ [PdfToImage.PdfToImageConverter.FileChange []].

(** A render of the PDF form that throws takes the application down
    with it: a visitor of the form's page can bring the application, by
    events of the form alone, to where no event is admitted any more,
    neither of the form, nor of the header, nor of the footer. *)
Lemma app_crash_blank :
  exists c, reachable (Str.lit "/pdf-to-image") c /\ forall e, enabled e c = false.
Proof.
  destruct (PdfToImage.PdfToImageConverter.play crash PdfToImage.PdfToImageConverter.init)
    as [p|] eqn:Hp; [|by vm_compute in Hp].
  exists (with_page (PdfToImagePage p) (load (Str.lit "/pdf-to-image"))). split.
  - eapply app_play_reachable; [apply reachable_load|].
    by apply (app_lift_pdf crash PdfToImage.PdfToImageConverter.init).
  - intros e. unfold enabled, up. cbn [page with_page].
    assert (PdfToImage.PdfToImageConverter.alive p = false) as ->; [|done].
    vm_compute in Hp. by injection Hp as <-.
Qed.

End shell.
