(* ===== verification/ImageGeneratorSession.v ===== *)
(** * The image generator form as a conversion session

    The phase of the form is read off what its page shows; the prompt is
    the staged input.  The form departs from the design where the prompt is
    edited under a result (the image or the message stays, where the
    session would be staged anew with its outputs discarded) and where a
    staged prompt is blanked (the form is idle again, where the session
    would have failed for want of a valid input).  Everywhere else it moves
    as the session does. *)

From stdpp Require Import base tactics option list strings.
From Stdlib Require Import Lia.
From S2P Require Import Prelude Js Remote Flight Session Json.
From S2P Require Import ImageGenerator ImageGeneratorInv ImageGeneratorProps.
Import ImageGenerator.

Definition ig_phase (c : Config) : Session.Phase :=
  Session.display (if isLoading (state c) then Some Session.Submitting else None)
    (holds (imageUrl (state c))) (holds (error (state c)))
    (Str.truthy (Str.trim (prompt (state c)))).

(** The answer of the service needs no decoding: the event that delivers
    it stands for the remote success and the decoding at once. *)
Definition ig_labels (e : Event) (c : Config) : list Session.Label :=
  match e with
  | PromptChange value =>
      if Str.truthy (Str.trim value) then [Session.SelectInputs true] else []
  | Submit => [Session.Submit]
  | FetchSettled _ (Fulfilled _) => []
  | JsonSettled _ (Fulfilled result) =>
      match generatedImageUrl result with
      | Fulfilled _ => [Session.RemoteSuccess; Session.DecodeSuccess]
      | Rejected _ => [Session.RemoteFailure]
      end
  | FetchSettled _ (Rejected _) | JsonSettled _ (Rejected _) | ErrorJsonSettled _ _ =>
      [Session.RemoteFailure]
  end.

Definition ig_departs (e : Event) (c : Config) : bool :=
  match e with
  | PromptChange value =>
      match ig_phase c with
      | Session.Ready | Session.Failed => true
      | Session.Staged => negb (Str.truthy (Str.trim value))
      | _ => false
      end
  | _ => false
  end.

#[export] Instance ig_form : Form Config Event :=
  {| form_init := init;
     form_enabled := enabled;
     form_step := step;
     form_phase := ig_phase;
     form_labels := ig_labels;
     form_departs := ig_departs |}.

(** A visit that goes through every phase the form has: an image, then a
    second submission that fails. *)
Definition ig_visit : list Event :=
  ig_generated ++ [Submit; FetchSettled 1 (Rejected (Exn.ErrorObj (Str.lit "Failed to fetch")))].

Section ig_session.
Implicit Types (c : Config) (e : Event) (t : nat) (k : Task).

Lemma ig_phase_loading c : isLoading (state c) = true -> ig_phase c = Session.Submitting.
Proof. unfold ig_phase, Session.display. by intros ->. Qed.

(** A suspended call that moves on leaves the phase as it is. *)
Lemma ig_phase_setTask t k c : ig_phase (setTask t k c) = ig_phase c.
Proof. done. Qed.

(** The [catch] clause ends a submission in [Failed]. *)
Lemma ig_phase_catch c t k err :
  Inv c -> tasks c !! t = Some k -> active k = true ->
  ig_phase c = Session.Submitting /\
  ig_phase (setTask t Finished (catchFinally err c)) = Session.Failed.
Proof.
  intros HI Ht Hk. pose proof (ig_Inv_active_loading _ _ _ HI Ht Hk) as Hl.
  destruct (inv_loading _ HI Hl) as (Hi & _). split; [by apply ig_phase_loading|].
  unfold ig_phase, Session.display, catchFinally. ig_cfg. by rewrite Hi.
Qed.

(** A stored image ends it in [Ready]. *)
Lemma ig_phase_image c t b :
  ig_phase (setTask t Finished
              (render_with (setIsLoading false (setImageUrl (Some (dataPrefix ++ b)) (state c))) c))
  = Session.Ready.
Proof. done. Qed.

Lemma ig_simulates_step e c c' :
  Inv c -> enabled e c = true -> step e c = Some c' -> ig_departs e c = false ->
  Session.accepts (ig_labels e c) (ig_phase c) = Some (ig_phase c').
Proof.
  intros HI He Hs Hd. destruct e as [value| |t r|t r|t r]; cbn [step] in Hs.
  - injection Hs as <-. simpl in He, Hd. apply negb_true_iff in He.
    unfold ig_phase, Session.display in *. ig_cfg. rewrite He in *. simpl.
    destruct (holds (imageUrl (state c))); [done|].
    destruct (holds (error (state c))); [done|].
    by destruct (Str.truthy (Str.trim value)), (Str.truthy (Str.trim (prompt (state c)))).
  - injection Hs as <-. simpl in He.
    apply negb_true_iff, orb_false_iff in He as [Hl Hp%negb_false_iff].
    unfold handleGenerateImage. rewrite Hp. unfold ig_phase, Session.display. ig_cfg. rewrite Hl, Hp.
    by destruct (holds (imageUrl (state c))), (holds (error (state c))).
  - destruct (tasks c !! t) as [[]|] eqn:Ht; try done. injection Hs as <-.
    destruct r as [[[]]|err]; simpl;
      [by rewrite !ig_phase_setTask, ig_phase_loading by eauto using ig_Inv_active_loading..|].
    by destruct (ig_phase_catch c t AwaitFetch err HI Ht eq_refl) as [-> ->].
  - destruct (tasks c !! t) as [[]|] eqn:Ht; try done. injection Hs as <-.
    destruct r as [errorData|err]; simpl.
    + by destruct (ig_phase_catch c t AwaitErrorJson (apiError errorData) HI Ht eq_refl)
        as [-> ->].
    + by destruct (ig_phase_catch c t AwaitErrorJson err HI Ht eq_refl) as [-> ->].
  - destruct (tasks c !! t) as [[]|] eqn:Ht; try done. injection Hs as <-.
    unfold onJson. destruct r as [result|err]; cbn [mbind outcome_bind ig_labels].
    + destruct (generatedImageUrl result) as [u|err] eqn:Hg.
      * apply ig_generatedImageUrl_prefix in Hg as [b ->]. rewrite ig_phase_image.
        by rewrite ig_phase_loading by eauto using ig_Inv_active_loading.
      * by destruct (ig_phase_catch c t AwaitJson err HI Ht eq_refl) as [-> ->].
    + by destruct (ig_phase_catch c t AwaitJson err HI Ht eq_refl) as [-> ->].
Qed.

Lemma ig_simulates : simulates Inv.
Proof.
  split; [apply ig_Inv_init|]. intros e c c' HI He Hs.
  split; [by eapply ig_Inv_step|]. by apply ig_simulates_step.
Qed.

(** C7. The form implements the conversion session: along a run from the
    first render in which the prompt is not edited under a result and a
    staged prompt is not blanked, the events of the page, read as labels of
    the session, are a run of the session from [Idle], and the phase the
    page shows is the phase the session is in. *)
Theorem ig_session_refinement es c ls :
  conforming es init = Some (c, ls) ->
  Session.accepts ls Session.Idle = Some (ig_phase c).
Proof.
  intros Hes. by destruct (conforming_accepts Inv es init c ls ig_simulates ig_Inv_init Hes).
Qed.

Lemma ig_session_refinement_witness :
  Session.accepts
    [Session.SelectInputs true; Session.Submit; Session.RemoteSuccess; Session.DecodeSuccess;
     Session.Submit; Session.RemoteFailure] Session.Idle
  = Some Session.Failed.
Proof.
  apply (ig_session_refinement ig_visit
           (default init (play ig_visit init))
           [Session.SelectInputs true; Session.Submit; Session.RemoteSuccess;
            Session.DecodeSuccess; Session.Submit; Session.RemoteFailure]).
  reflexivity.
Defined.

(** C37. Where the form departs from the session: a prompt edited under
    the image leaves the image on the page, with the new prompt as its text
    and in the name of its download; the session would have discarded the
    image. *)
Theorem ig_edit_keeps_image c u p value :
  reachable c -> view_image (render (state c)) = Some (u, p) ->
  exists c', enabled (PromptChange value) c = true /\
    step (PromptChange value) c = Some c' /\
    reachable c' /\
    ig_phase c = Session.Ready /\
    ig_phase c' = Session.Ready /\
    Session.transition (Session.SelectInputs true) (ig_phase c) = Some Session.Staged /\
    view_image (render (state c')) = Some (u, value) /\
    view_download (render (state c')) =
      Some (u, getDownloadFileName (setPrompt value (state c))).
Proof.
  intros Hc Hv. exists (render_with (setPrompt value (state c)) c).
  unfold render in Hv. simpl in Hv.
  destruct (isLoading (state c)) eqn:Hl; [done|].
  destruct (holds (error (state c))) eqn:He; [done|].
  destruct (holds (imageUrl (state c))) eqn:Hi; [|done].
  destruct (imageUrl (state c)) as [u'|] eqn:Hu; simplify_eq/=.
  rewrite Hl. split_and!; try done;
    [by apply (reachable_step (PromptChange value) c); [|simpl; rewrite Hl|]|..];
    unfold ig_phase, Session.display, render; ig_cfg; simpl;
    by rewrite ?Hl, ?He, ?Hu; simpl; rewrite ?Hi.
Qed.

Lemma ig_edit_keeps_image_witness :
  exists c', enabled (PromptChange (Str.lit "a cat")) (ig_after ig_generated) = true /\
    step (PromptChange (Str.lit "a cat")) (ig_after ig_generated) = Some c' /\
    reachable c' /\
    ig_phase (ig_after ig_generated) = Session.Ready /\
    ig_phase c' = Session.Ready /\
    Session.transition (Session.SelectInputs true) (ig_phase (ig_after ig_generated))
      = Some Session.Staged /\
    view_image (render (state c')) =
      Some (dataPrefix ++ Str.lit "iVBORw0KGgo=", Str.lit "a cat") /\
    view_download (render (state c')) =
      Some (dataPrefix ++ Str.lit "iVBORw0KGgo=", Str.lit "a-cat.png").
Proof.
  apply (ig_edit_keeps_image (ig_after ig_generated) (dataPrefix ++ Str.lit "iVBORw0KGgo=") lion
           (Str.lit "a cat")); [apply ig_after_reachable|reflexivity].
Defined.

End ig_session.
