(* ===== verification/AppSession.v ===== *)
(** * The application as a conversion session

    Inside the application a form is the session it is on its own
    (Session.v), and the application adds the one transition no form has:
    following a link of the header loads the document anew, which is the
    session's reset.  The design allows a reset from [Ready] and from
    [Failed]; a link can be followed at any time, so the application
    departs from the design where a link is followed with an input staged
    or a submission in flight, whose request is abandoned.

    The theorem is proved against the interface of Session.v: each form
    enters through its [Form] instance and its simulation, carried into the
    application by [simulates_embedded]. *)

From stdpp Require Import base tactics option list strings.
From S2P Require Import Prelude Js Session.
From S2P Require Import PdfToImage PdfToImageInv PdfToImageProps PdfToImageSession.
From S2P Require Import ImageToPdf ImageToPdfInv ImageToPdfProps ImageToPdfSession.
From S2P Require Import ImageGenerator ImageGeneratorInv ImageGeneratorProps.
From S2P Require Import ImageGeneratorSession Shell ShellProps.
Import App.

(** The phase of the page that is mounted; a page that is not a form, and
    an address without a route, have no session to speak of. *)
Definition page_phase (m : Mounted) : Session.Phase :=
  match m with
  | HomePage => Session.Idle
  | ImageToPdfPage p => i2p_phase p
  | PdfToImagePage p => p2i_phase p
  | GeneratorPage p => ig_phase p
  end.

Definition app_phase (c : Config) : Session.Phase :=
  from_option page_phase Session.Idle (page c).

(** A link of the footer stays on the page; any other link resets the
    session, unless there is nothing to reset. *)
Definition resets (href : jsstring) (c : Config) : bool :=
  negb (bool_decide (href = Str.lit "#")) && negb (bool_decide (app_phase c = Session.Idle)).

Definition app_labels (e : Event) (c : Config) : list Session.Label :=
  match e, page c with
  | Follow href, _ => if resets href c then [Session.Reset] else []
  | OnImageToPdf e, Some (ImageToPdfPage p) => i2p_labels e p
  | OnPdfToImage e, Some (PdfToImagePage p) => p2i_labels e p
  | OnGenerator e, Some (GeneratorPage p) => ig_labels e p
  | _, _ => []
  end.

(** Where the application departs from the design: where the mounted form
    does, and where a link is followed that resets a session the design
    would not reset. *)
Definition app_departs (e : Event) (c : Config) : bool :=
  match e, page c with
  | Follow href, _ =>
      resets href c && negb (bool_decide (app_phase c ∈ [Session.Ready; Session.Failed]))
  | OnImageToPdf e, Some (ImageToPdfPage p) => i2p_departs e p
  | OnPdfToImage e, Some (PdfToImagePage p) => p2i_departs e p
  | OnGenerator e, Some (GeneratorPage p) => ig_departs e p
  | _, _ => false
  end.

(** The application in the document loaded at [path]. *)
Definition app_form (path : jsstring) : Form Config Event :=
  {| form_init := load path;
     form_enabled := enabled;
     form_step := step;
     form_phase := app_phase;
     form_labels := app_labels;
     form_departs := app_departs |}.

(** The invariant of the form that is mounted. *)
Definition app_Inv (c : Config) : Prop :=
  match page c with
  | Some (ImageToPdfPage p) => ImageToPdfInv.Inv p
  | Some (PdfToImagePage p) => PdfToImageInv.Inv p
  | Some (GeneratorPage p) => ImageGeneratorInv.Inv p
  | _ => True
  end.

(** A visit: the generator is opened from the home page, an image is
    generated, a second submission fails, and the visitor goes on to the
    PDF form. *)
Definition app_visit : list Event :=
  Follow (Str.lit "/image-generator") :: (OnGenerator <$> ig_visit)
  ++ [Follow (Str.lit "/pdf-to-image")].

Section app_session.
Context (path : jsstring).
Implicit Types (c : Config) (e : Event) (href : jsstring).

Lemma app_embeds_i2p c :
  embeds i2p_form (app_form path)
    (fun p => with_page (ImageToPdfPage p) c) OnImageToPdf.
Proof. by split. Qed.

Lemma app_embeds_p2i c :
  embeds p2i_form (app_form path)
    (fun p => with_page (PdfToImagePage p) c) OnPdfToImage.
Proof. by split. Qed.

Lemma app_embeds_ig c :
  embeds ig_form (app_form path)
    (fun p => with_page (GeneratorPage p) c) OnGenerator.
Proof. by split. Qed.

(** A document just loaded is idle, with the mounted form at its first
    render. *)
Lemma app_load_idle href : app_phase (load href) = Session.Idle /\ app_Inv (load href).
Proof.
  unfold app_phase, app_Inv, load. cbn [page]. destruct (route href) as [[]|]; simpl;
    split; try done; auto using i2p_Inv_init, Inv_init, ig_Inv_init.
Qed.

Lemma with_page_eta c m : page c = Some m -> with_page m c = c.
Proof. destruct c. simpl. by intros ->. Qed.

Lemma app_simulates : @simulates _ _ (app_form path) app_Inv.
Proof.
  split; [apply app_load_idle|]. intros e c c' HI He Hs.
  destruct e as [|href|e|e|e]; cbn [form_step app_form step] in Hs.
  - injection Hs as <-. by split.
  - injection Hs as <-. cbn [form_departs form_labels form_phase app_form app_departs app_labels].
    unfold resets. case_bool_decide; [by split|]. destruct (app_load_idle href) as [-> HI'].
    split; [done|]. cbn [negb andb].
    case_bool_decide as Hidle; [by rewrite Hidle|]. cbn [negb andb].
    case_bool_decide as Hr; [|done]. intros _.
    by repeat (apply elem_of_cons in Hr as [->|Hr]; [done|]); apply elem_of_nil in Hr.
  - destruct (page c) as [[]|] eqn:Hp; try done. rewrite <- (with_page_eta c _ Hp) in *.
    destruct (simulates_embedded _ _ _ _ ImageToPdfInv.Inv e _ c' (app_embeds_i2p c)
                i2p_simulates HI He Hs) as (p' & -> & HI' & Hacc). by split.
  - destruct (page c) as [[]|] eqn:Hp; try done. rewrite <- (with_page_eta c _ Hp) in *.
    destruct (simulates_embedded _ _ _ _ PdfToImageInv.Inv e _ c' (app_embeds_p2i c)
                p2i_simulates HI He Hs) as (p' & -> & HI' & Hacc). by split.
  - destruct (page c) as [[]|] eqn:Hp; try done. rewrite <- (with_page_eta c _ Hp) in *.
    destruct (simulates_embedded _ _ _ _ ImageGeneratorInv.Inv e _ c' (app_embeds_ig c)
                ig_simulates HI He Hs) as (p' & -> & HI' & Hacc). by split.
Qed.

(** C8. The application implements the conversion session, with a link
    followed as the reset: along a run from the document loaded at any
    address in which no form departs from the design and no link is
    followed with an input staged or a submission in flight, the events of
    the application, read as labels of the session, are a run of the session
    from [Idle], and the phase of the mounted page is the phase the session
    is in. *)
Theorem app_session_refinement es c ls :
  @conforming _ _ (app_form path) es (load path) = Some (c, ls) ->
  Session.accepts ls Session.Idle = Some (app_phase c).
Proof.
  intros Hes. destruct (app_load_idle path) as [Hidle HI].
  destruct (@conforming_accepts _ _ (app_form path) app_Inv es (load path) c ls
              app_simulates HI Hes) as [_ Hacc].
  cbn [form_phase app_form] in Hacc. by rewrite Hidle in Hacc.
Qed.

End app_session.

(** A link followed with a request in flight: the application lets it
    happen, the design has no such reset, and the document that loads
    knows nothing of the request. *)
Lemma app_follow_abandons :
  let c := default (load (Str.lit "/image-generator"))
             (play (OnGenerator <$> ig_submitted) (load (Str.lit "/image-generator"))) in
  app_phase c = Session.Submitting /\
  enabled (Follow (Str.lit "/pdf-to-image")) c = true /\
  app_departs (Follow (Str.lit "/pdf-to-image")) c = true /\
  step (Follow (Str.lit "/pdf-to-image")) c = Some (load (Str.lit "/pdf-to-image")).
Proof. by vm_compute. Qed.

Lemma app_session_refinement_witness :
  Session.accepts
    [Session.SelectInputs true; Session.Submit; Session.RemoteSuccess; Session.DecodeSuccess;
     Session.Submit; Session.RemoteFailure; Session.Reset] Session.Idle
  = Some Session.Idle.
Proof.
  apply (app_session_refinement (Str.lit "/") app_visit
           (load (Str.lit "/pdf-to-image"))
           [Session.SelectInputs true; Session.Submit; Session.RemoteSuccess;
            Session.DecodeSuccess; Session.Submit; Session.RemoteFailure; Session.Reset]).
  by vm_compute.
Defined.
